(* ===== verification/_CoqProject ===== *)
-Q . S2P
Prelude.v
Words.v
ShadowMapping.v
Memory.v
RingBuffer.v
CompactRing.v
Poisoning.v
ShadowWrites.v
Containers.v
ContainerSpecs.v
ContainerVerify.v
DoubleEnded.v
SizeClassMap.v
IntrusiveList.v
Quarantine.v
QuarantineSpecs.v
Strings.v
StringSpecs.v
Sorting.v
Leb128.v
Lzw.v
StackStore.v
StackStoreSpecs.v
BitVector.v
TwoLevel.v
TwoLevelSpecs.v
TwoLevelContract.v
BVGraph.v
BVGraphSpecs.v
DeadlockDetector.v
DeadlockSpecs.v
DeadlockSystem.v
DeadlockRuntime.v
DeadlockRuntimeSpecs.v
DeadlockHooks.v
Mutex.v
MutexSpecs.v
MutexProgress.v
CheckedMutex.v
CheckedMutexSpecs.v
Ranges.v
Lsan.v
LsanScan.v
LsanRoots.v
LsanSpecs.v
LsanAllocator.v
LsanCheck.v
LeakReport.v
HeapAllocator.v
LargeMmap.v
LargeMmapSpecs.v
CombinedAllocator.v
PackedCounters.v
ReleaseToOS.v
Primary64.v
Primary64Specs.v
Primary64Contract.v
HeapRuns.v
