(* ===== verification/Prelude.v ===== *)
(** * Verification library for the TASan runtime

    TASan is a fork of the LLVM sanitizer runtimes (src/src: [asan],
    [sanitizer_common], [lsan], [ubsan], [interception]).  Instrumented code
    asks the runtime whether an address may be accessed; the runtime answers
    from a shadow memory that the allocator, the stack and the container
    annotations keep up to date.  This library models the parts of the runtime
    that carry its logic as Rocq functions and proves what they promise.

    ** Conventions

    - A function of the source is a definition of the same name.  A function
      that may end the process returns [result]: a value, or the way it died
      (a failed CHECK, a report, an access outside its objects).  State is
      passed explicitly.
    - [uptr] and [u64] values are integers with the wrap-around written out
      ([wrap], [+w], [-w], [to_u32], ...); signed values likewise.
    - A loop whose number of turns is known on entry is structural.  Any other
      loop has fuel; the bound is a definition next to it ([drain_fuel],
      [reach_fuel], [alloc_fuel], ...) and the theorems state that the function
      returns with it, so running out of fuel is excluded, not assumed.
    - What is not code of the repository (the operating system's mmap, the
      page size, the stack unwinder, the caller's callbacks, what fresh memory
      contains) is a parameter.

    ** Parts

    Shadow memory (asan).  [ShadowMapping] has the layout of the address space
    (asan_mapping.h and the start-up checks of asan_rtl.cpp) for every layout
    in the class [WfMapping], the Linux x86-64 ones among them: the regions
    partition the address space and [MemToShadow] is inverted by
    [ShadowToMem].  [Memory] has the byte memory and the memory routines of
    sanitizer_libc.cpp.  [Poisoning] has asan_poisoning.cpp and
    asan_poisoning.h over that memory: poisoning and unpoisoning a region
    changes the addressability of exactly its bytes, and the region query is
    right up to the granule its fast path overlooks, which is proved to be a
    divergence from its documentation.  [ShadowWrites] adds the functions the
    allocator and the stack use.  [Containers] has the container annotations;
    [ContainerSpecs], [ContainerVerify] and [DoubleEnded] prove that they keep
    the shadow in step with a container of any alignment and that the verifier
    finds every discrepancy in the bytes it inspects.

    Data structures (sanitizer_common).  [Words]: bit scans and rounding
    (sanitizer_common.h).  [RingBuffer], [CompactRing]: sanitizer_ring_buffer.h.
    [IntrusiveList]: sanitizer_list.h over any heap of items with a next
    field (class [IntrusiveHeap]), refining finite sequences.  [Sorting]:
    Sort, InternalLowerBound and SortAndDedup for any strict weak order.
    [Strings] and [StringSpecs]: the string functions of sanitizer_libc.cpp.
    [Leb128] and [Lzw]: the two codes, with their round trips.
    [SizeClassMap]: sanitizer_allocator_size_class_map.h for all parameters.

    Quarantine (sanitizer_quarantine.h).  [Quarantine] has batches, caches and
    the global quarantine over a heap of batches, the callbacks of the
    allocator as events of a log; it is the client of [IntrusiveList].
    [QuarantineSpecs] proves that chunks leave in the order they came, each
    exactly once, within the size limits.

    Stack store (sanitizer_stack_store.cpp).  [StackStore] models storing,
    packing and loading of stack traces, with Store split where other threads
    may come in between; it is the client of [Leb128] and [Lzw].
    [StackStoreSpecs] proves that under any interleaving the id of a completed
    store loads its trace, compressed or not, and exhibits an access past the
    end of the block array.

    Deadlock detector.  [BitVector] is an interface (class [BitVector]) with a
    contract (class [BitVectorSpec]): vectors are finite sets and the flags
    say whether the set changed.  [BitVector] proves it for BasicBitVector,
    [TwoLevel], [TwoLevelSpecs] and [TwoLevelContract] for TwoLevelBitVector
    over any vector that meets it, iterators included (class
    [BVIteratorSpec]).  [BVGraph] (sanitizer_bvgraph.h) and
    [DeadlockDetector] (sanitizer_deadlock_detector.h) are written against
    the interface, and their theorems use the contract only.  [BVGraphSpecs]:
    graphs refine relations, isReachable decides reachability within
    [reach_fuel] turns, findShortestPath is exact.  [DeadlockSpecs] has the
    invariants and the effect of each operation; [DeadlockSystem] the
    transition system of threads and locks: no legal event dies, silence means
    an acyclic lock graph, and onLock answers true exactly when it closes a
    cycle.  [DeadlockRuntime] has the mutex hooks of
    sanitizer_deadlock_detector1.cpp, which drive it.  [DeadlockRuntimeSpecs]
    has the invariant that ties nodes to the user's mutexes and
    [DeadlockHooks] proves that runs of the hooks, by any threads in any
    order, never die and that a report names the mutexes of a real cycle, in
    order.

    Mutexes (sanitizer_mutex.h, sanitizer_mutex.cpp).  [Mutex] has the
    reader-writer mutex and its semaphores as threads interleaved at single
    memory operations; [MutexSpecs] the invariant of the state word;
    [MutexProgress] mutual exclusion and that, while the mutex is free and
    wanted, some thread can get it without luck.  [CheckedMutex] has the
    hierarchy check: [CheckedMutexSpecs] proves that a table is accepted only
    if "can be locked under" has no cycle, that Lock enforces it, and that
    threads that pass the check cannot wait for each other in a circle.

    Allocators (sanitizer_common).  [HeapAllocator] has the interfaces: what
    ASan and LeakSanitizer ask of the allocator below them (classes
    [HeapAllocator] and [HeapAllocatorSpec]) and what the combined allocator
    asks of the one with size classes ([PrimaryAllocator],
    [PrimaryAllocatorSpec]).  [LargeMmap] is sanitizer_allocator_secondary.h
    and [LargeMmapSpecs] its contract and the agreement of its two searches.
    [Primary64] is sanitizer_allocator_primary64.h with the thread caches of
    sanitizer_allocator_local_cache.h; [PackedCounters] and [ReleaseToOS] are
    its counters and the release of free pages, proved to give back exactly
    the pages without a chunk in use; [Primary64Specs] has the invariant of
    the regions and the steps that leave the chunks in use alone, and
    [Primary64Contract] the caches and the contract.  [CombinedAllocator]
    (sanitizer_allocator_combined.h) composes any two of them, and [HeapRuns]
    concludes for programs of any threads that blocks never overlap and keep
    their bytes.

    Leak checker (lsan).  [Ranges]: Intersect of sanitizer_range.cpp.  [Lsan]:
    the check of lsan_common.cpp while the world is stopped, against three
    interfaces: the tool LeakSanitizer is linked into ([LsanTool]), its
    allocator ([LsanAllocator]) and the stopped process ([World]).
    [LsanScan], [LsanRoots] and [LsanSpecs] prove what a scan, the roots and
    the flood fill mark; [LsanAllocator] discharges the allocator's interface
    with lsan_allocator.cpp over any block allocator; [LsanCheck] concludes
    that the chunks collected are exactly the unreachable ones.  [LeakReport]
    has the report, its suppressions and the repeated checks.

    ** Bounds

    Container storage is at most 2^40 bytes, as the source checks.  Deadlock
    detector vectors have at most 2^16 indices, the width of the fields of
    Edge (the runtime uses 4096).  [DeadlockSystem] asks that the epoch
    counter does not wrap.  Examples run on graphs of eight nodes.  [Mutex]
    has fewer than 2^20 threads, what the counters of its word can hold;
    [CheckedMutex] fewer than 2^64 acquisitions.  Scanned ranges end at least
    16 bytes below 2^64.  A region of the primary allocator is a power of two
    between 2^21 and 2^36 bytes (kRegionSize of the source is at most 2^36),
    and [HeapAllocatorSpec] promises an allocation only while less than half
    of each region is mapped: beyond that the free array of 16-byte chunks
    can outgrow its eighth of the region, which the source checks and dies of.  [scan_fuel] is one turn per byte of a range,
    [flood_fuel] one per chunk not yet marked and per chunk on the frontier
    (a chunk is pushed at most once), and [check_rounds] the eight reruns
    that the source allows.

    ** Not modelled

    The ASan allocator, the 32-bit primary allocator, the fake stack, the thread registry, the flag parser, the
    hash tables and printf are planned and not yet here.  Of LeakSanitizer,
    the parts that stop the threads and read their registers, the malloc entry
    points, the text of the report and the hook __lsan_is_turned_off are
    system calls and glue and are left out.  Interceptors, reports, the symbolizer, coverage, and
    the operating system layer are glue, text or system calls, and are left
    out.  Within the modelled files: locks (a critical section is one step),
    profiling counters, prefetches, statistics that are only printed, Print
    and VPrintf functions, and DCHECKs, which a release build does not
    compile. *)

From stdpp Require Export base tactics numbers list option gmap strings relations.
From Stdlib Require Export ZArith Lia.

#[global] Open Scope Z_scope.

(** ** Outcomes

    A runtime function either returns or ends the process.  [CheckFailed] is a
    failed [CHECK], [CHECK_LT], [RAW_CHECK]...; [Unreachable] the [UNREACHABLE]
    macro; [Reported] a fatal report function; [BadAccess] a dereference the
    C++ program may not make (null or out of the modelled object);
    [OutOfFuel] never happens on a run of the program: it is what a loop
    definition returns when its fuel was too small, and every fuelled
    definition comes with a theorem that excludes it. *)

Inductive death : Type :=
| CheckFailed
| Unreachable
| Reported (what : string)
| BadAccess
| OutOfFuel.

Inductive result (A : Type) : Type :=
| Ok (a : A)
| Die (d : death).
Arguments Ok {A} a.
Arguments Die {A} d.

#[global] Instance death_eq_dec : EqDecision death.
Proof. solve_decision. Defined.
#[global] Instance result_eq_dec {A} `{EqDecision A} : EqDecision (result A).
Proof. solve_decision. Defined.

#[global] Instance result_ret : MRet result := fun A a => Ok a.
#[global] Instance result_bind : MBind result := fun A B f m =>
  match m with Ok a => f a | Die d => Die d end.
#[global] Instance result_fmap : FMap result := fun A B f m =>
  match m with Ok a => Ok (f a) | Die d => Die d end.

(** [CHECK(b)] *)
Definition check (b : bool) : result unit := if b then Ok tt else Die CheckFailed.

(** Reading a cell that the program must own. *)
Definition get_or_die {A} (o : option A) : result A :=
  match o with Some a => Ok a | None => Die BadAccess end.

Definition is_ok {A} (m : result A) : bool :=
  match m with Ok _ => true | Die _ => false end.

Lemma bind_Ok {A B} (f : A -> result B) (m : result A) (b : B) :
  m ≫= f = Ok b -> exists a, m = Ok a /\ f a = Ok b.
Proof. destruct m; [eauto | discriminate]. Qed.

Lemma Ok_bind {A B} (f : A -> result B) (a : A) : Ok a ≫= f = f a.
Proof. done. Qed.

Lemma check_Ok (b : bool) (u : unit) : check b = Ok u -> b = true.
Proof. destruct b; [done | discriminate]. Qed.

Lemma check_true (b : bool) : b = true -> check b = Ok tt.
Proof. by intros ->. Qed.

Lemma get_or_die_Ok {A} (o : option A) (a : A) : get_or_die o = Ok a -> o = Some a.
Proof. destruct o; simpl; congruence. Qed.

(** [for (x : l) s = f(s, x);] *)
Fixpoint for_each {A S} (f : S -> A -> result S) (s : S) (l : list A) : result S :=
  match l with
  | [] => Ok s
  | x :: l' => s ← f s x; for_each f s l'
  end.

(** The loop rule: an invariant on the elements done so far. *)
Lemma for_each_spec {A S} (f : S -> A -> result S) (P : list A -> S -> Prop) (l : list A) (s : S) :
  P [] s ->
  (forall done x rest s, l = done ++ x :: rest -> P done s -> exists s', f s x = Ok s' /\ P (done ++ [x]) s') ->
  exists s', for_each f s l = Ok s' /\ P l s'.
Proof.
  intros Hs Hf.
  assert (Hgen : forall rest done s, l = done ++ rest -> P done s ->
    exists s', for_each f s rest = Ok s' /\ P l s').
  { induction rest as [| x rest IH]; intros d s0 Hl H0; cbn [for_each].
    - exists s0. split; [done |]. by rewrite Hl, app_nil_r.
    - destruct (Hf d x rest s0 Hl H0) as (s1 & -> & H1). cbn [mbind result_bind].
      apply (IH (d ++ [x])); [by rewrite Hl, <- app_assoc | done]. }
  by apply (Hgen l []).
Qed.

(** [inv_ok] opens every [m ≫= f = Ok b] of the context. *)
Ltac inv_ok :=
  repeat match goal with
  | H : (_ ≫= _) = Ok _ |- _ =>
      let a := fresh "r" in let H1 := fresh "Hr" in let H2 := fresh "Hk" in
      apply bind_Ok in H as (a & H1 & H2)
  | H : check _ = Ok ?u |- _ => apply check_Ok in H; try clear u
  | H : get_or_die _ = Ok _ |- _ => apply get_or_die_Ok in H
  | H : Ok _ = Ok _ |- _ => injection H as H; try subst
  | H : Die _ = Ok _ |- _ => discriminate H
  end.

(** [step] runs the binds whose first computation has returned. *)
Ltac step := cbn [mbind result_bind mret result_ret fmap result_fmap get_or_die check].

(** [zb] turns the boolean comparisons of the context into propositions. *)
Ltac zb := repeat match goal with
  | H : (_ <? _) = true |- _ => apply Z.ltb_lt in H
  | H : (_ <? _) = false |- _ => apply Z.ltb_ge in H
  | H : (_ <=? _) = true |- _ => apply Z.leb_le in H
  | H : (_ <=? _) = false |- _ => apply Z.leb_gt in H
  | H : (_ =? _) = true |- _ => apply Z.eqb_eq in H
  | H : (_ =? _) = false |- _ => apply Z.eqb_neq in H
  | H : negb _ = true |- _ => apply negb_true_iff in H
  | H : negb _ = false |- _ => apply negb_false_iff in H
  | H : (_ && _) = true |- _ => apply andb_true_iff in H as [? ?]
  | H : (_ || _) = false |- _ => apply orb_false_iff in H as [? ?]
  | H : (_ && _) = false |- _ => apply andb_false_iff in H;
      rewrite ?Z.leb_gt, ?Z.ltb_ge, ?Z.eqb_neq in H
  | H : (_ || _) = true |- _ => apply orb_true_iff in H;
      rewrite ?Z.leb_le, ?Z.ltb_lt, ?Z.eqb_eq in H
  end.

(** ** Machine words

    [uptr] and [u64] values are integers in [[0, 2^64)]; [sptr] values are the
    integers in [[-2^63, 2^63)].  Arithmetic of the source is written with
    [wrap] (unsigned wrap-around) and [swrap] (conversion to the signed type),
    and the narrowing conversions [u32], [u16], [u8], [s8] likewise. *)

Definition word_size : Z := 64.
Definition word_modulus : Z := 18446744073709551616.

Definition wrap (z : Z) : Z := z mod word_modulus.
Definition swrap (z : Z) : Z :=
  let u := wrap z in if u <? 9223372036854775808 then u else u - word_modulus.
Definition to_u32 (z : Z) : Z := z mod 4294967296.
Definition to_u16 (z : Z) : Z := z mod 65536.
Definition to_u8 (z : Z) : Z := z mod 256.
Definition to_s8 (z : Z) : Z :=
  let u := to_u8 z in if u <? 128 then u else u - 256.

Definition is_uptr (z : Z) : Prop := 0 <= z < word_modulus.
Definition is_u8 (z : Z) : Prop := 0 <= z < 256.
Definition is_sptr (z : Z) : Prop := -9223372036854775808 <= z < 9223372036854775808.

(** [~z] on a 64-bit word. *)
Definition wnot (z : Z) : Z := word_modulus - 1 - z.
(** [a << n] on a 64-bit word, [n < 64]. *)
Definition wshl (a n : Z) : Z := wrap (Z.shiftl a n).

Declare Scope word_scope.
Delimit Scope word_scope with word.
Notation "a +w b" := (wrap (a + b)) (at level 50, left associativity) : word_scope.
Notation "a -w b" := (wrap (a - b)) (at level 50, left associativity) : word_scope.
Notation "a *w b" := (wrap (a * b)) (at level 40, left associativity) : word_scope.
#[global] Open Scope word_scope.

(** [zify_mod] lets [lia] see [/] and [mod]. *)
Ltac zlia := Z.to_euclidean_division_equations; lia.

Lemma word_modulus_pow : word_modulus = 2 ^ 64.
Proof. reflexivity. Qed.

Lemma wrap_small (z : Z) : is_uptr z -> wrap z = z.
Proof. apply Z.mod_small. Qed.

Lemma wrap_range (z : Z) : is_uptr (wrap z).
Proof. apply Z.mod_pos_bound. reflexivity. Qed.

Lemma wrap_wrap (z : Z) : wrap (wrap z) = wrap z.
Proof. apply wrap_small, wrap_range. Qed.

Lemma wrap_land (z : Z) : wrap z = Z.land z (Z.ones 64).
Proof. by rewrite Z.land_ones by lia. Qed.

Lemma wrap_add_l (a b : Z) : wrap (wrap a + b) = wrap (a + b).
Proof. apply Zplus_mod_idemp_l. Qed.
Lemma wrap_add_r (a b : Z) : wrap (a + wrap b) = wrap (a + b).
Proof. apply Zplus_mod_idemp_r. Qed.
Lemma wrap_sub_l (a b : Z) : wrap (wrap a - b) = wrap (a - b).
Proof. apply Zminus_mod_idemp_l. Qed.
Lemma wrap_sub_r (a b : Z) : wrap (a - wrap b) = wrap (a - b).
Proof. apply Zminus_mod_idemp_r. Qed.

Lemma swrap_range (z : Z) : is_sptr (swrap z).
Proof.
  unfold swrap, is_sptr. pose proof (wrap_range z) as H. unfold is_uptr, word_modulus in *.
  destruct (Z.ltb_spec (wrap z) 9223372036854775808); lia.
Qed.

Lemma swrap_small (z : Z) : is_sptr z -> swrap z = z.
Proof.
  unfold swrap, is_sptr, wrap, word_modulus. intros H.
  destruct (decide (0 <= z)).
  - rewrite Z.mod_small by lia. destruct (Z.ltb_spec z 9223372036854775808); lia.
  - replace (z mod 18446744073709551616) with (z + 18446744073709551616).
    + destruct (Z.ltb_spec (z + 18446744073709551616) 9223372036854775808); lia.
    + zlia.
Qed.

Lemma wrap_swrap (z : Z) : wrap (swrap z) = wrap z.
Proof.
  unfold swrap. destruct (wrap z <? _); [apply wrap_wrap |].
  unfold wrap, word_modulus. zlia.
Qed.

Lemma to_u8_range (z : Z) : is_u8 (to_u8 z).
Proof. apply Z.mod_pos_bound. reflexivity. Qed.

Lemma to_s8_range (z : Z) : -128 <= to_s8 z < 128.
Proof.
  unfold to_s8. pose proof (to_u8_range z) as H. unfold is_u8 in H.
  destruct (Z.ltb_spec (to_u8 z) 128); lia.
Qed.

#[global] Arguments wrap _ : simpl never.
#[global] Arguments swrap _ : simpl never.
#[global] Arguments wnot _ : simpl never.
#[global] Arguments wshl _ _ : simpl never.
#[global] Arguments to_u8 _ : simpl never.
#[global] Arguments to_s8 _ : simpl never.
#[global] Arguments to_u16 _ : simpl never.
#[global] Arguments to_u32 _ : simpl never.

Create HintDb words.
#[export] Hint Resolve wrap_range swrap_range to_u8_range to_s8_range : words.

(** ** Bits *)

Lemma testbit_wrap (z i : Z) : 0 <= i -> Z.testbit (wrap z) i = Z.testbit z i && (i <? 64).
Proof.
  intros Hi. unfold wrap. rewrite word_modulus_pow.
  destruct (Z.ltb_spec i 64).
  - rewrite Z.mod_pow2_bits_low, andb_true_r by lia. done.
  - rewrite Z.mod_pow2_bits_high, andb_false_r by lia. done.
Qed.

Lemma testbit_high (z i n : Z) : 0 <= z < 2 ^ n -> n <= i -> Z.testbit z i = false.
Proof.
  intros Hz Hi. destruct (decide (n < 0)); [rewrite Z.pow_neg_r in Hz; lia |].
  rewrite <- (Z.mod_small z (2 ^ n)) by lia. apply Z.mod_pow2_bits_high. lia.
Qed.

Lemma land_pow2_mod (x n : Z) : 0 <= n -> Z.land x (2 ^ n - 1) = x mod 2 ^ n.
Proof.
  intros. rewrite <- Z.land_ones by lia. by rewrite Z.ones_equiv, Z.sub_1_r.
Qed.

(** Clearing the low [n] bits of a word. *)
Lemma land_wnot_pow2 (x n : Z) :
  is_uptr x -> 0 <= n <= 64 -> Z.land x (wnot (2 ^ n - 1)) = x - x mod 2 ^ n.
Proof.
  intros Hx Hn.
  assert (Hw : wnot (2 ^ n - 1) = Z.ldiff (Z.ones 64) (Z.ones n)).
  { rewrite <- Z.sub_nocarry_ldiff.
    - unfold wnot. rewrite !Z.ones_equiv, word_modulus_pow. lia.
    - apply Z.bits_inj'. intros i Hi.
      rewrite Z.ldiff_spec, !Z.testbit_ones, Z.bits_0 by lia.
      destruct (Z.leb_spec 0 i), (Z.ltb_spec i n), (Z.ltb_spec i 64); simpl; try done; lia. }
  rewrite Hw. rewrite <- Z.land_ones by lia. rewrite Z.sub_nocarry_ldiff.
  - apply Z.bits_inj'. intros i Hi.
    rewrite Z.land_spec, !Z.ldiff_spec, Z.land_spec, !Z.testbit_ones by lia.
    destruct (Z.ltb_spec i 64).
    + destruct (Z.testbit x i), (Z.leb_spec 0 i), (Z.ltb_spec i n); simpl; try done; lia.
    + rewrite (testbit_high x i 64) by (unfold is_uptr in Hx; rewrite word_modulus_pow in Hx; lia).
      done.
  - apply Z.bits_inj'. intros i Hi.
    rewrite Z.ldiff_spec, Z.land_spec, Z.bits_0. by destruct (Z.testbit x i), (Z.testbit (Z.ones n) i).
Qed.
