(* ===== verification/Words.v ===== *)
(** * Integer helpers of sanitizer_common.h

    [IsPowerOfTwo], [RoundUpTo], [RoundDownTo], [IsAligned], [Log2],
    [MostSignificantSetBitIndex], [LeastSignificantSetBitIndex],
    [RoundUpToPowerOfTwo] and the character tests, on 64-bit words.  Every
    later file rounds addresses and sizes through these definitions. *)

From S2P Require Import Prelude.

(** [__builtin_clzl] and [__builtin_ctzl] through the position of the first
    and last set bit: the compiler's builtins are the language here. *)
Fixpoint pos_ctz (p : positive) : Z :=
  match p with
  | xO q => 1 + pos_ctz q
  | _ => 0
  end.

Definition builtin_ctzl (x : Z) : Z :=
  match x with Zpos p => pos_ctz p | _ => 0 end.
Definition builtin_clzl (x : Z) : Z := 63 - Z.log2 x.

Definition MostSignificantSetBitIndex (x : Z) : result Z :=
  _ ← check (negb (x =? 0));
  Ok (word_size - 1 - builtin_clzl x).

Definition LeastSignificantSetBitIndex (x : Z) : result Z :=
  _ ← check (negb (x =? 0));
  Ok (builtin_ctzl x).

Definition IsPowerOfTwo (x : Z) : bool := Z.land x (x -w 1) =? 0.

Definition RoundUpToPowerOfTwo (size : Z) : result Z :=
  _ ← check (negb (size =? 0));
  if IsPowerOfTwo size then Ok size
  else
    up ← MostSignificantSetBitIndex size;
    _ ← check (size <? wshl 1 (up + 1));
    _ ← check (wshl 1 up <? size);
    Ok (wshl 1 (up + 1)).

Definition RoundUpTo (size boundary : Z) : result Z :=
  _ ← check (IsPowerOfTwo boundary);
  Ok (Z.land (size + boundary -w 1) (wnot (boundary -w 1))).

Definition RoundDownTo (x boundary : Z) : Z :=
  Z.land x (wnot (boundary -w 1)).

Definition IsAligned (a alignment : Z) : bool :=
  Z.land a (alignment -w 1) =? 0.

Definition Log2 (x : Z) : result Z :=
  _ ← check (IsPowerOfTwo x);
  LeastSignificantSetBitIndex x.

Definition IsSpace (c : Z) : bool :=
  (c =? 32) || (c =? 10) || (c =? 9) || (c =? 12) || (c =? 13) || (c =? 11).
Definition IsDigit (c : Z) : bool := (48 <=? c) && (c <=? 57).
Definition ToLower (c : Z) : Z :=
  if (65 <=? c) && (c <=? 90) then c + 97 - 65 else c.

(** ** Powers of two *)

Definition pow2_word (b : Z) : Prop := exists n, 0 <= n < 64 /\ b = 2 ^ n.

Lemma pow2_word_range (b : Z) : pow2_word b -> 1 <= b <= 9223372036854775808.
Proof.
  intros (n & Hn & ->). split.
  - pose proof (Z.pow_pos_nonneg 2 n). lia.
  - change 9223372036854775808 with (2 ^ 63). apply Z.pow_le_mono_r; lia.
Qed.

Lemma pow2_lt_word (n : Z) : 0 <= n < 64 -> is_uptr (2 ^ n).
Proof.
  intros Hn. pose proof (pow2_word_range (2 ^ n)) as H.
  unfold is_uptr, word_modulus. destruct H; [by exists n | lia].
Qed.

Lemma IsPowerOfTwo_pow2 (b : Z) : pow2_word b -> IsPowerOfTwo b = true.
Proof.
  intros Hb. pose proof (pow2_word_range b Hb). destruct Hb as (n & Hn & ->).
  unfold IsPowerOfTwo. rewrite wrap_small by (unfold is_uptr, word_modulus; lia).
  rewrite land_pow2_mod, Z_mod_same_full by lia. done.
Qed.

Lemma IsPowerOfTwo_spec (x : Z) :
  is_uptr x -> IsPowerOfTwo x = true <-> x = 0 \/ pow2_word x.
Proof.
  intros Hx. split; [| intros [-> | H]; [done | by apply IsPowerOfTwo_pow2]].
  intros H. destruct (decide (x = 0)) as [| Hnz]; [by left | right].
  unfold is_uptr in Hx. set (n := Z.log2 x).
  assert (Hn : 0 <= n < 64).
  { split; [apply Z.log2_nonneg |]. apply Z.log2_lt_pow2; [lia |].
    rewrite <- word_modulus_pow. lia. }
  exists n. split; [done |].
  pose proof (Z.log2_spec x ltac:(lia)) as Hl. fold n in Hl.
  destruct (decide (x = 2 ^ n)) as [| Hne]; [done | exfalso].
  unfold IsPowerOfTwo in H. rewrite wrap_small in H by (unfold is_uptr; lia).
  apply Z.eqb_eq in H. apply (f_equal (fun z => Z.testbit z n)) in H.
  rewrite Z.land_spec, Z.bits_0 in H.
  assert (Hx1 : Z.testbit x n = true) by (apply Z.bit_log2; lia).
  assert (Hx2 : Z.testbit (x - 1) n = true).
  { replace n with (Z.log2 (x - 1)); [apply Z.bit_log2; lia |].
    apply Z.log2_unique; lia. }
  rewrite Hx1, Hx2 in H. done.
Qed.

Lemma pos_ctz_spec (p : positive) :
  0 <= pos_ctz p /\ Z.testbit (Zpos p) (pos_ctz p) = true /\
  forall i, 0 <= i < pos_ctz p -> Z.testbit (Zpos p) i = false.
Proof.
  induction p as [p _ | p (IH1 & IH2 & IH3) |]; simpl pos_ctz.
  - split_and!; [lia | done | lia].
  - split_and!; [lia | |].
    + rewrite Pos2Z.inj_xO. replace (1 + pos_ctz p) with (Z.succ (pos_ctz p)) by lia.
      by rewrite Z.testbit_even_succ by lia.
    + intros i Hi. destruct (decide (i = 0)) as [-> | Hne]; [done |].
      rewrite Pos2Z.inj_xO. replace i with (Z.succ (i - 1)) by lia.
      rewrite Z.testbit_even_succ by lia. apply IH3. lia.
  - split_and!; [lia | done | lia].
Qed.

Lemma LeastSignificantSetBitIndex_spec (x i : Z) :
  is_uptr x -> LeastSignificantSetBitIndex x = Ok i <->
  (0 <= i < 64 /\ Z.testbit x i = true /\ forall j, 0 <= j < i -> Z.testbit x j = false).
Proof.
  intros Hx. unfold LeastSignificantSetBitIndex, is_uptr in *.
  destruct x as [| p | p]; [| | lia].
  - simpl. split; [discriminate |]. intros (_ & H & _). by rewrite Z.bits_0 in H.
  - simpl. pose proof (pos_ctz_spec p) as (H1 & H2 & H3). split.
    + intros [= <-]. split_and!; try done. destruct (decide (pos_ctz p < 64)); [done |].
      rewrite (testbit_high (Zpos p) _ 64) in H2; [done | | lia].
      rewrite word_modulus_pow in Hx. lia.
    + intros (Hi & Hb & Hlow). f_equal.
      destruct (Z.lt_trichotomy i (pos_ctz p)) as [Hlt | [-> | Hgt]]; [| done |].
      * rewrite H3 in Hb by lia. done.
      * rewrite Hlow in H2 by lia. done.
Qed.

Lemma MostSignificantSetBitIndex_spec (x : Z) :
  0 < x -> MostSignificantSetBitIndex x = Ok (Z.log2 x).
Proof.
  intros Hx. unfold MostSignificantSetBitIndex.
  rewrite check_true by (apply negb_true_iff, Z.eqb_neq; lia). simpl.
  unfold word_size, builtin_clzl. f_equal. lia.
Qed.

Lemma Log2_pow2 (n : Z) : 0 <= n < 64 -> Log2 (2 ^ n) = Ok n.
Proof.
  intros Hn. unfold Log2. rewrite IsPowerOfTwo_pow2 by (by exists n). simpl.
  apply LeastSignificantSetBitIndex_spec; [by apply pow2_lt_word |].
  split; [lia |]; split; [apply Z.pow2_bits_true; lia |].
  intros j Hj. apply Z.pow2_bits_false. lia.
Qed.

(** ** Rounding *)

Lemma RoundDownTo_spec (x b : Z) :
  is_uptr x -> pow2_word b -> RoundDownTo x b = x - x mod b.
Proof.
  intros Hx Hb. pose proof (pow2_word_range b Hb). destruct Hb as (n & Hn & ->).
  unfold RoundDownTo. rewrite wrap_small by (unfold is_uptr, word_modulus; lia).
  apply land_wnot_pow2; [done | lia].
Qed.

Lemma RoundUpTo_spec (x b : Z) :
  is_uptr x -> pow2_word b ->
  RoundUpTo x b = Ok (let y := wrap (x + b - 1) in y - y mod b).
Proof.
  intros Hx Hb. unfold RoundUpTo. rewrite IsPowerOfTwo_pow2 by done. simpl. f_equal.
  change (Z.land ?y (wnot (wrap (b - 1)))) with (RoundDownTo y b).
  apply RoundDownTo_spec; [apply wrap_range | done].
Qed.

Lemma RoundUpTo_nowrap (x b : Z) :
  0 <= x -> pow2_word b -> x + b - 1 < word_modulus ->
  exists y, RoundUpTo x b = Ok y /\ x <= y < x + b /\ y mod b = 0.
Proof.
  intros Hx Hb Hlt. pose proof (pow2_word_range b Hb).
  rewrite RoundUpTo_spec by (unfold is_uptr in *; (done || lia)). cbv zeta.
  rewrite wrap_small by (unfold is_uptr; lia).
  eexists; split; [done |]. pose proof (Z.mod_pos_bound (x + b - 1) b ltac:(lia)).
  split; [lia |]. rewrite Zminus_mod, Zmod_mod, Z.sub_diag. apply Z.mod_0_l. lia.
Qed.

Lemma IsAligned_spec (a b : Z) :
  pow2_word b -> IsAligned a b = (a mod b =? 0).
Proof.
  intros Hb. pose proof (pow2_word_range b Hb). destruct Hb as (n & Hn & ->).
  unfold IsAligned. rewrite wrap_small by (unfold is_uptr, word_modulus; lia).
  by rewrite land_pow2_mod by lia.
Qed.

Lemma wshl_1 (n : Z) : 0 <= n < 64 -> wshl 1 n = 2 ^ n.
Proof.
  intros Hn. unfold wshl. rewrite Z.shiftl_1_l. apply wrap_small. by apply pow2_lt_word.
Qed.

(** [RoundUpToPowerOfTwo] returns the least power of two that is not smaller,
    for every size up to [2^63]; above it, [1ULL << 64] is out of the range of
    the shift and the second [CHECK] would be undefined, so no caller relies
    on it. *)
Lemma RoundUpToPowerOfTwo_spec (size : Z) :
  1 <= size <= 9223372036854775808 ->
  exists n, RoundUpToPowerOfTwo size = Ok (2 ^ n) /\ 0 <= n < 64 /\
    size <= 2 ^ n /\ (n = 0 \/ 2 ^ (n - 1) < size).
Proof.
  intros Hs. unfold RoundUpToPowerOfTwo.
  rewrite check_true by (apply negb_true_iff, Z.eqb_neq; lia). simpl.
  assert (Hu : is_uptr size) by (unfold is_uptr, word_modulus; lia).
  destruct (IsPowerOfTwo size) eqn:Hp.
  - apply IsPowerOfTwo_spec in Hp as [-> | (n & Hn & ->)]; [lia | | done].
    exists n. split_and!; try done; try lia.
    destruct (decide (n = 0)); [by left | right]. apply Z.pow_lt_mono_r; lia.
  - rewrite MostSignificantSetBitIndex_spec by lia. simpl.
    set (n := Z.log2 size). pose proof (Z.log2_spec size ltac:(lia)) as Hl. fold n in Hl.
    pose proof (Z.log2_nonneg size) as Hn0. fold n in Hn0.
    assert (Hne : size <> 2 ^ n).
    { intros Heq. rewrite IsPowerOfTwo_pow2 in Hp; [done |]. exists n. split; [| done].
      split; [done |]. apply (Z.pow_lt_mono_r_iff 2); [lia | lia |].
      rewrite <- Heq. change (2 ^ 64) with 18446744073709551616. lia. }
    assert (n < 63).
    { apply (Z.pow_lt_mono_r_iff 2); [lia | lia |]. change (2 ^ 63) with 9223372036854775808. lia. }
    rewrite !wshl_1 by lia. rewrite <- Z.add_1_r in Hl.
    rewrite !check_true by (apply Z.ltb_lt; lia). simpl.
    exists (n + 1). split_and!; try done; try lia. right. replace (n + 1 - 1) with n by lia. lia.
Qed.

#[export] Hint Resolve IsPowerOfTwo_pow2 pow2_lt_word : words.

#[global] Arguments RoundUpTo _ _ : simpl never.
#[global] Arguments RoundDownTo _ _ : simpl never.
#[global] Arguments IsAligned _ _ : simpl never.
#[global] Arguments IsPowerOfTwo _ : simpl never.
#[global] Arguments Log2 _ : simpl never.
#[global] Arguments MostSignificantSetBitIndex _ : simpl never.
#[global] Arguments LeastSignificantSetBitIndex _ : simpl never.
#[global] Arguments RoundUpToPowerOfTwo _ : simpl never.
