(* ===== verification/ShadowMapping.v ===== *)
(** * The shadow mapping of asan_mapping.h

    The 64-bit mapping with [ASAN_SHADOW_SCALE] 3: [MEM_TO_SHADOW],
    [SHADOW_TO_MEM], the bounds of the regions of the address space, the
    [AddrIsIn...] predicates, and the check of the layout that
    [PrintAddressSpaceLayout] makes.  The shadow offset, the end of the high
    memory and the middle memory are what the platform start-up fixes, so
    they are the fields of a record; [linux_x86_64] is the default one. *)

From S2P Require Import Prelude Words.

(** The globals of [asan_mapping.h] and [flags()->protect_shadow_gap]. *)
Record mapping : Type := Mapping {
  ASAN_SHADOW_OFFSET : Z;
  kHighMemEnd : Z;
  kMidMemBeg : Z;
  kMidMemEnd : Z;
  protect_shadow_gap : bool;
}.

Definition ASAN_SHADOW_SCALE : Z := 3.
Definition ASAN_SHADOW_GRANULARITY : Z := 8.

(** Linux/x86_64: the offset of line 240, and [kHighMemEnd] of a 47-bit
    address space. *)
Definition linux_x86_64 : mapping := Mapping 0x7fff8000 0x7fffffffffff 0 0 true.

Section mapping.
Context (M : mapping).

Definition MEM_TO_SHADOW (mem : Z) : Z :=
  Z.shiftr mem ASAN_SHADOW_SCALE +w ASAN_SHADOW_OFFSET M.
Definition SHADOW_TO_MEM (mem : Z) : Z :=
  wshl (mem -w ASAN_SHADOW_OFFSET M) ASAN_SHADOW_SCALE.

Definition kLowMemBeg : Z := 0.
Definition kLowMemEnd : Z :=
  if negb (ASAN_SHADOW_OFFSET M =? 0) then ASAN_SHADOW_OFFSET M -w 1 else 0.
Definition kLowShadowBeg : Z := ASAN_SHADOW_OFFSET M.
Definition kLowShadowEnd : Z := MEM_TO_SHADOW kLowMemEnd.
Definition kHighMemBeg : Z := MEM_TO_SHADOW (kHighMemEnd M) +w 1.
Definition kHighShadowBeg : Z := MEM_TO_SHADOW kHighMemBeg.
Definition kHighShadowEnd : Z := MEM_TO_SHADOW (kHighMemEnd M).
Definition kMidShadowBeg : Z := MEM_TO_SHADOW (kMidMemBeg M).
Definition kMidShadowEnd : Z := MEM_TO_SHADOW (kMidMemEnd M).
Definition kZeroBaseShadowStart : Z := 0.

Definition has_mid_mem : bool := negb (kMidMemBeg M =? 0).

Definition kShadowGapBeg : Z :=
  if negb (kLowShadowEnd =? 0) then kLowShadowEnd +w 1 else kZeroBaseShadowStart.
Definition kShadowGapEnd : Z :=
  (if has_mid_mem then kMidShadowBeg else kHighShadowBeg) -w 1.
Definition kShadowGap2Beg : Z := if has_mid_mem then kMidShadowEnd +w 1 else 0.
Definition kShadowGap2End : Z := if has_mid_mem then kMidMemBeg M -w 1 else 0.
Definition kShadowGap3Beg : Z := if has_mid_mem then kMidMemEnd M +w 1 else 0.
Definition kShadowGap3End : Z := if has_mid_mem then kHighShadowBeg -w 1 else 0.

Definition AddrIsInLowMem (a : Z) : bool := a <=? kLowMemEnd.
Definition AddrIsInLowShadow (a : Z) : bool :=
  (kLowShadowBeg <=? a) && (a <=? kLowShadowEnd).
Definition AddrIsInMidMem (a : Z) : bool :=
  has_mid_mem && (kMidMemBeg M <=? a) && (a <=? kMidMemEnd M).
Definition AddrIsInMidShadow (a : Z) : bool :=
  has_mid_mem && (kMidShadowBeg <=? a) && (a <=? kMidShadowEnd).
Definition AddrIsInHighMem (a : Z) : bool :=
  negb (kHighMemBeg =? 0) && (kHighMemBeg <=? a) && (a <=? kHighMemEnd M).
Definition AddrIsInHighShadow (a : Z) : bool :=
  negb (kHighMemBeg =? 0) && (kHighShadowBeg <=? a) && (a <=? kHighShadowEnd).

Definition AddrIsInShadowGap (a : Z) : bool :=
  if has_mid_mem then
    if a <=? kShadowGapEnd then
      (ASAN_SHADOW_OFFSET M =? 0) || (kShadowGapBeg <=? a)
    else
      ((kShadowGap2Beg <=? a) && (a <=? kShadowGap2End)) ||
      ((kShadowGap3Beg <=? a) && (a <=? kShadowGap3End))
  else if ASAN_SHADOW_OFFSET M =? 0 then a <=? kShadowGapEnd
  else (kShadowGapBeg <=? a) && (a <=? kShadowGapEnd).

Definition MemToShadowSize (size : Z) : Z := Z.shiftr size ASAN_SHADOW_SCALE.

Definition AddrIsInMem (a : Z) : bool :=
  AddrIsInLowMem a || AddrIsInMidMem a || AddrIsInHighMem a ||
  (negb (protect_shadow_gap M) && AddrIsInShadowGap a).

Definition MemToShadow (p : Z) : result Z :=
  _ ← check (AddrIsInMem p); Ok (MEM_TO_SHADOW p).

Definition AddrIsInShadow (a : Z) : bool :=
  AddrIsInLowShadow a || AddrIsInMidShadow a || AddrIsInHighShadow a.

Definition ShadowToMem (p : Z) : result Z :=
  _ ← check (AddrIsInShadow p); Ok (SHADOW_TO_MEM p).

Definition AddrIsAlignedByGranularity (a : Z) : bool :=
  Z.land a (ASAN_SHADOW_GRANULARITY - 1) =? 0.

(** The checks at the end of [PrintAddressSpaceLayout]. *)
Definition check_address_space_layout : result unit :=
  _ ← check ((3 <=? ASAN_SHADOW_SCALE) && (ASAN_SHADOW_SCALE <=? 7));
  if has_mid_mem then
    check ((kLowShadowEnd <? kMidShadowBeg) && (kMidShadowEnd <? kMidMemBeg M) &&
           (kMidMemEnd M <? kHighShadowBeg))
  else Ok tt.

End mapping.

(** [InitializeHighMemEnd]: [max_va] is what [GetMaxUserVirtualAddress]
    returns, [mmap_granularity] what [GetMmapGranularity] returns. *)
Definition InitializeHighMemEnd (M : mapping) (max_va mmap_granularity : Z) : result mapping :=
  let M' := Mapping (ASAN_SHADOW_OFFSET M)
              (Z.lor max_va (wshl mmap_granularity ASAN_SHADOW_SCALE -w 1))
              (kMidMemBeg M) (kMidMemEnd M) (protect_shadow_gap M) in
  _ ← check (kHighMemBeg M' mod mmap_granularity =? 0);
  Ok M'.

(** ** Well-formed mappings

    What start-up establishes: the offset and the end of memory are aligned
    by the granularity, memory fits the address space with its shadow below
    its high part, and a middle memory, if there is one, lies where
    [PrintAddressSpaceLayout] checks that it lies. *)
Class WfMapping (M : mapping) : Prop := {
  wf_offset : 8 <= ASAN_SHADOW_OFFSET M < 2 ^ 62;
  wf_offset_aligned : ASAN_SHADOW_OFFSET M mod 8 = 0;
  wf_high_end : ASAN_SHADOW_OFFSET M < kHighMemEnd M < 2 ^ 63;
  wf_high_end_aligned : (kHighMemEnd M + 1) mod 8 = 0;
  wf_high_nonempty : kHighMemEnd M / 8 + ASAN_SHADOW_OFFSET M < kHighMemEnd M;
  wf_mid_range : kMidMemBeg M <> 0 ->
    0 <= kMidMemBeg M <= kMidMemEnd M /\
    kMidMemBeg M mod 8 = 0 /\ (kMidMemEnd M + 1) mod 8 = 0;
  wf_layout : check_address_space_layout M = Ok tt;
  wf_mid_below : kMidMemBeg M <> 0 -> kMidMemEnd M < kHighMemEnd M;
}.

Section facts.
Context (M : mapping) `{!WfMapping M}.

Lemma shiftr_scale (a : Z) : Z.shiftr a ASAN_SHADOW_SCALE = a / 8.
Proof. unfold ASAN_SHADOW_SCALE. by rewrite Z.shiftr_div_pow2. Qed.

Lemma MEM_TO_SHADOW_spec (a : Z) :
  is_uptr a -> MEM_TO_SHADOW M a = a / 8 + ASAN_SHADOW_OFFSET M.
Proof.
  intros Ha. unfold MEM_TO_SHADOW. rewrite shiftr_scale. apply wrap_small.
  pose proof wf_offset. unfold is_uptr, word_modulus in *. zlia.
Qed.

Lemma kLowMemEnd_spec : kLowMemEnd M = ASAN_SHADOW_OFFSET M - 1.
Proof.
  pose proof wf_offset. unfold kLowMemEnd. destruct (Z.eqb_spec (ASAN_SHADOW_OFFSET M) 0); [lia |].
  apply wrap_small. unfold is_uptr, word_modulus. lia.
Qed.

Lemma kLowShadowEnd_spec :
  kLowShadowEnd M = (ASAN_SHADOW_OFFSET M - 1) / 8 + ASAN_SHADOW_OFFSET M.
Proof.
  pose proof wf_offset. unfold kLowShadowEnd. rewrite kLowMemEnd_spec, MEM_TO_SHADOW_spec; [done |].
  unfold is_uptr, word_modulus. lia.
Qed.

Lemma kHighShadowEnd_spec :
  kHighShadowEnd M = kHighMemEnd M / 8 + ASAN_SHADOW_OFFSET M.
Proof.
  pose proof wf_offset. pose proof wf_high_end. unfold kHighShadowEnd.
  rewrite MEM_TO_SHADOW_spec; [done |]. unfold is_uptr, word_modulus. lia.
Qed.

Lemma kHighMemBeg_spec :
  kHighMemBeg M = kHighMemEnd M / 8 + ASAN_SHADOW_OFFSET M + 1.
Proof.
  pose proof wf_offset. pose proof wf_high_end. pose proof wf_high_nonempty.
  unfold kHighMemBeg. fold (kHighShadowEnd M). rewrite kHighShadowEnd_spec.
  apply wrap_small. unfold is_uptr, word_modulus. zlia.
Qed.

Lemma kHighShadowBeg_spec :
  kHighShadowBeg M =
  (kHighMemEnd M / 8 + ASAN_SHADOW_OFFSET M + 1) / 8 + ASAN_SHADOW_OFFSET M.
Proof.
  pose proof wf_offset. pose proof wf_high_end. pose proof wf_high_nonempty.
  unfold kHighShadowBeg. rewrite kHighMemBeg_spec, MEM_TO_SHADOW_spec; [done |].
  unfold is_uptr, word_modulus. zlia.
Qed.

(** The bounds of the middle memory, when there is one. *)
Lemma mid_mem_facts : has_mid_mem M = true ->
  kMidShadowBeg M = kMidMemBeg M / 8 + ASAN_SHADOW_OFFSET M /\
  kMidShadowEnd M = kMidMemEnd M / 8 + ASAN_SHADOW_OFFSET M /\
  kLowShadowEnd M < kMidShadowBeg M /\ kMidShadowEnd M < kMidMemBeg M /\
  kMidMemEnd M < kHighShadowBeg M /\
  0 <= kMidMemBeg M <= kMidMemEnd M /\ kMidMemEnd M < kHighMemEnd M /\
  kMidMemBeg M mod 8 = 0 /\ (kMidMemEnd M + 1) mod 8 = 0.
Proof.
  intros Hm. pose proof wf_layout as Hl. unfold check_address_space_layout in Hl. rewrite Hm in Hl.
  simpl in Hl. apply check_Ok in Hl. rewrite !andb_true_iff, !Z.ltb_lt in Hl.
  unfold has_mid_mem in Hm. apply negb_true_iff, Z.eqb_neq in Hm.
  pose proof (wf_mid_range Hm) as (Hr & Hb & He). pose proof (wf_mid_below Hm).
  pose proof wf_high_end. unfold kMidShadowBeg, kMidShadowEnd in *.
  rewrite !MEM_TO_SHADOW_spec in * by (unfold is_uptr, word_modulus; lia).
  split_and!; try done; lia.
Qed.

(** Unfolds every bound to arithmetic on the fields of the mapping. *)
Ltac unfold_mapping :=
  pose proof wf_offset; pose proof wf_offset_aligned; pose proof wf_high_end;
  pose proof wf_high_end_aligned; pose proof wf_high_nonempty;
  unfold AddrIsInLowMem, AddrIsInLowShadow, AddrIsInMidMem, AddrIsInMidShadow,
    AddrIsInHighMem, AddrIsInHighShadow, AddrIsInShadowGap, kLowShadowBeg,
    kShadowGapBeg, kShadowGapEnd, kShadowGap2Beg, kShadowGap2End, kShadowGap3Beg,
    kShadowGap3End in *.

Lemma high_regions (a : Z) :
  (AddrIsInHighMem M a = true <-> kHighMemBeg M <= a <= kHighMemEnd M) /\
  (AddrIsInHighShadow M a = true <-> kHighShadowBeg M <= a <= kHighShadowEnd M).
Proof.
  unfold_mapping. rewrite kHighMemBeg_spec.
  destruct (Z.eqb_spec (kHighMemEnd M / 8 + ASAN_SHADOW_OFFSET M + 1) 0); [zlia |].
  rewrite !andb_true_iff, !Z.leb_le. simpl. tauto.
Qed.

Lemma mid_regions (a : Z) :
  (AddrIsInMidMem M a = true <-> has_mid_mem M = true /\ kMidMemBeg M <= a <= kMidMemEnd M) /\
  (AddrIsInMidShadow M a = true <->
     has_mid_mem M = true /\ kMidShadowBeg M <= a <= kMidShadowEnd M).
Proof.
  unfold_mapping. rewrite !andb_true_iff, !Z.leb_le. tauto.
Qed.

Lemma gap_region (a : Z) : is_uptr a ->
  AddrIsInShadowGap M a = true <->
  if has_mid_mem M then
    kLowShadowEnd M + 1 <= a <= kMidShadowBeg M - 1 \/
    kMidShadowEnd M + 1 <= a <= kMidMemBeg M - 1 \/
    kMidMemEnd M + 1 <= a <= kHighShadowBeg M - 1
  else kLowShadowEnd M + 1 <= a <= kHighShadowBeg M - 1.
Proof.
  intros Ha. unfold_mapping. pose proof mid_mem_facts as Hmid. unfold is_uptr, word_modulus in Ha.
  pose proof kHighShadowBeg_spec as Hhb. pose proof kLowShadowEnd_spec as Hle.
  destruct (Z.eqb_spec (ASAN_SHADOW_OFFSET M) 0); [lia |].
  destruct (Z.eqb_spec (kLowShadowEnd M) 0); [zlia |]. simpl.
  destruct (has_mid_mem M).
  - specialize (Hmid eq_refl). destruct Hmid as (? & ? & ? & ? & ? & ? & ? & ? & ?).
    rewrite !wrap_small by (unfold is_uptr, word_modulus; zlia).
    destruct (Z.leb_spec a (kMidShadowBeg M - 1)).
    + rewrite Z.leb_le. zlia.
    + rewrite orb_true_iff, !andb_true_iff, !Z.leb_le. lia.
  - rewrite !wrap_small by (unfold is_uptr, word_modulus; zlia).
    rewrite andb_true_iff, !Z.leb_le. lia.
Qed.

(** The regions lie in the order of the table of [asan_mapping.h]. *)
Lemma layout_order :
  8 <= ASAN_SHADOW_OFFSET M <= kLowShadowEnd M /\
  kLowShadowEnd M < kHighShadowBeg M <= kHighShadowEnd M /\
  kHighMemBeg M = kHighShadowEnd M + 1 /\ kHighMemBeg M <= kHighMemEnd M < 2 ^ 63 /\
  (has_mid_mem M = true ->
     kLowShadowEnd M < kMidShadowBeg M <= kMidShadowEnd M /\
     kMidShadowEnd M < kMidMemBeg M <= kMidMemEnd M /\ kMidMemEnd M < kHighShadowBeg M).
Proof.
  unfold_mapping. pose proof mid_mem_facts as Hmid.
  rewrite kHighShadowBeg_spec, kHighMemBeg_spec, kHighShadowEnd_spec, kLowShadowEnd_spec in *.
  split_and!; [zlia .. |]. intros Hm. specialize (Hmid Hm).
  destruct Hmid as (-> & -> & ? & ? & ? & ? & ? & ? & ?). split_and!; zlia.
Qed.

Lemma regions_spec (a : Z) : is_uptr a ->
  (AddrIsInLowMem M a = true <-> a < ASAN_SHADOW_OFFSET M) /\
  (AddrIsInLowShadow M a = true <-> ASAN_SHADOW_OFFSET M <= a <= kLowShadowEnd M).
Proof.
  intros Ha. unfold_mapping. rewrite kLowMemEnd_spec, andb_true_iff, !Z.leb_le. lia.
Qed.

Lemma mem_to_shadow_mono (a b : Z) :
  is_uptr a -> is_uptr b -> a <= b -> MEM_TO_SHADOW M a <= MEM_TO_SHADOW M b.
Proof. intros. rewrite !MEM_TO_SHADOW_spec by done. zlia. Qed.

Lemma mem_to_shadow_inj (a b : Z) : is_uptr a -> is_uptr b ->
  MEM_TO_SHADOW M a = MEM_TO_SHADOW M b <-> a / 8 = b / 8.
Proof. intros. rewrite !MEM_TO_SHADOW_spec by done. lia. Qed.

End facts.

#[export] Instance linux_x86_64_wf : WfMapping linux_x86_64.
Proof.
  split; try (vm_compute; split; congruence); try (vm_compute; congruence); reflexivity.
Qed.

(** The regions of the address space, in the order of the table in
    [asan_mapping.h]. *)
Definition address_regions (M : mapping) (a : Z) : list bool :=
  [AddrIsInHighMem M a; AddrIsInHighShadow M a; AddrIsInShadowGap M a;
   AddrIsInMidMem M a; AddrIsInMidShadow M a; AddrIsInLowShadow M a; AddrIsInLowMem M a].

Definition count_true (l : list bool) : nat := length (List.filter (fun b => b) l).

Lemma regions_exclusive (M : mapping) `{!WfMapping M} (a : Z) :
  0 <= a <= kHighMemEnd M -> count_true (address_regions M a) = 1%nat.
Proof.
  intros Ha. pose proof (wf_high_end (M := M)) as He.
  assert (Hu : is_uptr a) by (unfold is_uptr, word_modulus; lia).
  pose proof (regions_spec M a Hu) as [H1 H2]. pose proof (high_regions M a) as [H3 H4].
  pose proof (mid_regions M a) as [H5 H6]. pose proof (gap_region M a Hu) as H7.
  pose proof (layout_order M) as (? & ? & ? & ? & Hmid).
  unfold count_true, address_regions.
  destruct (has_mid_mem M); [specialize (Hmid eq_refl) | clear Hmid];
  destruct (AddrIsInHighMem M a), (AddrIsInHighShadow M a), (AddrIsInShadowGap M a),
    (AddrIsInMidMem M a), (AddrIsInMidShadow M a), (AddrIsInLowShadow M a), (AddrIsInLowMem M a);
    try reflexivity; exfalso; lia.
Qed.



Lemma mem_shadow_disjoint (M : mapping) `{!WfMapping M} (a : Z) :
  is_uptr a -> protect_shadow_gap M = true ->
  AddrIsInShadow M a = true -> AddrIsInMem M a = false.
Proof.
  intros Hu Hp Hs. unfold AddrIsInShadow, AddrIsInMem in *. rewrite Hp, orb_false_r.
  assert (Hr : 0 <= a <= kHighMemEnd M -> count_true (address_regions M a) = 1%nat)
    by (intros; by apply regions_exclusive).
  pose proof (regions_spec M a Hu) as [H1 H2]. pose proof (high_regions M a) as [H3 H4].
  pose proof (mid_regions M a) as [H5 H6].
  pose proof (layout_order M) as (? & ? & ? & ? & Hmid).
  assert (Hin : 0 <= a <= kHighMemEnd M).
  { apply orb_true_iff in Hs as [Hs | Hs]; [apply orb_true_iff in Hs as [Hs | Hs] |].
    - apply H2 in Hs. unfold is_uptr in Hu. lia.
    - apply H6 in Hs as [Hm Hs]. specialize (Hmid Hm). unfold is_uptr in Hu. lia.
    - apply H4 in Hs. unfold is_uptr in Hu. lia. }
  specialize (Hr Hin). unfold count_true, address_regions in Hr.
  destruct (AddrIsInHighMem M a), (AddrIsInHighShadow M a), (AddrIsInShadowGap M a),
    (AddrIsInMidMem M a), (AddrIsInMidShadow M a), (AddrIsInLowShadow M a), (AddrIsInLowMem M a);
    done.
Qed.

(** C34.  The shadow of application memory is shadow memory and nothing else:
    with the gap protected, [MemToShadow] of an application address succeeds,
    its result is in a shadow region and in no application region, and
    [ShadowToMem] takes it back to the start of the address's granule. *)
Theorem MemToShadow_roundtrip (M : mapping) (Hwf : WfMapping M) (a : Z)
  (Hu : is_uptr a) (Hgap : protect_shadow_gap M = true) (Hmem : AddrIsInMem M a = true) :
  exists p, MemToShadow M a = Ok p /\ AddrIsInShadow M p = true /\
            AddrIsInMem M p = false /\ ShadowToMem M p = Ok (a - a mod 8).
Proof.
  exists (MEM_TO_SHADOW M a). unfold MemToShadow. rewrite Hmem.
  pose proof (wf_offset (M := M)). pose proof (wf_high_end (M := M)).
  pose proof (wf_offset_aligned (M := M)). pose proof (wf_high_end_aligned (M := M)).
  pose proof (wf_high_nonempty (M := M)).
  assert (Hs : AddrIsInShadow M (MEM_TO_SHADOW M a) = true).
  { unfold AddrIsInMem in Hmem. rewrite Hgap, orb_false_r in Hmem. unfold AddrIsInShadow.
    rewrite MEM_TO_SHADOW_spec by done. rewrite !orb_true_iff.
    assert (Hpu : is_uptr (a / 8 + ASAN_SHADOW_OFFSET M))
      by (unfold is_uptr, word_modulus in *; zlia).
    pose proof (regions_spec M a Hu) as [L1 _]. pose proof (high_regions M a) as [L3 _].
    pose proof (mid_regions M a) as [L5 _].
    pose proof (regions_spec M _ Hpu) as [_ L2].
    pose proof (high_regions M (a / 8 + ASAN_SHADOW_OFFSET M)) as [_ L4].
    pose proof (mid_regions M (a / 8 + ASAN_SHADOW_OFFSET M)) as [_ L6].
    rewrite !orb_true_iff in Hmem. destruct Hmem as [[Hm | Hm] | Hm].
    - left; left. apply L2. apply L1 in Hm. rewrite kLowShadowEnd_spec by done.
      unfold is_uptr in Hu. zlia.
    - left; right. apply L6. apply L5 in Hm as [Hm Hr]. split; [done |].
      pose proof (mid_mem_facts M Hm) as (-> & -> & _). zlia.
    - right. apply L4. apply L3 in Hm. rewrite kHighShadowEnd_spec, kHighShadowBeg_spec by done.
      rewrite kHighMemBeg_spec in Hm by done. zlia. }
  split_and!; [done | done | |].
  - apply mem_shadow_disjoint; try done. rewrite MEM_TO_SHADOW_spec by done.
    unfold is_uptr, word_modulus in *. zlia.
  - unfold ShadowToMem. rewrite Hs. simpl. f_equal. rewrite MEM_TO_SHADOW_spec by done.
    unfold SHADOW_TO_MEM, wshl, ASAN_SHADOW_SCALE.
    rewrite (wrap_small (a / 8 + _ - _)) by (unfold is_uptr, word_modulus in *; zlia).
    rewrite Z.shiftl_mul_pow2 by lia. change (2 ^ 3) with 8.
    rewrite wrap_small by (unfold is_uptr, word_modulus in *; zlia). zlia.
Qed.

Lemma MemToShadow_roundtrip_witness :
  exists p, MemToShadow linux_x86_64 0x602000000013 = Ok p /\
    AddrIsInShadow linux_x86_64 p = true /\ AddrIsInMem linux_x86_64 p = false /\
    ShadowToMem linux_x86_64 p = Ok (0x602000000013 - 0x602000000013 mod 8).
Proof.
  apply (MemToShadow_roundtrip linux_x86_64 linux_x86_64_wf); [| reflexivity | reflexivity].
  vm_compute. split; congruence.
Defined.
