(* ===== verification/Memory.v ===== *)
(** * Byte memory and the memory routines of sanitizer_libc.cpp

    The address space is a function from addresses to bytes.  This file holds
    loads and stores, and the routines that walk memory: [internal_memchr],
    [internal_memrchr], [internal_memcmp], [internal_memcpy],
    [internal_memmove], [internal_memset] and [mem_is_zero].  Their loops run
    a number of times known on entry, so they are structural.  [char] is
    signed, as on the x86-64 target. *)

From S2P Require Import Prelude Words.

Definition memory : Type := Z -> Z.

(** Every cell holds a byte. *)
Definition bytes_ok (m : memory) : Prop := forall a, is_u8 (m a).

Definition store (m : memory) (p v : Z) : memory :=
  fun a => if a =? p then v else m a.

(** [*(char * )p], [*(s8 * )p] *)
Definition load_s8 (m : memory) (p : Z) : Z := to_s8 (m p).

(** The C library's [memset], which the runtime calls as [REAL(memset)]. *)
Definition memset (m : memory) (p c n : Z) : memory :=
  fun a => if (p <=? a) && (a <? p + n) then to_u8 c else m a.

(** A little-endian 64-bit load and store. *)
Fixpoint load_bytes (m : memory) (p : Z) (k : nat) : Z :=
  match k with
  | O => 0
  | S k' => m p + 256 * load_bytes m (p + 1) k'
  end.
Definition load64 (m : memory) (p : Z) : Z := load_bytes m p 8.

Fixpoint store_bytes (m : memory) (p v : Z) (k : nat) : memory :=
  match k with
  | O => m
  | S k' => store_bytes (store m p (v mod 256)) (p + 1) (v / 256) k'
  end.
Definition store64 (m : memory) (p v : Z) : memory := store_bytes m p v 8.

(** ** The routines *)

(** [for (uptr i = 0; i < n; ++i, ++t) if ( *t == c) return t;] *)
Fixpoint memchr_loop (m : memory) (t c : Z) (k : nat) : option Z :=
  match k with
  | O => None
  | S k' => if load_s8 m t =? c then Some t else memchr_loop m (t + 1) c k'
  end.
Definition internal_memchr (m : memory) (s c n : Z) : option Z :=
  memchr_loop m s c (Z.to_nat n).

Fixpoint memrchr_loop (m : memory) (t c : Z) (res : option Z) (k : nat) : option Z :=
  match k with
  | O => res
  | S k' => memrchr_loop m (t + 1) c (if load_s8 m t =? c then Some t else res) k'
  end.
Definition internal_memrchr (m : memory) (s c n : Z) : option Z :=
  memrchr_loop m s c None (Z.to_nat n).

Fixpoint memcmp_loop (m : memory) (t1 t2 : Z) (k : nat) : Z :=
  match k with
  | O => 0
  | S k' =>
      if negb (load_s8 m t1 =? load_s8 m t2) then
        if load_s8 m t1 <? load_s8 m t2 then -1 else 1
      else memcmp_loop m (t1 + 1) (t2 + 1) k'
  end.
Definition internal_memcmp (m : memory) (s1 s2 n : Z) : Z :=
  memcmp_loop m s1 s2 (Z.to_nat n).

(** [for (i = ...; i < n; ++i) d[i] = s[i];], [k] turns to go. *)
Fixpoint copy_up (m : memory) (d s i : Z) (k : nat) : memory :=
  match k with
  | O => m
  | S k' => copy_up (store m (d + i) (m (s + i))) d s (i + 1) k'
  end.
(** [for (i = k - 1; i >= 0; --i) d[i] = s[i];] *)
Fixpoint copy_down (m : memory) (d s : Z) (k : nat) : memory :=
  match k with
  | O => m
  | S k' => copy_down (store m (d + Z.of_nat k') (m (s + Z.of_nat k'))) d s k'
  end.

Definition internal_memcpy (m : memory) (dest src n : Z) : memory :=
  copy_up m dest src 0 (Z.to_nat n).

Definition internal_memmove (m : memory) (dest src n : Z) : result memory :=
  let signed_n := swrap n in
  _ ← check (0 <=? signed_n);
  Ok (if dest <? src then copy_up m dest src 0 (Z.to_nat signed_n)
      else if (src <? dest) && (0 <? signed_n) then copy_down m dest src (Z.to_nat signed_n)
      else m).

(** [v |= v << 8; v |= v << 16; v |= v << 32] *)
Definition splat (c : Z) : Z :=
  let v := wrap c in
  let v := Z.lor v (wshl v 8) in
  let v := Z.lor v (wshl v 16) in
  Z.lor v (wshl v 32).

(** [for (; p < e; p += 2) p[0] = p[1] = v;] *)
Fixpoint memset_words (m : memory) (p v : Z) (k : nat) : memory :=
  match k with
  | O => m
  | S k' => memset_words (store64 (store64 m (p + 8) v) p v) (p + 16) v k'
  end.
Fixpoint memset_chars (m : memory) (t c : Z) (k : nat) : memory :=
  match k with
  | O => m
  | S k' => memset_chars (store m t (to_u8 c)) (t + 1) c k'
  end.

Definition internal_memset (m : memory) (s c n : Z) : memory :=
  if (s mod 16 =? 0) && (n mod 16 =? 0) then
    memset_words m s (splat c) (Z.to_nat (n / 16))
  else memset_chars m s c (Z.to_nat n).

(** [mem_is_zero]: the prologue, the aligned loop over words and the
    epilogue or the bytes they read into [all]. *)
Fixpoint or_chars (m : memory) (mem last all : Z) (k : nat) : Z :=
  match k with
  | O => all
  | S k' => if mem <? last then or_chars m (mem + 1) last (Z.lor all (wrap (load_s8 m mem))) k'
            else all
  end.
Fixpoint or_words (m : memory) (p last all : Z) (k : nat) : Z :=
  match k with
  | O => all
  | S k' => if p <? last then or_words m (p + 8) last (Z.lor all (load64 m p)) k' else all
  end.

Definition mem_is_zero (m : memory) (beg size : Z) : result bool :=
  _ ← check (size <=? 1099511627776);
  let last := beg + size in
  aligned_beg ← RoundUpTo beg 8;
  let aligned_end := RoundDownTo last 8 in
  let k := Z.to_nat size in
  let all := or_chars m beg (Z.min aligned_beg last) 0 k in
  let all := or_words m aligned_beg aligned_end all k in
  let all := if beg <=? aligned_end then or_chars m aligned_end last all k else all in
  Ok (all =? 0).

(** ** Facts *)

Lemma store_same (m : memory) (p v : Z) : store m p v p = v.
Proof. unfold store. by rewrite Z.eqb_refl. Qed.

Lemma store_other (m : memory) (p v a : Z) : a <> p -> store m p v a = m a.
Proof. intros H. unfold store. by rewrite (proj2 (Z.eqb_neq _ _) H). Qed.

Lemma bytes_ok_store (m : memory) (p v : Z) : bytes_ok m -> is_u8 v -> bytes_ok (store m p v).
Proof. intros Hm Hv a. unfold store. by destruct (a =? p). Qed.

Lemma bytes_ok_memset (m : memory) (p c n : Z) : bytes_ok m -> bytes_ok (memset m p c n).
Proof.
  intros Hm a. unfold memset. destruct (_ && _); [apply to_u8_range | done].
Qed.

Lemma memset_in (m : memory) (p c n a : Z) : p <= a < p + n -> memset m p c n a = to_u8 c.
Proof.
  intros H. unfold memset.
  destruct (Z.leb_spec p a), (Z.ltb_spec a (p + n)); simpl; done || lia.
Qed.

Lemma memset_out (m : memory) (p c n a : Z) : a < p \/ p + n <= a -> memset m p c n a = m a.
Proof.
  intros H. unfold memset.
  destruct (Z.leb_spec p a), (Z.ltb_spec a (p + n)); simpl; done || lia.
Qed.

#[export] Hint Resolve bytes_ok_store bytes_ok_memset : words.

Lemma to_s8_inj (a b : Z) : is_u8 a -> is_u8 b -> to_s8 a = to_s8 b -> a = b.
Proof.
  unfold is_u8, to_s8, to_u8. intros Ha Hb. rewrite !Z.mod_small by lia.
  destruct (Z.ltb_spec a 128), (Z.ltb_spec b 128); lia.
Qed.

Lemma copy_up_spec (m : memory) (d s i : Z) (k : nat) (a : Z) : d <= s ->
  copy_up m d s i k a =
  if (d + i <=? a) && (a <? d + i + Z.of_nat k) then m (s + (a - d)) else m a.
Proof.
  intros Hds. revert m i. induction k as [| k IH]; intros m i; cbn [copy_up].
  - destruct (Z.leb_spec (d + i) a), (Z.ltb_spec a (d + i + Z.of_nat 0)); simpl; done || lia.
  - rewrite IH. unfold store.
    destruct (Z.leb_spec (d + (i + 1)) a), (Z.ltb_spec a (d + (i + 1) + Z.of_nat k)),
      (Z.leb_spec (d + i) a), (Z.ltb_spec a (d + i + Z.of_nat (S k))); simpl; try lia;
    repeat match goal with |- context [?x =? ?y] => destruct (Z.eqb_spec x y) end;
      try done; try lia; f_equal; lia.
Qed.

Lemma copy_down_spec (m : memory) (d s : Z) (k : nat) (a : Z) : s <= d ->
  copy_down m d s k a =
  if (d <=? a) && (a <? d + Z.of_nat k) then m (s + (a - d)) else m a.
Proof.
  intros Hds. revert m. induction k as [| k IH]; intros m; cbn [copy_down].
  - destruct (Z.leb_spec d a), (Z.ltb_spec a (d + Z.of_nat 0)); simpl; done || lia.
  - rewrite IH. unfold store.
    destruct (Z.leb_spec d a), (Z.ltb_spec a (d + Z.of_nat k)),
      (Z.ltb_spec a (d + Z.of_nat (S k))); simpl; try lia;
    repeat match goal with |- context [?x =? ?y] => destruct (Z.eqb_spec x y) end;
      try done; try lia; f_equal; lia.
Qed.

(** [__sanitizer_internal_memmove] copies correctly whatever the overlap:
    for every length below [2^63] it returns, and each destination byte holds
    what the matching source byte held before the call, every other byte being
    unchanged; for a length at or above [2^63] the [CHECK_GE] fails. *)
Theorem internal_memmove_correct (m : memory) (dest src n : Z) (Hn : is_uptr n) :
  match internal_memmove m dest src n with
  | Ok m' => n < 2 ^ 63 /\
      forall a, m' a = if (dest <=? a) && (a <? dest + n) then m (src + (a - dest)) else m a
  | Die d => 2 ^ 63 <= n /\ d = CheckFailed
  end.
Proof.
  change (2 ^ 63) with 9223372036854775808. unfold internal_memmove, swrap. rewrite wrap_small by done.
  destruct (Z.ltb_spec n 9223372036854775808).
  - unfold is_uptr in Hn. destruct (Z.leb_spec 0 n); [| lia]. simpl. split; [done |]. intros a.
    destruct (Z.ltb_spec dest src).
    + rewrite copy_up_spec by lia. by rewrite Z.add_0_r, Z2Nat.id by lia.
    + destruct (Z.ltb_spec src dest), (Z.ltb_spec 0 n); simpl.
      * rewrite copy_down_spec by lia. by rewrite Z2Nat.id by lia.
      * destruct (Z.leb_spec dest a), (Z.ltb_spec a (dest + n)); simpl; done || lia.
      * replace (src + (a - dest)) with a by lia. by destruct (_ && _).
      * destruct (Z.leb_spec dest a), (Z.ltb_spec a (dest + n)); simpl; done || lia.
  - unfold is_uptr, word_modulus in *. destruct (Z.leb_spec 0 (n - 18446744073709551616)); [lia |].
    simpl. done.
Qed.

Lemma internal_memmove_correct_witness :
  match internal_memmove (fun a => a mod 256) 12 10 5 with
  | Ok m' => 5 < 2 ^ 63 /\
      forall a, m' a = if (12 <=? a) && (a <? 12 + 5) then (10 + (a - 12)) mod 256 else a mod 256
  | Die d => 2 ^ 63 <= 5 /\ d = CheckFailed
  end.
Proof. apply (internal_memmove_correct (fun a => a mod 256) 12 10 5). vm_compute. split; congruence. Defined.

Lemma store_bytes_spec (m : memory) (p v : Z) (k : nat) (a : Z) :
  store_bytes m p v k a =
  if (p <=? a) && (a <? p + Z.of_nat k) then v / 256 ^ (a - p) mod 256 else m a.
Proof.
  revert m p v. induction k as [| k IH]; intros m p v; cbn [store_bytes].
  - destruct (Z.leb_spec p a), (Z.ltb_spec a (p + Z.of_nat 0)); simpl; done || lia.
  - rewrite IH. unfold store.
    destruct (Z.leb_spec (p + 1) a), (Z.ltb_spec a (p + 1 + Z.of_nat k)),
      (Z.leb_spec p a), (Z.ltb_spec a (p + Z.of_nat (S k))); simpl; try lia.
    + rewrite Z.div_div by lia. rewrite <- (Z.pow_succ_r 256) by lia. do 3 f_equal. lia.
    + destruct (Z.eqb_spec a p); [lia | done].
    + destruct (Z.eqb_spec a p); [subst | lia]. by rewrite Z.sub_diag, Z.pow_0_r, Z.div_1_r.
    + destruct (Z.eqb_spec a p); [lia | done].
Qed.

Lemma splat_byte (c i : Z) : 0 <= c < 256 -> 0 <= i < 8 -> splat c / 256 ^ i mod 256 = c.
Proof.
  intros Hc Hi.
  assert (Hall : forallb (fun c => forallb (fun i => splat c / 256 ^ i mod 256 =? c) (seqZ 0 8))
    (seqZ 0 256) = true) by (vm_compute; reflexivity).
  rewrite forallb_forall in Hall. specialize (Hall c).
  rewrite <- list_elem_of_In, elem_of_seqZ, forallb_forall in Hall.
  specialize (Hall ltac:(lia) i). rewrite <- list_elem_of_In, elem_of_seqZ, Z.eqb_eq in Hall.
  apply Hall. lia.
Qed.

Lemma memset_words_spec (m : memory) (p c : Z) (k : nat) (a : Z) : 0 <= c < 256 ->
  memset_words m p (splat c) k a =
  if (p <=? a) && (a <? p + 16 * Z.of_nat k) then c else m a.
Proof.
  intros Hc. revert m p. induction k as [| k IH]; intros m p; cbn [memset_words].
  - destruct (Z.leb_spec p a), (Z.ltb_spec a (p + 16 * Z.of_nat 0)); simpl; done || lia.
  - rewrite IH. unfold store64. rewrite !store_bytes_spec.
    destruct (Z.leb_spec (p + 16) a), (Z.ltb_spec a (p + 16 + 16 * Z.of_nat k)),
      (Z.leb_spec p a), (Z.ltb_spec a (p + 16 * Z.of_nat (S k))), (Z.ltb_spec a (p + Z.of_nat 8)),
      (Z.leb_spec (p + 8) a), (Z.ltb_spec a (p + 8 + Z.of_nat 8)); simpl; try done; try lia;
    apply splat_byte; lia.
Qed.

Lemma memset_chars_spec (m : memory) (t c : Z) (k : nat) (a : Z) :
  memset_chars m t c k a = if (t <=? a) && (a <? t + Z.of_nat k) then to_u8 c else m a.
Proof.
  revert m t. induction k as [| k IH]; intros m t; cbn [memset_chars].
  - destruct (Z.leb_spec t a), (Z.ltb_spec a (t + Z.of_nat 0)); simpl; done || lia.
  - rewrite IH. unfold store.
    destruct (Z.leb_spec (t + 1) a), (Z.ltb_spec a (t + 1 + Z.of_nat k)),
      (Z.leb_spec t a), (Z.ltb_spec a (t + Z.of_nat (S k))), (Z.eqb_spec a t); simpl; done || lia.
Qed.

(** [__sanitizer_internal_memset] is [memset] for every byte value: the
    word-at-a-time path for 16-byte aligned blocks and the byte loop write
    the same memory, for every address and length. *)
Theorem internal_memset_correct (m : memory) (s c n : Z) (Hc : 0 <= c < 256) (Hn : 0 <= n) :
  forall a, internal_memset m s c n a = memset m s c n a.
Proof.
  intros a. unfold internal_memset, memset, to_u8. rewrite (Z.mod_small c) by lia.
  destruct (_ && _) eqn:Hfast.
  - apply andb_true_iff in Hfast as [Hs H16]. rewrite Z.eqb_eq in Hs, H16.
    rewrite memset_words_spec by done. replace (16 * Z.of_nat (Z.to_nat (n / 16))) with n; [done |].
    rewrite Z2Nat.id; zlia.
  - rewrite memset_chars_spec. unfold to_u8. rewrite (Z.mod_small c), Z2Nat.id by lia. done.
Qed.

Lemma internal_memset_correct_witness :
  internal_memset (fun _ => 0) 4096 0xfd 32 4127 = 0xfd /\
  internal_memset (fun _ => 0) 4096 0xfd 32 4128 = 0.
Proof.
  split; (etransitivity; [apply internal_memset_correct; lia | reflexivity]).
Defined.

(** The word-at-a-time path does not reduce [c] to a byte first, as the C
    library's [memset] does: [v = c; v |= v << 8; ...] mixes the upper bits of
    [c] into the pattern, so outside the byte range the two paths differ. *)
Lemma internal_memset_wide_value :
  internal_memset (fun _ => 0) 0 (-2) 16 1 = 0xff /\
  internal_memset (fun _ => 0) 1 (-2) 16 2 = 0xfe.
Proof. split; reflexivity. Qed.

(** ** [mem_is_zero] *)

Definition zeros (m : memory) (p q : Z) : Prop := forall a, p <= a < q -> m a = 0.

Lemma zeros_cons (m : memory) (p q : Z) : p < q -> zeros m p q <-> m p = 0 /\ zeros m (p + 1) q.
Proof.
  intros Hpq. split.
  - intros H. split; [apply H; lia | intros a Ha; apply H; lia].
  - intros [Hp H] a Ha. destruct (decide (a = p)) as [-> | Hne]; [done | apply H; lia].
Qed.

Lemma zeros_nil (m : memory) (p q : Z) : q <= p -> zeros m p q.
Proof. intros H a Ha. lia. Qed.

Lemma zeros_app (m : memory) (p q r : Z) : p <= q <= r ->
  zeros m p r <-> zeros m p q /\ zeros m q r.
Proof.
  intros Hq. split.
  - intros H. split; intros a Ha; apply H; lia.
  - intros [H1 H2] a Ha. destruct (decide (a < q)); [apply H1 | apply H2]; lia.
Qed.

Lemma wrap_s8_zero (v : Z) : is_u8 v -> wrap (to_s8 v) = 0 <-> v = 0.
Proof.
  unfold is_u8, wrap, to_s8, to_u8, word_modulus. intros Hv. rewrite (Z.mod_small v 256) by lia.
  destruct (Z.ltb_spec v 128).
  - rewrite Z.mod_small by lia. done.
  - split; [| lia]. intros H0. exfalso. zlia.
Qed.

Lemma or_chars_zero (m : memory) (mem last all : Z) (k : nat) :
  bytes_ok m -> last - mem <= Z.of_nat k ->
  or_chars m mem last all k = 0 <-> all = 0 /\ zeros m mem last.
Proof.
  intros Hm. revert mem all. induction k as [| k IH]; intros mem all Hk; cbn [or_chars].
  - assert (zeros m mem last) by (apply zeros_nil; lia). tauto.
  - destruct (Z.ltb_spec mem last).
    + rewrite IH, Z.lor_eq_0_iff, (zeros_cons m mem) by lia. unfold load_s8.
      rewrite wrap_s8_zero by apply Hm. tauto.
    + assert (zeros m mem last) by (apply zeros_nil; lia). tauto.
Qed.

Lemma load_bytes_zero (m : memory) (p : Z) (k : nat) : bytes_ok m ->
  0 <= load_bytes m p k /\ (load_bytes m p k = 0 <-> zeros m p (p + Z.of_nat k)).
Proof.
  intros Hm. revert p. induction k as [| k IH]; intros p; cbn [load_bytes].
  - split; [lia |]. assert (zeros m p (p + Z.of_nat 0)) by (apply zeros_nil; lia). tauto.
  - specialize (IH (p + 1)). destruct IH as [IH1 IH2]. pose proof (Hm p) as Hp. unfold is_u8 in Hp.
    split; [lia |]. rewrite zeros_cons by lia.
    replace (p + Z.of_nat (S k)) with (p + 1 + Z.of_nat k) by lia. rewrite <- IH2. lia.
Qed.

Lemma or_words_zero (m : memory) (p last all : Z) (k : nat) :
  bytes_ok m -> (last - p) mod 8 = 0 -> last - p <= Z.of_nat k ->
  or_words m p last all k = 0 <-> all = 0 /\ zeros m p last.
Proof.
  intros Hm. revert p all. induction k as [| k IH]; intros p all H8 Hk; cbn [or_words].
  - assert (zeros m p last) by (apply zeros_nil; lia). tauto.
  - destruct (Z.ltb_spec p last).
    + rewrite IH, Z.lor_eq_0_iff, (zeros_app m p (p + 8)) by zlia.
      unfold load64. rewrite (proj2 (load_bytes_zero m p 8 Hm)). tauto.
    + assert (zeros m p last) by (apply zeros_nil; lia). tauto.
Qed.

Lemma pow2_word_8 : pow2_word 8.
Proof. by exists 3. Qed.
#[export] Hint Resolve pow2_word_8 : words.

(** The value of [mem_is_zero]; C? below states it with the bounds. *)
Lemma mem_is_zero_spec (m : memory) (beg size : Z) :
  bytes_ok m -> 0 <= beg -> 0 <= size <= 2 ^ 40 -> beg + size + 7 < word_modulus ->
  exists b, mem_is_zero m beg size = Ok b /\ (b = true <-> zeros m beg (beg + size)).
Proof.
  intros Hm Hb Hs Hw. change (2 ^ 40) with 1099511627776 in Hs. unfold mem_is_zero.
  rewrite check_true by (apply Z.leb_le; lia). step.
  destruct (RoundUpTo_nowrap beg 8 Hb pow2_word_8 ltac:(lia)) as (ab & -> & Hab & Hab8). step.
  rewrite RoundDownTo_spec by (unfold is_uptr; auto with words lia).
  set (last := beg + size). set (ae := last - last mod 8).
  assert (Hae : ae <= last < ae + 8) by (unfold ae; zlia).
  assert (Hae8 : ae mod 8 = 0) by (unfold ae; zlia).
  eexists; split; [done |]. rewrite Z.eqb_eq.
  destruct (Z.leb_spec beg ae) as [Hle | Hlt].
  - assert (ab <= ae) by zlia.
    rewrite or_chars_zero, or_words_zero, or_chars_zero by (done || zlia).
    replace (ab `min` last) with ab by lia.
    rewrite (zeros_app m beg ab last), (zeros_app m ab ae last) by lia. tauto.
  - rewrite or_words_zero, or_chars_zero by (done || zlia).
    replace (ab `min` last) with last by zlia. assert (zeros m ab ae) by (apply zeros_nil; lia). tauto.
Qed.

(** [mem_is_zero] decides whether every byte of the range is zero: its
    unaligned prologue, aligned 8-byte loop and epilogue together read each
    byte of [[beg, beg+size)] and no other, for every alignment and every
    size up to the [2^40] that its sanity check admits. *)
Theorem mem_is_zero_correct (m : memory) (beg size : Z) (Hm : bytes_ok m)
  (Hbeg : 0 <= beg) (Hsize : 0 <= size) (Hend : beg + size + 7 < 2 ^ 64) :
  if size <=? 2 ^ 40 then
    exists b, mem_is_zero m beg size = Ok b /\
      (b = true <-> forall a, beg <= a < beg + size -> m a = 0)
  else mem_is_zero m beg size = Die CheckFailed.
Proof.
  destruct (Z.leb_spec size (2 ^ 40)) as [Hle | Hgt].
  - by apply mem_is_zero_spec.
  - unfold mem_is_zero. change (2 ^ 40) with 1099511627776 in Hgt.
    by destruct (Z.leb_spec size 1099511627776); [lia |].
Qed.

Lemma mem_is_zero_correct_witness :
  exists b, mem_is_zero (fun a => if a =? 30 then 1 else 0) 3 27 = Ok b /\
    (b = true <-> forall a, 3 <= a < 3 + 27 -> (if a =? 30 then 1 else 0) = 0).
Proof.
  apply (mem_is_zero_correct (fun a => if a =? 30 then 1 else 0) 3 27); try lia.
  intros a. unfold is_u8. destruct (a =? 30); lia.
Defined.
