(* ===== verification/RingBuffer.v ===== *)
(** * RingBuffer of sanitizer_ring_buffer.h

    The object is a header of two pointers followed by the data, and [next_]
    runs downwards.  Pointers are indices into [data_]; the comparison of
    [push] is on the addresses those indices stand for, relative to [this]. *)

From S2P Require Import Prelude Words.

(** ** [RingBuffer] *)

Section ring.
Context {T : Type} (zero : T) (sizeof_T : Z).

Record RingBuffer : Type := MkRing { last_ : Z; next_ : Z; data_ : list T }.

(** [MmapOrDie] returns zeroed memory. *)
Definition New (Size : Z) : RingBuffer :=
  MkRing (Size - 1) (Size - 1) (replicate (Z.to_nat Size) zero).

Definition rb_size (rb : RingBuffer) : Z := last_ rb + 1.

Definition SizeInBytes (Size : Z) : Z := Size * sizeof_T + 2 * 8.

(** The address of [data_[i]] relative to [this], and that of [next_]. *)
Definition elem_addr (i : Z) : Z := 16 + sizeof_T * i.
Definition next_field_addr : Z := 8.

(** A load or store through an element pointer. *)
Definition rb_get (rb : RingBuffer) (i : Z) : result T :=
  if i <? 0 then Die BadAccess else get_or_die (data_ rb !! Z.to_nat i).
Definition rb_set (rb : RingBuffer) (i : Z) (t : T) : result (list T) :=
  if (i <? 0) || (Z.of_nat (length (data_ rb)) <=? i) then Die BadAccess
  else Ok (<[Z.to_nat i := t]> (data_ rb)).

Definition push (rb : RingBuffer) (t : T) : result RingBuffer :=
  d ← rb_set rb (next_ rb) t;
  let next := next_ rb - 1 in
  let next := if elem_addr next <=? next_field_addr then last_ rb else next in
  Ok (MkRing (last_ rb) next d).

Definition rb_index (rb : RingBuffer) (Idx : Z) : result T :=
  _ ← check (Idx <? rb_size rb);
  let IdxNext := Idx + 1 in
  let IdxNext := if last_ rb - next_ rb <? IdxNext then IdxNext - rb_size rb else IdxNext in
  rb_get rb (next_ rb + IdxNext).

(** A run of [push]es, oldest first. *)
Fixpoint push_all (rb : RingBuffer) (ts : list T) : result RingBuffer :=
  match ts with
  | [] => Ok rb
  | t :: ts' => rb' ← push rb t; push_all rb' ts'
  end.

(** ** What the buffer promises: the [i]-th most recent element *)

Definition ring_wf (n : Z) (rb : RingBuffer) : Prop :=
  0 < n /\ last_ rb = n - 1 /\ 0 <= next_ rb < n /\ Z.of_nat (length (data_ rb)) = n.

Definition ring_shows (n : Z) (rb : RingBuffer) (hist : Z -> T) : Prop :=
  forall i, 0 <= i < n -> rb_index rb i = Ok (hist i).

(** Most recent first, followed by the zeroes of the fresh mapping. *)
Definition recent (ts : list T) (i : Z) : T := nth (Z.to_nat i) (rev ts) zero.

Context (Hsize : 8 <= sizeof_T).

Lemma push_wf (n : Z) (rb : RingBuffer) (t : T) :
  ring_wf n rb -> exists rb', push rb t = Ok rb' /\ ring_wf n rb' /\
    data_ rb' = <[Z.to_nat (next_ rb) := t]> (data_ rb) /\
    next_ rb' = if next_ rb =? 0 then n - 1 else next_ rb - 1.
Proof.
  intros (Hn & Hl & Hx & Hd). unfold push, rb_set.
  destruct (Z.ltb_spec (next_ rb) 0), (Z.leb_spec (Z.of_nat (length (data_ rb))) (next_ rb));
    try lia. cbn [orb]. step. eexists; split; [done |]. cbn.
  unfold elem_addr, next_field_addr.
  destruct (Z.leb_spec (16 + sizeof_T * (next_ rb - 1)) 8), (Z.eqb_spec (next_ rb) 0); unfold ring_wf; cbn;
    rewrite ?length_insert; split_and!; try lia; try done; nia.
Qed.

(** The cell that index [i] reads. *)
Lemma rb_index_cell (n : Z) (rb : RingBuffer) (i : Z) : ring_wf n rb -> 0 <= i < n ->
  let j := if next_ rb + 1 + i <? n then next_ rb + 1 + i else next_ rb + 1 + i - n in
  0 <= j < n /\ rb_index rb i = get_or_die (data_ rb !! Z.to_nat j).
Proof.
  intros (Hn & Hl & Hx & Hd) Hi j. unfold rb_index, rb_size. rewrite Hl.
  rewrite check_true by (apply Z.ltb_lt; lia). step. unfold rb_get.
  assert (Hj : next_ rb + (if n - 1 - next_ rb <? i + 1 then i + 1 - (n - 1 + 1) else i + 1) = j).
  { unfold j. destruct (Z.ltb_spec (n - 1 - next_ rb) (i + 1)), (Z.ltb_spec (next_ rb + 1 + i) n); lia. }
  rewrite Hj. assert (0 <= j < n) by (unfold j; destruct (Z.ltb_spec (next_ rb + 1 + i) n); lia).
  split; [done |]. destruct (Z.ltb_spec j 0); [lia | done].
Qed.

Lemma push_shows (n : Z) (rb : RingBuffer) (hist : Z -> T) (t : T) :
  ring_wf n rb -> ring_shows n rb hist ->
  exists rb', push rb t = Ok rb' /\ ring_wf n rb' /\
    ring_shows n rb' (fun i => if i =? 0 then t else hist (i - 1)).
Proof.
  intros Hwf Hs. destruct (push_wf n rb t Hwf) as (rb' & Hp & Hwf' & Hd & Hx).
  exists rb'. split_and!; try done. intros i Hi.
  destruct (rb_index_cell n rb' i Hwf' Hi) as [Hj ->].
  pose proof Hwf as (Hn & Hl & Hxr & Hlen). rewrite Hx in *. rewrite Hd.
  destruct (Z.eqb_spec i 0) as [-> | Hi0].
  - assert (Hcell : (if (if next_ rb =? 0 then n - 1 else next_ rb - 1) + 1 + 0 <? n
        then (if next_ rb =? 0 then n - 1 else next_ rb - 1) + 1 + 0
        else (if next_ rb =? 0 then n - 1 else next_ rb - 1) + 1 + 0 - n) = next_ rb).
    { destruct (Z.eqb_spec (next_ rb) 0); (case_match; zb; lia). }
    rewrite Hcell, list_lookup_insert_eq by lia. done.
  - rewrite <- (Hs (i - 1)) by lia.
    destruct (rb_index_cell n rb (i - 1)) as [Hj' ->]; [done | lia |].
    assert (Hcell : (if (if next_ rb =? 0 then n - 1 else next_ rb - 1) + 1 + i <? n
        then (if next_ rb =? 0 then n - 1 else next_ rb - 1) + 1 + i
        else (if next_ rb =? 0 then n - 1 else next_ rb - 1) + 1 + i - n)
      = (if next_ rb + 1 + (i - 1) <? n then next_ rb + 1 + (i - 1) else next_ rb + 1 + (i - 1) - n)).
    { destruct (Z.eqb_spec (next_ rb) 0), (Z.ltb_spec (next_ rb + 1 + (i - 1)) n);
        (case_match; zb; lia). }
    rewrite Hcell. rewrite list_lookup_insert_ne; [done |].
    intros Heq. revert Hj'. destruct (Z.ltb_spec (next_ rb + 1 + (i - 1)) n); lia.
Qed.

Lemma New_wf (n : Z) : 0 < n -> ring_wf n (New n).
Proof. intros Hn. unfold ring_wf, New. cbn. rewrite length_replicate. lia. Qed.

Lemma New_shows (n : Z) : 0 < n -> ring_shows n (New n) (fun _ => zero).
Proof.
  intros Hn i Hi. destruct (rb_index_cell n (New n) i (New_wf n Hn) Hi) as [Hj ->].
  change (data_ (New n)) with (replicate (Z.to_nat n) zero). by rewrite lookup_replicate_2 by lia.
Qed.

Lemma push_all_shows (n : Z) (rb : RingBuffer) (hist : Z -> T) (ts : list T) :
  ring_wf n rb -> ring_shows n rb hist ->
  exists rb', push_all rb ts = Ok rb' /\ ring_wf n rb' /\
    ring_shows n rb' (fun i => if i <? Z.of_nat (length ts) then recent ts i
                               else hist (i - Z.of_nat (length ts))).
Proof.
  revert rb hist. induction ts as [| t ts IH]; intros rb hist Hwf Hs; cbn [push_all].
  - exists rb. split_and!; try done. intros i Hi. cbn [length].
    destruct (Z.ltb_spec i (Z.of_nat 0)); [lia |]. rewrite Z.sub_0_r. by apply Hs.
  - destruct (push_shows n rb hist t Hwf Hs) as (rb1 & -> & Hwf1 & Hs1). step.
    destruct (IH rb1 _ Hwf1 Hs1) as (rb' & -> & Hwf' & Hs'). exists rb'. split_and!; try done.
    intros i Hi. rewrite Hs' by done. f_equal. unfold recent. cbn [rev length].
    destruct (Z.ltb_spec i (Z.of_nat (length ts))), (Z.ltb_spec i (Z.of_nat (S (length ts)))); try lia.
    + rewrite app_nth1 by (rewrite length_rev; lia). done.
    + rewrite app_nth2 by (rewrite length_rev; lia). rewrite length_rev.
      destruct (Z.eqb_spec (i - Z.of_nat (length ts)) 0); [| lia].
      replace (Z.to_nat i - length ts)%nat with 0%nat by lia. done.
    + destruct (Z.eqb_spec (i - Z.of_nat (length ts)) 0); [lia |]. f_equal. lia.
Qed.

End ring.

Arguments RingBuffer T : clear implicits.

(** A [RingBuffer] of any size keeps the most recent elements: after any
    sequence of [push]es from [New(n)], all of which succeed, [rb[i]] is the
    [i]-th most recently pushed element, for every [i] below the size, and the
    zero element of the fresh mapping when fewer than [i+1] were pushed.  An
    element is at least as large as a pointer, which the class's
    [COMPILER_CHECK] requires of a non-empty type. *)
Theorem ring_buffer_keeps_recent {T : Type} (zero : T) (sizeof_T : Z) (n : Z) (ts : list T)
  (Hsize : 8 <= sizeof_T) (Hn : 0 < n) :
  exists rb, push_all sizeof_T (New zero n) ts = Ok rb /\
    forall i, 0 <= i < n -> rb_index rb i = Ok (recent zero ts i).
Proof.
  destruct (push_all_shows zero sizeof_T Hsize n (New zero n) (fun _ => zero) ts)
    as (rb & Hp & _ & Hs); [by apply New_wf | by apply New_shows |].
  exists rb. split; [done |]. intros i Hi. rewrite Hs by done.
  destruct (Z.ltb_spec i (Z.of_nat (length ts))); [done |].
  unfold recent. rewrite nth_overflow; [done |]. rewrite length_rev. lia.
Qed.

Lemma ring_buffer_keeps_recent_witness :
  exists rb, push_all 24 (New 0 3) [10; 20; 30; 40] = Ok rb /\
    forall i, 0 <= i < 3 -> rb_index rb i = Ok (recent 0 [10; 20; 30; 40] i).
Proof. apply (ring_buffer_keeps_recent 0 24 3 [10; 20; 30; 40]); lia. Defined.
