(* ===== verification/CompactRing.v ===== *)
(** * CompactRingBuffer of sanitizer_ring_buffer.h

    One word, [long_], holds the size of the storage in pages in its top byte
    and the address of the next element below it.  The storage is memory of
    the caller: [m a] is the element at address [a], [None] where there is
    none. *)

From S2P Require Import Prelude Words RingBuffer.

Section compact.
Context {T : Type} (sizeof_T : Z).

Definition storage : Type := Z -> option T.

Definition kPageSizeBits : Z := 12.
Definition kSizeShift : Z := 56.
Definition kSizeBits : Z := 64 - kSizeShift.
Definition kNextMask : Z := wshl 1 kSizeShift -w 1.

Definition GetStorageSize (long_ : Z) : Z := wshl (Z.shiftr long_ kSizeShift) kPageSizeBits.

(** [((sptr)x) << kSizeBits >> kSizeBits] *)
Definition SignExtend (x : Z) : Z := wrap (Z.shiftr (swrap (wshl x kSizeBits)) kSizeBits).

Definition Init (st size : Z) : result Z :=
  _ ← check (IsPowerOfTwo size);
  _ ← check (Z.shiftl 1 kPageSizeBits <=? size);
  _ ← check (size <=? Z.shiftl 128 kPageSizeBits);
  _ ← check (size mod 4096 =? 0);
  _ ← check (size mod sizeof_T =? 0);
  _ ← check (st mod (size *w 2) =? 0);
  _ ← check (st =? SignExtend (Z.land st kNextMask));
  Ok (Z.lor (Z.land st kNextMask) (wshl (Z.shiftr size kPageSizeBits) kSizeShift)).

Definition SetNext (long_ next : Z) : Z := Z.lor (Z.land long_ (wnot kNextMask)) (Z.land next kNextMask).
Definition Next (long_ : Z) : Z := SignExtend (Z.land long_ kNextMask).
Definition StartOfStorage (long_ : Z) : Z := Z.land (Next long_) (wnot (GetStorageSize long_ -w 1)).
Definition EndOfStorage (long_ : Z) : Z := StartOfStorage long_ +w GetStorageSize long_.
Definition compact_size (long_ : Z) : Z := GetStorageSize long_ / sizeof_T.

(** A store to an address that holds no element is not the program's. *)
Definition compact_push (m : storage) (long_ : Z) (t : T) : result (storage * Z) :=
  let next := Next long_ in
  _ ← get_or_die (m next);
  let m := fun a => if a =? next then Some t else m a in
  let next := next +w sizeof_T in
  let next := Z.land next (wnot (GetStorageSize long_)) in
  Ok (m, SetNext long_ next).

Definition compact_index (m : storage) (long_ Idx : Z) : result T :=
  _ ← check (Idx <? compact_size long_);
  let Begin := StartOfStorage long_ in
  let StorageIdx := Z.quot (swrap (Next long_ - Begin)) sizeof_T in
  let StorageIdx := StorageIdx - (Idx + 1) in
  let StorageIdx := if StorageIdx <? 0 then StorageIdx + compact_size long_ else StorageIdx in
  get_or_die (m (Begin +w (StorageIdx * sizeof_T))).

(** [CompactRingBuffer(other, storage)]: [internal_memcpy] of whole elements. *)
Definition compact_copy (m : storage) (other st : Z) : result (storage * Z) :=
  let size := GetStorageSize other in
  let m := fun a => if (st <=? a) && (a <? st + size) then m (a - st + StartOfStorage other) else m a in
  long_ ← Init st size;
  let Idx := Z.quot (swrap (Next other - StartOfStorage other)) sizeof_T in
  Ok (m, SetNext long_ (st +w (Idx * sizeof_T))).

Fixpoint compact_push_all (m : storage) (long_ : Z) (ts : list T) : result (storage * Z) :=
  match ts with
  | [] => Ok (m, long_)
  | t :: ts' => '(m, long_) ← compact_push m long_ t; compact_push_all m long_ ts'
  end.

(** ** The encoding *)

Lemma mask_value : kNextMask = 2 ^ 56 - 1.
Proof. reflexivity. Qed.

(** Addresses that survive [SignExtend]. *)
Definition canonical (a : Z) : Prop := 0 <= a < 2 ^ 55 \/ word_modulus - 2 ^ 55 <= a < word_modulus.

Lemma SignExtend_low (x : Z) : 0 <= x < 2 ^ 56 ->
  SignExtend x = if x <? 2 ^ 55 then x else x + (word_modulus - 2 ^ 56).
Proof.
  intros Hx. unfold SignExtend, kSizeBits, kSizeShift, wshl. replace (64 - 56) with 8 by lia.
  rewrite Z.shiftl_mul_pow2, Z.shiftr_div_pow2 by lia. change (2 ^ 8) with 256.
  rewrite (wrap_small (x * 256)) by (unfold is_uptr, word_modulus; lia).
  unfold swrap. rewrite (wrap_small (x * 256)) by (unfold is_uptr, word_modulus; lia).
  destruct (Z.ltb_spec (x * 256) 9223372036854775808), (Z.ltb_spec x (2 ^ 55)); try lia.
  - rewrite Z.div_mul by lia. apply wrap_small. unfold is_uptr, word_modulus. lia.
  - replace (x * 256 - word_modulus) with ((x - 2 ^ 56) * 256) by (unfold word_modulus; lia).
    rewrite Z.div_mul by lia. unfold wrap. rewrite <- (Z.mod_add _ 1) by done.
    rewrite Z.mod_small by (unfold word_modulus; lia). lia.
Qed.

Lemma SignExtend_canonical (a : Z) : is_uptr a -> SignExtend (Z.land a kNextMask) = a <-> canonical a.
Proof.
  intros Ha. rewrite mask_value, land_pow2_mod, SignExtend_low by (try apply Z.mod_pos_bound; lia).
  unfold canonical, is_uptr, word_modulus in *. destruct (Z.ltb_spec (a mod 2 ^ 56) (2 ^ 55)); zlia.
Qed.

(** [long_] for a storage of [pages] pages and the address [a]. *)
Definition packed (pages a : Z) : Z := a mod 2 ^ 56 + pages * 2 ^ 56.

Lemma lor_packed (x p : Z) : 0 <= x < 2 ^ 56 -> Z.lor x (p * 2 ^ 56) = x + p * 2 ^ 56.
Proof.
  intros Hx. rewrite <- Z.shiftl_mul_pow2 by lia.
  assert (Hl : Z.land x (Z.shiftl p 56) = 0).
  { apply Z.bits_inj'. intros i Hi. rewrite Z.land_spec, Z.bits_0. destruct (Z.ltb_spec i 56).
    - by rewrite Z.shiftl_spec_low, andb_false_r.
    - by rewrite (testbit_high x i 56). }
  rewrite Z.add_nocarry_lxor by done. symmetry. by apply Z.lxor_lor.
Qed.

Lemma packed_parts (pages a : Z) : 0 < pages <= 128 ->
  0 <= packed pages a < word_modulus /\ packed pages a mod 2 ^ 56 = a mod 2 ^ 56 /\ packed pages a / 2 ^ 56 = pages.
Proof.
  intros Hp. unfold packed. pose proof (Z.mod_pos_bound a (2 ^ 56) ltac:(lia)). split_and!.
  - lia.
  - unfold word_modulus. nia.
  - rewrite Z.mod_add by lia. by apply Z.mod_mod.
  - rewrite Z.div_add by lia. rewrite Z.div_small by done. lia.
Qed.

Lemma GetStorageSize_packed (pages a : Z) : 0 < pages <= 128 -> GetStorageSize (packed pages a) = pages * 4096.
Proof.
  intros Hp. destruct (packed_parts pages a Hp) as (_ & _ & Hd). unfold GetStorageSize, wshl, kSizeShift, kPageSizeBits.
  rewrite Z.shiftr_div_pow2, Hd, Z.shiftl_mul_pow2 by lia. apply wrap_small. unfold is_uptr, word_modulus. lia.
Qed.

Lemma Next_packed (pages a : Z) : 0 < pages <= 128 -> is_uptr a -> canonical a -> Next (packed pages a) = a.
Proof.
  intros Hp Ha Hc. unfold Next. rewrite mask_value, land_pow2_mod by lia.
  destruct (packed_parts pages a Hp) as (_ & -> & _). rewrite <- land_pow2_mod, <- mask_value by lia.
  by apply SignExtend_canonical.
Qed.

Lemma SetNext_packed (pages a b : Z) : 0 < pages <= 128 -> SetNext (packed pages a) b = packed pages b.
Proof.
  intros Hp. destruct (packed_parts pages a Hp) as (Hr & Hm & Hd). unfold SetNext. rewrite mask_value.
  rewrite land_wnot_pow2 by (done || lia). rewrite land_pow2_mod by lia.
  rewrite (Z.div_mod (packed pages a) (2 ^ 56)) at 1 by lia. rewrite Hd, Z.lor_comm.
  replace (2 ^ 56 * pages + packed pages a mod 2 ^ 56 - packed pages a mod 2 ^ 56) with (pages * 2 ^ 56) by lia.
  apply lor_packed. apply Z.mod_pos_bound. lia.
Qed.

(** ** Where the elements are *)

(** A storage of [2 ^ k] bytes at [st] with [n] elements, aligned to twice its
    size. *)
Record storage_ok (st k n : Z) : Prop := {
  so_k : 12 <= k <= 19;
  so_elem : 0 < sizeof_T;
  so_n : n * sizeof_T = 2 ^ k;
  so_addr : is_uptr st;
  so_align : st mod (2 * 2 ^ k) = 0;
  so_canon : canonical st;
}.
Definition pages (k : Z) : Z := 2 ^ (k - 12).
Definition elem (st i : Z) : Z := st + i * sizeof_T.

Lemma pow_k (k : Z) : 12 <= k <= 19 -> 2 ^ k = pages k * 4096 /\ 0 < pages k <= 128 /\
  2 ^ 55 = 2 ^ (54 - k) * (2 * 2 ^ k) /\ word_modulus = 2 ^ (63 - k) * (2 * 2 ^ k).
Proof.
  intros Hk. unfold pages. assert (Hp : forall a b, 0 <= a -> 0 <= b -> 2 ^ (a + b) = 2 ^ a * 2 ^ b) by (intros; by apply Z.pow_add_r).
  split_and!.
  - change 4096 with (2 ^ 12). rewrite <- Hp by lia. f_equal. lia.
  - lia.
  - change 128 with (2 ^ 7). apply Z.pow_le_mono_r; lia.
  - replace 55 with ((54 - k) + 1 + k) by lia. rewrite !Hp by lia. lia.
  - rewrite word_modulus_pow. replace 64 with ((63 - k) + 1 + k) at 1 by lia. rewrite !Hp by lia. lia.
Qed.

(** The storage does not cross the ends of the canonical ranges. *)
Lemma storage_room (st k n : Z) : storage_ok st k n ->
  (0 <= st /\ st + 2 * 2 ^ k <= 2 ^ 55) \/ (word_modulus - 2 ^ 55 <= st /\ st + 2 * 2 ^ k <= word_modulus).
Proof.
  intros [Hk Hs Hn Ha Hal Hc]. destruct (pow_k k Hk) as (_ & _ & H55 & Hm).
  apply Z.mod_divide in Hal as [q Hq]; [| lia]. assert (Hpos : 0 < 2 ^ k) by lia. set (s := 2 * 2 ^ k) in *.
  destruct Hc as [[H0 H1] | [H0 H1]]; [left | right]; (split; [done |]).
  - rewrite H55 in H1 |- *. subst st. assert (q < 2 ^ (54 - k)) by nia. nia.
  - rewrite Hm in H1 |- *. subst st. assert (q < 2 ^ (63 - k)) by nia. nia.
Qed.

Lemma inside (st k n j : Z) : storage_ok st k n -> 0 <= j <= 2 ^ k -> is_uptr (st + j) /\ canonical (st + j).
Proof.
  intros Ho Hj. pose proof (storage_room st k n Ho) as Hr. unfold is_uptr, canonical, word_modulus in *.
  assert (0 < 2 ^ k) by (destruct Ho; lia). lia.
Qed.

Lemma land_wnot_bit (x k : Z) : is_uptr x -> 0 <= k < 64 -> Z.land x (wnot (2 ^ k)) = Z.ldiff x (2 ^ k).
Proof.
  intros Hx Hk. assert (Hw : wnot (2 ^ k) = Z.ldiff (Z.ones 64) (2 ^ k)).
  { rewrite <- Z.sub_nocarry_ldiff.
    - unfold wnot. by rewrite Z.ones_equiv, word_modulus_pow.
    - apply Z.bits_inj'. intros i Hi. rewrite Z.ldiff_spec, Z.bits_0, Z.testbit_ones by lia.
      destruct (Z.eqb_spec i k) as [-> | Hne].
      + rewrite Z.pow2_bits_true by lia. destruct (Z.leb_spec 0 k), (Z.ltb_spec k 64); done || lia.
      + by rewrite Z.pow2_bits_false by lia. }
  rewrite Hw. apply Z.bits_inj'. intros i Hi. rewrite Z.land_spec, !Z.ldiff_spec, Z.testbit_ones by lia.
  destruct (Z.ltb_spec i 64).
  - by rewrite (proj2 (Z.leb_le 0 i)) by lia.
  - unfold is_uptr in Hx. rewrite word_modulus_pow in Hx. by rewrite (testbit_high x i 64) by lia.
Qed.

(** Clearing the size bit wraps the end of the storage to its start and
    leaves every address inside it alone. *)
Lemma wrap_next (st k n j : Z) : storage_ok st k n -> 0 <= j <= 2 ^ k ->
  Z.land (st + j) (wnot (2 ^ k)) = if j <? 2 ^ k then st + j else st.
Proof.
  intros Ho Hj. destruct (inside st k n j Ho Hj) as [Hu _]. pose proof Ho as [Hk _ _ Ha Hal _].
  rewrite land_wnot_bit by (done || lia). apply Z.mod_divide in Hal as [q Hq]; [| lia].
  assert (Hbit : forall j, 0 <= j < 2 ^ k -> Z.testbit (st + j) k = false).
  { intros i Hi. rewrite Z.testbit_odd, Z.shiftr_div_pow2 by lia.
    replace (st + i) with (i + (2 * q) * 2 ^ k) by lia. rewrite Z.div_add, Z.div_small by lia.
    by rewrite Z.add_0_l, Z.odd_mul. }
  assert (Hkeep : forall j, 0 <= j < 2 ^ k -> Z.ldiff (st + j) (2 ^ k) = st + j).
  { intros i Hi. apply Z.bits_inj'. intros b Hb. rewrite Z.ldiff_spec. destruct (Z.eqb_spec b k) as [-> | Hne].
    - by rewrite Hbit.
    - by rewrite Z.pow2_bits_false, andb_true_r by lia. }
  destruct (Z.ltb_spec j (2 ^ k)); [by apply Hkeep; lia |]. replace j with (2 ^ k) by lia.
  assert (Hst : Z.land st (2 ^ k) = 0).
  { apply Z.bits_inj'. intros b Hb. rewrite Z.land_spec, Z.bits_0. destruct (Z.eqb_spec b k) as [-> | Hne].
    - specialize (Hbit 0 ltac:(lia)). rewrite Z.add_0_r in Hbit. by rewrite Hbit.
    - by rewrite Z.pow2_bits_false, andb_false_r by lia. }
  rewrite Z.add_nocarry_lxor by done. rewrite Z.lxor_lor by done.
  apply Z.bits_inj'. intros b Hb. rewrite Z.ldiff_spec, Z.lor_spec.
  assert (Hz : Z.testbit (Z.land st (2 ^ k)) b = false) by (rewrite Hst; apply Z.bits_0). rewrite Z.land_spec in Hz.
  by destruct (Z.testbit st b), (Z.testbit (2 ^ k) b).
Qed.

Lemma start_of_packed (st k n j : Z) : storage_ok st k n -> 0 <= j < 2 ^ k ->
  StartOfStorage (packed (pages k) (st + j)) = st /\ Next (packed (pages k) (st + j)) = st + j /\
  GetStorageSize (packed (pages k) (st + j)) = 2 ^ k.
Proof.
  intros Ho Hj. destruct (inside st k n j Ho ltac:(lia)) as [Hu Hc]. pose proof Ho as [Hk _ _ Ha Hal _].
  destruct (pow_k k Hk) as (Hp & Hpr & _). unfold StartOfStorage.
  rewrite Next_packed, GetStorageSize_packed, <- Hp by done. split_and!; [| done | done].
  rewrite wrap_small by (unfold is_uptr, word_modulus; nia). rewrite land_wnot_pow2 by (done || lia).
  apply Z.mod_divide in Hal as [q Hq]; [| lia].
  replace (st + j) with (j + (2 * q) * 2 ^ k) at 2 by lia. rewrite Z.mod_add, Z.mod_small by lia. lia.
Qed.

(** ** Pushing and reading *)

Record compact_wf (st k n : Z) (m : storage) (long_ idx : Z) : Prop := {
  cw_ok : storage_ok st k n;
  cw_long : long_ = packed (pages k) (elem st idx);
  cw_idx : 0 <= idx < n;
  cw_mem : forall i, 0 <= i < n -> exists t, m (elem st i) = Some t;
}.

Lemma elem_offset (st k n i : Z) : storage_ok st k n -> 0 <= i < n -> 0 <= i * sizeof_T < 2 ^ k.
Proof. intros [_ Hs Hn _ _ _] Hi. nia. Qed.

Lemma elem_inj (st k n i j : Z) : storage_ok st k n -> elem st i = elem st j -> i = j.
Proof. intros [_ Hs _ _ _ _]. unfold elem. nia. Qed.

Lemma compact_push_spec (st k n : Z) (m : storage) (long_ idx : Z) (t : T) : compact_wf st k n m long_ idx ->
  exists m' long', compact_push m long_ t = Ok (m', long') /\
    compact_wf st k n m' long' (if idx + 1 =? n then 0 else idx + 1) /\
    m' = (fun a => if a =? elem st idx then Some t else m a).
Proof.
  intros [Ho -> Hi Hm]. pose proof (elem_offset st k n idx Ho Hi) as Hoff.
  destruct (start_of_packed st k n _ Ho Hoff) as (_ & HN & HG). destruct (Hm idx Hi) as [t0 Ht0].
  fold (elem st idx) in HN, HG. unfold compact_push. rewrite HN, HG, Ht0. cbn [get_or_die].
  rewrite Ok_bind. pose proof Ho as [Hk Hs Hn Ha Hal Hc].
  assert (Hend : 0 <= (idx + 1) * sizeof_T <= 2 ^ k) by nia.
  destruct (inside st k n _ Ho Hend) as [Hu _].
  replace (elem st idx + sizeof_T) with (st + (idx + 1) * sizeof_T) by (unfold elem; lia).
  rewrite wrap_small by done. rewrite (wrap_next st k n) by done.
  destruct (pow_k k Hk) as (_ & Hp & _). rewrite SetNext_packed by done.
  eexists _, _. split; [done |]. split; [| done]. split; [done | | |].
  - f_equal. unfold elem. destruct (Z.ltb_spec ((idx + 1) * sizeof_T) (2 ^ k)), (Z.eqb_spec (idx + 1) n); nia.
  - destruct (Z.eqb_spec (idx + 1) n); lia.
  - intros i Hi'. destruct (elem st i =? elem st idx); [by exists t | by apply Hm].
Qed.

(** The cell that [operator[]] reads. *)
Lemma compact_index_spec (st k n : Z) (m : storage) (long_ idx i : Z) : compact_wf st k n m long_ idx -> 0 <= i < n ->
  let j := if idx - (i + 1) <? 0 then idx - (i + 1) + n else idx - (i + 1) in
  0 <= j < n /\ compact_index m long_ i = get_or_die (m (elem st j)).
Proof.
  intros [Ho -> Hi Hm] Hi' j. pose proof (elem_offset st k n idx Ho Hi) as Hoff.
  destruct (start_of_packed st k n _ Ho Hoff) as (HS & HN & HG).
  assert (Hj : 0 <= j < n) by (unfold j; destruct (Z.ltb_spec (idx - (i + 1)) 0); lia). split; [done |].
  pose proof (elem_offset st k n j Ho Hj) as Hjo. destruct (inside st k n (j * sizeof_T) Ho ltac:(lia)) as [Hju _].
  pose proof Ho as [Hk Hs Hn Ha Hal Hc].
  fold (elem st idx) in HS, HN, HG. unfold compact_index, compact_size. rewrite HS, HN, HG.
  assert (Hsize : 2 ^ k / sizeof_T = n) by (rewrite <- Hn; apply Z.div_mul; lia). rewrite Hsize.
  rewrite check_true by (apply Z.ltb_lt; lia). rewrite Ok_bind.
  replace (elem st idx - st) with (idx * sizeof_T) by (unfold elem; lia).
  assert (2 ^ k <= 2 ^ 19) by (apply Z.pow_le_mono_r; lia).
  rewrite swrap_small by (unfold is_sptr; lia). rewrite Z.quot_mul by lia. fold j. by rewrite wrap_small.
Qed.

Definition compact_shows (n : Z) (m : storage) (long_ : Z) (hist : Z -> T) : Prop :=
  forall i, 0 <= i < n -> compact_index m long_ i = Ok (hist i).

Lemma compact_push_shows (st k n : Z) (m : storage) (long_ idx : Z) (hist : Z -> T) (t : T) :
  compact_wf st k n m long_ idx -> compact_shows n m long_ hist ->
  exists m' long' idx', compact_push m long_ t = Ok (m', long') /\ compact_wf st k n m' long' idx' /\
    compact_shows n m' long' (fun i => if i =? 0 then t else hist (i - 1)) /\
    forall a, ~ (st <= a < st + 2 ^ k) -> m' a = m a.
Proof.
  intros Hw Hs. destruct (compact_push_spec st k n m long_ idx t Hw) as (m' & long' & Hp & Hw' & Hm').
  pose proof Hw as [Ho _ Hi _]. eexists m', long', _. split_and!; [done | done | |].
  - intros i Hi'. destruct (compact_index_spec st k n m' long' _ i Hw' Hi') as [Hj ->]. rewrite Hm'.
    destruct (Z.eqb_spec i 0) as [-> | Hne].
    + match goal with |- context [elem st ?j] => replace j with idx by (repeat case_match; zb; lia) end.
      by rewrite Z.eqb_refl.
    + destruct (compact_index_spec st k n m long_ idx (i - 1) Hw ltac:(lia)) as [Hj' Hidx].
      rewrite <- (Hs (i - 1)) by lia. rewrite Hidx.
      match goal with |- context [elem st ?j =? _] => replace j with
        (if idx - (i - 1 + 1) <? 0 then idx - (i - 1 + 1) + n else idx - (i - 1 + 1)) by (repeat case_match; zb; lia) end.
      rewrite (proj2 (Z.eqb_neq _ _)); [done |]. intros He%(elem_inj st k n) ; [| done].
      revert He. case_match; zb; lia.
  - intros a Ha. rewrite Hm'. destruct (Z.eqb_spec a (elem st idx)) as [-> |]; [| done].
    destruct Ha. pose proof (elem_offset st k n idx Ho Hi). unfold elem. lia.
Qed.

Lemma compact_push_all_shows (zero : T) (ts : list T) (st k n : Z) (m : storage) (long_ idx : Z) (hist : Z -> T) :
  compact_wf st k n m long_ idx -> compact_shows n m long_ hist ->
  exists m' long' idx', compact_push_all m long_ ts = Ok (m', long') /\ compact_wf st k n m' long' idx' /\
    compact_shows n m' long' (fun i => if i <? Z.of_nat (length ts) then recent zero ts i
                                       else hist (i - Z.of_nat (length ts))) /\
    forall a, ~ (st <= a < st + 2 ^ k) -> m' a = m a.
Proof.
  revert m long_ idx hist. induction ts as [| t ts IH]; intros m long_ idx hist Hw Hs; cbn [compact_push_all].
  - exists m, long_, idx. split_and!; try done. intros i Hi. cbn [length].
    destruct (Z.ltb_spec i (Z.of_nat 0)); [lia |]. rewrite Z.sub_0_r. by apply Hs.
  - destruct (compact_push_shows st k n m long_ idx hist t Hw Hs) as (m1 & l1 & i1 & -> & Hw1 & Hs1 & Ho1). rewrite Ok_bind.
    destruct (IH m1 l1 i1 _ Hw1 Hs1) as (m2 & l2 & i2 & -> & Hw2 & Hs2 & Ho2). exists m2, l2, i2. split_and!; try done.
    + intros i Hi. rewrite Hs2 by done. f_equal. unfold recent. cbn [rev length].
      destruct (Z.ltb_spec i (Z.of_nat (length ts))), (Z.ltb_spec i (Z.of_nat (S (length ts)))); try lia.
      * rewrite app_nth1 by (rewrite length_rev; lia). done.
      * rewrite app_nth2 by (rewrite length_rev; lia). rewrite length_rev.
        destruct (Z.eqb_spec (i - Z.of_nat (length ts)) 0); [| lia].
        replace (Z.to_nat i - length ts)%nat with 0%nat by lia. done.
      * destruct (Z.eqb_spec (i - Z.of_nat (length ts)) 0); [lia |]. f_equal. lia.
    + intros a Ha. rewrite Ho2 by done. by apply Ho1.
Qed.

(** What [Init] accepts. *)
Lemma Init_Ok (st size long_ : Z) : 0 < sizeof_T -> is_uptr st -> is_uptr size -> Init st size = Ok long_ ->
  exists k, size = 2 ^ k /\ storage_ok st k (size / sizeof_T) /\ long_ = packed (pages k) st.
Proof.
  intros Hs Ha Hsz. unfold Init. intros HI. inv_ok.
  apply IsPowerOfTwo_spec in Hr as [-> | (k & Hk & ->)]; [done | | done]. zb.
  change (Z.shiftl 1 kPageSizeBits) with (2 ^ 12) in *. change (Z.shiftl 128 kPageSizeBits) with (2 ^ 19) in *.
  assert (Hk' : 12 <= k <= 19) by (split; apply (Z.pow_le_mono_r_iff 2); lia).
  destruct (pow_k k Hk') as (Hp & Hpr & _). exists k. split; [done |].
  assert (Hcan : canonical st) by by apply SignExtend_canonical. split.
  - split; try done.
    + pose proof (Z.div_mod (2 ^ k) sizeof_T). lia.
    + rewrite wrap_small in * by (unfold is_uptr, word_modulus; nia). by rewrite (Z.mul_comm 2).
  - rewrite mask_value, land_pow2_mod by lia. unfold wshl, kPageSizeBits, kSizeShift.
    rewrite Z.shiftr_div_pow2 by lia. change (2 ^ 12) with 4096. rewrite Hp, Z.div_mul by lia.
    rewrite Z.shiftl_mul_pow2, wrap_small by (unfold is_uptr, word_modulus; nia).
    apply lor_packed. apply Z.mod_pos_bound. lia.
Qed.

(** A copy at another place shows the same elements. *)
Lemma compact_copy_spec (st k n st' : Z) (m : storage) (long_ idx l' : Z) : compact_wf st k n m long_ idx ->
  is_uptr st' -> Init st' (2 ^ k) = Ok l' -> st' + 2 ^ k <= st \/ st + 2 ^ k <= st' ->
  exists m2 l2, compact_copy m long_ st' = Ok (m2, l2) /\ compact_wf st' k n m2 l2 idx /\
    forall i, 0 <= i < n -> compact_index m2 l2 i = compact_index m long_ i.
Proof.
  intros Hw Ha HI Hdis. pose proof Hw as [Ho -> Hi Hm]. pose proof Ho as [Hk Hs Hn _ _ _].
  pose proof (elem_offset st k n idx Ho Hi) as Hoff. destruct (start_of_packed st k n _ Ho Hoff) as (HS & HN & HG).
  fold (elem st idx) in HS, HN, HG. unfold compact_copy. rewrite HS, HN, HG.
  assert (H2k : 2 ^ k <= 2 ^ 19) by (apply Z.pow_le_mono_r; lia).
  destruct (Init_Ok st' (2 ^ k) l' Hs Ha ltac:(unfold is_uptr, word_modulus; lia) HI) as (k' & Hkk & Ho' & ->).
  assert (k' = k) as -> by (destruct Ho'; apply (Z.pow_inj_r 2); lia).
  assert (Hsize : 2 ^ k / sizeof_T = n) by (rewrite <- Hn; apply Z.div_mul; lia). rewrite Hsize in Ho'.
  rewrite HI. rewrite Ok_bind. replace (elem st idx - st) with (idx * sizeof_T) by (unfold elem; lia).
  rewrite swrap_small by (unfold is_sptr; lia). rewrite Z.quot_mul by lia.
  destruct (inside st' k n (idx * sizeof_T) Ho' ltac:(lia)) as [Hu' _]. rewrite wrap_small by done.
  destruct (pow_k k Hk) as (_ & Hpr & _). rewrite SetNext_packed by done.
  set (m2 := (fun a => if (st' <=? a) && (a <? st' + 2 ^ k) then m (a - st' + st) else m a) : storage).
  assert (Hm2 : forall i, 0 <= i < n -> m2 (elem st' i) = m (elem st i)).
  { intros i Hi'. pose proof (elem_offset st' k n i Ho' Hi'). unfold m2, elem in *.
    rewrite (proj2 (Z.leb_le _ _)), (proj2 (Z.ltb_lt _ _)) by lia. cbn [andb]. f_equal. lia. }
  exists m2, (packed (pages k) (elem st' idx)). split; [done |].
  assert (Hw2 : compact_wf st' k n m2 (packed (pages k) (elem st' idx)) idx).
  { split; try done. intros i Hi'. rewrite Hm2 by done. by apply Hm. }
  split; [done |]. intros i Hi'.
  destruct (compact_index_spec st' k n m2 _ idx i Hw2 Hi') as [Hj H2].
  destruct (compact_index_spec st k n m _ idx i Hw Hi') as [_ H1]. rewrite H2, H1. by rewrite Hm2.
Qed.
End compact.

Arguments storage T : clear implicits.

(** A [CompactRingBuffer] whose constructor's CHECKs pass keeps the most
    recent elements.  For any element size, storage of any admitted size and
    address, and any sequence of pushes: no push or read leaves the storage,
    the storage and its size can be read back from the one word, [rb[i]] is
    the [i]-th most recent element pushed, or what the storage held before
    when fewer were pushed, and memory outside the storage is unchanged; a
    copy made over another storage of that size that does not overlap it
    shows the same elements. *)
Theorem compact_ring_buffer_keeps_recent {T : Type} (zero : T) (sizeof_T : Z) (m : storage T) (st size long_ : Z) (ts : list T) :
  let n := size / sizeof_T in
  0 < sizeof_T -> is_uptr st -> is_uptr size -> Init sizeof_T st size = Ok long_ ->
  (forall i, 0 <= i < n -> exists t, m (st + i * sizeof_T) = Some t) ->
  exists m' long', compact_push_all sizeof_T m long_ ts = Ok (m', long') /\
    StartOfStorage long' = st /\ EndOfStorage long' = st +w size /\ compact_size sizeof_T long' = n /\
    (forall i, 0 <= i < n -> compact_index sizeof_T m' long' i =
      if i <? Z.of_nat (length ts) then Ok (recent zero ts i)
      else get_or_die (m (st + (n - 1 - (i - Z.of_nat (length ts))) * sizeof_T))) /\
    (forall a, ~ (st <= a < st + size) -> m' a = m a) /\
    (forall st' l', is_uptr st' -> Init sizeof_T st' size = Ok l' -> st' + size <= st \/ st + size <= st' ->
      exists m2 l2, compact_copy sizeof_T m' long' st' = Ok (m2, l2) /\
        forall i, 0 <= i < n -> compact_index sizeof_T m2 l2 i = compact_index sizeof_T m' long' i).
Proof.
  intros n Hs Ha Hsz HI Hm. destruct (Init_Ok sizeof_T st size long_ Hs Ha Hsz HI) as (k & -> & Ho & ->).
  fold n in Ho. pose proof Ho as [Hk _ Hn _ _ _].
  assert (Hn0 : 0 < n) by (assert (0 < 2 ^ k) by lia; nia).
  assert (Hw : compact_wf sizeof_T st k n m (packed (pages k) st) 0).
  { split; [done | f_equal; unfold elem; lia | lia | done]. }
  set (hist := fun i => default zero (m (elem sizeof_T st (n - 1 - i)))).
  assert (Hshow : compact_shows sizeof_T n m (packed (pages k) st) hist).
  { intros i Hi. destruct (compact_index_spec sizeof_T st k n m _ 0 i Hw Hi) as [Hj ->]. unfold hist.
    rewrite (proj2 (Z.ltb_lt _ _)) by lia. replace (0 - (i + 1) + n) with (n - 1 - i) by lia.
    destruct (Hm (n - 1 - i) ltac:(lia)) as [t Ht]. unfold elem. by rewrite Ht. }
  destruct (compact_push_all_shows sizeof_T zero ts st k n m _ 0 hist Hw Hshow) as (m' & l' & idx & -> & Hw' & Hs' & Hout).
  exists m', l'. pose proof Hw' as [_ Hl Hidx _]. pose proof (elem_offset sizeof_T st k n idx Ho Hidx) as Hoff.
  destruct (start_of_packed sizeof_T st k n _ Ho Hoff) as (HS & _ & HG). fold (elem sizeof_T st idx) in HS, HG. rewrite <- Hl in HS, HG.
  split_and!; try done.
  - unfold EndOfStorage. by rewrite HS, HG.
  - unfold compact_size. by rewrite HG.
  - intros i Hi. rewrite Hs' by done. destruct (Z.ltb_spec i (Z.of_nat (length ts))); [done |]. unfold hist, elem.
    destruct (Hm (n - 1 - (i - Z.of_nat (length ts))) ltac:(lia)) as [t Ht]. by rewrite Ht.
  - intros st' l2 Ha' HI' Hdis.
    destruct (compact_copy_spec sizeof_T st k n st' m' l' idx l2 Hw' Ha' HI' Hdis) as (m2 & l3 & H1 & _ & H3). by exists m2, l3.
Qed.

Lemma compact_ring_buffer_keeps_recent_witness :
  let m : storage Z := fun a => if (8192 <=? a) && (a <? 12288) && (a mod 1024 =? 0) then Some 7 else None in
  Init 1024 8192 4096 = Ok 72057594037936128 /\
  exists m' long', compact_push_all 1024 m 72057594037936128 [10; 20; 30; 40; 50] = Ok (m', long') /\
    StartOfStorage long' = 8192.
Proof.
  split; [vm_compute; reflexivity |].
  destruct (compact_ring_buffer_keeps_recent 0 1024
    (fun a => if (8192 <=? a) && (a <? 12288) && (a mod 1024 =? 0) then Some 7 else None) 8192 4096 72057594037936128
    [10; 20; 30; 40; 50]) as (m' & l' & H1 & H2 & _).
  - lia.
  - split; vm_compute; [discriminate | reflexivity].
  - split; vm_compute; [discriminate | reflexivity].
  - vm_compute. reflexivity.
  - intros i Hi. change (4096 / 1024) with 4 in Hi. assert (i = 0 \/ i = 1 \/ i = 2 \/ i = 3) as Hc by lia.
    exists 7. by destruct Hc as [-> | [-> | [-> | ->]]].
  - exists m', l'. split; [exact H1 | exact H2].
Defined.
