(* ===== verification/Poisoning.v ===== *)
(** * Shadow poisoning: asan_poisoning.cpp and asan_poisoning.h

    The shadow bytes live in the process memory of [Memory], at the addresses
    of [ShadowMapping].  The state is that memory, the [can_poison_memory]
    flag and the ring of poison records.  What the code reads from outside -
    flags, the page size, the fixed [mmap] that replaces large zero ranges,
    the stack depot and thread id of a record - are parameters. *)

From S2P Require Import Prelude Words ShadowMapping Memory RingBuffer.

(** The magic bytes of asan_internal.h. *)
Definition kAsanHeapLeftRedzoneMagic : Z := 0xfa.
Definition kAsanHeapFreeMagic : Z := 0xfd.
Definition kAsanUserPoisonedMemoryMagic : Z := 0xf7.
Definition kAsanContiguousContainerOOBMagic : Z := 0xfc.
Definition kAsanStackUseAfterScopeMagic : Z := 0xf8.
Definition kAsanArrayCookieMagic : Z := 0xac.
Definition kAsanIntraObjectRedzone : Z := 0xbb.

Record flags : Type := Flags {
  allow_user_poisoning : bool;
  poison_history_size : Z;
  poison_partial : bool;
  poison_array_cookie : bool;
  detect_container_overflow : bool;
  clear_shadow_mmap_threshold : Z;
  halt_on_error : bool;
}.

Record PoisonRecord : Type := MkPoisonRecord {
  stack_id : Z; thread_id : Z; rec_begin : Z; rec_end : Z
}.
Definition zero_record : PoisonRecord := MkPoisonRecord 0 0 0 0.
Definition sizeof_PoisonRecord : Z := 24.

Record asan_state : Type := AsanState {
  mem : memory;
  can_poison_memory : bool;
  poison_records : option (RingBuffer PoisonRecord);
}.

Definition with_mem (s : asan_state) (m : memory) : asan_state :=
  AsanState m (can_poison_memory s) (poison_records s).

Section poisoning.
Context (M : mapping) (fl : flags).
(** [GetPageSizeCached()], and [MmapFixedSuperNoReserve]: the memory after a
    fixed mapping of [size] bytes at [beg], [None] when the system refuses. *)
Context (page_size : Z) (mmap_fixed : memory -> Z -> Z -> option memory).

(** [ReserveShadowMemoryRange] of sanitizer_common_libcdep.cpp. *)
Definition ReserveShadowMemoryRange (m : memory) (beg last : Z) : result memory :=
  _ ← check (beg mod page_size =? 0);
  _ ← check ((last + 1) mod page_size =? 0);
  let size := last - beg + 1 in
  match mmap_fixed m beg size with
  | Some m' => Ok m'
  | None => Die (Reported "ReserveShadowMemoryRange failed")
  end.

Definition AddPoisonRecord (s : asan_state) (r : PoisonRecord) : result asan_state :=
  if poison_history_size fl <=? 0 then Ok s
  else
    let ring := match poison_records s with
                | None => New zero_record (poison_history_size fl)
                | Some ring => ring
                end in
    ring' ← push sizeof_PoisonRecord ring r;
    Ok (AsanState (mem s) (can_poison_memory s) (Some ring')).

Fixpoint find_record_loop (ring : RingBuffer PoisonRecord) (addr i : Z) (k : nat)
  : result (option PoisonRecord) :=
  match k with
  | O => Ok None
  | S k' =>
      record ← rb_index ring i;
      if (rec_begin record <=? addr) && (addr <? rec_end record) then Ok (Some record)
      else find_record_loop ring addr (i + 1) k'
  end.

Definition FindPoisonRecord (s : asan_state) (addr : Z) : result (option PoisonRecord) :=
  if poison_history_size fl <=? 0 then Ok None
  else match poison_records s with
       | Some ring => find_record_loop ring addr 0 (Z.to_nat (rb_size ring))
       | None => Ok None
       end.

Definition SetCanPoisonMemory (s : asan_state) (value : bool) : asan_state :=
  AsanState (mem s) value (poison_records s).

Definition FastPoisonShadow (m : memory) (aligned_beg aligned_size value : Z) : result memory :=
  let shadow_beg := MEM_TO_SHADOW M aligned_beg in
  let shadow_end :=
    MEM_TO_SHADOW M (aligned_beg + aligned_size -w ASAN_SHADOW_GRANULARITY) +w 1 in
  if negb (value =? 0) || (wrap (shadow_end - shadow_beg) <? clear_shadow_mmap_threshold fl) then
    Ok (memset m shadow_beg value (wrap (shadow_end - shadow_beg)))
  else
    page_beg ← RoundUpTo shadow_beg page_size;
    let page_end := RoundDownTo shadow_end page_size in
    if page_end <=? page_beg then
      Ok (memset m shadow_beg 0 (wrap (shadow_end - shadow_beg)))
    else
      let m := if negb (page_beg =? shadow_beg)
               then memset m shadow_beg 0 (page_beg - shadow_beg) else m in
      let m := if negb (page_end =? shadow_end)
               then memset m page_end 0 (shadow_end - page_end) else m in
      ReserveShadowMemoryRange m page_beg (page_end - 1).

(** [shadow] runs over the shadow bytes of the redzone. *)
Fixpoint partial_redzone_loop (m : memory) (shadow i size value : Z) (k : nat) : memory :=
  match k with
  | O => m
  | S k' =>
      let v :=
        if i + ASAN_SHADOW_GRANULARITY <=? size then 0
        else if size <=? i then value
        else if poison_partial fl then to_u8 (size - i) else 0 in
      partial_redzone_loop (store m shadow v) (shadow + 1) (i + ASAN_SHADOW_GRANULARITY)
        size value k'
  end.

Definition FastPoisonShadowPartialRightRedzone
  (m : memory) (aligned_addr size redzone_size value : Z) : memory :=
  partial_redzone_loop m (MEM_TO_SHADOW M aligned_addr) 0 size value
    (Z.to_nat ((redzone_size + ASAN_SHADOW_GRANULARITY - 1) / ASAN_SHADOW_GRANULARITY)).

Definition PoisonShadow (s : asan_state) (addr size value : Z) : result asan_state :=
  if negb (value =? 0) && negb (can_poison_memory s) then Ok s
  else
    _ ← check (AddrIsAlignedByGranularity addr);
    _ ← check (AddrIsInMem M addr);
    _ ← check (AddrIsAlignedByGranularity (addr +w size));
    _ ← check (AddrIsInMem M (addr + size -w ASAN_SHADOW_GRANULARITY));
    m ← FastPoisonShadow (mem s) addr size value;
    Ok (with_mem s m).

Definition PoisonShadowPartialRightRedzone (s : asan_state) (addr size redzone_size value : Z)
  : result asan_state :=
  if negb (can_poison_memory s) then Ok s
  else
    _ ← check (AddrIsAlignedByGranularity addr);
    _ ← check (AddrIsInMem M addr);
    Ok (with_mem s (FastPoisonShadowPartialRightRedzone (mem s) addr size redzone_size value)).

Record ShadowSegmentEndpoint : Type := Endpoint { chunk : Z; offset : Z; value : Z }.

Definition MakeEndpoint (m : memory) (address : Z) : result ShadowSegmentEndpoint :=
  chunk ← MemToShadow M address;
  Ok (Endpoint chunk (Z.land address (ASAN_SHADOW_GRANULARITY - 1)) (load_s8 m chunk)).

(** [for (; ptr < end; ptr += ASAN_SHADOW_GRANULARITY) *MemToShadow(ptr) = v;] *)
Fixpoint intra_object_loop (m : memory) (ptr last v : Z) (k : nat) : result memory :=
  match k with
  | O => Ok m
  | S k' =>
      if ptr <? last then
        p ← MemToShadow M ptr;
        intra_object_loop (store m p v) (ptr + ASAN_SHADOW_GRANULARITY) last v k'
      else Ok m
  end.

Definition AsanPoisonOrUnpoisonIntraObjectRedzone (s : asan_state) (ptr size : Z) (poison : bool)
  : result asan_state :=
  let last := ptr +w size in
  _ ← check (negb (size =? 0));
  _ ← check (size <=? 4096);
  _ ← check (IsAligned last ASAN_SHADOW_GRANULARITY);
  '(m, ptr) ← (if negb (IsAligned ptr ASAN_SHADOW_GRANULARITY) then
                 p ← MemToShadow M ptr;
                 Ok (store (mem s) p (if poison then to_u8 (ptr mod ASAN_SHADOW_GRANULARITY) else 0),
                     Z.lor ptr (ASAN_SHADOW_GRANULARITY - 1) +w 1)
               else Ok (mem s, ptr));
  m ← intra_object_loop m ptr last (if poison then kAsanIntraObjectRedzone else 0) (Z.to_nat size);
  Ok (with_mem s m).

(** [u32 stack_id = StackDepotPut(stack)] and [GetCurrentTidOrInvalid()] are
    the arguments [stack] and [tid]. *)
Definition __asan_poison_memory_region (s : asan_state) (stack tid : Z) (addr size : Z)
  : result asan_state :=
  if negb (allow_user_poisoning fl) || (size =? 0) then Ok s
  else
    let beg_addr := addr in
    let end_addr := beg_addr +w size in
    s ← (if 0 <? poison_history_size fl then
           AddPoisonRecord s (MkPoisonRecord stack tid beg_addr end_addr)
         else Ok s);
    beg ← MakeEndpoint (mem s) beg_addr;
    en ← MakeEndpoint (mem s) end_addr;
    if chunk beg =? chunk en then
      _ ← check (offset beg <? offset en);
      _ ← check (value beg =? value en);
      Ok (if (0 <? value beg) && (value beg <=? offset en) then
            if 0 <? offset beg
            then with_mem s (store (mem s) (chunk beg) (to_u8 (Z.min (value beg) (offset beg))))
            else with_mem s (store (mem s) (chunk beg) kAsanUserPoisonedMemoryMagic)
          else s)
    else
      _ ← check (chunk beg <? chunk en);
      let '(m, c) :=
        if 0 <? offset beg then
          (store (mem s) (chunk beg)
             (to_u8 (if value beg =? 0 then offset beg else Z.min (value beg) (offset beg))),
           chunk beg + 1)
        else (mem s, chunk beg) in
      let m := memset m c kAsanUserPoisonedMemoryMagic (chunk en - c) in
      let m := if (0 <? value en) && (value en <=? offset en)
               then store m (chunk en) kAsanUserPoisonedMemoryMagic else m in
      Ok (with_mem s m).

Definition __asan_unpoison_memory_region (s : asan_state) (addr size : Z) : result asan_state :=
  if negb (allow_user_poisoning fl) || (size =? 0) then Ok s
  else
    let beg_addr := addr in
    let end_addr := beg_addr +w size in
    beg ← MakeEndpoint (mem s) beg_addr;
    en ← MakeEndpoint (mem s) end_addr;
    if chunk beg =? chunk en then
      _ ← check (offset beg <? offset en);
      _ ← check (value beg =? value en);
      Ok (if negb (value beg =? 0)
          then with_mem s (store (mem s) (chunk beg) (to_u8 (Z.max (value beg) (offset en))))
          else s)
    else
      _ ← check (chunk beg <? chunk en);
      let m := memset (mem s) (chunk beg) 0 (chunk en - chunk beg) in
      let m := if (0 <? offset en) && negb (value en =? 0)
               then store m (chunk en) (to_u8 (Z.max (value en) (offset en))) else m in
      Ok (with_mem s m).

Definition AddressIsPoisoned (m : memory) (a : Z) : bool :=
  let shadow_value := load_s8 m (MEM_TO_SHADOW M a) in
  if negb (shadow_value =? 0) then
    let last_accessed_byte := to_u8 (Z.land a (ASAN_SHADOW_GRANULARITY - 1) + 1 - 1) in
    shadow_value <=? last_accessed_byte
  else false.

Definition __asan_address_is_poisoned (s : asan_state) (addr : Z) : bool :=
  AddressIsPoisoned (mem s) addr.

(** [for (; beg < end; beg++) if (AddressIsPoisoned(beg)) return beg;], then
    [UNREACHABLE]. *)
Fixpoint find_poisoned (m : memory) (beg : Z) (k : nat) : result Z :=
  match k with
  | O => Die Unreachable
  | S k' => if AddressIsPoisoned m beg then Ok beg else find_poisoned m (beg + 1) k'
  end.

Definition __asan_region_is_poisoned (s : asan_state) (beg size : Z) : result Z :=
  if size =? 0 then Ok 0
  else
    let last := beg +w size in
    if negb (AddrIsInMem M beg) then Ok beg
    else if negb (AddrIsInMem M last) then Ok last
    else
      _ ← check (beg <? last);
      aligned_b ← RoundUpTo beg ASAN_SHADOW_GRANULARITY;
      let aligned_e := RoundDownTo last ASAN_SHADOW_GRANULARITY in
      shadow_beg ← MemToShadow M aligned_b;
      shadow_end ← MemToShadow M aligned_e;
      fast ← (if negb (AddressIsPoisoned (mem s) beg) && negb (AddressIsPoisoned (mem s) (last - 1))
              then if shadow_end <=? shadow_beg then Ok true
                   else mem_is_zero (mem s) shadow_beg (shadow_end - shadow_beg)
              else Ok false);
      if (fast : bool) then Ok 0
      else find_poisoned (mem s) beg (Z.to_nat (last - beg)).

(** An error report: it ends the process unless [halt_on_error] is off, in
    which case the caller goes on. *)
Definition report (what : string) : result unit :=
  if halt_on_error fl then Die (Reported what) else Ok tt.

(** [CHECK_SMALL_REGION] *)
Definition check_small_region (s : asan_state) (p size : Z) : result unit :=
  if AddressIsPoisoned (mem s) p || AddressIsPoisoned (mem s) (p + size -w 1) then
    bad ← __asan_region_is_poisoned s p size;
    report "__asan_report_error"
  else Ok tt.

Definition __sanitizer_unaligned_load (s : asan_state) (p : Z) (size : nat) : result Z :=
  _ ← check_small_region s p (Z.of_nat size); Ok (load_bytes (mem s) p size).
Definition __sanitizer_unaligned_store (s : asan_state) (p x : Z) (size : nat) : result asan_state :=
  _ ← check_small_region s p (Z.of_nat size);
  Ok (with_mem s (store_bytes (mem s) p x size)).

Definition __asan_poison_cxx_array_cookie (s : asan_state) (p : Z) : asan_state :=
  if negb (poison_array_cookie fl) then s
  else with_mem s (store (mem s) (MEM_TO_SHADOW M p) kAsanArrayCookieMagic).

Definition __asan_load_cxx_array_cookie (s : asan_state) (p : Z) : Z :=
  if negb (poison_array_cookie fl) then load64 (mem s) p
  else
    let sval := mem s (MEM_TO_SHADOW M p) in
    if sval =? kAsanArrayCookieMagic then load64 (mem s) p
    else if sval =? kAsanHeapFreeMagic then 0
    else load64 (mem s) p.

Definition PoisonAlignedStackMemory (s : asan_state) (addr size : Z) (do_poison : bool)
  : result asan_state :=
  if size =? 0 then Ok s
  else
    let aligned_size := Z.land size (wnot (ASAN_SHADOW_GRANULARITY - 1)) in
    s ← PoisonShadow s addr aligned_size (if do_poison then kAsanStackUseAfterScopeMagic else 0);
    if size =? aligned_size then Ok s
    else
      let end_offset := to_s8 (size - aligned_size) in
      shadow_end ← MemToShadow M (addr +w aligned_size);
      let end_value := load_s8 (mem s) shadow_end in
      Ok (if do_poison then
            if (0 <? end_value) && (end_value <=? end_offset)
            then with_mem s (store (mem s) shadow_end (to_u8 kAsanStackUseAfterScopeMagic)) else s
          else
            if negb (end_value =? 0)
            then with_mem s (store (mem s) shadow_end (to_u8 (Z.max end_value end_offset))) else s).

(** [__asan_set_shadow_00] ... [__asan_set_shadow_f8] *)
Definition __asan_set_shadow (v : Z) (s : asan_state) (addr size : Z) : asan_state :=
  with_mem s (memset (mem s) addr v size).

Definition __asan_poison_stack_memory (s : asan_state) (addr size : Z) : result asan_state :=
  PoisonAlignedStackMemory s addr size true.
Definition __asan_unpoison_stack_memory (s : asan_state) (addr size : Z) : result asan_state :=
  PoisonAlignedStackMemory s addr size false.

Definition __asan_poison_intra_object_redzone (s : asan_state) (ptr size : Z) : result asan_state :=
  AsanPoisonOrUnpoisonIntraObjectRedzone s ptr size true.
Definition __asan_unpoison_intra_object_redzone (s : asan_state) (ptr size : Z) : result asan_state :=
  AsanPoisonOrUnpoisonIntraObjectRedzone s ptr size false.

(** [__lsan::WordIsPoisoned] *)
Definition WordIsPoisoned (s : asan_state) (addr : Z) : result bool :=
  r ← __asan_region_is_poisoned s addr 8; Ok (negb (r =? 0)).

End poisoning.

(** ** The state of a granule *)

(** Whether the byte at offset [o] of a granule with shadow value [v] is
    poisoned. *)
Definition granule_poisoned (v o : Z) : bool := negb (v =? 0) && (v <=? o).

(** The state invariant: shadow memory holds bytes, and the poison records,
    once allocated, are a ring of [poison_history_size] records. *)
Definition asan_wf (fl : flags) (s : asan_state) : Prop :=
  bytes_ok (mem s) /\
  match poison_records s with
  | None => True
  | Some ring => ring_wf (poison_history_size fl) ring
  end.

Section granules.
Context (M : mapping) `{!WfMapping M}.

Lemma land_granularity (a : Z) : Z.land a (ASAN_SHADOW_GRANULARITY - 1) = a mod 8.
Proof. unfold ASAN_SHADOW_GRANULARITY. change (8 - 1) with (2 ^ 3 - 1). by rewrite land_pow2_mod. Qed.

Lemma AddressIsPoisoned_granule (m : memory) (a : Z) : is_uptr a ->
  AddressIsPoisoned M m a =
  granule_poisoned (load_s8 m (a / 8 + ASAN_SHADOW_OFFSET M)) (a mod 8).
Proof.
  intros Ha. unfold AddressIsPoisoned, granule_poisoned. rewrite MEM_TO_SHADOW_spec by done.
  rewrite land_granularity. unfold to_u8. rewrite Z.add_simpl_r, (Z.mod_small (a mod 8)) by zlia.
  by destruct (negb _).
Qed.

Lemma load_s8_store (m : memory) (p v a : Z) : -128 <= v < 128 ->
  load_s8 (store m p (to_u8 v)) a = if a =? p then v else load_s8 m a.
Proof.
  intros Hv. unfold load_s8, store. destruct (a =? p); [| done].
  unfold to_s8, to_u8. rewrite Zmod_mod.
  destruct (Z.ltb_spec (v mod 256) 128); zlia.
Qed.

Lemma load_s8_memset (m : memory) (p v n a : Z) : -128 <= v < 128 ->
  load_s8 (memset m p (to_u8 v) n) a =
  if (p <=? a) && (a <? p + n) then v else load_s8 m a.
Proof.
  intros Hv. unfold load_s8, memset. destruct (_ && _); [| done].
  unfold to_s8, to_u8. rewrite !Zmod_mod.
  destruct (Z.ltb_spec (v mod 256) 128); zlia.
Qed.

Lemma load_s8_range (m : memory) (a : Z) : -128 <= load_s8 m a < 128.
Proof. apply to_s8_range. Qed.

Lemma MakeEndpoint_spec (m : memory) (a : Z) : is_uptr a -> AddrIsInMem M a = true ->
  MakeEndpoint M m a =
  Ok (Endpoint (a / 8 + ASAN_SHADOW_OFFSET M) (a mod 8)
        (load_s8 m (a / 8 + ASAN_SHADOW_OFFSET M))).
Proof.
  intros Ha Hm. unfold MakeEndpoint, MemToShadow. rewrite Hm. step.
  by rewrite MEM_TO_SHADOW_spec, land_granularity by done.
Qed.

End granules.

#[export] Hint Resolve load_s8_range : words.

Lemma bool_eq_iff (a b : bool) : (a = true <-> b = true) -> a = b.
Proof. destruct a, b; intuition congruence. Qed.

Lemma granule_poisoned_iff (v o : Z) : granule_poisoned v o = true <-> v <> 0 /\ v <= o.
Proof. unfold granule_poisoned. rewrite andb_true_iff, negb_true_iff, Z.eqb_neq, Z.leb_le. tauto. Qed.

(** The boundaries of the region as quotients and remainders by the
    granularity. *)
Ltac granule_facts x :=
  lazymatch goal with
  | _ : x = 8 * (x / 8) + x mod 8 |- _ => fail
  | _ => pose proof (Z.div_mod x 8 ltac:(lia)); pose proof (Z.mod_pos_bound x 8 ltac:(lia))
  end.
Ltac by_granules := repeat match goal with
  | |- context [?x mod 8] => granule_facts x
  | |- context [?x / 8] => granule_facts x
  | _ : context [?x mod 8] |- _ => granule_facts x
  | _ : context [?x / 8] |- _ => granule_facts x
  end.

(** One byte: both sides become arithmetic on shadow values and offsets. *)
Ltac by_byte :=
  apply bool_eq_iff;
  repeat first
    [ rewrite orb_true_iff | rewrite andb_true_iff | rewrite negb_true_iff
    | rewrite andb_false_iff | rewrite granule_poisoned_iff
    | rewrite Z.leb_le | rewrite Z.leb_gt | rewrite Z.ltb_lt | rewrite Z.ltb_ge ];
  by_granules; lia.

Section region.
Context (M : mapping) `{!WfMapping M} (fl : flags).

(** What is common to the two region functions: the endpoints exist and their
    shadow bytes are in order. *)
Record region_ok (addr size : Z) : Prop := {
  region_nonempty : 0 < size;
  region_uptr : 0 <= addr /\ addr + size < word_modulus;
  region_beg_in_mem : AddrIsInMem M addr = true;
  region_end_in_mem : AddrIsInMem M (addr + size) = true;
}.

Lemma AddPoisonRecord_ok (s : asan_state) (r : PoisonRecord) : asan_wf fl s ->
  exists s', AddPoisonRecord fl s r = Ok s' /\ mem s' = mem s /\ asan_wf fl s'.
Proof.
  intros [Hm Hr]. unfold AddPoisonRecord. destruct (Z.leb_spec (poison_history_size fl) 0).
  { by exists s. }
  set (ring := match poison_records s with None => _ | Some ring => ring end).
  assert (Hwf : ring_wf (poison_history_size fl) ring).
  { unfold ring. destruct (poison_records s); [done | by apply New_wf]. }
  destruct (push_wf sizeof_PoisonRecord ltac:(done) _ _ r Hwf) as (ring' & -> & Hwf' & _).
  step. eexists; split_and!; [done | done | split; [apply Hm | done]].
Qed.

Lemma with_mem_wf (s : asan_state) (m : memory) :
  asan_wf fl s -> bytes_ok m -> asan_wf fl (with_mem s m).
Proof. intros [_ Hr] Hm. by split. Qed.

Lemma magic_u8 : is_u8 kAsanUserPoisonedMemoryMagic /\
  kAsanUserPoisonedMemoryMagic = to_u8 (-9).
Proof. split; [vm_compute; split; congruence | reflexivity]. Qed.

Ltac state_wf := repeat case_match; try done; apply with_mem_wf; try done;
  match goal with H : asan_wf _ ?s |- _ => destruct H end;
  pose proof (proj1 magic_u8); auto 6 with words.

(** The byte [b] after the writes of the model: the shadow value of its
    granule, which is the first or the last one of the region or another. *)
Ltac on_granule b first last :=
  destruct (Z.eq_dec (b / 8) (first / 8)) as [Hg1 | Hg1]; [rewrite ?Hg1 |];
  (destruct (Z.eq_dec (b / 8) (last / 8)) as [Hg2 | Hg2]; [rewrite ?Hg2 |]);
  repeat case_match; cbn [mem with_mem];
  repeat first [ rewrite load_s8_store by zlia | rewrite load_s8_memset by zlia ];
  repeat case_match; zb; try lia; by_byte.

Lemma poison_region_spec (s : asan_state) (stack tid addr size : Z) :
  asan_wf fl s -> allow_user_poisoning fl = true -> region_ok addr size ->
  exists s', __asan_poison_memory_region M fl s stack tid addr size = Ok s' /\ asan_wf fl s' /\
    forall b, is_uptr b ->
      AddressIsPoisoned M (mem s') b =
      AddressIsPoisoned M (mem s) b ||
      ((addr <=? b) && (b <? addr + size) &&
       ((b <? (addr + size) / 8 * 8) || AddressIsPoisoned M (mem s) (addr + size))).
Proof.
  intros Hwf Hallow [Hpos [Hb0 He] Hbm Hem]. pose proof (wf_offset (M := M)) as Hoff.
  unfold __asan_poison_memory_region. rewrite Hallow.
  destruct (Z.eqb_spec size 0); [lia |]. cbn [negb orb].
  rewrite wrap_small by (unfold is_uptr; lia).
  assert (Hs : exists s1, (if 0 <? poison_history_size fl
      then AddPoisonRecord fl s (MkPoisonRecord stack tid addr (addr + size)) else Ok s) = Ok s1 /\
      mem s1 = mem s /\ asan_wf fl s1).
  { destruct (0 <? _); [by apply AddPoisonRecord_ok | by exists s]. }
  destruct Hs as (s1 & -> & Hmem & Hwf1). step.
  assert (Hu1 : is_uptr addr) by (unfold is_uptr; lia).
  assert (Hu2 : is_uptr (addr + size)) by (unfold is_uptr; lia).
  rewrite !MakeEndpoint_spec by done. step. cbn [chunk offset value].
  rewrite (AddressIsPoisoned_granule M (mem s) (addr + size)) by done. rewrite <- Hmem.
  set (O := ASAN_SHADOW_OFFSET M) in *.
  pose proof (load_s8_range (mem s1) (addr / 8 + O)) as Hv1.
  pose proof (load_s8_range (mem s1) ((addr + size) / 8 + O)) as Hv2.
  rewrite (proj2 magic_u8).
  destruct (Z.eqb_spec (addr / 8 + O) ((addr + size) / 8 + O)) as [Heq | Hne].
  - rewrite (check_true (_ <? _)) by (apply Z.ltb_lt; zlia). step.
    rewrite <- Heq in *. rewrite (check_true (_ =? _)) by (apply Z.eqb_eq; done). step.
    assert (addr / 8 = (addr + size) / 8) as Heq' by lia.
    eexists; split; [done |]. split; [state_wf |].
    intros b Hb. rewrite !AddressIsPoisoned_granule by done. fold O.
    on_granule b addr (addr + size).
  - rewrite (check_true (_ <? _)) by (apply Z.ltb_lt; zlia). step.
    destruct (Z.ltb_spec 0 (addr mod 8)); (eexists; split; [done |]; split; [state_wf |]);
    intros b Hb; rewrite !AddressIsPoisoned_granule by done; fold O;
    on_granule b addr (addr + size).
Qed.

Lemma unpoison_region_spec (s : asan_state) (addr size : Z) :
  asan_wf fl s -> allow_user_poisoning fl = true -> region_ok addr size ->
  exists s', __asan_unpoison_memory_region M fl s addr size = Ok s' /\ asan_wf fl s' /\
    forall b, is_uptr b ->
      AddressIsPoisoned M (mem s') b =
      AddressIsPoisoned M (mem s) b && negb ((addr / 8 * 8 <=? b) && (b <? addr + size)).
Proof.
  intros Hwf Hallow [Hpos [Hb0 He] Hbm Hem]. pose proof (wf_offset (M := M)) as Hoff.
  unfold __asan_unpoison_memory_region. rewrite Hallow.
  destruct (Z.eqb_spec size 0); [lia |]. cbn [negb orb].
  rewrite wrap_small by (unfold is_uptr; lia).
  assert (Hu1 : is_uptr addr) by (unfold is_uptr; lia).
  assert (Hu2 : is_uptr (addr + size)) by (unfold is_uptr; lia).
  rewrite !MakeEndpoint_spec by done. step. cbn [chunk offset value].
  set (O := ASAN_SHADOW_OFFSET M) in *.
  pose proof (load_s8_range (mem s) (addr / 8 + O)) as Hv1.
  pose proof (load_s8_range (mem s) ((addr + size) / 8 + O)) as Hv2.
  change (memset (mem s) (addr / 8 + O) 0) with (memset (mem s) (addr / 8 + O) (to_u8 0)).
  destruct (Z.eqb_spec (addr / 8 + O) ((addr + size) / 8 + O)) as [Heq | Hne].
  - rewrite (check_true (_ <? _)) by (apply Z.ltb_lt; zlia). step.
    rewrite <- Heq in *. rewrite (check_true (_ =? _)) by (apply Z.eqb_eq; done). step.
    assert (addr / 8 = (addr + size) / 8) as Heq' by lia.
    eexists; split; [done |]. split; [state_wf |].
    intros b Hb. rewrite !AddressIsPoisoned_granule by done. fold O.
    on_granule b addr (addr + size).
  - rewrite (check_true (_ <? _)) by (apply Z.ltb_lt; zlia). step.
    eexists; split; [done |]. split; [state_wf |].
    intros b Hb; rewrite !AddressIsPoisoned_granule by done; fold O.
    on_granule b addr (addr + size).
Qed.

End region.

(** C20.  [__asan_poison_memory_region] poisons exactly what its comment says:
    on a region of application memory it succeeds, every byte of
    [[left, AlignDown(right))] becomes poisoned, the bytes of the last,
    partial granule are poisoned precisely when the byte at [right] was
    already unaddressable, and no other byte of the address space changes. *)
Theorem poison_memory_region_exact (M : mapping) (Hwf : WfMapping M) (fl : flags)
  (s : asan_state) (stack tid addr size : Z) (Hs : asan_wf fl s)
  (Hallow : allow_user_poisoning fl = true) (Hregion : region_ok M addr size) :
  exists s', __asan_poison_memory_region M fl s stack tid addr size = Ok s' /\ asan_wf fl s' /\
    forall b, is_uptr b ->
      __asan_address_is_poisoned M s' b =
      __asan_address_is_poisoned M s b ||
      ((addr <=? b) && (b <? addr + size) &&
       ((b <? (addr + size) / 8 * 8) || __asan_address_is_poisoned M s (addr + size))).
Proof. by apply poison_region_spec. Qed.

Definition default_flags : flags := Flags true 0 true true true 65536 true.
Definition initial_state : asan_state := AsanState (fun _ => 0) true None.

Lemma initial_state_wf (fl : flags) : asan_wf fl initial_state.
Proof. split; [intros a; vm_compute; split; congruence | done]. Qed.

Lemma poison_memory_region_exact_witness :
  exists s', __asan_poison_memory_region linux_x86_64 default_flags initial_state 1 0
               0x602000000013 21 = Ok s' /\ asan_wf default_flags s' /\
    forall b, is_uptr b ->
      __asan_address_is_poisoned linux_x86_64 s' b =
      __asan_address_is_poisoned linux_x86_64 initial_state b ||
      ((0x602000000013 <=? b) && (b <? 0x602000000013 + 21) &&
       ((b <? (0x602000000013 + 21) / 8 * 8) ||
        __asan_address_is_poisoned linux_x86_64 initial_state (0x602000000013 + 21))).
Proof.
  apply (poison_memory_region_exact linux_x86_64 linux_x86_64_wf);
    [apply initial_state_wf | reflexivity |].
  split; [lia | unfold word_modulus; lia | reflexivity | reflexivity].
Defined.

(** C30.  [__asan_unpoison_memory_region] unpoisons exactly
    [[AlignDown(left), right)]: on a region of application memory it succeeds
    and a byte is poisoned afterwards if and only if it was before and lies
    outside that range. *)
Theorem unpoison_memory_region_exact (M : mapping) (Hwf : WfMapping M) (fl : flags)
  (s : asan_state) (addr size : Z) (Hs : asan_wf fl s)
  (Hallow : allow_user_poisoning fl = true) (Hregion : region_ok M addr size) :
  exists s', __asan_unpoison_memory_region M fl s addr size = Ok s' /\ asan_wf fl s' /\
    forall b, is_uptr b ->
      __asan_address_is_poisoned M s' b =
      __asan_address_is_poisoned M s b && negb ((addr / 8 * 8 <=? b) && (b <? addr + size)).
Proof. by apply unpoison_region_spec. Qed.

Lemma unpoison_memory_region_exact_witness :
  exists s', __asan_unpoison_memory_region linux_x86_64 default_flags initial_state
               0x602000000013 21 = Ok s' /\ asan_wf default_flags s' /\
    forall b, is_uptr b ->
      __asan_address_is_poisoned linux_x86_64 s' b =
      __asan_address_is_poisoned linux_x86_64 initial_state b &&
      negb ((0x602000000013 / 8 * 8 <=? b) && (b <? 0x602000000013 + 21)).
Proof.
  apply (unpoison_memory_region_exact linux_x86_64 linux_x86_64_wf);
    [apply initial_state_wf | reflexivity |].
  split; [lia | unfold word_modulus; lia | reflexivity | reflexivity].
Defined.

(** ** [__asan_region_is_poisoned] *)

(** Shadow values are [0..7] or, as signed bytes, negative: what every writer
    of shadow memory stores for a granularity of eight. *)
Definition shadow_valid (M : mapping) (s : asan_state) : Prop :=
  forall a, is_uptr a -> load_s8 (mem s) (a / 8 + ASAN_SHADOW_OFFSET M) <= 7.

Section region_query.
Context (M : mapping) `{!WfMapping M} (s : asan_state).
Abbreviation poisoned b := (AddressIsPoisoned M (mem s) b).

Lemma find_poisoned_spec (beg : Z) (k : nat) :
  match find_poisoned M (mem s) beg k with
  | Ok r => beg <= r < beg + Z.of_nat k /\ poisoned r = true /\
            forall b, beg <= b < r -> poisoned b = false
  | Die d => forall b, beg <= b < beg + Z.of_nat k -> poisoned b = false
  end.
Proof.
  revert beg. induction k as [| k IH]; intros beg; cbn [find_poisoned]; [intros; lia |].
  destruct (poisoned beg) eqn:Hbeg; [split_and!; try done; lia |].
  specialize (IH (beg + 1)).
  assert (Hext : forall r, (forall b, beg + 1 <= b < r -> poisoned b = false) ->
                           forall b, beg <= b < r -> poisoned b = false).
  { intros r H b Hb. destruct (decide (b = beg)) as [-> |]; [done | apply H; lia]. }
  destruct (find_poisoned M (mem s) (beg + 1) k).
  - destruct IH as (Hr & Hp & Hf). split_and!; [lia | lia | done | by apply Hext].
  - apply Hext. intros b Hb. apply IH. lia.
Qed.

(** A granule is addressable up to some offset: an unpoisoned byte has
    unpoisoned bytes before it. *)
Lemma unpoisoned_below (a b : Z) : is_uptr a -> is_uptr b -> a / 8 = b / 8 -> a <= b ->
  poisoned b = false -> poisoned a = false.
Proof.
  intros Ha Hb Hg Hle. rewrite !AddressIsPoisoned_granule by done. rewrite Hg.
  unfold granule_poisoned. rewrite !andb_false_iff, !negb_false_iff, !Z.eqb_eq, !Z.leb_gt.
  intros [-> | Hv]; [by left | right]. zlia.
Qed.

Lemma zero_granule (b : Z) : is_uptr b ->
  mem s (b / 8 + ASAN_SHADOW_OFFSET M) = 0 -> poisoned b = false.
Proof.
  intros Hb Hz. rewrite AddressIsPoisoned_granule by done. unfold load_s8. by rewrite Hz.
Qed.

(** A granule none of whose bytes is poisoned has shadow value zero. *)
Lemma clean_granule (g : Z) : bytes_ok (mem s) -> shadow_valid M s -> is_uptr (8 * g + 7) ->
  0 <= g -> poisoned (8 * g + 7) = false -> mem s (g + ASAN_SHADOW_OFFSET M) = 0.
Proof.
  intros Hm Hv Hu Hg. rewrite AddressIsPoisoned_granule by done.
  replace ((8 * g + 7) / 8) with g by zlia. replace ((8 * g + 7) mod 8) with 7 by zlia.
  specialize (Hv _ Hu). replace ((8 * g + 7) / 8) with g in Hv by zlia.
  unfold granule_poisoned. rewrite andb_false_iff, negb_false_iff, Z.eqb_eq, Z.leb_gt.
  intros [H0 | H7]; [| lia]. apply to_s8_inj; [apply Hm | vm_compute; split; congruence | done].
Qed.

(** The bytes the fast path of the query does not look at: those after an
    unaligned [beg] in its granule, when the region goes beyond that granule. *)
Definition overlooked (beg size b : Z) : Prop :=
  beg mod 8 <> 0 /\ beg / 8 < (beg + size - 1) / 8 /\ beg < b /\ b / 8 = beg / 8.

Lemma region_query_spec (beg size : Z) :
  bytes_ok (mem s) -> shadow_valid M s -> 8 <= beg -> 0 < size <= 2 ^ 40 -> beg + size + 8 <= 2 ^ 63 ->
  (forall a, beg - 7 <= a <= beg + size + 7 -> AddrIsInMem M a = true) ->
  exists r, __asan_region_is_poisoned M s beg size = Ok r /\
    (r <> 0 -> beg <= r < beg + size /\ poisoned r = true /\
               forall b, beg <= b < r -> poisoned b = false) /\
    (r = 0 -> forall b, beg <= b < beg + size -> poisoned b = true -> overlooked beg size b).
Proof.
  intros Hm Hv Hb Hs He Hin. change (2 ^ 63) with 9223372036854775808 in He.
  change (2 ^ 40) with 1099511627776 in Hs. pose proof (wf_offset (M := M)) as Hoff.
  unfold __asan_region_is_poisoned. destruct (Z.eqb_spec size 0); [lia |].
  rewrite wrap_small by (unfold is_uptr, word_modulus; lia).
  rewrite !Hin by lia. cbn [negb]. rewrite (check_true (_ <? _)) by (apply Z.ltb_lt; lia). step.
  destruct (RoundUpTo_nowrap beg 8 ltac:(lia) pow2_word_8 ltac:(unfold word_modulus; lia))
    as (ab & Hab & Habr & Hab8).
  unfold ASAN_SHADOW_GRANULARITY. rewrite Hab. step.
  rewrite RoundDownTo_spec by (unfold is_uptr, word_modulus; auto with words lia).
  set (last := beg + size) in *. set (ae := last - last mod 8).
  assert (Hae : last - 7 <= ae <= last /\ ae mod 8 = 0) by (unfold ae; zlia).
  assert (Hu : forall a, beg - 7 <= a <= last + 7 -> is_uptr a)
    by (intros; unfold is_uptr, word_modulus; lia).
  unfold MemToShadow. rewrite !Hin by lia. step.
  rewrite !(MEM_TO_SHADOW_spec M) by (apply Hu; lia). set (O := ASAN_SHADOW_OFFSET M) in *.
  set (fast := if negb _ && negb _ then _ else _).
  assert (Hfast : exists f : bool, fast = Ok f /\
    (f = true <-> poisoned beg = false /\ poisoned (last - 1) = false /\
                  zeros (mem s) (ab / 8 + O) (ae / 8 + O))).
  { unfold fast. destruct (poisoned beg), (poisoned (last - 1)); cbn [negb andb];
      try (eexists; split; [done |]; intuition congruence).
    destruct (Z.leb_spec (ae / 8 + O) (ab / 8 + O)).
    - exists true. split; [done |]. pose proof (zeros_nil (mem s) (ab / 8 + O) (ae / 8 + O)). tauto.
    - destruct (mem_is_zero_spec (mem s) (ab / 8 + O) (ae / 8 + O - (ab / 8 + O)))
        as (f & -> & Hf); try done; try (unfold word_modulus; change (2 ^ 40) with 1099511627776; zlia).
      exists f. split; [done |]. replace (ab / 8 + O + (ae / 8 + O - (ab / 8 + O))) with (ae / 8 + O) in Hf by lia.
      tauto. }
  destruct Hfast as (f & -> & Hf). step. destruct f.
  - exists 0. split_and!; [done | done |]. intros _ b Hbr Hpb.
    destruct Hf as [Hf _]. destruct (Hf eq_refl) as (Hpbeg & Hplast & Hz).
    destruct (decide (ab <= b < ae)) as [Hmid | Hmid].
    { rewrite zero_granule in Hpb by first [apply Hu; lia | apply Hz; zlia]; done. }
    destruct (decide (ae <= b)) as [Hend | Hend].
    { rewrite (unpoisoned_below b (last - 1)) in Hpb; [done | apply Hu; lia .. | unfold ae in *; zlia | lia | done]. }
    destruct (decide (b = beg)) as [-> |]; [congruence |].
    unfold overlooked. fold last. split_and!; try lia; try zlia.
    destruct (decide (beg / 8 < (last - 1) / 8)); [done |].
    rewrite (unpoisoned_below b (last - 1)) in Hpb; [done | apply Hu; lia .. | zlia | lia | done].
  - pose proof (find_poisoned_spec beg (Z.to_nat (last - beg))) as Hfind.
    rewrite Z2Nat.id in Hfind by lia. replace (beg + (last - beg)) with last in Hfind by lia.
    destruct (find_poisoned M (mem s) beg _) as [r | d].
    + exists r. split_and!; [done | | lia]. intros _. destruct Hfind as (? & ? & ?). done.
    + enough (false = true) by done. apply Hf. split_and!; [apply Hfind; lia .. |].
      intros p Hp. replace p with ((p - O) + O) by lia. apply clean_granule; try done;
        try (apply Hu; zlia); [zlia |]. apply Hfind. zlia.
Qed.
End region_query.

(** C35.  [__asan_region_is_poisoned] never misreports and locates the first
    poisoned byte: on a region of application memory with valid shadow it
    returns; a non-zero result is the first poisoned byte of the region; and
    a zero result means that no byte is poisoned, except possibly bytes of
    the granule of an unaligned [beg] when the region extends beyond that
    granule ([overlooked]).  For an aligned [beg] zero means fully
    addressable. *)
Theorem region_is_poisoned_correct (M : mapping) (Hwf : WfMapping M) (s : asan_state)
  (beg size : Z) (Hm : bytes_ok (mem s)) (Hv : shadow_valid M s)
  (Hbeg : 8 <= beg) (Hsize : 0 < size <= 2 ^ 40) (Hend : beg + size + 8 <= 2 ^ 63)
  (Hmem : forall a, beg - 7 <= a <= beg + size + 7 -> AddrIsInMem M a = true) :
  exists r, __asan_region_is_poisoned M s beg size = Ok r /\
    (r <> 0 -> beg <= r < beg + size /\ __asan_address_is_poisoned M s r = true /\
               forall b, beg <= b < r -> __asan_address_is_poisoned M s b = false) /\
    (r = 0 -> forall b, beg <= b < beg + size -> __asan_address_is_poisoned M s b = true ->
              overlooked beg size b).
Proof. by apply region_query_spec. Qed.

Lemma region_is_poisoned_correct_witness :
  exists r, __asan_region_is_poisoned linux_x86_64 initial_state 0x602000000010 64 = Ok r /\
    (r <> 0 -> 0x602000000010 <= r < 0x602000000010 + 64 /\
       __asan_address_is_poisoned linux_x86_64 initial_state r = true /\
       forall b, 0x602000000010 <= b < r ->
                 __asan_address_is_poisoned linux_x86_64 initial_state b = false) /\
    (r = 0 -> forall b, 0x602000000010 <= b < 0x602000000010 + 64 ->
       __asan_address_is_poisoned linux_x86_64 initial_state b = true ->
       overlooked 0x602000000010 64 b).
Proof.
  apply (region_is_poisoned_correct linux_x86_64 linux_x86_64_wf initial_state); try lia.
  - intros a. vm_compute. split; congruence.
  - intros a _. vm_compute. congruence.
  - intros a Ha. unfold AddrIsInMem. rewrite !orb_true_iff. left; right.
    apply (proj1 (high_regions linux_x86_64 a)). change (kHighMemBeg linux_x86_64) with 0x10007fff8000.
    change (kHighMemEnd linux_x86_64) with 0x7fffffffffff. lia.
Defined.

