(* ===== verification/ShadowWrites.v ===== *)
(** * What the shadow writers write

    Specifications of [FastPoisonShadow] (with its page-sized fast path),
    [PoisonShadow], the partial right redzone, the stack-memory functions and
    the intra-object redzones, all in terms of the shadow value of the granule
    of an application byte. *)

From S2P Require Import Prelude Words ShadowMapping Memory RingBuffer Poisoning.

(** A fixed mapping of whole pages replaces them by zero pages, and the page
    size is a power of two: the documented behaviour of [mmap]. *)
Class MmapZeroes (page_size : Z) (mmap_fixed : memory -> Z -> Z -> option memory) : Prop := {
  page_size_pow2 : pow2_word page_size;
  page_size_small : page_size <= 2 ^ 30;
  mmap_zeroes : forall m beg n, 0 < n -> beg mod page_size = 0 -> n mod page_size = 0 ->
    exists m', mmap_fixed m beg n = Some m' /\
      forall a, m' a = if (beg <=? a) && (a <? beg + n) then 0 else m a;
}.

(** An [mmap] with this behaviour. *)
Definition zeroing_mmap (m : memory) (beg n : Z) : option memory := Some (memset m beg 0 n).

#[export] Instance zeroing_mmap_ok : MmapZeroes 4096 zeroing_mmap.
Proof.
  split; [by exists 12 | done |]. intros m beg n _ _ _. by exists (memset m beg 0 n).
Qed.

Section writes.
Context (M : mapping) `{!WfMapping M} (fl : flags).
Context (page_size : Z) (mmap_fixed : memory -> Z -> Z -> option memory)
  `{!MmapZeroes page_size mmap_fixed}.

Definition shadow_value (s : asan_state) (b : Z) : Z :=
  load_s8 (mem s) (b / 8 + ASAN_SHADOW_OFFSET M).

Lemma poisoned_shadow_value (s : asan_state) (b : Z) : is_uptr b ->
  AddressIsPoisoned M (mem s) b = granule_poisoned (shadow_value s b) (b mod 8).
Proof. apply AddressIsPoisoned_granule. done. Qed.

(** [FastPoisonShadow] writes one range of shadow bytes, whichever of its
    four ways it takes. *)
Lemma FastPoisonShadow_spec (m : memory) (beg size v : Z) :
  is_u8 v -> beg mod 8 = 0 -> size mod 8 = 0 -> 0 <= size -> 8 <= beg + size <= 2 ^ 63 -> 0 <= beg ->
  exists m', FastPoisonShadow M fl page_size mmap_fixed m beg size v = Ok m' /\
    forall a, m' a = memset m (beg / 8 + ASAN_SHADOW_OFFSET M) v (size / 8) a.
Proof.
  intros Hv Hb8 Hs8 Hs Hbs Hb. change (2 ^ 63) with 9223372036854775808 in Hbs.
  pose proof (wf_offset (M := M)) as Hoff. pose proof page_size_pow2 as Hp.
  pose proof (pow2_word_range _ Hp). pose proof page_size_small as Hps. change (2 ^ 30) with 1073741824 in Hps.
  unfold FastPoisonShadow, ASAN_SHADOW_GRANULARITY. set (O := ASAN_SHADOW_OFFSET M) in *.
  change (2 ^ 62) with 4611686018427387904 in Hoff.
  rewrite (wrap_small (beg + size - 8)) by (unfold is_uptr, word_modulus; lia).
  rewrite !MEM_TO_SHADOW_spec by (done || (unfold is_uptr, word_modulus; lia)). fold O.
  set (sb := beg / 8 + O).
  replace ((beg + size - 8) / 8 + O + 1) with (sb + size / 8) by (unfold sb; zlia).
  rewrite (wrap_small (sb + size / 8)) by (unfold sb, is_uptr, word_modulus; zlia).
  replace (sb + size / 8 - sb) with (size / 8) by lia.
  rewrite (wrap_small (size / 8)) by (unfold is_uptr, word_modulus; zlia).
  destruct (negb (v =? 0) || _) eqn:Hsmall; [by eexists |].
  apply orb_false_iff in Hsmall as [Hv0 _]. zb. subst v.
  assert (Hsb : 0 <= sb < 9223372036854775808) by (unfold sb; zlia).
  assert (Hn : 0 <= size / 8 < 2305843009213693952) by zlia.
  destruct (RoundUpTo_nowrap sb page_size) as (pb & -> & Hpb & Hpb0); try done; try (unfold word_modulus; lia).
  step. rewrite RoundDownTo_spec by (done || (unfold is_uptr, word_modulus; lia)).
  set (pe := sb + size / 8 - (sb + size / 8) mod page_size).
  pose proof (Z.mod_pos_bound (sb + size / 8) page_size ltac:(lia)).
  assert (Hpe0 : pe mod page_size = 0).
  { unfold pe. rewrite Zminus_mod, Zmod_mod, Z.sub_diag. apply Z.mod_0_l. lia. }
  destruct (Z.leb_spec pe pb); [by eexists |].
  unfold ReserveShadowMemoryRange. rewrite (check_true (pb mod _ =? 0)) by (by apply Z.eqb_eq). step.
  replace (pe - 1 + 1) with pe by lia. rewrite (check_true (pe mod _ =? 0)) by (by apply Z.eqb_eq). step.
  replace (pe - 1 - pb + 1) with (pe - pb) by lia.
  match goal with |- context [mmap_fixed ?m1 pb (pe - pb)] => set (m1' := m1);
    destruct (mmap_zeroes m1' pb (pe - pb)) as (m' & -> & Hm') end; try done; try lia.
  { by rewrite Zminus_mod, Hpb0, Hpe0. }
  exists m'. split; [done |]. intros a. rewrite Hm'. unfold m1', memset.
  repeat case_match; zb; try reflexivity; try lia.
Qed.

(** The memory written over whole granules, seen from an application byte. *)
Lemma load_s8_granules (m m' : memory) (addr size v b : Z) :
  (forall a, m' a = memset m (addr / 8 + ASAN_SHADOW_OFFSET M) v (size / 8) a) ->
  is_u8 v -> addr mod 8 = 0 -> size mod 8 = 0 ->
  load_s8 m' (b / 8 + ASAN_SHADOW_OFFSET M) =
  if (addr <=? b) && (b <? addr + size) then to_s8 v
  else load_s8 m (b / 8 + ASAN_SHADOW_OFFSET M).
Proof.
  intros Hm' Hv Ha Hs. unfold load_s8. rewrite Hm'. unfold memset.
  unfold is_u8 in Hv. unfold to_u8. rewrite (Z.mod_small v) by lia.
  destruct (_ && _) eqn:H1, ((addr <=? b) && _) eqn:H2; try done; exfalso; zlia.
Qed.

Lemma aligned_spec (a : Z) : AddrIsAlignedByGranularity a = (a mod 8 =? 0).
Proof. unfold AddrIsAlignedByGranularity. by rewrite land_granularity. Qed.

(** A range of whole granules whose first and last granules are application
    memory: what [PoisonShadow] checks. *)
Record granules_ok (addr size : Z) : Prop := {
  granules_aligned : addr mod 8 = 0 /\ size mod 8 = 0;
  granules_bounds : 0 <= addr /\ 0 <= size /\ 8 <= addr + size <= 2 ^ 63;
  granules_beg_in_mem : AddrIsInMem M addr = true;
  granules_last_in_mem : AddrIsInMem M (addr + size - 8) = true;
}.

Lemma PoisonShadow_spec (s : asan_state) (addr size v : Z) :
  asan_wf fl s -> is_u8 v -> v = 0 \/ can_poison_memory s = true -> granules_ok addr size ->
  exists s', PoisonShadow M fl page_size mmap_fixed s addr size v = Ok s' /\ asan_wf fl s' /\
    can_poison_memory s' = can_poison_memory s /\
    forall b, shadow_value s' b =
              if (addr <=? b) && (b <? addr + size) then to_s8 v else shadow_value s b.
Proof.
  intros Hwf Hv Hcan [[Ha8 Hs8] (Ha & Hs & Hbs) Hbm Hem]. pose proof Hbs as Hbs'.
  change (2 ^ 63) with 9223372036854775808 in Hbs'. unfold PoisonShadow.
  assert (Hc : negb (v =? 0) && negb (can_poison_memory s) = false)
    by (destruct Hcan as [-> | ->]; [done | by rewrite andb_false_r]).
  rewrite Hc, !aligned_spec. unfold ASAN_SHADOW_GRANULARITY.
  rewrite (wrap_small (addr + size)), (wrap_small (addr + size - 8)) by (unfold is_uptr, word_modulus; lia).
  rewrite Ha8, Hbm, Hem. replace ((addr + size) mod 8) with 0 by zlia.
  destruct (FastPoisonShadow_spec (mem s) addr size v) as (m' & Hfast & Hm'); try done.
  cbn [Z.eqb]. step. rewrite Hfast. step. eexists; split; [done |]. split_and!; [| done |].
  - destruct Hwf as [Hm Hr]. split; [| done]. intros a. cbn. rewrite Hm'. by apply bytes_ok_memset.
  - intros b. unfold shadow_value. cbn. by apply load_s8_granules.
Qed.


(** The shadow value that the redzone loop gives to the granule at offset [j]. *)
Definition redzone_value (size v j : Z) : Z :=
  if j + 8 <=? size then 0
  else if size <=? j then v
  else if poison_partial fl then to_u8 (size - j) else 0.

Lemma partial_redzone_loop_spec (m : memory) (sh i size v : Z) (k : nat) (a : Z) :
  partial_redzone_loop fl m sh i size v k a =
  if (sh <=? a) && (a <? sh + Z.of_nat k) then redzone_value size v (i + 8 * (a - sh)) else m a.
Proof.
  revert m sh i. induction k as [| k IH]; intros m sh i; cbn [partial_redzone_loop].
  - destruct (_ && _) eqn:H; [zb; lia | done].
  - rewrite IH. unfold store, ASAN_SHADOW_GRANULARITY.
    repeat match goal with |- context [(?x <=? ?y) && (?z <? ?w)] =>
      destruct ((x <=? y) && (z <? w)) eqn:?H end; zb; try lia.
    + f_equal. lia.
    + destruct (Z.eqb_spec a sh); [subst | lia]. unfold redzone_value.
      by replace (i + 8 * (sh - sh)) with i by lia.
    + destruct (Z.eqb_spec a sh); [subst; lia | done].
Qed.

Lemma redzone_spec (s : asan_state) (addr size redzone_size v : Z) :
  poison_partial fl = true -> 128 <= v < 256 -> 0 <= size -> 0 <= redzone_size -> 0 <= addr ->
  addr mod 8 = 0 -> addr + redzone_size + 8 <= 2 ^ 63 ->
  forall b, is_uptr b ->
    AddressIsPoisoned M (FastPoisonShadowPartialRightRedzone M fl (mem s) addr size redzone_size v) b =
    if (addr <=? b) && (b <? addr + (redzone_size + 7) / 8 * 8)
    then addr + size <=? b else AddressIsPoisoned M (mem s) b.
Proof.
  intros Hpp Hv Hs Hr Ha Ha8 Hb63 b Hb. change (2 ^ 63) with 9223372036854775808 in Hb63.
  rewrite !AddressIsPoisoned_granule by done.
  unfold FastPoisonShadowPartialRightRedzone, ASAN_SHADOW_GRANULARITY.
  rewrite MEM_TO_SHADOW_spec by (done || (unfold is_uptr, word_modulus; lia)).
  unfold load_s8 at 1. rewrite partial_redzone_loop_spec.
  rewrite Z2Nat.id by (apply Z.div_pos; lia). replace (redzone_size + 8 - 1) with (redzone_size + 7) by lia.
  set (O := ASAN_SHADOW_OFFSET M).
  assert (Hif : (addr / 8 + O <=? b / 8 + O) && (b / 8 + O <? addr / 8 + O + (redzone_size + 7) / 8) =
    (addr <=? b) && (b <? addr + (redzone_size + 7) / 8 * 8)) 
    by (apply bool_eq_iff; rewrite !andb_true_iff, !Z.leb_le, !Z.ltb_lt; zlia).
  rewrite Hif; clear Hif. destruct (_ && _) eqn:Hin; [zb | reflexivity].
  replace (0 + 8 * (b / 8 + O - (addr / 8 + O))) with (b - b mod 8 - addr) by zlia.
  unfold redzone_value. rewrite Hpp. apply bool_eq_iff. rewrite granule_poisoned_iff, Z.leb_le.
  unfold to_s8, to_u8. pose proof (Z.mod_pos_bound b 8 ltac:(lia)).
  repeat case_match; zb; try lia; zlia.
Qed.

(** [PoisonAlignedStackMemory] against the exact effect of the general region
    functions. *)
Lemma stack_memory_spec (s : asan_state) (addr size : Z) (do_poison : bool) :
  asan_wf fl s -> can_poison_memory s = true -> addr mod 8 = 0 -> 0 < size -> 8 <= addr ->
  addr + size + 8 <= 2 ^ 63 ->
  (forall a, addr - 8 <= a <= addr + size -> AddrIsInMem M a = true) ->
  exists s', PoisonAlignedStackMemory M fl page_size mmap_fixed s addr size do_poison = Ok s' /\
    forall b, is_uptr b ->
      AddressIsPoisoned M (mem s') b =
      if do_poison then
        AddressIsPoisoned M (mem s) b ||
        ((addr <=? b) && (b <? addr + size) &&
         ((b <? (addr + size) / 8 * 8) || AddressIsPoisoned M (mem s) (addr + size)))
      else AddressIsPoisoned M (mem s) b && negb ((addr / 8 * 8 <=? b) && (b <? addr + size)).
Proof.
  intros Hwf Hcan Ha8 Hs Ha Hb63 Hin. pose proof Hb63 as Hb63'.
  change (2 ^ 63) with 9223372036854775808 in Hb63'.
  unfold PoisonAlignedStackMemory. destruct (Z.eqb_spec size 0); [lia |].
  change (ASAN_SHADOW_GRANULARITY - 1) with (2 ^ 3 - 1).
  rewrite land_wnot_pow2 by (unfold is_uptr, word_modulus; lia). change (2 ^ 3) with 8.
  set (asz := size - size mod 8). set (v := if do_poison then _ else _).
  assert (Hv : is_u8 v /\ to_s8 v = if do_poison then -8 else 0)
    by (unfold v, is_u8; destruct do_poison; vm_compute; intuition congruence).
  destruct Hv as [Hv Hvs].
  destruct (PoisonShadow_spec s addr asz v) as (s1 & -> & Hwf1 & Hcan1 & Hsh); try done; [by right | |].
  { unfold asz. split; [zlia | zlia | apply Hin; lia | apply Hin; zlia]. }
  step. rewrite Hvs in Hsh.
  assert (Hu : forall a, addr <= a <= addr + size -> is_uptr a)
    by (intros; unfold is_uptr, word_modulus; lia).
  destruct (Z.eqb_spec size asz) as [Heq | Hne].
  - exists s1. split; [done |]. intros b Hb.
    rewrite !poisoned_shadow_value by first [done | apply Hu; lia]. rewrite Hsh.
    unfold asz in *. destruct do_poison, (_ && _) eqn:H1; zb; by_byte.
  - rewrite (wrap_small (addr + asz)) by (apply Hu; unfold asz; zlia).
    unfold MemToShadow. rewrite Hin by (unfold asz; zlia). step.
    rewrite MEM_TO_SHADOW_spec by (done || apply Hu; unfold asz; zlia).
    change (load_s8 (mem s1) ((addr + asz) / 8 + ASAN_SHADOW_OFFSET M)) with (shadow_value s1 (addr + asz)).
    assert (Hoff : to_s8 (size - asz) = size mod 8).
    { unfold asz, to_s8, to_u8. rewrite (Z.mod_small (_ - _)) by zlia.
      destruct (Z.ltb_spec (size - (size - size mod 8)) 128); zlia. }
    assert (Hev : shadow_value s1 (addr + asz) = shadow_value s (addr + asz))
      by (rewrite Hsh; destruct (_ && _) eqn:?; [zb; lia | done]).
    rewrite Hoff, Hev.
    pose proof (load_s8_range (mem s) ((addr + asz) / 8 + ASAN_SHADOW_OFFSET M)) as Hr.
    fold (shadow_value s (addr + asz)) in Hr.
    assert (Hgr : (addr + size) / 8 = (addr + asz) / 8) by (unfold asz; zlia).
    assert (Hmod : (addr + size) mod 8 = size mod 8) by zlia.
    eexists; split; [done |]. intros b Hb.
    rewrite !poisoned_shadow_value by first [done | apply Hu; lia].
    assert (Hbs : shadow_value s (addr + size) = shadow_value s (addr + asz))
      by (unfold shadow_value; by rewrite Hgr).
    rewrite Hbs, Hmod. clear Hin Hu.
    assert (Hcase : forall w x, -128 <= w < 128 ->
      shadow_value (with_mem x (store (mem x) ((addr + asz) / 8 + ASAN_SHADOW_OFFSET M) (to_u8 w))) b
      = if b / 8 =? (addr + asz) / 8 then w else shadow_value x b).
    { intros w x Hw. unfold shadow_value. cbn [mem with_mem]. rewrite load_s8_store by done.
      destruct (Z.eqb_spec (b / 8 + ASAN_SHADOW_OFFSET M) ((addr + asz) / 8 + ASAN_SHADOW_OFFSET M)),
        (Z.eqb_spec (b / 8) ((addr + asz) / 8)); try done; lia. }
    change (to_u8 kAsanStackUseAfterScopeMagic) with (to_u8 (-8)).
    pose proof (Z.mod_pos_bound size 8 ltac:(lia)).
    assert (Hsame : b / 8 = (addr + asz) / 8 -> shadow_value s b = shadow_value s (addr + asz))
      by (intros He; unfold shadow_value; by rewrite He).
    destruct do_poison; repeat case_match; rewrite ?Hcase by lia; rewrite ?Hsh; unfold asz in *;
      repeat case_match; zb; try (rewrite Hsame by zlia); by_byte.
Qed.

End writes.



(** C38.  [__asan_poison_stack_memory] and [__asan_unpoison_stack_memory] are
    what their comment claims, a simplified version of the general functions:
    for a granule-aligned block of application memory they succeed and leave
    every byte of the address space exactly as poisoned or addressable as
    [__asan_poison_memory_region] and [__asan_unpoison_memory_region] do. *)
Theorem stack_memory_refines_region (M : mapping) (Hwf : WfMapping M) (fl : flags)
  (page_size : Z) (mmap_fixed : memory -> Z -> Z -> option memory)
  (Hmmap : MmapZeroes page_size mmap_fixed) (s : asan_state) (stack tid addr size : Z)
  (Hs : asan_wf fl s) (Hcan : can_poison_memory s = true) (Hallow : allow_user_poisoning fl = true)
  (Hal : addr mod 8 = 0) (Hsize : 0 < size) (Haddr : 8 <= addr) (Hend : addr + size + 8 <= 2 ^ 63)
  (Hmem : forall a, addr - 8 <= a <= addr + size -> AddrIsInMem M a = true) :
  exists p u p' u',
    __asan_poison_stack_memory M fl page_size mmap_fixed s addr size = Ok p /\
    __asan_poison_memory_region M fl s stack tid addr size = Ok p' /\
    __asan_unpoison_stack_memory M fl page_size mmap_fixed s addr size = Ok u /\
    __asan_unpoison_memory_region M fl s addr size = Ok u' /\
    forall b, is_uptr b ->
      __asan_address_is_poisoned M p b = __asan_address_is_poisoned M p' b /\
      __asan_address_is_poisoned M u b = __asan_address_is_poisoned M u' b.
Proof.
  assert (Hr : region_ok M addr size).
  { change (2 ^ 63) with 9223372036854775808 in Hend.
    split; [done | unfold word_modulus; lia | apply Hmem; lia | apply Hmem; lia]. }
  destruct (stack_memory_spec M fl page_size mmap_fixed s addr size true) as (p & Hp & Hpb); try done.
  destruct (stack_memory_spec M fl page_size mmap_fixed s addr size false) as (u & Hu & Hub); try done.
  destruct (poison_region_spec M fl s stack tid addr size) as (p' & Hp' & _ & Hpb'); try done.
  destruct (unpoison_region_spec M fl s addr size) as (u' & Hu' & _ & Hub'); try done.
  exists p, u, p', u'. split_and!; try done. intros b Hb. unfold __asan_address_is_poisoned.
  by rewrite Hpb, Hpb', Hub, Hub' by done.
Qed.

Lemma stack_memory_refines_region_witness :
  exists p u p' u',
    __asan_poison_stack_memory linux_x86_64 default_flags 4096 zeroing_mmap initial_state
      0x7fff00001000 21 = Ok p /\
    __asan_poison_memory_region linux_x86_64 default_flags initial_state 1 0
      0x7fff00001000 21 = Ok p' /\
    __asan_unpoison_stack_memory linux_x86_64 default_flags 4096 zeroing_mmap initial_state
      0x7fff00001000 21 = Ok u /\
    __asan_unpoison_memory_region linux_x86_64 default_flags initial_state
      0x7fff00001000 21 = Ok u' /\
    forall b, is_uptr b ->
      __asan_address_is_poisoned linux_x86_64 p b = __asan_address_is_poisoned linux_x86_64 p' b /\
      __asan_address_is_poisoned linux_x86_64 u b = __asan_address_is_poisoned linux_x86_64 u' b.
Proof.
  apply (stack_memory_refines_region linux_x86_64 linux_x86_64_wf default_flags 4096 zeroing_mmap
           zeroing_mmap_ok); try reflexivity; try lia; [apply initial_state_wf |].
  intros a Ha. unfold AddrIsInMem. rewrite !orb_true_iff. left; right.
  apply (proj1 (high_regions linux_x86_64 a)). change (kHighMemBeg linux_x86_64) with 0x10007fff8000.
  change (kHighMemEnd linux_x86_64) with 0x7fffffffffff. lia.
Defined.
