(* ===== verification/Containers.v ===== *)
(** * Container annotations: asan_poisoning.cpp

    [__sanitizer_annotate_contiguous_container] and its double-ended variant,
    which move the boundary between the used and the unused part of a
    container's storage in the shadow; the copy of annotations between
    buffers; and the verification functions that look for a byte in the wrong
    state.  [DCHECK]s are not modelled: they are off in a release build. *)

From S2P Require Import Prelude Words ShadowMapping Memory RingBuffer Poisoning ShadowWrites.

Section containers.
Context (M : mapping) (fl : flags).
Context (page_size : Z) (mmap_fixed : memory -> Z -> Z -> option memory).

(** The store of a byte at [MemToShadow(a)]. *)
Definition set_shadow (s : asan_state) (a v : Z) : result asan_state :=
  p ← MemToShadow M a; Ok (with_mem s (store (mem s) p v)).

(** The references that [FixUnalignedStorage] updates. *)
Record container_bounds : Type := Bounds {
  old_beg : Z; old_end : Z; new_beg : Z; new_end : Z
}.

Definition map_bounds (f : Z -> Z) (b : container_bounds) : container_bounds :=
  Bounds (f (old_beg b)) (f (old_end b)) (f (new_beg b)) (f (new_end b)).

Definition FixUnalignedStorage (s : asan_state) (storage_beg storage_end : Z) (b : container_bounds)
  : result (asan_state * container_bounds) :=
  let b :=
    if negb (AddrIsAlignedByGranularity storage_end) then
      let end_down := RoundDownTo storage_end ASAN_SHADOW_GRANULARITY in
      if ((negb (old_end b =? new_end b) && (end_down <? Z.max (old_end b) (new_end b))) ||
          (negb (old_beg b =? new_beg b) && (end_down <? Z.max (old_beg b) (new_beg b)))) &&
         negb (AddressIsPoisoned M (mem s) storage_end)
      then map_bounds (Z.min end_down) b else b
    else b in
  if negb (AddrIsAlignedByGranularity storage_beg) then
    beg_up ← RoundUpTo storage_beg ASAN_SHADOW_GRANULARITY;
    if ((new_beg b =? new_end b) || (beg_up <=? new_beg b)) &&
       negb (old_beg b =? old_end b) && (old_beg b <? beg_up)
    then
      let beg_down := RoundDownTo storage_beg ASAN_SHADOW_GRANULARITY in
      s ← set_shadow s beg_down (to_u8 (storage_beg - beg_down));
      Ok (s, map_bounds (Z.max beg_up) b)
    else Ok (s, b)
  else Ok (s, b).

Definition __sanitizer_annotate_contiguous_container
  (s : asan_state) (storage_beg storage_end old_mid new_mid : Z) : result asan_state :=
  if negb (detect_container_overflow fl) then Ok s
  else
    _ ← (if negb ((storage_beg <=? old_mid) && (storage_beg <=? new_mid) &&
                  (old_mid <=? storage_end) && (new_mid <=? storage_end))
         then report fl "ReportBadParamsToAnnotateContiguousContainer" else Ok tt);
    _ ← check (wrap (storage_end - storage_beg) <=? 1099511627776);
    if old_mid =? new_mid then Ok s
    else
      '(s, b) ← FixUnalignedStorage s storage_beg storage_end
                  (Bounds storage_beg old_mid storage_beg new_mid);
      let a := RoundDownTo (Z.min (old_end b) (new_end b)) ASAN_SHADOW_GRANULARITY in
      c ← RoundUpTo (Z.max (old_end b) (new_end b)) ASAN_SHADOW_GRANULARITY;
      let b1 := RoundDownTo (new_end b) ASAN_SHADOW_GRANULARITY in
      b2 ← RoundUpTo (new_end b) ASAN_SHADOW_GRANULARITY;
      s ← (if a <? b1 then PoisonShadow M fl page_size mmap_fixed s a (b1 - a) 0
           else if b2 <? c then
             PoisonShadow M fl page_size mmap_fixed s b2 (c - b2) kAsanContiguousContainerOOBMagic
           else Ok s);
      if negb (b1 =? b2) then
        _ ← check (wrap (b2 - b1) =? ASAN_SHADOW_GRANULARITY);
        set_shadow s b1 (to_u8 (new_end b - b1))
      else Ok s.

Definition __sanitizer_annotate_double_ended_contiguous_container
  (s : asan_state) (storage_beg storage_end old_container_beg old_container_end
   new_container_beg new_container_end : Z) : result asan_state :=
  let b := Bounds old_container_beg old_container_end new_container_beg new_container_end in
  let poison s a n v := PoisonShadow M fl page_size mmap_fixed s a n v in
  if negb (detect_container_overflow fl) then Ok s
  else
    _ ← (if negb ((old_beg b <=? old_end b) && (new_beg b <=? new_end b)) ||
            negb ((storage_beg <=? new_beg b) && (new_end b <=? storage_end)) ||
            negb ((storage_beg <=? old_beg b) && (old_end b <=? storage_end))
         then report fl "ReportBadParamsToAnnotateDoubleEndedContiguousContainer" else Ok tt);
    _ ← check (wrap (storage_end - storage_beg) <=? 1099511627776);
    if ((old_beg b =? old_end b) && (new_beg b =? new_end b)) ||
       ((old_beg b =? new_beg b) && (old_end b =? new_end b))
    then Ok s
    else
      '(s, b) ← FixUnalignedStorage s storage_beg storage_end b;
      if (old_beg b =? old_end b) || (new_beg b =? new_end b) ||
         (new_end b <=? old_beg b) || (old_end b <=? new_beg b)
      then
        s ← (if negb (old_beg b =? old_end b) then
               let a := RoundDownTo (old_beg b) ASAN_SHADOW_GRANULARITY in
               e ← RoundUpTo (old_end b) ASAN_SHADOW_GRANULARITY;
               poison s a (wrap (e - a)) kAsanContiguousContainerOOBMagic
             else Ok s);
        if negb (new_beg b =? new_end b) then
          let a := RoundDownTo (new_beg b) ASAN_SHADOW_GRANULARITY in
          let e := RoundDownTo (new_end b) ASAN_SHADOW_GRANULARITY in
          s ← poison s a (wrap (e - a)) 0;
          if negb (AddrIsAlignedByGranularity (new_end b))
          then set_shadow s e (to_u8 (new_end b - e)) else Ok s
        else Ok s
      else
        _ ← check (new_beg b <? old_end b);
        _ ← check (old_beg b <? new_end b);
        s ← (if new_beg b <? old_beg b then
               let a := RoundDownTo (new_beg b) ASAN_SHADOW_GRANULARITY in
               let c := RoundDownTo (old_beg b) ASAN_SHADOW_GRANULARITY in
               poison s a (wrap (c - a)) 0
             else if old_beg b <? new_beg b then
               let a := RoundDownTo (old_beg b) ASAN_SHADOW_GRANULARITY in
               let c := RoundDownTo (new_beg b) ASAN_SHADOW_GRANULARITY in
               poison s a (wrap (c - a)) kAsanContiguousContainerOOBMagic
             else Ok s);
        if old_end b <? new_end b then
          let a := RoundDownTo (old_end b) ASAN_SHADOW_GRANULARITY in
          let c := RoundDownTo (new_end b) ASAN_SHADOW_GRANULARITY in
          s ← poison s a (wrap (c - a)) 0;
          if negb (AddrIsAlignedByGranularity (new_end b))
          then set_shadow s c (to_u8 (new_end b - c)) else Ok s
        else if new_end b <? old_end b then
          a2 ← RoundUpTo (new_end b) ASAN_SHADOW_GRANULARITY;
          c2 ← RoundUpTo (old_end b) ASAN_SHADOW_GRANULARITY;
          s ← poison s a2 (wrap (c2 - a2)) kAsanContiguousContainerOOBMagic;
          if negb (AddrIsAlignedByGranularity (new_end b)) then
            let a := RoundDownTo (new_end b) ASAN_SHADOW_GRANULARITY in
            set_shadow s a (to_u8 (new_end b - a))
          else Ok s
        else Ok s.

(** ** Copying annotations *)

(** [n] is a [u8] parameter. *)
Definition SetContainerGranule (s : asan_state) (ptr n : Z) : result asan_state :=
  let n := to_u8 n in
  let v := if n =? ASAN_SHADOW_GRANULARITY then 0
           else if negb (n =? 0) then n else kAsanContiguousContainerOOBMagic in
  set_shadow s ptr v.

(** The inner loop of the forward copy, [dst_ptr] up to [end]: the result is
    [unpoisoned_bytes]. *)
Fixpoint copy_scan (s : asan_state) (src_ptr dst_ptr granule_beg unpoisoned_bytes : Z) (k : nat) : Z :=
  match k with
  | O => unpoisoned_bytes
  | S k' =>
      copy_scan s (src_ptr + 1) (dst_ptr + 1) granule_beg
        (if negb (AddressIsPoisoned M (mem s) src_ptr) then dst_ptr - granule_beg + 1
         else unpoisoned_bytes) k'
  end.

Fixpoint SlowCopy_loop (s : asan_state) (src_ptr dst_ptr dst_beg dst_end : Z) (fuel : nat)
  : result asan_state :=
  if dst_end <=? dst_ptr then Ok s
  else match fuel with
  | O => Die OutOfFuel
  | S fuel' =>
      let dst_end_down := RoundDownTo dst_end ASAN_SHADOW_GRANULARITY in
      let granule_beg := RoundDownTo dst_ptr ASAN_SHADOW_GRANULARITY in
      let granule_end := granule_beg + ASAN_SHADOW_GRANULARITY in
      let last := Z.min granule_end dst_end in
      let n := last - dst_ptr in
      let unpoisoned_bytes := copy_scan s src_ptr dst_ptr granule_beg 0 (Z.to_nat n) in
      s ← (if (last =? dst_end) && negb (dst_end =? dst_end_down) &&
              negb (AddressIsPoisoned M (mem s) dst_end) then Ok s
           else if negb (unpoisoned_bytes =? 0) || (dst_beg <=? granule_beg) then
             SetContainerGranule s granule_beg unpoisoned_bytes
           else if negb (AddressIsPoisoned M (mem s) dst_beg) then
             SetContainerGranule s granule_beg (dst_beg - granule_beg)
           else Ok s);
      SlowCopy_loop s (src_ptr + n) last dst_beg dst_end fuel'
  end.

Definition SlowCopyContainerAnnotations (s : asan_state) (src_beg src_end dst_beg dst_end : Z)
  : result asan_state :=
  SlowCopy_loop s src_beg dst_beg dst_beg dst_end (Z.to_nat (dst_end - dst_beg)).

(** The inner loop of the reversed copy, [dst_ptr] down to [end]. *)
Fixpoint copy_scan_down (s : asan_state) (src_ptr dst_ptr granule_beg unpoisoned_bytes : Z) (k : nat) : Z :=
  match k with
  | O => unpoisoned_bytes
  | S k' =>
      copy_scan_down s (src_ptr - 1) (dst_ptr - 1) granule_beg
        (if (unpoisoned_bytes =? 0) && negb (AddressIsPoisoned M (mem s) (src_ptr - 1))
         then dst_ptr - granule_beg else unpoisoned_bytes) k'
  end.

Fixpoint SlowReversedCopy_loop (s : asan_state) (src_ptr dst_ptr dst_beg dst_end : Z) (fuel : nat)
  : result asan_state :=
  if dst_ptr <=? dst_beg then Ok s
  else match fuel with
  | O => Die OutOfFuel
  | S fuel' =>
      let dst_end_down := RoundDownTo dst_end ASAN_SHADOW_GRANULARITY in
      let granule_beg := RoundDownTo (dst_ptr - 1) ASAN_SHADOW_GRANULARITY in
      let last := Z.max granule_beg dst_beg in
      let n := dst_ptr - last in
      let unpoisoned_bytes := copy_scan_down s src_ptr dst_ptr granule_beg 0 (Z.to_nat n) in
      s ← (if (dst_end_down <=? last) && negb (AddressIsPoisoned M (mem s) dst_end) then Ok s
           else if (granule_beg =? last) || negb (unpoisoned_bytes =? 0) then
             SetContainerGranule s granule_beg unpoisoned_bytes
           else if negb (AddressIsPoisoned M (mem s) dst_beg) then
             SetContainerGranule s granule_beg (dst_beg - granule_beg)
           else Ok s);
      SlowReversedCopy_loop s (src_ptr - n) last dst_beg dst_end fuel'
  end.

Definition SlowReversedCopyContainerAnnotations (s : asan_state) (src_beg src_end dst_beg dst_end : Z)
  : result asan_state :=
  SlowReversedCopy_loop s src_end dst_end dst_beg dst_end (Z.to_nat (dst_end - dst_beg)).

Definition CopyContainerFirstGranuleAnnotation (s : asan_state) (src_beg dst_beg : Z)
  : result asan_state :=
  let src_beg_down := RoundDownTo src_beg ASAN_SHADOW_GRANULARITY in
  let dst_beg_down := RoundDownTo dst_beg ASAN_SHADOW_GRANULARITY in
  if dst_beg_down =? dst_beg then Ok s
  else if negb (AddressIsPoisoned M (mem s) src_beg) then
    p ← MemToShadow M src_beg_down;
    set_shadow s dst_beg_down (mem s p)
  else if negb (AddressIsPoisoned M (mem s) dst_beg) then
    SetContainerGranule s dst_beg_down (dst_beg - dst_beg_down)
  else Ok s.

Definition CopyContainerLastGranuleAnnotation (s : asan_state) (src_end dst_end : Z)
  : result asan_state :=
  let src_end_down := RoundDownTo src_end ASAN_SHADOW_GRANULARITY in
  let dst_end_down := RoundDownTo dst_end ASAN_SHADOW_GRANULARITY in
  if (dst_end_down =? dst_end) || negb (AddressIsPoisoned M (mem s) dst_end) then Ok s
  else if AddressIsPoisoned M (mem s) src_end then
    p ← MemToShadow M src_end_down;
    set_shadow s dst_end_down (mem s p)
  else SetContainerGranule s dst_end_down (src_end - src_end_down).

Definition __sanitizer_copy_contiguous_container_annotations
  (s : asan_state) (src_beg src_end dst_beg dst_end : Z) : result asan_state :=
  if negb (detect_container_overflow fl) then Ok s
  else
    _ ← (if (src_end <? src_beg) || negb (wrap (dst_end - dst_beg) =? wrap (src_end - src_beg))
         then report fl "ReportBadParamsToCopyContiguousContainerAnnotations" else Ok tt);
    if (src_beg =? src_end) || (src_beg =? dst_beg) then Ok s
    else
      src_beg_up ← RoundUpTo src_beg ASAN_SHADOW_GRANULARITY;
      src_end_up ← RoundUpTo src_end ASAN_SHADOW_GRANULARITY;
      let copy_in_reversed_order := (src_beg <? dst_beg) && (dst_beg <=? src_end_up) in
      if negb (src_beg mod ASAN_SHADOW_GRANULARITY =? dst_beg mod ASAN_SHADOW_GRANULARITY) ||
         (RoundDownTo (dst_end -w 1) ASAN_SHADOW_GRANULARITY <=? dst_beg)
      then
        if copy_in_reversed_order
        then SlowReversedCopyContainerAnnotations s src_beg src_end dst_beg dst_end
        else SlowCopyContainerAnnotations s src_beg src_end dst_beg dst_end
      else
        dst_beg_up ← RoundUpTo dst_beg ASAN_SHADOW_GRANULARITY;
        let dst_end_down := RoundDownTo dst_end ASAN_SHADOW_GRANULARITY in
        s ← (if copy_in_reversed_order then CopyContainerLastGranuleAnnotation s src_end dst_end
             else CopyContainerFirstGranuleAnnotation s src_beg dst_beg);
        s ← (if dst_beg_up <? dst_end_down then
               d ← MemToShadow M dst_beg_up;
               p ← MemToShadow M src_beg_up;
               m ← internal_memmove (mem s) d p
                     ((dst_end_down - dst_beg_up) / ASAN_SHADOW_GRANULARITY);
               Ok (with_mem s m)
             else Ok s);
        if copy_in_reversed_order then CopyContainerFirstGranuleAnnotation s src_beg dst_beg
        else CopyContainerLastGranuleAnnotation s src_end dst_end.

(** ** Verification *)

(** [for (uptr i = begin; i < end; ++i) if (AddressIsPoisoned(i) != poisoned)
    return i;] *)
Fixpoint find_state (s : asan_state) (i : Z) (poisoned : bool) (k : nat) : Z :=
  match k with
  | O => 0
  | S k' =>
      if negb (Bool.eqb (AddressIsPoisoned M (mem s) i) poisoned) then i
      else find_state s (i + 1) poisoned k'
  end.

Definition kMaxRangeToCheck : Z := 32.

(** A null pointer is 0.  The recursive calls check ranges of 32 bytes, which
    do not recurse: [depth] 2 is enough. *)
Fixpoint FindBadAddress_depth (s : asan_state) (first last : Z) (poisoned : bool) (depth : nat)
  : result Z :=
  match depth with
  | O => Die OutOfFuel
  | S depth' =>
      _ ← check (first <=? last);
      bad ← (if kMaxRangeToCheck * 2 <? last - first then
               bad ← FindBadAddress_depth s first (first + kMaxRangeToCheck) poisoned depth';
               if negb (bad =? 0) then Ok bad
               else FindBadAddress_depth s (last - kMaxRangeToCheck) last poisoned depth'
             else Ok 0);
      if negb (bad =? 0) then Ok bad
      else Ok (find_state s first poisoned (Z.to_nat (last - first)))
  end.

Definition FindBadAddress (s : asan_state) (first last : Z) (poisoned : bool) : result Z :=
  FindBadAddress_depth s first last poisoned 2.

Definition __sanitizer_contiguous_container_find_bad_address (s : asan_state) (beg mid last : Z)
  : result Z :=
  if negb (detect_container_overflow fl) then Ok 0
  else
    _ ← check (beg <=? mid);
    _ ← check (mid <=? last);
    let annotations_end :=
      if negb (AddrIsAlignedByGranularity last) && negb (AddressIsPoisoned M (mem s) last)
      then RoundDownTo last ASAN_SHADOW_GRANULARITY else last in
    let beg := Z.min beg annotations_end in
    let mid := Z.min mid annotations_end in
    bad ← FindBadAddress s beg mid false;
    if negb (bad =? 0) then Ok bad
    else
      bad ← FindBadAddress s mid annotations_end true;
      if negb (bad =? 0) then Ok bad
      else FindBadAddress s annotations_end last false.

Definition __sanitizer_verify_contiguous_container (s : asan_state) (beg mid last : Z) : result Z :=
  bad ← __sanitizer_contiguous_container_find_bad_address s beg mid last;
  Ok (if bad =? 0 then 1 else 0).

Definition __sanitizer_double_ended_contiguous_container_find_bad_address
  (s : asan_state) (storage_beg container_beg container_end storage_end : Z) : result Z :=
  if negb (detect_container_overflow fl) then Ok 0
  else
    let beg := if negb (container_beg =? container_end)
               then Z.max storage_beg (RoundDownTo container_beg ASAN_SHADOW_GRANULARITY)
               else container_beg in
    let annotations_end :=
      if negb (AddrIsAlignedByGranularity storage_end) &&
         negb (AddressIsPoisoned M (mem s) storage_end)
      then RoundDownTo storage_end ASAN_SHADOW_GRANULARITY else storage_end in
    let storage_beg := Z.min storage_beg annotations_end in
    let beg := Z.min beg annotations_end in
    let last := Z.min container_end annotations_end in
    bad ← FindBadAddress s storage_beg beg true;
    if negb (bad =? 0) then Ok bad
    else
      bad ← FindBadAddress s beg last false;
      if negb (bad =? 0) then Ok bad
      else
        bad ← FindBadAddress s last annotations_end true;
        if negb (bad =? 0) then Ok bad
        else FindBadAddress s annotations_end storage_end false.

Definition __sanitizer_verify_double_ended_contiguous_container
  (s : asan_state) (storage_beg container_beg container_end storage_end : Z) : result Z :=
  bad ← __sanitizer_double_ended_contiguous_container_find_bad_address
          s storage_beg container_beg container_end storage_end;
  Ok (if bad =? 0 then 1 else 0).

End containers.
