(* ===== verification/ContainerSpecs.v ===== *)
(** * What container annotations achieve

    [annotated s beg mid last] is what a container with storage
    [[beg, last)] and elements in [[beg, mid)] expects of the shadow.  The
    annotation functions re-establish it for the new boundary, whatever the
    alignment of the storage, and never poison a byte outside the storage. *)

From S2P Require Import Prelude Words ShadowMapping Memory RingBuffer Poisoning ShadowWrites Containers.

(** Arithmetic on quotients by the granularity; [zlia] where other moduli
    occur. *)
Ltac qlia := first [solve [by_granules; lia] | zlia].

Section specs.
Context (M : mapping) `{!WfMapping M} (fl : flags).
Context (page_size : Z) (mmap_fixed : memory -> Z -> Z -> option memory)
  `{!MmapZeroes page_size mmap_fixed}.

Abbreviation poisoned s b := (AddressIsPoisoned M (mem s) b).
Abbreviation sv s b := (shadow_value M s b).

(** Storage in application memory, two granules away from its ends. *)
Record storage_ok (beg last : Z) : Prop := {
  storage_bounds : 16 <= beg <= last;
  storage_last : last + 16 <= 2 ^ 63;
  storage_size : last - beg <= 2 ^ 40;
  storage_in_mem : forall a, beg - 16 <= a <= last + 8 -> AddrIsInMem M a = true;
}.

Lemma round_down_8 (x : Z) : 0 <= x < 2 ^ 63 -> RoundDownTo x ASAN_SHADOW_GRANULARITY = 8 * (x / 8).
Proof.
  change (2 ^ 63) with 9223372036854775808. intros Hx.
  rewrite RoundDownTo_spec; [unfold ASAN_SHADOW_GRANULARITY; qlia | | apply pow2_word_8].
  unfold is_uptr, word_modulus. lia.
Qed.

Lemma round_up_8 (x : Z) : 0 <= x < 2 ^ 63 ->
  RoundUpTo x ASAN_SHADOW_GRANULARITY = Ok (8 * ((x + 7) / 8)).
Proof.
  change (2 ^ 63) with 9223372036854775808. intros Hx.
  rewrite RoundUpTo_spec; [| unfold is_uptr, word_modulus; lia | apply pow2_word_8].
  cbv zeta. unfold ASAN_SHADOW_GRANULARITY.
  rewrite wrap_small by (unfold is_uptr, word_modulus; lia). f_equal. qlia.
Qed.

(** What one write of the model does to the state. *)
Definition writes (s s' : asan_state) (f : Z -> Z) : Prop :=
  asan_wf fl s' /\ can_poison_memory s' = can_poison_memory s /\ forall b, sv s' b = f b.

Lemma set_shadow_spec (s : asan_state) (a v : Z) :
  asan_wf fl s -> is_u8 v -> is_uptr a -> AddrIsInMem M a = true ->
  exists s', set_shadow M s a v = Ok s' /\
    writes s s' (fun b => if b / 8 =? a / 8 then to_s8 v else sv s b).
Proof.
  intros Hwf Hv Ha Hm. unfold set_shadow, MemToShadow. rewrite Hm. step.
  eexists; split; [done |]. split_and!; [| done |].
  - apply with_mem_wf; [done |]. apply bytes_ok_store; [apply Hwf | done].
  - intros b. unfold shadow_value. cbn [mem with_mem]. rewrite MEM_TO_SHADOW_spec by done.
    unfold load_s8, store.
    destruct (Z.eqb_spec (b / 8 + ASAN_SHADOW_OFFSET M) (a / 8 + ASAN_SHADOW_OFFSET M)),
      (Z.eqb_spec (b / 8) (a / 8)); (done || lia).
Qed.

Lemma poison_granules (s : asan_state) (a n v : Z) :
  asan_wf fl s -> is_u8 v -> can_poison_memory s = true -> granules_ok M a n ->
  exists s', PoisonShadow M fl page_size mmap_fixed s a n v = Ok s' /\
    writes s s' (fun b => if (a <=? b) && (b <? a + n) then to_s8 v else sv s b).
Proof.
  intros Hwf Hv Hc Hg. destruct (PoisonShadow_spec M fl page_size mmap_fixed s a n v) as (s' & H); try done.
  { by right. }
  destruct H as (? & ? & ? & ?). exists s'. by split_and!.
Qed.

Lemma poison_span (s : asan_state) (beg last a c v : Z) :
  asan_wf fl s -> is_u8 v -> can_poison_memory s = true -> storage_ok beg last ->
  a mod 8 = 0 -> c mod 8 = 0 -> beg - 8 < a -> a <= c -> c < last + 8 ->
  exists s', PoisonShadow M fl page_size mmap_fixed s a (c - a) v = Ok s' /\
    writes s s' (fun b => if (a <=? b) && (b <? c) then to_s8 v else sv s b).
Proof.
  intros Hwf Hv Hcan [Hb Hl Hs Hm] Ha Hc Hba Hac Hcl. change (2 ^ 63) with 9223372036854775808 in *.
  destruct (poison_granules s a (c - a) v) as (s' & -> & Hw1 & Hw2 & Hw3); try done.
  - split; [qlia | change (2 ^ 63) with 9223372036854775808; lia | apply Hm; lia | apply Hm; lia].
  - exists s'. split; [done |]. unfold writes. split_and!; try done. intros b. rewrite Hw3.
    by replace (a + (c - a)) with c by lia.
Qed.

(** Where annotations stop: a last, partial granule whose next byte is
    addressable cannot be poisoned. *)
Definition annotations_end (s : asan_state) (last : Z) : Z :=
  if negb (last mod 8 =? 0) && negb (poisoned s last) then 8 * (last / 8) else last.

Definition annotated (s : asan_state) (beg mid last : Z) : Prop :=
  forall b, beg <= b < last -> poisoned s b = (mid <=? b) && (b <? annotations_end s last).

(** The new shadow value of the granules that the annotation rewrites. *)
Definition prefix_value (n b : Z) : Z :=
  if 8 * (b / 8) + 8 <=? n then 0 else if n <=? 8 * (b / 8) then -4 else n - 8 * (b / 8).

(** The part of [__sanitizer_annotate_contiguous_container] after
    [FixUnalignedStorage]. *)
Definition annotate_tail (s : asan_state) (o n : Z) : result asan_state :=
  let a := RoundDownTo (Z.min o n) ASAN_SHADOW_GRANULARITY in
  c ← RoundUpTo (Z.max o n) ASAN_SHADOW_GRANULARITY;
  let b1 := RoundDownTo n ASAN_SHADOW_GRANULARITY in
  b2 ← RoundUpTo n ASAN_SHADOW_GRANULARITY;
  s ← (if a <? b1 then PoisonShadow M fl page_size mmap_fixed s a (b1 - a) 0
       else if b2 <? c then
         PoisonShadow M fl page_size mmap_fixed s b2 (c - b2) kAsanContiguousContainerOOBMagic
       else Ok s);
  if negb (b1 =? b2) then
    _ ← check (wrap (b2 - b1) =? ASAN_SHADOW_GRANULARITY);
    set_shadow M s b1 (to_u8 (n - b1))
  else Ok s.

Lemma annotate_tail_spec (s : asan_state) (beg last o n : Z) :
  asan_wf fl s -> can_poison_memory s = true -> storage_ok beg last ->
  beg - 8 < o <= last -> beg - 8 < n <= last -> (n < beg -> n mod 8 = 0) -> (o < beg -> o mod 8 = 0) ->
  (o = n -> o mod 8 = 0) ->
  exists s', annotate_tail s o n = Ok s' /\
    writes s s' (fun b => if (8 * (Z.min o n / 8) <=? b) && (b <? 8 * ((Z.max o n + 7) / 8))
                          then prefix_value n b else sv s b).
Proof.
  intros Hwf Hcan Hst Ho Hn Hnb Hob Heq. pose proof Hst as [Hb Hl Hs Hm].
  change (2 ^ 63) with 9223372036854775808 in *. unfold annotate_tail.
  rewrite !round_down_8, !round_up_8 by (change (2 ^ 63) with 9223372036854775808; lia). step.
  assert (Hstep1 : exists s1,
    (if 8 * (Z.min o n / 8) <? 8 * (n / 8)
     then PoisonShadow M fl page_size mmap_fixed s (8 * (Z.min o n / 8))
            (8 * (n / 8) - 8 * (Z.min o n / 8)) 0
     else if 8 * ((n + 7) / 8) <? 8 * ((Z.max o n + 7) / 8)
          then PoisonShadow M fl page_size mmap_fixed s (8 * ((n + 7) / 8))
                 (8 * ((Z.max o n + 7) / 8) - 8 * ((n + 7) / 8)) kAsanContiguousContainerOOBMagic
          else Ok s) = Ok s1 /\
    writes s s1 (fun b => if (8 * (Z.min o n / 8) <=? b) && (b <? 8 * (n / 8)) then 0
                          else if (8 * ((n + 7) / 8) <=? b) && (b <? 8 * ((Z.max o n + 7) / 8)) then -4
                          else sv s b)).
  { destruct (Z.ltb_spec (8 * (Z.min o n / 8)) (8 * (n / 8))) as [Hgrow | Hnot].
    - destruct (poison_span s beg last (8 * (Z.min o n / 8)) (8 * (n / 8)) 0)
        as (s1 & -> & Hw1 & Hw2 & Hw3); try done; try qlia.
      exists s1. split; [done |]. split_and!; try done. intros b. rewrite Hw3.
      repeat case_match; zb; try done; qlia.
    - destruct (Z.ltb_spec (8 * ((n + 7) / 8)) (8 * ((Z.max o n + 7) / 8))) as [Hshrink | Hsame].
      + destruct (poison_span s beg last (8 * ((n + 7) / 8)) (8 * ((Z.max o n + 7) / 8))
          kAsanContiguousContainerOOBMagic) as (s1 & -> & Hw1 & Hw2 & Hw3); try done; try qlia.
          exists s1. split; [done |]. split_and!; try done. intros b. rewrite Hw3.
        change (to_s8 kAsanContiguousContainerOOBMagic) with (-4).
        repeat case_match; zb; try done; qlia.
      + exists s. split; [done |]. split_and!; try done. intros b.
        repeat case_match; zb; try done; qlia. }
  destruct Hstep1 as (s1 & -> & Hw1 & Hw2 & Hw3). step.
  destruct (Z.eqb_spec (8 * (n / 8)) (8 * ((n + 7) / 8))) as [He | Hne]; simpl negb; cbv iota.
  - exists s1. split; [done |]. split_and!; try done. intros b. rewrite Hw3. unfold prefix_value.
    repeat case_match; zb; try done; qlia.
  - rewrite (check_true (wrap _ =? _)).
    2:{ apply Z.eqb_eq. unfold ASAN_SHADOW_GRANULARITY.
        rewrite wrap_small by (unfold is_uptr, word_modulus; qlia). qlia. }
    step. replace (to_u8 (n - 8 * (n / 8))) with (n - 8 * (n / 8)) by (unfold to_u8; qlia).
    destruct (set_shadow_spec s1 (8 * (n / 8)) (n - 8 * (n / 8))) as (s2 & -> & Hx1 & Hx2 & Hx3);
      [done | unfold is_u8; qlia | unfold is_uptr, word_modulus; qlia | apply Hm; qlia |].
    exists s2. split; [done |]. split_and!; [done | congruence |]. intros b. rewrite Hx3, Hw3.
    replace (to_s8 (n - 8 * (n / 8))) with (n - 8 * (n / 8)).
    2:{ unfold to_s8, to_u8. rewrite Z.mod_small by qlia. destruct (Z.ltb_spec (n - 8 * (n / 8)) 128); qlia. }
    unfold prefix_value. repeat case_match; zb; try done; qlia.
Qed.

Lemma annotations_end_bounds (s : asan_state) (last : Z) : 0 <= last ->
  last - 7 <= annotations_end s last <= last /\
  (annotations_end s last = last \/
   annotations_end s last = 8 * (last / 8) /\ last mod 8 <> 0 /\ poisoned s last = false).
Proof.
  intros H. unfold annotations_end. destruct (_ && _) eqn:He; [| split; [lia | by left]].
  apply andb_true_iff in He as [H1 H2]. zb. split; [qlia | by right].
Qed.

(** Whether the first, partial granule is given back: it held elements and
    will hold none. *)
Definition resets_first (beg o n : Z) : bool :=
  negb (beg mod 8 =? 0) && (n =? beg) && negb (o =? beg).

Lemma FixUnalignedStorage_single (s : asan_state) (beg last old new : Z) :
  asan_wf fl s -> storage_ok beg last -> beg <= old <= last -> beg <= new <= last -> old <> new ->
  let o := Z.min (annotations_end s last) old in
  let n := Z.min (annotations_end s last) new in
  let r := resets_first beg o n in
  exists s1 b, FixUnalignedStorage M s beg last (Bounds beg old beg new) = Ok (s1, b) /\
    old_end b = (if r then Z.max (8 * ((beg + 7) / 8)) o else o) /\
    new_end b = (if r then Z.max (8 * ((beg + 7) / 8)) n else n) /\
    writes s s1 (fun x => if r && (x / 8 =? beg / 8) then beg mod 8 else sv s x).
Proof.
  intros Hwf Hst Ho Hn Hne o n r. pose proof Hst as [Hb Hl Hs Hm].
  destruct (annotations_end_bounds s last ltac:(lia)) as [Hann Hann'].
  unfold FixUnalignedStorage. rewrite !aligned_spec. cbn [old_beg old_end new_beg new_end].
  change (2 ^ 63) with 9223372036854775808 in *.
  rewrite !round_down_8, round_up_8 by (change (2 ^ 63) with 9223372036854775808; lia).
  match goal with |- context [mbind _ (Ok (8 * ((beg + 7) / 8)))] => step end.
  set (b1 := if negb (last mod 8 =? 0) then _ else _).
  assert (Hb1 : b1 = map_bounds (Z.min (annotations_end s last)) (Bounds beg old beg new)).
  { unfold b1, map_bounds. cbn [old_beg old_end new_beg new_end]. unfold annotations_end in *.
    rewrite (Z.eqb_refl beg). cbn [negb andb]. rewrite orb_false_r.
    destruct (Z.eqb_spec (last mod 8) 0), (poisoned s last), (Z.eqb_spec old new),
      (Z.ltb_spec (8 * (last / 8)) (Z.max old new)); cbn [negb andb]; try done; f_equal; qlia. }
  rewrite Hb1. unfold map_bounds. cbn [old_beg old_end new_beg new_end]. fold o n.
  destruct (Z.eqb_spec (beg mod 8) 0) as [Hal | Hal]; cbn [negb].
  { exists s. eexists. split; [done |]. unfold r, resets_first, writes. rewrite Hal. by split_and!. }
  destruct (_ && _ && _) eqn:Htrig.
  - zb. assert (Hr : r = true).
    { unfold r, resets_first. rewrite !andb_true_iff, !negb_true_iff, !Z.eqb_neq, !Z.eqb_eq.
      split_and!; qlia. }
    rewrite Hr. cbn [andb].
    replace (to_u8 (beg - 8 * (beg / 8))) with (beg mod 8) by (unfold to_u8; zlia).
    destruct (set_shadow_spec s (8 * (beg / 8)) (beg mod 8)) as (s1 & -> & Hw1 & Hw2 & Hw3);
      [done | unfold is_u8; qlia | unfold is_uptr, word_modulus; qlia | apply Hm; qlia |].
    step. exists s1. eexists. split; [done |]. cbn [old_beg old_end new_beg new_end].
    unfold writes. split_and!; try done. intros x. rewrite Hw3.
    replace (to_s8 (beg mod 8)) with (beg mod 8)
      by (unfold to_s8, to_u8; rewrite (Z.mod_small (beg mod 8)) by zlia;
          destruct (Z.ltb_spec (beg mod 8) 128); zlia).
    by replace (8 * (beg / 8) / 8) with (beg / 8) by qlia.
  - assert (Hr : r = false).
    { unfold r, resets_first. apply not_true_iff_false. intros Hr.
      apply not_true_iff_false in Htrig. apply Htrig.
      rewrite !andb_true_iff, !negb_true_iff, !Z.eqb_neq, !Z.eqb_eq in Hr.
      rewrite !andb_true_iff, orb_true_iff, !negb_true_iff, !Z.eqb_neq, !Z.eqb_eq, Z.ltb_lt, Z.leb_le.
      split_and!; qlia. }
    rewrite Hr. exists s. eexists. split; [done |]. unfold writes. by split_and!.
Qed.

Lemma annotate_tail_noop (s : asan_state) (o : Z) :
  o mod 8 = 0 -> 0 <= o < 2 ^ 63 -> annotate_tail s o o = Ok s.
Proof.
  intros Ha Ho. unfold annotate_tail. rewrite Z.min_id, Z.max_id.
  rewrite !round_down_8, !round_up_8 by done. step. rewrite !Z.ltb_irrefl.
  replace (8 * ((o + 7) / 8)) with (8 * (o / 8)) by qlia.
  rewrite Z.eqb_refl. step. destruct (Z.ltb_spec (8 * (o / 8)) (8 * (o / 8))); [lia | done].
Qed.

(** The shadow after an annotation, granule by granule. *)
Definition annotated_value (s : asan_state) (beg last old new b : Z) : Z :=
  let o := Z.min (annotations_end s last) old in
  let n := Z.min (annotations_end s last) new in
  if resets_first beg o n then
    if b / 8 =? beg / 8 then beg mod 8
    else if (8 * ((beg + 7) / 8) <=? b) && (b <? 8 * ((o + 7) / 8)) then -4 else sv s b
  else if (8 * (Z.min o n / 8) <=? b) && (b <? 8 * ((Z.max o n + 7) / 8))
       then prefix_value n b else sv s b.

Lemma annotate_effect (s : asan_state) (beg last old new : Z) :
  asan_wf fl s -> can_poison_memory s = true -> detect_container_overflow fl = true ->
  storage_ok beg last -> beg <= old <= last -> beg <= new <= last -> old <> new ->
  exists s', __sanitizer_annotate_contiguous_container M fl page_size mmap_fixed s beg last old new
             = Ok s' /\ writes s s' (annotated_value s beg last old new).
Proof.
  intros Hwf Hcan Hdet Hst Ho Hn Hne. pose proof Hst as [Hb Hl Hs Hm].
  change (2 ^ 63) with 9223372036854775808 in *. change (2 ^ 40) with 1099511627776 in *.
  unfold __sanitizer_annotate_contiguous_container. rewrite Hdet.
  destruct (_ && _ && _ && _) eqn:Hpar.
  2:{ apply not_true_iff_false in Hpar. destruct Hpar. rewrite !andb_true_iff, !Z.leb_le. lia. }
  cbn [negb]. step. rewrite (wrap_small (last - beg)) by (unfold is_uptr, word_modulus; lia).
  rewrite (check_true (_ <=? _)) by (apply Z.leb_le; lia). step.
  destruct (Z.eqb_spec old new); [done |].
  destruct (FixUnalignedStorage_single s beg last old new Hwf Hst Ho Hn Hne)
    as (s1 & b & -> & Hbo & Hbn & Hw1 & Hw2 & Hw3). step.
  match goal with |- exists s', ?t = _ /\ _ => change t with (annotate_tail s1 (old_end b) (new_end b)) end.
  rewrite Hbo, Hbn. clear Hbo Hbn b. unfold annotated_value.
  destruct (annotations_end_bounds s last ltac:(lia)) as [Hann Hann'].
  set (o := Z.min _ old) in *. set (nn := Z.min _ new) in *.
  assert (Ho' : beg - 8 < o <= last) by (subst o; lia).
  assert (Hn' : beg - 8 < nn <= last) by (subst nn; lia).
  destruct (resets_first beg o nn) eqn:Hr; cbn [andb] in *.
  - unfold resets_first in Hr. zb. set (bu := 8 * ((beg + 7) / 8)).
    assert (Hbu : beg < bu <= beg + 7 /\ bu mod 8 = 0) by (unfold bu; qlia).
    replace (Z.max bu nn) with bu by lia. destruct (Z.leb_spec o bu).
    + rewrite Z.max_l by lia. rewrite annotate_tail_noop; [| tauto |].
      2:{ change (2 ^ 63) with 9223372036854775808. lia. }
      exists s1. split; [done |]. unfold writes. split_and!; try done. intros x. rewrite Hw3.
      destruct (x / 8 =? beg / 8); [done |]. repeat case_match; zb; try done. subst bu. qlia.
    + rewrite Z.max_r by lia.
      destruct (annotate_tail_spec s1 beg last o bu) as (s2 & -> & Hx1 & Hx2 & Hx3);
        try done; try lia; [congruence |].
      exists s2. split; [done |]. unfold writes. split_and!; [done | congruence |].
      intros x. rewrite Hx3, Hw3. unfold prefix_value.
      repeat case_match; zb; try done; subst bu; qlia.
  - destruct (annotate_tail_spec s1 beg last o nn) as (s2 & -> & Hx1 & Hx2 & Hx3);
      try done; try congruence; try (subst o nn; qlia).
    exists s2. split; [done |]. unfold writes. split_and!; [done | congruence |].
    intros x. by rewrite Hx3, Hw3.
Qed.

(** The byte view of an annotation. *)
Lemma annotated_value_end (s s' : asan_state) (beg last old new : Z) :
  storage_ok beg last -> beg <= old <= last -> beg <= new <= last ->
  writes s s' (annotated_value s beg last old new) ->
  annotations_end s' last = annotations_end s last.
Proof.
  intros [Hb Hl Hs Hm] Ho Hn (_ & _ & Hw). change (2 ^ 63) with 9223372036854775808 in *.
  destruct (annotations_end_bounds s last ltac:(lia)) as [Hann Hann'].
  unfold annotations_end at 1. destruct (Z.eqb_spec (last mod 8) 0) as [Ha | Ha]; cbn [negb andb].
  { unfold annotations_end. by rewrite Ha. }
  assert (Hlast : poisoned s' last = poisoned s last); [| by rewrite Hlast; unfold annotations_end;
    destruct (Z.eqb_spec (last mod 8) 0)].
  rewrite !poisoned_shadow_value by (done || unfold is_uptr, word_modulus; lia).
  rewrite Hw. unfold annotated_value.
  assert (Hcase : annotations_end s last = last /\
                  granule_poisoned (sv s last) (last mod 8) = true \/
                  annotations_end s last = 8 * (last / 8) /\
                  granule_poisoned (sv s last) (last mod 8) = false).
  { rewrite <- poisoned_shadow_value by (done || unfold is_uptr, word_modulus; lia).
    unfold annotations_end. destruct (Z.eqb_spec (last mod 8) 0); [done |].
    destruct (poisoned s last); cbn [negb andb]; tauto. }
  clear Hw Hann'. set (o := Z.min _ old). set (nn := Z.min _ new).
  destruct Hcase as [[He Hp] | [He Hp]]; rewrite Hp; unfold resets_first, prefix_value.
  - repeat case_match; try done; apply granule_poisoned_iff; zb; subst o nn; qlia.
  - rewrite He in *. repeat case_match; try done; exfalso; zb; subst o nn; qlia.
Qed.

Lemma annotate_spec (s : asan_state) (beg last old new : Z) :
  asan_wf fl s -> can_poison_memory s = true -> detect_container_overflow fl = true ->
  storage_ok beg last -> beg <= old <= last -> beg <= new <= last -> annotated s beg old last ->
  exists s', __sanitizer_annotate_contiguous_container M fl page_size mmap_fixed s beg last old new
             = Ok s' /\ asan_wf fl s' /\ annotated s' beg new last /\
    forall b, is_uptr b -> b < beg \/ last <= b -> poisoned s' b = true -> poisoned s b = true.
Proof.
  intros Hwf Hcan Hdet Hst Ho Hn Hold. destruct (Z.eq_dec old new) as [<- | Hne].
  { exists s. split; [| done]. unfold __sanitizer_annotate_contiguous_container. rewrite Hdet.
    destruct (_ && _ && _ && _) eqn:Hpar.
    2:{ apply not_true_iff_false in Hpar. destruct Hpar. rewrite !andb_true_iff, !Z.leb_le. lia. }
    pose proof Hst as [Hb Hl Hs Hm]. change (2 ^ 63) with 9223372036854775808 in *.
    change (2 ^ 40) with 1099511627776 in *.
    cbn [negb]. step. rewrite (wrap_small (last - beg)) by (unfold is_uptr, word_modulus; lia).
    rewrite (check_true (_ <=? _)) by (apply Z.leb_le; lia). step. by rewrite Z.eqb_refl. }
  destruct (annotate_effect s beg last old new) as (s' & Hs' & Hw); try done.
  exists s'. split; [done |]. pose proof (annotated_value_end s s' beg last old new Hst Ho Hn Hw) as Hend.
  destruct Hw as (Hwf' & _ & Hw). split; [done |].
  pose proof Hst as [Hb Hl Hs Hm]. change (2 ^ 63) with 9223372036854775808 in *.
  destruct (annotations_end_bounds s last ltac:(lia)) as [Hann Hann'].
  split.
  - intros b Hbr. rewrite Hend. specialize (Hold b Hbr).
    rewrite poisoned_shadow_value in Hold |- * by (done || unfold is_uptr, word_modulus; lia).
    rewrite Hw. unfold annotated_value, resets_first, prefix_value.
    set (ann := annotations_end s last) in *. clearbody ann. clear Hend Hw Hm Hs Hl Hst Hne.
    repeat case_match; try rewrite Hold; zb; by_byte.
  - intros b Hbu Hbr. rewrite !poisoned_shadow_value by done. rewrite Hw.
    assert (Hlast : annotations_end s last = last /\
                    (last mod 8 <> 0 -> sv s last <> 0 /\ sv s last <= last mod 8) \/
                    annotations_end s last = 8 * (last / 8) /\ last mod 8 <> 0).
    { assert (Hlu : is_uptr last) by (unfold is_uptr, word_modulus; lia).
      rewrite <- granule_poisoned_iff, <- (poisoned_shadow_value M s last Hlu).
      unfold annotations_end. destruct (Z.eqb_spec (last mod 8) 0), (poisoned s last); cbn [negb andb];
        tauto. }
    assert (Hsame : b / 8 = last / 8 -> sv s b = sv s last)
      by (intros He; unfold shadow_value; by rewrite He).
    revert Hlast Hsame. clear Hann'.
    unfold annotated_value, resets_first, prefix_value.
    set (ann := annotations_end s last) in *. clearbody ann.
    clear Hold Hend Hw Hm Hs Hl Hst Hne.
    repeat case_match; try done; rewrite !granule_poisoned_iff; zb; intros; by_granules; lia.
Qed.
End specs.


Lemma storage_ok_example : storage_ok linux_x86_64 0x602000000013 0x602000000055.
Proof.
  split; try (change (2 ^ 63) with 9223372036854775808; change (2 ^ 40) with 1099511627776; lia).
  intros a Ha. unfold AddrIsInMem. rewrite !orb_true_iff. left; right.
  apply (proj1 (high_regions linux_x86_64 a)). change (kHighMemBeg linux_x86_64) with 0x10007fff8000.
  change (kHighMemEnd linux_x86_64) with 0x7fffffffffff. lia.
Qed.

(** Storage that has just been allocated is addressable up to its end. *)
Lemma annotated_initial (beg last : Z) : annotated linux_x86_64 initial_state beg last last.
Proof.
  intros b Hb. destruct (Z.leb_spec last b); [lia |]. reflexivity.
Qed.

