(* ===== verification/ContainerVerify.v ===== *)
(** * Container verification and the double-ended container

    The verification functions decide exactly whether the shadow agrees with
    a container, and [__sanitizer_annotate_double_ended_contiguous_container]
    moves both boundaries of one. *)

From S2P Require Import Prelude Words ShadowMapping Memory RingBuffer Poisoning ShadowWrites.
From S2P Require Import Containers ContainerSpecs.

Section verify.
Context (M : mapping) `{!WfMapping M} (fl : flags).

Abbreviation poisoned s b := (AddressIsPoisoned M (mem s) b).

Lemma find_state_spec (s : asan_state) (i : Z) (p : bool) (k : nat) : 0 < i ->
  (find_state M s i p k = 0 /\ forall b, i <= b < i + Z.of_nat k -> poisoned s b = p) \/
  (i <= find_state M s i p k < i + Z.of_nat k /\ poisoned s (find_state M s i p k) <> p).
Proof.
  revert i. induction k as [| k IH]; intros i Hi; cbn [find_state].
  { left. split; [done | lia]. }
  destruct (Bool.eqb (poisoned s i) p) eqn:He; cbn [negb].
  - apply eqb_prop in He. destruct (IH (i + 1) ltac:(lia)) as [[H1 H2] | [H1 H2]]; [left | right].
    + split; [done |]. intros b Hb. destruct (Z.eq_dec b i) as [-> |]; [done | apply H2; lia].
    + split; [lia | done].
  - right. split; [lia |]. intros Hp. rewrite Hp, eqb_reflx in He. done.
Qed.

(** A search returns null when every byte is in the wanted state, and else a
    byte of the range that is not. *)
Definition search_result (s : asan_state) (first last : Z) (p : bool) (r : result Z) : Prop :=
  (r = Ok 0 /\ forall b, first <= b < last -> poisoned s b = p) \/
  (exists a, r = Ok a /\ first <= a < last /\ poisoned s a <> p).

Lemma FindBadAddress_depth_spec (s : asan_state) (first last : Z) (p : bool) (depth : nat) :
  0 < first <= last -> (last - first <= 64 /\ (0 < depth)%nat \/ (1 < depth)%nat) ->
  search_result s first last p (FindBadAddress_depth M s first last p depth).
Proof.
  revert first last. induction depth as [| d IH]; intros first last Hr Hd; [lia |].
  cbn [FindBadAddress_depth]. rewrite (check_true (first <=? last)) by (apply Z.leb_le; lia). step.
  unfold kMaxRangeToCheck.
  assert (Hscan : search_result s first last p (Ok (find_state M s first p (Z.to_nat (last - first))))).
  { destruct (find_state_spec s first p (Z.to_nat (last - first)) ltac:(lia)) as [[H1 H2] | [H1 H2]].
    - left. rewrite H1. split; [done |]. intros b Hb. apply H2. lia.
    - right. eexists; split; [done |]. split; [lia | done]. }
  destruct (Z.ltb_spec (32 * 2) (last - first)) as [Hbig | Hsmall]; [| done].
  destruct (IH first (first + 32) ltac:(lia) ltac:(left; lia)) as [[-> _] | (a & -> & Ha & Hp)]; step.
  - simpl negb. cbv iota.
    destruct (IH (last - 32) last ltac:(lia) ltac:(left; lia)) as [[-> _] | (a & -> & Ha & Hp)]; step; [done |].
    destruct (Z.eqb_spec a 0); [lia |]. right. exists a. split; [done |]. split; [lia | done].
  - destruct (Z.eqb_spec a 0); [lia |]. simpl negb. cbv iota. step.
    destruct (Z.eqb_spec a 0); [lia |]. right. exists a. split; [done |]. split; [lia | done].
Qed.

Lemma FindBadAddress_spec (s : asan_state) (first last : Z) (p : bool) : 0 < first <= last ->
  search_result s first last p (FindBadAddress M s first last p).
Proof. intros H. apply FindBadAddress_depth_spec; [done | right; lia]. Qed.

Lemma unpoisoned_tail (s : asan_state) (a b : Z) : is_uptr b -> 0 <= a <= b -> a / 8 = b / 8 ->
  poisoned s b = false -> poisoned s a = false.
Proof.
  intros Hb Ha Hg Hp. unfold is_uptr in *.
  rewrite poisoned_shadow_value in Hp |- * by (done || unfold is_uptr; lia).
  apply not_true_iff_false in Hp. apply not_true_iff_false. rewrite granule_poisoned_iff in *.
  unfold shadow_value in *. rewrite Hg. intros Hx. apply Hp. by_granules. lia.
Qed.

(** What the state looks like above [annotations_end]. *)
Lemma after_annotations_end (s : asan_state) (last b : Z) : 0 <= last < word_modulus ->
  annotations_end M s last <= b < last -> poisoned s b = false.
Proof.
  intros Hl Hb. destruct (annotations_end_bounds M s last ltac:(lia)) as [H1 [H2 | (H2 & H3 & H4)]]; [lia |].
  apply (unpoisoned_tail s b last); [done | lia | qlia | done].
Qed.

Lemma annotated_split (s : asan_state) (beg mid last : Z) :
  8 <= beg <= mid -> mid <= last -> last < word_modulus ->
  let e := annotations_end M s last in
  annotated M s beg mid last <->
  (forall b, Z.min beg e <= b < Z.min mid e -> poisoned s b = false) /\
  (forall b, Z.min mid e <= b < e -> poisoned s b = true).
Proof.
  intros Hb Hm Hl e. destruct (annotations_end_bounds M s last ltac:(lia)) as [He _]. fold e in He.
  unfold annotated. fold e. split.
  - intros H. split; intros b Hbr.
    + rewrite H by lia. apply andb_false_iff. rewrite Z.leb_gt. lia.
    + rewrite H by lia. rewrite andb_true_iff, Z.leb_le, Z.ltb_lt. lia.
  - intros [H1 H2] b Hbr. destruct (Z.leb_spec mid b), (Z.ltb_spec b e); cbn [andb].
    + apply H2. lia.
    + apply (after_annotations_end s last); [lia | fold e; lia].
    + apply H1. lia.
    + apply (after_annotations_end s last); [lia | fold e; lia].
Qed.

(** Sequencing of searches. *)
Lemma search_bind (s : asan_state) (first last : Z) (p : bool) (r k : result Z) (P Q : Prop) :
  0 < first ->
  search_result s first last p r ->
  ((forall b, first <= b < last -> poisoned s b = p) -> exists a, k = Ok a /\ (a = 0 <-> P)) ->
  (Q <-> (forall b, first <= b < last -> poisoned s b = p) /\ P) ->
  exists a, (r ≫= fun bad => if negb (bad =? 0) then Ok bad else k) = Ok a /\ (a = 0 <-> Q).
Proof.
  intros Hf [[-> H] | (a & -> & Ha & Hp)] Hk HQ; step; simpl negb.
  - destruct (Hk H) as (a & -> & Ha). exists a. split; [done |]. tauto.
  - destruct (Z.eqb_spec a 0); [lia |]. exists a. split; [done |]. split; [lia |].
    intros Hq. apply HQ in Hq as [Hq _]. destruct Hp. by apply Hq.
Qed.

Lemma search_end (s : asan_state) (first last : Z) (p : bool) (r : result Z) (P : Prop) :
  0 < first -> search_result s first last p r ->
  (P <-> forall b, first <= b < last -> poisoned s b = p) ->
  exists a, r = Ok a /\ (a = 0 <-> P).
Proof.
  intros Hf [[-> H] | (a & -> & Ha & Hp)] HP; eexists; (split; [done |]).
  - tauto.
  - split; [lia |]. intros Hq. destruct Hp. by apply (proj1 HP Hq).
Qed.

Lemma annotations_end_code (s : asan_state) (last : Z) : 0 <= last < 2 ^ 63 ->
  (if negb (AddrIsAlignedByGranularity last) && negb (poisoned s last)
   then RoundDownTo last ASAN_SHADOW_GRANULARITY else last) = annotations_end M s last.
Proof. intros H. by rewrite aligned_spec, round_down_8 by done. Qed.

Lemma verify_spec (s : asan_state) (beg mid last : Z) :
  detect_container_overflow fl = true -> 16 <= beg <= mid -> mid <= last < 2 ^ 63 ->
  exists r, __sanitizer_contiguous_container_find_bad_address M fl s beg mid last = Ok r /\
    (r = 0 <-> annotated M s beg mid last).
Proof.
  intros Hdet Hb Hm. unfold __sanitizer_contiguous_container_find_bad_address. rewrite Hdet.
  cbn [negb]. rewrite (check_true (beg <=? mid)), (check_true (mid <=? last)) by (apply Z.leb_le; lia).
  step. rewrite annotations_end_code by lia. change (2 ^ 63) with 9223372036854775808 in Hm.
  set (e := annotations_end M s last).
  destruct (annotations_end_bounds M s last ltac:(lia)) as [He _]. fold e in He.
  pose proof (annotated_split s beg mid last ltac:(lia) ltac:(lia) ltac:(unfold word_modulus; lia)) as Hsp.
  cbv zeta in Hsp. fold e in Hsp.
  assert (Hafter : forall b, e <= b < last -> poisoned s b = false).
  { intros b Hbr. apply (after_annotations_end s last); [unfold word_modulus; lia | done]. }
  eapply (search_bind s _ _ _ _ _ (forall b, Z.min mid e <= b < e -> poisoned s b = true));
    [| apply FindBadAddress_spec; lia | | apply Hsp]; [lia |]. intros _.
  eapply (search_bind s _ _ _ _ _ True); [| apply FindBadAddress_spec; lia | | tauto]; [lia |]. intros _.
  eapply search_end; [| apply FindBadAddress_spec; lia |]; [lia | tauto].
Qed.

End verify.


