(* ===== verification/DoubleEnded.v ===== *)
(** * The double-ended container

    [__sanitizer_annotate_double_ended_contiguous_container] moves both ends
    of a container inside its storage. *)

From S2P Require Import Prelude Words ShadowMapping Memory RingBuffer Poisoning ShadowWrites.
From S2P Require Import Containers ContainerSpecs ContainerVerify.

Section double_ended.
Context (M : mapping) `{!WfMapping M} (fl : flags).
Context (page_size : Z) (mmap_fixed : memory -> Z -> Z -> option memory)
  `{!MmapZeroes page_size mmap_fixed}.

Abbreviation poisoned s b := (AddressIsPoisoned M (mem s) b).
Abbreviation sv s b := (shadow_value M s b).

(** The first byte the shadow can show as addressable: the granule of the
    first element, whose prefix cannot be poisoned. *)
Definition first_shown (sb b e : Z) : Z := if b =? e then b else Z.max sb (8 * (b / 8)).

Definition annotated_de (s : asan_state) (sb b e se : Z) : Prop :=
  forall x, sb <= x < se ->
    poisoned s x = negb ((first_shown sb b e <=? x) && (x <? e)) && (x <? annotations_end M s se).

(** [FixUnalignedStorage] in two steps. *)
Definition cuts_end (s : asan_state) (se : Z) (b : container_bounds) : bool :=
  negb (annotations_end M s se =? se) &&
  ((negb (old_end b =? new_end b) && (annotations_end M s se <? Z.max (old_end b) (new_end b))) ||
   (negb (old_beg b =? new_beg b) && (annotations_end M s se <? Z.max (old_beg b) (new_beg b)))).

Definition cut_end (s : asan_state) (se : Z) (b : container_bounds) : container_bounds :=
  if cuts_end s se b then map_bounds (Z.min (annotations_end M s se)) b else b.

Definition resets_beg (sb : Z) (b : container_bounds) : bool :=
  negb (sb mod 8 =? 0) && ((new_beg b =? new_end b) || (8 * ((sb + 7) / 8) <=? new_beg b)) &&
  negb (old_beg b =? old_end b) && (old_beg b <? 8 * ((sb + 7) / 8)).

Lemma FixUnalignedStorage_spec (s : asan_state) (sb se : Z) (b : container_bounds) :
  asan_wf fl s -> storage_ok M sb se ->
  let b1 := cut_end s se b in
  let r := resets_beg sb b1 in
  exists s1, FixUnalignedStorage M s sb se b =
      Ok (s1, if r then map_bounds (Z.max (8 * ((sb + 7) / 8))) b1 else b1) /\
    writes M fl s s1 (fun x => if r && (x / 8 =? sb / 8) then sb mod 8 else sv s x).
Proof.
  intros Hwf Hst b1 r. pose proof Hst as [Hb Hl Hs Hm]. change (2 ^ 63) with 9223372036854775808 in *.
  unfold FixUnalignedStorage. rewrite !aligned_spec.
  rewrite !round_down_8, round_up_8 by (change (2 ^ 63) with 9223372036854775808; lia). step.
  match goal with |- context [if negb (sb mod 8 =? 0) then (if _ then _ else Ok (_, ?b)) else _] =>
    replace b with b1 end.
  2:{ unfold b1, cut_end, cuts_end, annotations_end.
      destruct (Z.eqb_spec (se mod 8) 0) as [Hse | Hse]; cbn [negb andb]; [by rewrite Z.eqb_refl |].
      destruct (poisoned s se); cbn [negb andb]; [by rewrite Z.eqb_refl, andb_false_r |].
      rewrite andb_true_r. destruct (Z.eqb_spec (8 * (se / 8)) se); [qlia |]. done. }
  unfold r, resets_beg. destruct (Z.eqb_spec (sb mod 8) 0) as [Hal | Hal]; cbn [negb andb].
  { exists s. split; [done |]. unfold writes. by split_and!. }
  destruct (_ && _ && _) eqn:Htrig; cbn [andb].
  - replace (to_u8 (sb - 8 * (sb / 8))) with (sb mod 8) by (unfold to_u8; zlia).
    destruct (set_shadow_spec M fl s (8 * (sb / 8)) (sb mod 8)) as (s1 & -> & Hw1 & Hw2 & Hw3);
      [done | unfold is_u8; qlia | unfold is_uptr, word_modulus; qlia | apply Hm; qlia |].
    step. exists s1. split; [done |]. unfold writes. split_and!; try done. intros x. rewrite Hw3.
    replace (to_s8 (sb mod 8)) with (sb mod 8)
      by (unfold to_s8, to_u8; rewrite (Z.mod_small (sb mod 8)) by zlia;
          destruct (Z.ltb_spec (sb mod 8) 128); zlia).
    by replace (8 * (sb / 8) / 8) with (sb / 8) by qlia.
  - exists s. split; [done |]. unfold writes. by split_and!.
Qed.

(** The write of the last, partial granule of the new container. *)
Lemma set_prefix_spec (s : asan_state) (sb se ne : Z) :
  asan_wf fl s -> storage_ok M sb se -> sb - 8 < 8 * (ne / 8) -> ne <= se ->
  exists s', (if negb (AddrIsAlignedByGranularity ne)
              then set_shadow M s (8 * (ne / 8)) (to_u8 (ne - 8 * (ne / 8))) else Ok s) = Ok s' /\
    writes M fl s s' (fun x => if negb (ne mod 8 =? 0) && (x / 8 =? ne / 8) then ne mod 8 else sv s x).
Proof.
  intros Hwf [Hb Hl Hs Hm] Hlo Hhi. change (2 ^ 63) with 9223372036854775808 in *.
  rewrite aligned_spec. destruct (Z.eqb_spec (ne mod 8) 0); cbn [negb andb].
  { exists s. split; [done |]. unfold writes. by split_and!. }
  replace (to_u8 (ne - 8 * (ne / 8))) with (ne mod 8) by (unfold to_u8; zlia).
  destruct (set_shadow_spec M fl s (8 * (ne / 8)) (ne mod 8)) as (s1 & -> & Hw1 & Hw2 & Hw3);
    [done | unfold is_u8; qlia | unfold is_uptr, word_modulus; qlia | apply Hm; qlia |].
  exists s1. split; [done |]. unfold writes. split_and!; try done. intros x. rewrite Hw3.
  replace (to_s8 (ne mod 8)) with (ne mod 8)
    by (unfold to_s8, to_u8; rewrite (Z.mod_small (ne mod 8)) by zlia;
        destruct (Z.ltb_spec (ne mod 8) 128); zlia).
  by replace (8 * (ne / 8) / 8) with (ne / 8) by qlia.
Qed.

(** The shadow after the part of the function that follows
    [FixUnalignedStorage], over the shadow values [g]. *)
Definition disjoint_value (g : Z -> Z) (b : container_bounds) (x : Z) : Z :=
  if negb (new_beg b =? new_end b) && (8 * (new_beg b / 8) <=? x) && (x <? 8 * ((new_end b + 7) / 8))
  then prefix_value (new_end b) x
  else if negb (old_beg b =? old_end b) && (8 * (old_beg b / 8) <=? x) &&
          (x <? 8 * ((old_end b + 7) / 8)) then -4
  else g x.

Definition overlap_value (g : Z -> Z) (b : container_bounds) (x : Z) : Z :=
  let o := old_end b in
  let n := new_end b in
  if negb (o =? n) && (8 * (Z.min o n / 8) <=? x) && (x <? 8 * ((Z.max o n + 7) / 8))
  then prefix_value n x
  else if (8 * (new_beg b / 8) <=? x) && (x <? 8 * (old_beg b / 8)) then 0
  else if (8 * (old_beg b / 8) <=? x) && (x <? 8 * (new_beg b / 8)) then -4
  else g x.

Definition disjoint (b : container_bounds) : bool :=
  (old_beg b =? old_end b) || (new_beg b =? new_end b) ||
  (new_end b <=? old_beg b) || (old_end b <=? new_beg b).

(** Bounds on which the function computes: inside the storage, or a granule
    boundary below it. *)
Record bounds_ok (sb se : Z) (b : container_bounds) : Prop := {
  bounds_ob : sb - 8 < 8 * (old_beg b / 8) /\ old_beg b <= old_end b;
  bounds_nb : sb - 8 < 8 * (new_beg b / 8) /\ new_beg b <= new_end b;
  bounds_e : old_end b <= se /\ new_end b <= se;
}.

Definition disjoint_tail (s : asan_state) (b : container_bounds) : result asan_state :=
  s ← (if negb (old_beg b =? old_end b) then
         let a := RoundDownTo (old_beg b) ASAN_SHADOW_GRANULARITY in
         e ← RoundUpTo (old_end b) ASAN_SHADOW_GRANULARITY;
         PoisonShadow M fl page_size mmap_fixed s a (wrap (e - a)) kAsanContiguousContainerOOBMagic
       else Ok s);
  if negb (new_beg b =? new_end b) then
    let a := RoundDownTo (new_beg b) ASAN_SHADOW_GRANULARITY in
    let e := RoundDownTo (new_end b) ASAN_SHADOW_GRANULARITY in
    s ← PoisonShadow M fl page_size mmap_fixed s a (wrap (e - a)) 0;
    if negb (AddrIsAlignedByGranularity (new_end b))
    then set_shadow M s e (to_u8 (new_end b - e)) else Ok s
  else Ok s.

Ltac word := unfold is_uptr, word_modulus; qlia.

Lemma disjoint_tail_spec (s : asan_state) (sb se : Z) (b : container_bounds) :
  asan_wf fl s -> can_poison_memory s = true -> storage_ok M sb se -> bounds_ok sb se b ->
  exists s', disjoint_tail s b = Ok s' /\ writes M fl s s' (disjoint_value (shadow_value M s) b).
Proof.
  intros Hwf Hcan Hst [[Ho1 Ho2] [Hn1 Hn2] [He1 He2]]. pose proof Hst as [Hb Hl _ _].
  destruct b as [ob oe nb ne]. cbn [old_beg old_end new_beg new_end] in *.
  unfold disjoint_tail, disjoint_value. cbn [old_beg old_end new_beg new_end].
  change (2 ^ 63) with 9223372036854775808 in *.
  rewrite !round_down_8, round_up_8 by (change (2 ^ 63) with 9223372036854775808; qlia). step.
  rewrite (wrap_small (8 * ((oe + 7) / 8) - 8 * (ob / 8))), (wrap_small (8 * (ne / 8) - 8 * (nb / 8))) by word.
  assert (H1 : exists s1,
    (if negb (ob =? oe)
     then PoisonShadow M fl page_size mmap_fixed s (8 * (ob / 8)) (8 * ((oe + 7) / 8) - 8 * (ob / 8))
            kAsanContiguousContainerOOBMagic else Ok s) = Ok s1 /\
    writes M fl s s1 (fun x => if negb (ob =? oe) && (8 * (ob / 8) <=? x) && (x <? 8 * ((oe + 7) / 8))
                               then -4 else sv s x)).
  { destruct (Z.eqb_spec ob oe); cbn [negb andb].
    - exists s. split; [done |]. unfold writes. by split_and!.
    - destruct (poison_span M fl page_size mmap_fixed s sb se (8 * (ob / 8)) (8 * ((oe + 7) / 8))
        kAsanContiguousContainerOOBMagic) as (s1 & -> & Hw); try done; try qlia. by exists s1. }
  destruct H1 as (s1 & -> & Hw1 & Hw2 & Hw3). step.
  destruct (Z.eqb_spec nb ne) as [| Hne]; cbn [negb andb].
  { exists s1. split; [done |]. unfold writes. by split_and!. }
  destruct (poison_span M fl page_size mmap_fixed s1 sb se (8 * (nb / 8)) (8 * (ne / 8)) 0)
    as (s2 & -> & Hx1 & Hx2 & Hx3); try done; try qlia; [congruence |]. step.
  destruct (set_prefix_spec s2 sb se ne) as (s3 & -> & Hy1 & Hy2 & Hy3); try done; try qlia.
  exists s3. split; [done |]. unfold writes. split_and!; [done | congruence |]. intros x.
  rewrite Hy3, Hx3, Hw3. unfold prefix_value.
  change (to_s8 0) with 0. repeat case_match; zb; try done; qlia.
Qed.

Definition overlap_tail (s : asan_state) (b : container_bounds) : result asan_state :=
  let poison s a n v := PoisonShadow M fl page_size mmap_fixed s a n v in
  _ ← check (new_beg b <? old_end b);
  _ ← check (old_beg b <? new_end b);
  s ← (if new_beg b <? old_beg b then
         let a := RoundDownTo (new_beg b) ASAN_SHADOW_GRANULARITY in
         let c := RoundDownTo (old_beg b) ASAN_SHADOW_GRANULARITY in
         poison s a (wrap (c - a)) 0
       else if old_beg b <? new_beg b then
         let a := RoundDownTo (old_beg b) ASAN_SHADOW_GRANULARITY in
         let c := RoundDownTo (new_beg b) ASAN_SHADOW_GRANULARITY in
         poison s a (wrap (c - a)) kAsanContiguousContainerOOBMagic
       else Ok s);
  if old_end b <? new_end b then
    let a := RoundDownTo (old_end b) ASAN_SHADOW_GRANULARITY in
    let c := RoundDownTo (new_end b) ASAN_SHADOW_GRANULARITY in
    s ← poison s a (wrap (c - a)) 0;
    if negb (AddrIsAlignedByGranularity (new_end b))
    then set_shadow M s c (to_u8 (new_end b - c)) else Ok s
  else if new_end b <? old_end b then
    a2 ← RoundUpTo (new_end b) ASAN_SHADOW_GRANULARITY;
    c2 ← RoundUpTo (old_end b) ASAN_SHADOW_GRANULARITY;
    s ← poison s a2 (wrap (c2 - a2)) kAsanContiguousContainerOOBMagic;
    if negb (AddrIsAlignedByGranularity (new_end b)) then
      let a := RoundDownTo (new_end b) ASAN_SHADOW_GRANULARITY in
      set_shadow M s a (to_u8 (new_end b - a))
    else Ok s
  else Ok s.

(** The first boundary of overlapping containers. *)
Lemma overlap_beg_spec (s : asan_state) (sb se ob nb : Z) :
  asan_wf fl s -> can_poison_memory s = true -> storage_ok M sb se ->
  sb - 8 < 8 * (ob / 8) -> sb - 8 < 8 * (nb / 8) -> ob <= se -> nb <= se ->
  exists s1,
    (if nb <? ob
     then PoisonShadow M fl page_size mmap_fixed s (8 * (nb / 8)) (wrap (8 * (ob / 8) - 8 * (nb / 8))) 0
     else if ob <? nb
          then PoisonShadow M fl page_size mmap_fixed s (8 * (ob / 8))
                 (wrap (8 * (nb / 8) - 8 * (ob / 8))) kAsanContiguousContainerOOBMagic
          else Ok s) = Ok s1 /\
    writes M fl s s1 (fun x => if (8 * (nb / 8) <=? x) && (x <? 8 * (ob / 8)) then 0
                               else if (8 * (ob / 8) <=? x) && (x <? 8 * (nb / 8)) then -4 else sv s x).
Proof.
  intros Hwf Hcan Hst Ho Hn Ho2 Hn2. pose proof Hst as [Hb Hl _ _].
  change (2 ^ 63) with 9223372036854775808 in *.
  destruct (Z.ltb_spec nb ob); [| destruct (Z.ltb_spec ob nb)].
  - rewrite wrap_small by word.
    destruct (poison_span M fl page_size mmap_fixed s sb se (8 * (nb / 8)) (8 * (ob / 8)) 0)
      as (s1 & -> & Hw1 & Hw2 & Hw3); try done; try qlia.
    exists s1. split; [done |]. unfold writes. split_and!; try done. intros x. rewrite Hw3.
    repeat case_match; zb; try done; qlia.
  - rewrite wrap_small by word.
    destruct (poison_span M fl page_size mmap_fixed s sb se (8 * (ob / 8)) (8 * (nb / 8))
      kAsanContiguousContainerOOBMagic) as (s1 & -> & Hw1 & Hw2 & Hw3); try done; try qlia.
    exists s1. split; [done |]. unfold writes. split_and!; try done. intros x. rewrite Hw3.
    repeat case_match; zb; try done; qlia.
  - exists s. split; [done |]. unfold writes. split_and!; try done. intros x.
    repeat case_match; zb; try done; qlia.
Qed.

Lemma overlap_tail_spec (s : asan_state) (sb se : Z) (b : container_bounds) :
  asan_wf fl s -> can_poison_memory s = true -> storage_ok M sb se -> bounds_ok sb se b ->
  disjoint b = false ->
  exists s', overlap_tail s b = Ok s' /\ writes M fl s s' (overlap_value (shadow_value M s) b).
Proof.
  intros Hwf Hcan Hst [[Ho1 Ho2] [Hn1 Hn2] [He1 He2]] Hdis. pose proof Hst as [Hb Hl _ _].
  destruct b as [ob oe nb ne]. unfold disjoint in Hdis. cbn [old_beg old_end new_beg new_end] in *. zb.
  unfold overlap_tail, overlap_value. cbn [old_beg old_end new_beg new_end].
  change (2 ^ 63) with 9223372036854775808 in *.
  rewrite (check_true (nb <? oe)), (check_true (ob <? ne)) by (apply Z.ltb_lt; lia). step.
  rewrite !round_down_8, !round_up_8 by (change (2 ^ 63) with 9223372036854775808; qlia). step.
  destruct (overlap_beg_spec s sb se ob nb) as (s1 & -> & Hw1 & Hw2 & Hw3); try done; try lia. step.
  destruct (Z.ltb_spec oe ne); [| destruct (Z.ltb_spec ne oe)].
  - rewrite wrap_small by word.
    destruct (poison_span M fl page_size mmap_fixed s1 sb se (8 * (oe / 8)) (8 * (ne / 8)) 0)
      as (s2 & -> & Hx1 & Hx2 & Hx3); try done; try qlia; [congruence |]. step.
    destruct (set_prefix_spec s2 sb se ne) as (s3 & -> & Hy1 & Hy2 & Hy3); try done; try qlia.
    exists s3. split; [done |]. unfold writes. split_and!; [done | congruence |]. intros x.
    rewrite Hy3, Hx3, Hw3. unfold prefix_value. change (to_s8 0) with 0.
    repeat case_match; zb; try done; qlia.
  - rewrite wrap_small by word.
    destruct (poison_span M fl page_size mmap_fixed s1 sb se (8 * ((ne + 7) / 8)) (8 * ((oe + 7) / 8))
      kAsanContiguousContainerOOBMagic)
      as (s2 & -> & Hx1 & Hx2 & Hx3); try done; try qlia; [congruence |]. step.
    destruct (set_prefix_spec s2 sb se ne) as (s3 & -> & Hy1 & Hy2 & Hy3); try done; try qlia.
    exists s3. split; [done |]. unfold writes. split_and!; [done | congruence |]. intros x.
    rewrite Hy3, Hx3, Hw3. unfold prefix_value.
    change (to_s8 kAsanContiguousContainerOOBMagic) with (-4).
    repeat case_match; zb; try done; qlia.
  - exists s1. split; [done |]. unfold writes. split_and!; try done. intros x. rewrite Hw3.
    destruct (Z.eqb_spec oe ne); [| lia]. done.
Qed.

(** The shadow after the whole function. *)
Definition fixed_bounds (s : asan_state) (sb se : Z) (b : container_bounds) : container_bounds :=
  let b1 := cut_end s se b in
  if resets_beg sb b1 then map_bounds (Z.max (8 * ((sb + 7) / 8))) b1 else b1.

Definition fixed_value (s : asan_state) (sb se : Z) (b : container_bounds) (x : Z) : Z :=
  if resets_beg sb (cut_end s se b) && (x / 8 =? sb / 8) then sb mod 8 else sv s x.

Definition double_ended_value (s : asan_state) (sb se : Z) (b : container_bounds) (x : Z) : Z :=
  let b' := fixed_bounds s sb se b in
  if disjoint b' then disjoint_value (fixed_value s sb se b) b' x
  else overlap_value (fixed_value s sb se b) b' x.

Definition in_storage (sb se : Z) (b : container_bounds) : Prop :=
  sb <= old_beg b /\ old_beg b <= old_end b /\ old_end b <= se /\
  sb <= new_beg b /\ new_beg b <= new_end b /\ new_end b <= se.

Lemma fixed_bounds_ok (s : asan_state) (sb se : Z) (b : container_bounds) :
  0 <= sb <= se -> in_storage sb se b ->
  bounds_ok sb se (fixed_bounds s sb se b) \/
  (old_beg (fixed_bounds s sb se b) = old_end (fixed_bounds s sb se b) /\
   new_beg (fixed_bounds s sb se b) = new_end (fixed_bounds s sb se b)).
Proof.
  intros Hs (H1 & H2 & H3 & H4 & H5 & H6). destruct b as [ob oe nb ne].
  destruct (annotations_end_bounds M s se ltac:(lia)) as [Hann Hann'].
  unfold fixed_bounds, cut_end, resets_beg, map_bounds. cbn [old_beg old_end new_beg new_end] in *.
  set (ann := annotations_end M s se) in *. clearbody ann.
  destruct (cuts_end _ _ _); cbn [old_beg old_end new_beg new_end].
  - destruct (_ && _) eqn:Hr; zb; cbn [old_beg old_end new_beg new_end].
    + destruct (Z.leb_spec (8 * ((sb + 7) / 8)) se);
        [left; split; cbn [old_beg old_end new_beg new_end]; qlia | right; lia].
    + left. clear Hr. split; cbn [old_beg old_end new_beg new_end]; qlia.
  - destruct (_ && _) eqn:Hr; zb; cbn [old_beg old_end new_beg new_end].
    + destruct (Z.leb_spec (8 * ((sb + 7) / 8)) se);
        [left; split; cbn [old_beg old_end new_beg new_end]; qlia | right; lia].
    + left. clear Hr. split; cbn [old_beg old_end new_beg new_end]; qlia.
Qed.

Lemma disjoint_tail_empty (s : asan_state) (b : container_bounds) :
  old_beg b = old_end b -> new_beg b = new_end b -> disjoint_tail s b = Ok s.
Proof. intros H1 H2. unfold disjoint_tail. by rewrite H1, H2, !Z.eqb_refl. Qed.

Lemma double_ended_effect (s : asan_state) (sb se : Z) (b : container_bounds) :
  asan_wf fl s -> can_poison_memory s = true -> detect_container_overflow fl = true ->
  storage_ok M sb se -> in_storage sb se b ->
  ((old_beg b =? old_end b) && (new_beg b =? new_end b)) ||
  ((old_beg b =? new_beg b) && (old_end b =? new_end b)) = false ->
  exists s', __sanitizer_annotate_double_ended_contiguous_container M fl page_size mmap_fixed s sb se
      (old_beg b) (old_end b) (new_beg b) (new_end b) = Ok s' /\
    writes M fl s s' (double_ended_value s sb se b).
Proof.
  intros Hwf Hcan Hdet Hst Hin Hne. pose proof Hst as [Hb Hl Hs Hm].
  pose proof Hin as (Ha1 & Ha2 & Ha3 & Ha4 & Ha5 & Ha6).
  change (2 ^ 63) with 9223372036854775808 in *. change (2 ^ 40) with 1099511627776 in *.
  unfold __sanitizer_annotate_double_ended_contiguous_container. rewrite Hdet.
  cbn [negb old_beg old_end new_beg new_end]. rewrite Hne.
  destruct (_ || _ || _) eqn:Hpar.
  { rewrite !orb_true_iff, !negb_true_iff, !andb_false_iff, !Z.leb_gt in Hpar. lia. }
  step. rewrite (wrap_small (se - sb)) by (unfold is_uptr, word_modulus; lia).
  rewrite (check_true (_ <=? _)) by (apply Z.leb_le; lia). step.
  replace (Bounds (old_beg b) (old_end b) (new_beg b) (new_end b)) with b by (by destruct b).
  destruct (FixUnalignedStorage_spec s sb se b Hwf Hst) as (s1 & -> & Hw1 & Hw2 & Hw3). step.
  change (if resets_beg sb (cut_end s se b) then _ else cut_end s se b) with (fixed_bounds s sb se b).
  set (b' := fixed_bounds s sb se b).
  change ((old_beg b' =? old_end b') || _ || _ || _) with (disjoint b').
  unfold double_ended_value. fold b'.
  assert (Hv : forall s' f, writes M fl s1 s' (f (shadow_value M s1)) ->
            (forall g h x, (forall y, g y = h y) -> f g x = f h x) ->
            writes M fl s s' (f (fixed_value s sb se b))).
  { intros s' f (Hv1 & Hv2 & Hv3) Hf. unfold writes. split_and!; [done | congruence |].
    intros x. rewrite Hv3. apply Hf. intros y. apply Hw3. }
  pose proof (fixed_bounds_ok s sb se b ltac:(lia) Hin) as Hok. fold b' in Hok.
  destruct (disjoint b') eqn:Hd.
  - match goal with |- exists s', ?t = _ /\ _ => change t with (disjoint_tail s1 b') end.
    destruct Hok as [Hok | [He1 He2]].
    + destruct (disjoint_tail_spec s1 sb se b') as (s2 & -> & Hs2); try done; [congruence |].
      exists s2. split; [done |]. apply (Hv s2 (fun g => disjoint_value g b') Hs2).
      intros g h x Hgh. unfold disjoint_value. by rewrite Hgh.
    + rewrite disjoint_tail_empty by done. exists s1. split; [done |].
      unfold writes, disjoint_value. rewrite He1, He2, !Z.eqb_refl. by split_and!.
  - match goal with |- exists s', ?t = _ /\ _ => change t with (overlap_tail s1 b') end.
    destruct Hok as [Hok | [He1 He2]].
    2:{ unfold disjoint in Hd. by rewrite He1, Z.eqb_refl in Hd. }
    destruct (overlap_tail_spec s1 sb se b') as (s2 & -> & Hs2); try done; [congruence |].
    exists s2. split; [done |]. apply (Hv s2 (fun g => overlap_value g b') Hs2).
    intros g h x Hgh. unfold overlap_value. by rewrite Hgh.
Qed.

(** The two bounds after the fixes, as facts that arithmetic can use. *)
Lemma cut_end_facts (s : asan_state) (sb se : Z) (b : container_bounds) :
  in_storage sb se b -> 0 <= sb ->
  let e := annotations_end M s se in
  let c := cut_end s se b in
  (old_beg c = Z.min e (old_beg b) /\ old_end c = Z.min e (old_end b) /\
   new_beg c = Z.min e (new_beg b) /\ new_end c = Z.min e (new_end b)) \/
  (c = b /\ (old_end b = new_end b \/ Z.max (old_end b) (new_end b) <= e) /\
   (old_beg b = new_beg b \/ Z.max (old_beg b) (new_beg b) <= e)).
Proof.
  intros (H1 & H2 & H3 & H4 & H5 & H6) Hs e c.
  destruct (annotations_end_bounds M s se ltac:(lia)) as [He _]. fold e in He.
  unfold c, cut_end, cuts_end. fold e. destruct (_ && _) eqn:Hc; [left; by destruct b |].
  destruct (Z.eqb_spec e se); cbn [negb andb] in Hc; [lia |].
  right. split; [done |]. apply orb_false_iff in Hc as [Hc1 Hc2].
  destruct (Z.eqb_spec (old_end b) (new_end b)), (Z.eqb_spec (old_beg b) (new_beg b));
    cbn [negb andb] in *; zb; lia.
Qed.

(** Range tests relative to the granule [[g, g+8)] of a byte. *)
Lemma granule_tests (x n : Z) :
  (8 * (n / 8) <=? x) = (n <? 8 * (x / 8) + 8) /\
  (x <? 8 * (n / 8)) = (8 * (x / 8) + 8 <=? n) /\
  (x <? 8 * ((n + 7) / 8)) = (8 * (x / 8) <? n).
Proof. split_and!; apply bool_eq_iff; rewrite ?Z.leb_le, ?Z.ltb_lt; by_granules; lia. Qed.

Lemma poisoned_prefix (n x : Z) : granule_poisoned (prefix_value n x) (x mod 8) = (n <=? x).
Proof. unfold prefix_value. repeat case_match; zb; by_byte. Qed.

Lemma poisoned_fixed (s : asan_state) (sb se : Z) (b : container_bounds) (x : Z) :
  granule_poisoned (fixed_value s sb se b x) (x mod 8) =
  if resets_beg sb (cut_end s se b) && (x / 8 =? sb / 8) then sb <=? x
  else granule_poisoned (sv s x) (x mod 8).
Proof.
  unfold fixed_value, resets_beg. destruct (_ && _) eqn:H; [| done]. zb. by_byte.
Qed.

(** Whether the function leaves a byte poisoned, without divisions: [g] is the
    granule of the byte, [keep] its previous state. *)
Definition disjoint_poisons (keep : bool) (b : container_bounds) (g x : Z) : bool :=
  if negb (new_beg b =? new_end b) && (new_beg b <? g + 8) && (g <? new_end b) then new_end b <=? x
  else if negb (old_beg b =? old_end b) && (old_beg b <? g + 8) && (g <? old_end b) then true
  else keep.

Definition overlap_poisons (keep : bool) (b : container_bounds) (g x : Z) : bool :=
  if negb (old_end b =? new_end b) && (Z.min (old_end b) (new_end b) <? g + 8) &&
     (g <? Z.max (old_end b) (new_end b)) then new_end b <=? x
  else if (new_beg b <? g + 8) && (g + 8 <=? old_beg b) then false
  else if (old_beg b <? g + 8) && (g + 8 <=? new_beg b) then true
  else keep.

Lemma double_ended_poisons (s : asan_state) (sb se : Z) (b : container_bounds) (x : Z) :
  let keep := if resets_beg sb (cut_end s se b) && (x / 8 =? sb / 8) then sb <=? x
              else granule_poisoned (sv s x) (x mod 8) in
  let b' := fixed_bounds s sb se b in
  granule_poisoned (double_ended_value s sb se b x) (x mod 8) =
  if disjoint b' then disjoint_poisons keep b' (8 * (x / 8)) x
  else overlap_poisons keep b' (8 * (x / 8)) x.
Proof.
  intros keep b'. unfold double_ended_value. fold b'. subst keep. rewrite <- poisoned_fixed.
  assert (Hneg : granule_poisoned (-4) (x mod 8) = true)
    by (apply granule_poisoned_iff; by_granules; lia).
  unfold disjoint_value, overlap_value, disjoint_poisons, overlap_poisons. cbv zeta.
  destruct (granule_tests x (new_beg b')) as (-> & -> & _).
  destruct (granule_tests x (old_beg b')) as (-> & -> & _).
  destruct (granule_tests x (new_end b')) as (_ & _ & ->).
  destruct (granule_tests x (old_end b')) as (_ & _ & ->).
  destruct (granule_tests x (Z.min (old_end b') (new_end b'))) as (-> & _ & _).
  destruct (granule_tests x (Z.max (old_end b') (new_end b'))) as (_ & _ & ->).
  repeat case_match; rewrite ?poisoned_prefix, ?Hneg; done.
Qed.

(** [bools] splits on the comparisons of the goal, dropping the cases that
    arithmetic excludes. *)
Ltac bools :=
  repeat (match goal with
  | |- context [?a <? ?b] => destruct (Z.ltb_spec a b)
  | |- context [?a <=? ?b] => destruct (Z.leb_spec a b)
  | |- context [?a =? ?b] => destruct (Z.eqb_spec a b)
  end; cbn [negb andb orb]; try reflexivity; try lia).

(** Whether the container [[b, e)] shows the byte [x] of the granule [g]. *)
Definition shown (b e g x : Z) : bool := (b <? e) && (b <? g + 8) && (x <? e).

Lemma shown_first (sb b e x : Z) : sb <= x -> b <= e ->
  (first_shown sb b e <=? x) && (x <? e) = shown b e (8 * (x / 8)) x.
Proof.
  intros Hx Hbe. unfold first_shown, shown. destruct (granule_tests x b) as [Hg _].
  destruct (Z.eqb_spec b e) as [-> |]; [bools |].
  replace (Z.max sb (8 * (b / 8)) <=? x) with (8 * (b / 8) <=? x)
    by (apply bool_eq_iff; rewrite !Z.leb_le; lia).
  rewrite Hg. destruct (Z.ltb_spec b e); [done | lia].
Qed.

(** The move itself, on any bounds. *)
Lemma disjoint_moves (b : container_bounds) (g x : Z) : g <= x < g + 8 ->
  old_beg b <= old_end b -> new_beg b <= new_end b ->
  disjoint_poisons (negb (shown (old_beg b) (old_end b) g x)) b g x =
  negb (shown (new_beg b) (new_end b) g x).
Proof.
  destruct b as [ob oe nb ne]. unfold disjoint_poisons, shown. cbn [old_beg old_end new_beg new_end].
  intros. bools.
Qed.

Lemma overlap_moves (b : container_bounds) (g x : Z) : g <= x < g + 8 ->
  old_beg b <= old_end b -> new_beg b <= new_end b -> disjoint b = false ->
  overlap_poisons (negb (shown (old_beg b) (old_end b) g x)) b g x =
  negb (shown (new_beg b) (new_end b) g x).
Proof.
  destruct b as [ob oe nb ne]. unfold overlap_poisons, shown, disjoint.
  cbn [old_beg old_end new_beg new_end]. intros ? ? ? Hd. zb.
  destruct (Z.le_gt_cases oe ne).
  - rewrite Z.min_l, Z.max_r by lia. bools.
  - rewrite Z.min_r, Z.max_l by lia. bools.
Qed.

(** Where the move leaves poison. *)
Lemma disjoint_poisons_true (k : bool) (b : container_bounds) (g x : Z) :
  disjoint_poisons k b g x = true ->
  (new_beg b <> new_end b /\ new_beg b < g + 8 /\ g < new_end b <= x) \/
  (old_beg b <> old_end b /\ old_beg b < g + 8 /\ g < old_end b /\
   (new_beg b = new_end b \/ g + 8 <= new_beg b \/ new_end b <= g)) \/ k = true.
Proof.
  unfold disjoint_poisons. destruct (Z.eqb_spec (new_beg b) (new_end b)),
    (Z.ltb_spec (new_beg b) (g + 8)), (Z.ltb_spec g (new_end b)), (Z.eqb_spec (old_beg b) (old_end b)),
    (Z.ltb_spec (old_beg b) (g + 8)), (Z.ltb_spec g (old_end b)); cbn [negb andb]; intros H'; zb; tauto || lia.
Qed.

Lemma overlap_poisons_true (k : bool) (b : container_bounds) (g x : Z) :
  overlap_poisons k b g x = true ->
  (old_end b <> new_end b /\ Z.min (old_end b) (new_end b) < g + 8 /\
   g < Z.max (old_end b) (new_end b) /\ new_end b <= x) \/
  (old_beg b < g + 8 /\ g + 8 <= new_beg b) \/ k = true.
Proof.
  unfold overlap_poisons. destruct (Z.eqb_spec (old_end b) (new_end b)),
    (Z.ltb_spec (Z.min (old_end b) (new_end b)) (g + 8)), (Z.ltb_spec g (Z.max (old_end b) (new_end b))),
    (Z.ltb_spec (new_beg b) (g + 8)), (Z.leb_spec (g + 8) (old_beg b)), (Z.ltb_spec (old_beg b) (g + 8)),
    (Z.leb_spec (g + 8) (new_beg b)); cbn [negb andb]; intros H'; zb; tauto || lia.
Qed.

(** The bounds that a cut leaves. *)
Record cut_bounds (e sb se : Z) (b c : container_bounds) : Prop := {
  cut_old : old_beg c <= old_end c;
  cut_new : new_beg c <= new_end c;
  cut_cases : (old_beg c = Z.min e (old_beg b) /\ old_end c = Z.min e (old_end b) /\
               new_beg c = Z.min e (new_beg b) /\ new_end c = Z.min e (new_end b)) \/
    (old_beg c = old_beg b /\ old_end c = old_end b /\ new_beg c = new_beg b /\ new_end c = new_end b /\
     (old_end b = new_end b \/ Z.max (old_end b) (new_end b) <= e) /\
     (old_beg b = new_beg b \/ Z.max (old_beg b) (new_beg b) <= e));
}.

Lemma cut_end_bounds (s : asan_state) (sb se : Z) (b : container_bounds) :
  in_storage sb se b -> 0 <= sb -> cut_bounds (annotations_end M s se) sb se b (cut_end s se b).
Proof.
  intros Hin Hs. pose proof (cut_end_facts s sb se b Hin Hs) as H. cbv zeta in H.
  destruct Hin as (H1 & H2 & H3 & H4 & H5 & H6).
  destruct H as [H | [-> H]]; split; try lia; try (left; tauto); right; tauto.
Qed.

Lemma cut_shown (e sb se : Z) (b c : container_bounds) (g x : Z) :
  cut_bounds e sb se b c -> in_storage sb se b -> x < e -> g <= x < g + 8 -> e = se \/ g + 8 <= e ->
  shown (old_beg c) (old_end c) g x = shown (old_beg b) (old_end b) g x /\
  shown (new_beg c) (new_end c) g x = shown (new_beg b) (new_end b) g x.
Proof.
  intros [Ho Hn Hc] (H1 & H2 & H3 & H4 & H5 & H6) Hx Hg He. unfold shown.
  destruct Hc as [(-> & -> & -> & ->) | (-> & -> & -> & -> & _)]; [| done].
  split; apply bool_eq_iff; rewrite !andb_true_iff, !Z.ltb_lt; lia.
Qed.

(** Above the storage, the bounds either stay below the granule or are an
    overlapping pair with one end. *)
Lemma cut_above (e sb se g x : Z) (b c : container_bounds) :
  cut_bounds e sb se b c -> in_storage sb se b -> se <= x -> (g < se -> e <= g) ->
  old_beg b <> new_beg b \/ old_end b <> new_end b ->
  (old_end c <= g /\ new_end c <= g) \/
  (old_end c = new_end c /\ g < new_end c /\ old_beg c <= g /\ new_beg c <= g).
Proof.
  intros [Ho Hn Hc] (H1 & H2 & H3 & H4 & H5 & H6) Hx He Hne.
  destruct (Z.le_gt_cases se g).
  { left. clear Hne He. destruct Hc as [(? & ? & ? & ?) | (? & ? & ? & ? & _)]; lia. }
  specialize (He ltac:(lia)). destruct Hc as [(? & ? & ? & ?) | (? & ? & ? & ? & Ha & Hb)]; [lia |].
  destruct Ha as [Ha |]; [| lia]. destruct Hb; lia.
Qed.

Lemma disjoint_pair (b : container_bounds) (g : Z) :
  old_end b = new_end b -> g < new_end b -> old_beg b <= g -> new_beg b <= g -> disjoint b = false.
Proof.
  intros. unfold disjoint. rewrite !orb_false_iff, !Z.eqb_neq, !Z.leb_gt. lia.
Qed.

Lemma untouched (c : container_bounds) (g x : Z) : g <= x ->
  old_beg c <= old_end c -> new_beg c <= new_end c ->
  (old_end c <= g /\ new_end c <= g) \/
  (old_end c = new_end c /\ g < new_end c /\ old_beg c <= g /\ new_beg c <= g) \/
  (g + 8 <= old_beg c /\ g + 8 <= new_beg c) ->
  (if disjoint c then disjoint_poisons false c g x else overlap_poisons false c g x) = false.
Proof.
  intros Hx Ho Hn Hc. apply not_true_iff_false. intros Hp. destruct (disjoint c) eqn:Hd.
  - assert (Hc' : (old_end c <= g /\ new_end c <= g) \/ (g + 8 <= old_beg c /\ g + 8 <= new_beg c)).
    { destruct Hc as [| [(H1 & H2 & H3 & H4) |]]; [tauto | | tauto].
      by rewrite (disjoint_pair c g) in Hd. }
    clear Hc Hd. apply disjoint_poisons_true in Hp. destruct Hp as [Hp | [Hp | Hp]]; [lia | lia | done].
  - apply overlap_poisons_true in Hp. destruct Hp as [Hp | [Hp | Hp]]; [| lia | done].
    clear Hd. destruct Hc as [| []]; lia.
Qed.

(** Below, they are in the storage or all at the cut. *)
Lemma cut_below (e sb se g : Z) (b c : container_bounds) :
  cut_bounds e sb se b c -> in_storage sb se b -> e = se \/ e <= g \/ g + 8 <= e ->
  (sb <= old_beg c /\ sb <= new_beg c) \/
  (old_beg c = old_end c /\ new_beg c = new_end c /\
   (old_end c <= g /\ new_end c <= g \/ g + 8 <= old_beg c /\ g + 8 <= new_beg c)).
Proof.
  intros [Ho Hn Hc] (H1 & H2 & H3 & H4 & H5 & H6) He.
  destruct Hc as [(-> & -> & -> & ->) | (? & ? & ? & ? & _)]; [| left; lia].
  destruct (Z.le_gt_cases sb e); [left; lia |]. right. rewrite !Z.min_l by lia. lia.
Qed.

Lemma max_untouched (c : container_bounds) (bu g : Z) : bu <= g ->
  (old_end c <= g /\ new_end c <= g) \/
  (old_end c = new_end c /\ g < new_end c /\ old_beg c <= g /\ new_beg c <= g) ->
  let c' := map_bounds (Z.max bu) c in
  (old_end c' <= g /\ new_end c' <= g) \/
  (old_end c' = new_end c' /\ g < new_end c' /\ old_beg c' <= g /\ new_beg c' <= g).
Proof. intros Hbu Hc c'. unfold c', map_bounds. cbn [old_beg old_end new_beg new_end]. lia. Qed.

Section byte.
Context (s : asan_state) (sb se : Z) (b : container_bounds) (x : Z).
Context (Hsb : 16 <= sb) (Hse : sb <= se) (Hin : in_storage sb se b).
Let e := annotations_end M s se.
Let g := 8 * (x / 8).
Let bu := 8 * ((sb + 7) / 8).

Lemma byte_facts : g <= x < g + 8 /\ sb <= bu < sb + 8 /\ (bu <= g \/ g + 8 <= bu) /\
  se - 7 <= e <= se /\ (e = se \/ e <= g \/ g + 8 <= e) /\
  ((x / 8 =? sb / 8) = true <-> g <= sb < g + 8) /\ ((sb mod 8 =? 0) = true <-> sb = bu).
Proof.
  destruct (annotations_end_bounds M s se ltac:(lia)) as [H1 H2]. fold e in H1, H2.
  rewrite !Z.eqb_eq. unfold g, bu. split_and!; try qlia; try (intros; qlia).
Qed.

(** After the fixes and the move, a byte at or after the storage's beginning
    shows the new container. *)
Lemma moved_byte : sb <= x < e ->
  granule_poisoned (sv s x) (x mod 8) = negb (shown (old_beg b) (old_end b) g x) ->
  granule_poisoned (double_ended_value s sb se b x) (x mod 8) =
  negb (shown (new_beg b) (new_end b) g x).
Proof.
  intros Hx Hold. destruct byte_facts as (F1 & F2 & F3 & F4 & F5 & F6 & F7).
  pose proof (cut_end_bounds s sb se b Hin ltac:(lia)) as Hcut. fold e in Hcut.
  destruct (cut_shown _ _ _ _ _ g x Hcut Hin ltac:(lia) F1 ltac:(lia)) as [Hs1 Hs2].
  rewrite double_ended_poisons, Hold. fold g. unfold fixed_bounds. rewrite <- Hs1, <- Hs2.
  clear Hold Hs1 Hs2. destruct Hcut as [Ho Hn _]. set (c := cut_end s se b) in *. clearbody c.
  destruct (resets_beg sb c) eqn:Hr; cbn [andb].
  - unfold resets_beg in Hr. fold bu. set (c' := map_bounds (Z.max bu) c).
    assert (Hsame : (x / 8 =? sb / 8) = true -> shown (new_beg c) (new_end c) g x = false /\
        g + 8 <= old_beg c' /\ g + 8 <= new_beg c').
    { intros Hsame. apply F6 in Hsame. unfold c', map_bounds. cbn [old_beg new_beg].
      fold bu in Hr. zb. split; [| lia]. unfold shown. apply andb_false_iff. left.
      apply andb_false_iff. rewrite !Z.ltb_ge. lia. }
    assert (Hother : (x / 8 =? sb / 8) = false ->
      shown (old_beg c') (old_end c') g x = shown (old_beg c) (old_end c) g x /\
      shown (new_beg c') (new_end c') g x = shown (new_beg c) (new_end c) g x).
    { intros Hoth. apply not_true_iff_false in Hoth. rewrite F6 in Hoth.
      unfold c', map_bounds, shown. cbn [old_beg old_end new_beg new_end].
      split; apply bool_eq_iff; rewrite !andb_true_iff, !Z.ltb_lt; lia. }
    assert (Hc' : old_beg c' <= old_end c' /\ new_beg c' <= new_end c')
      by (unfold c', map_bounds; cbn [old_beg old_end new_beg new_end]; lia).
    clear Hr. clearbody c'. destruct (x / 8 =? sb / 8).
    + destruct (Hsame eq_refl) as (-> & Hlo & Hln). destruct (Z.leb_spec sb x); [| lia].
      unfold disjoint_poisons, overlap_poisons.
      destruct c' as [ob oe nb ne]; cbn [old_beg old_end new_beg new_end] in *.
      destruct (disjoint _) eqn:Hd; [bools |].
      unfold disjoint in Hd; cbn [old_beg old_end new_beg new_end] in Hd; zb.
      destruct (Z.ltb_spec (Z.min oe ne) (g + 8)); [lia |]. rewrite andb_false_r. bools.
    + destruct (Hother eq_refl) as [<- <-]. destruct (disjoint c') eqn:Hd.
      * apply disjoint_moves; tauto.
      * apply overlap_moves; tauto.
  - destruct (disjoint c) eqn:Hd; [apply disjoint_moves; tauto | apply overlap_moves; tauto].
Qed.

(** A byte outside the storage is never newly poisoned. *)
Lemma outside_byte : x < sb \/ se <= x ->
  ((old_beg b =? old_end b) && (new_beg b =? new_end b)) ||
  ((old_beg b =? new_beg b) && (old_end b =? new_end b)) = false ->
  (se <= x < g + 8 -> g < se -> granule_poisoned (sv s x) (x mod 8) = false -> e <= g) ->
  granule_poisoned (double_ended_value s sb se b x) (x mod 8) = true ->
  granule_poisoned (sv s x) (x mod 8) = true.
Proof.
  intros Hx Hne Htail. destruct byte_facts as (F1 & F2 & F3 & F4 & F5 & F6 & F7).
  rewrite double_ended_poisons. fold g. unfold fixed_bounds.
  destruct (granule_poisoned (sv s x) (x mod 8)); [done |].
  pose proof (cut_end_bounds s sb se b Hin ltac:(lia)) as Hcut. fold e in Hcut.
  set (c := cut_end s se b) in *. clearbody c e. pose proof Hcut as [Ho Hn _].
  assert (Hne' : old_beg b <> new_beg b \/ old_end b <> new_end b).
  { apply orb_false_iff in Hne as [_ Hne]. zb. tauto. }
  set (k := if resets_beg sb c && _ then _ else false).
  destruct Hx as [Hx | Hx].
  - assert (Hk : k = false).
    { unfold k. destruct (Z.leb_spec sb x); [lia |].
      by destruct (resets_beg sb c), (x / 8 =? sb / 8). }
    rewrite Hk. intros Hp. exfalso. revert Hp. apply not_true_iff_false.
    destruct (cut_below e sb se g b c Hcut Hin F5) as [[Hl1 Hl2] | (He1 & He2 & Hlow)];
      clear Htail F6 F7 Hne Hne' Hcut F4 F5 Hk.
    + destruct (resets_beg sb c) eqn:Hr.
      * assert (g + 8 <= bu) by lia.
        apply untouched; unfold map_bounds; cbn [old_beg old_end new_beg new_end]; fold bu;
          [lia | lia | lia | right; right; lia].
      * destruct (Z.le_gt_cases (g + 8) sb); [apply untouched; try lia; right; right; lia |].
        apply not_true_iff_false. intros Hp. unfold resets_beg in Hr. fold bu in Hr.
        assert (Hsb8 : sb mod 8 <> 0) by (unfold g in *; qlia).
        destruct (Z.eqb_spec (sb mod 8) 0); [done |]. cbn [negb andb] in Hr.
        destruct (disjoint c) eqn:Hd.
        -- apply disjoint_poisons_true in Hp. destruct Hp as [Hp | [Hp | Hp]]; [lia | | done].
           zb. lia.
        -- apply overlap_poisons_true in Hp. destruct Hp as [Hp | [Hp | Hp]]; [lia | | done].
           unfold disjoint in Hd. zb. lia.
    + destruct (resets_beg sb c) eqn:Hr; [| apply untouched; tauto || lia].
      unfold resets_beg in Hr. rewrite He1, Z.eqb_refl, andb_false_r in Hr. done.
  - assert (He : g < se -> e <= g) by (intros; apply Htail; [lia | done | done]).
    pose proof (cut_above e sb se g x b c Hcut Hin Hx He Hne') as Habove.
    destruct (resets_beg sb c) eqn:Hr.
    + unfold resets_beg in Hr. fold bu in Hr. zb.
      destruct (cut_below e sb se g b c Hcut Hin F5) as [[Hl1 Hl2] | (He1 & He2 & Hlow)]; [| done].
      assert (Hbu : bu <= g).
      { destruct F3; [done |]. clear Htail F7. destruct Habove; lia. }
      assert (Hk : k = false).
      { unfold k. destruct (x / 8 =? sb / 8); [| done]. cbn [andb]. destruct F6 as [F6 _].
        specialize (F6 eq_refl). lia. }
      rewrite Hk. intros Hp. exfalso. revert Hp. apply not_true_iff_false. fold bu. apply untouched.
      * lia.
      * clear - Ho. unfold map_bounds; cbn [old_beg old_end new_beg new_end]; lia.
      * clear - Hn. unfold map_bounds; cbn [old_beg old_end new_beg new_end]; lia.
      * destruct (max_untouched c bu g Hbu Habove); [by left | right; by left].
    + unfold k. cbn [andb]. intros Hp. exfalso. revert Hp. apply not_true_iff_false.
      apply untouched; tauto || lia.
Qed.

(** The first byte after the storage keeps its state. *)
Lemma last_byte : x = se ->
  granule_poisoned (sv s x) (x mod 8) = true ->
  granule_poisoned (double_ended_value s sb se b x) (x mod 8) = true.
Proof.
  intros Hx Hold. destruct byte_facts as (F1 & F2 & F3 & _ & _ & _ & _).
  rewrite double_ended_poisons, Hold. fold g. unfold fixed_bounds.
  destruct (cut_end_bounds s sb se b Hin ltac:(lia)) as [Ho Hn Hc].
  set (c := cut_end s se b) in *.
  assert (Hle : old_beg c <= se /\ old_end c <= se /\ new_end c <= se).
  { clear F2 F3. destruct Hin as (H1 & H2 & H3 & H4 & H5 & H6). lia. }
  clear Hc. clearbody c.
  replace (if _ && _ then sb <=? x else true) with true
    by (destruct (Z.leb_spec sb x); [by destruct (_ && _) | lia]).
  fold bu. set (c' := if resets_beg sb c then _ else _).
  assert (Hle' : (old_beg c' <= se /\ old_end c' <= se /\ new_end c' <= se) \/
                 (g + 8 <= new_beg c' /\ g + 8 <= old_end c' /\ g + 8 <= new_end c')).
  { unfold c'. destruct (resets_beg sb c); [| by left]. unfold map_bounds.
    cbn [old_beg old_end new_beg new_end]. destruct F3; [left | right]; lia. }
  clearbody c'. clear Hle Ho Hn Hold F2 F3. unfold disjoint_poisons, overlap_poisons.
  destruct (disjoint c'), Hle' as [(L1 & L2 & L3) | (L1 & L2 & L3)].
  - destruct (Z.leb_spec (new_end c') x); [| lia]. by repeat case_match.
  - destruct (Z.ltb_spec (new_beg c') (g + 8)); [lia |]. rewrite andb_false_r. by repeat case_match.
  - destruct (Z.leb_spec (new_end c') x), (Z.leb_spec (g + 8) (old_beg c')); try lia.
    rewrite andb_false_r. by repeat case_match.
  - destruct (Z.ltb_spec (Z.min (old_end c') (new_end c')) (g + 8)); [lia |].
    destruct (Z.ltb_spec (new_beg c') (g + 8)); [lia |].
    rewrite andb_false_r. by repeat case_match.
Qed.
End byte.

Lemma double_ended_spec (s : asan_state) (sb se : Z) (b : container_bounds) :
  asan_wf fl s -> can_poison_memory s = true -> detect_container_overflow fl = true ->
  storage_ok M sb se -> in_storage sb se b -> annotated_de s sb (old_beg b) (old_end b) se ->
  exists s', __sanitizer_annotate_double_ended_contiguous_container M fl page_size mmap_fixed s sb se
      (old_beg b) (old_end b) (new_beg b) (new_end b) = Ok s' /\
    asan_wf fl s' /\ annotated_de s' sb (new_beg b) (new_end b) se /\
    forall x, is_uptr x -> x < sb \/ se <= x -> poisoned s' x = true -> poisoned s x = true.
Proof.
  intros Hwf Hcan Hdet Hst Hin Hold. pose proof Hst as [Hb Hl Hs Hm].
  change (2 ^ 63) with 9223372036854775808 in *.
  destruct (((old_beg b =? old_end b) && (new_beg b =? new_end b)) ||
            ((old_beg b =? new_beg b) && (old_end b =? new_end b))) eqn:Hne.
  { exists s. split; [| split; [done |]; split; [| done]].
    - pose proof Hin as (Ha1 & Ha2 & Ha3 & Ha4 & Ha5 & Ha6).
      unfold __sanitizer_annotate_double_ended_contiguous_container. rewrite Hdet.
      cbn [negb old_beg old_end new_beg new_end]. rewrite Hne.
      destruct (_ || _ || _) eqn:Hpar.
      { rewrite !orb_true_iff, !negb_true_iff, !andb_false_iff, !Z.leb_gt in Hpar. lia. }
      step. change (2 ^ 40) with 1099511627776 in Hs.
      rewrite (wrap_small (se - sb)) by (unfold is_uptr, word_modulus; lia).
      by rewrite (check_true (_ <=? _)) by (apply Z.leb_le; lia).
    - intros x Hx. rewrite (Hold x Hx). f_equal. f_equal.
      destruct Hin as (_ & Ho & _ & _ & Hn & _).
      rewrite !shown_first by lia. unfold shown. apply orb_true_iff in Hne as [Hne | Hne]; zb.
      + replace (old_end b) with (old_beg b) by lia. replace (new_end b) with (new_beg b) by lia.
        by rewrite !Z.ltb_irrefl.
      + by replace (new_end b) with (old_end b) by lia; replace (new_beg b) with (old_beg b) by lia. }
  destruct (double_ended_effect s sb se b) as (s' & Hs' & Hwf' & _ & Hw); try done.
  exists s'. split; [done |]. split; [done |].
  destruct (annotations_end_bounds M s se ltac:(lia)) as [Hann Hann'].
  assert (Hbyte : forall x, is_uptr x ->
    poisoned s' x = granule_poisoned (double_ended_value s sb se b x) (x mod 8)).
  { intros x Hx. rewrite poisoned_shadow_value by done. by rewrite Hw. }
  assert (Hse : is_uptr se) by (unfold is_uptr, word_modulus; lia).
  assert (Hout : forall x, is_uptr x -> x < sb \/ se <= x -> poisoned s' x = true -> poisoned s x = true).
  { intros x Hx Hr. rewrite Hbyte, (poisoned_shadow_value M s x) by done.
    apply outside_byte; try done; try lia. intros Hx1 Hx2 Hp.
    rewrite <- (poisoned_shadow_value M s x Hx) in Hp. unfold annotations_end.
    destruct (Z.eqb_spec (se mod 8) 0); [qlia |].
    rewrite (unpoisoned_tail M s se x) by (done || qlia). cbn [negb andb]. qlia. }
  assert (Hend : annotations_end M s' se = annotations_end M s se).
  { unfold annotations_end. destruct (Z.eqb_spec (se mod 8) 0); [done |]. cbn [negb andb].
    assert (He : poisoned s' se = poisoned s se); [| by rewrite He].
    apply bool_eq_iff. split; [apply Hout; [done | lia] |].
    rewrite Hbyte, (poisoned_shadow_value M s se) by done. by apply last_byte; try lia. }
  split; [| done]. intros x Hx. assert (Hxu : is_uptr x) by (unfold is_uptr, word_modulus; lia).
  pose proof Hin as (H1 & H2 & H3 & H4 & H5 & H6). rewrite Hend.
  destruct (Z.ltb_spec x (annotations_end M s se)) as [Hxe | Hxe].
  - rewrite Hbyte, andb_true_r, shown_first by (done || lia).
    apply moved_byte; try done; try lia.
    specialize (Hold x Hx). rewrite poisoned_shadow_value in Hold by done. rewrite Hold.
    destruct (Z.ltb_spec x (annotations_end M s se)); [| lia].
    by rewrite andb_true_r, shown_first by lia.
  - rewrite andb_false_r. apply (after_annotations_end M s' se); [exact Hse |]. rewrite Hend. lia.
Qed.
End double_ended.


