(* ===== verification/SizeClassMap.v ===== *)
(** * Size classes: sanitizer_allocator_size_class_map.h

    [SizeClassMap] for every choice of its template parameters that satisfies
    [WfSizeClassMap], the instances of the header among them: the two maps
    between sizes and classes, the caching hint and the self check
    [Validate]. *)

From S2P Require Import Prelude Words.

(** The template parameters. *)
Record size_class_params : Type := SizeClassParams {
  kNumBits : Z; kMinSizeLog : Z; kMidSizeLog : Z; kMaxSizeLog : Z;
  kMaxNumCachedHint : Z; kMaxBytesCachedLog : Z;
}.

Definition DefaultSizeClassMap := SizeClassParams 3 4 8 17 128 16.
Definition CompactSizeClassMap := SizeClassParams 3 4 8 17 64 14.
Definition VeryCompactSizeClassMap := SizeClassParams 2 5 9 16 64 14.
Definition DenseSizeClassMap := SizeClassParams 3 4 8 17 8 10.
Definition VeryDenseSizeClassMap := SizeClassParams 2 5 9 16 8 10.

Section size_class_map.
Context (P : size_class_params).

Definition kMinSize : Z := Z.shiftl 1 (kMinSizeLog P).
Definition kMidSize : Z := Z.shiftl 1 (kMidSizeLog P).
Definition kMidClass : Z := kMidSize / kMinSize.
Definition kS : Z := kNumBits P - 1.
Definition kM : Z := Z.shiftl 1 kS - 1.
Definition kMaxSize : Z := Z.shiftl 1 (kMaxSizeLog P).
Definition kNumClasses : Z := kMidClass + Z.shiftl (kMaxSizeLog P - kMidSizeLog P) kS + 1 + 1.
Definition kLargestClassID : Z := kNumClasses - 2.
Definition kBatchClassID : Z := kNumClasses - 1.
Definition kNumClassesRounded : Z :=
  if kNumClasses <=? 32 then 32 else if kNumClasses <=? 64 then 64
  else if kNumClasses <=? 128 then 128 else 256.

Definition Size (class_id : Z) : Z :=
  if class_id =? kBatchClassID then kMaxNumCachedHint P * 8
  else if class_id <=? kMidClass then kMinSize * class_id
  else
    let class_id := class_id - kMidClass in
    let t := wshl kMidSize (Z.shiftr class_id kS) in
    t + Z.shiftr t kS * Z.land class_id kM.

Definition ClassID (size : Z) : result Z :=
  if kMaxSize <? size then Ok 0
  else if size <=? kMidSize then Ok (Z.shiftr (size + kMinSize -w 1) (kMinSizeLog P))
  else
    l ← MostSignificantSetBitIndex size;
    let hbits := Z.land (Z.shiftr size (l - kS)) kM in
    let lbits := Z.land size (to_u32 (Z.shiftl 1 (l - kS)) - 1) in
    let l1 := l - kMidSizeLog P in
    Ok (kMidClass + Z.shiftl l1 kS + hbits + (if 0 <? lbits then 1 else 0)).

Definition MaxCachedHint (size : Z) : Z :=
  if size =? 0 then 0
  else
    let n := if (31 <? kMaxBytesCachedLog P) || (31 <? kMaxSizeLog P)
             then Z.shiftl 1 (kMaxBytesCachedLog P) / size
             else Z.shiftl 1 (kMaxBytesCachedLog P) / to_u32 size in
    Z.max 1 (Z.min (kMaxNumCachedHint P) n).

(** The two loops of [Validate]. *)
Fixpoint validate_classes (c : Z) (k : nat) : result unit :=
  match k with
  | O => Ok tt
  | S k' =>
      let s := Size c in
      _ ← check (negb (s =? 0));
      _ ← (if c =? kBatchClassID then Ok tt
           else
             c1 ← ClassID s;
             _ ← check (c1 =? c);
             _ ← (if c <? kLargestClassID
                  then c2 ← ClassID (s + 1); check (c2 =? c + 1) else Ok tt);
             c3 ← ClassID (s - 1);
             _ ← check (c3 =? c);
             check (Size (c - 1) <? Size c));
      validate_classes (c + 1) k'
  end.

Fixpoint validate_sizes (s : Z) (k : nat) : result unit :=
  match k with
  | O => Ok tt
  | S k' =>
      c ← ClassID s;
      _ ← check (c <? kNumClasses);
      _ ← check (s <=? Size c);
      _ ← (if 0 <? c then check (Size (c - 1) <? s) else Ok tt);
      validate_sizes (s + 1) k'
  end.

Definition Validate : result unit :=
  _ ← validate_classes 1 (Z.to_nat (kNumClasses - 1));
  c ← ClassID (kMaxSize + 1);
  _ ← check (c =? 0);
  validate_sizes 1 (Z.to_nat kMaxSize).

(** The parameters the header's [COMPILER_CHECK]s and arithmetic rely on: the
    steps between neighbouring classes are whole and at least two bytes, and
    everything fits the 32-bit shift of [ClassID]. *)
Class WfSizeClassMap : Prop := {
  wf_num_bits : 1 <= kNumBits P;
  wf_min : 1 <= kMinSizeLog P <= kMidSizeLog P;
  wf_mid : kNumBits P <= kMidSizeLog P <= kMaxSizeLog P;
  wf_max : kMaxSizeLog P <= 30;
  wf_hint : 0 < kMaxNumCachedHint P;
}.

End size_class_map.

#[export] Instance default_size_classes_wf : WfSizeClassMap DefaultSizeClassMap.
Proof. by split; cbn. Qed.
#[export] Instance very_compact_size_classes_wf : WfSizeClassMap VeryCompactSizeClassMap.
Proof. by split; cbn. Qed.

Section facts.
Context (P : size_class_params) `{!WfSizeClassMap P}.

Let a := kMinSizeLog P.
Let m := kMidSizeLog P.
Let z := kMaxSizeLog P.
Let q := kNumBits P - 1.

Lemma params : 1 <= a <= m /\ 0 <= q < m /\ m <= z <= 30.
Proof.
  pose proof (wf_num_bits P). pose proof (wf_min P). pose proof (wf_mid P). pose proof (wf_max P).
  unfold a, m, z, q. lia.
Qed.

Lemma kMinSize_pow : kMinSize P = 2 ^ a.
Proof. apply Z.shiftl_1_l. Qed.
Lemma kMidSize_pow : kMidSize P = 2 ^ m.
Proof. apply Z.shiftl_1_l. Qed.
Lemma kMaxSize_pow : kMaxSize P = 2 ^ z.
Proof. apply Z.shiftl_1_l. Qed.
Lemma kMidClass_pow : kMidClass P = 2 ^ (m - a).
Proof.
  pose proof params. unfold kMidClass. rewrite kMinSize_pow, kMidSize_pow.
  symmetry. apply Z.pow_sub_r; lia.
Qed.
Lemma kLargestClassID_eq : kLargestClassID P = 2 ^ (m - a) + (z - m) * 2 ^ q.
Proof.
  pose proof params. unfold kLargestClassID, kNumClasses. rewrite kMidClass_pow, Z.shiftl_mul_pow2 by (unfold kS; fold q; lia).
  fold z m. unfold kS. fold q. lia.
Qed.

Lemma kMidSize_classes : 2 ^ m = 2 ^ a * 2 ^ (m - a).
Proof. pose proof params. rewrite <- Z.pow_add_r by lia. f_equal. lia. Qed.

(** [Size] in closed form: the classes of one power of two are equally spaced,
    the last of them being the first of the next. *)
Lemma Size_small (c : Z) : 0 <= c <= kMidClass P -> c <> kBatchClassID P -> Size P c = 2 ^ a * c.
Proof.
  intros Hc Hb. unfold Size. destruct (Z.eqb_spec c (kBatchClassID P)); [done |].
  destruct (Z.leb_spec c (kMidClass P)); [| lia]. by rewrite kMinSize_pow.
Qed.

Lemma Size_pow (l k : Z) : m <= l <= z -> 0 <= k <= 2 ^ q -> (l = z -> k = 0) ->
  Size P (kMidClass P + (l - m) * 2 ^ q + k) = 2 ^ l + 2 ^ (l - q) * k.
Proof.
  intros Hl Hk Hz. pose proof params as Hp. pose proof (Z.pow_pos_nonneg 2 q ltac:(lia) ltac:(lia)) as Hq.
  pose proof kLargestClassID_eq as Hlarge. rewrite <- kMidClass_pow in Hlarge.
  unfold Size. destruct (Z.eqb_spec (kMidClass P + (l - m) * 2 ^ q + k) (kBatchClassID P)) as [He |].
  { exfalso. unfold kBatchClassID, kLargestClassID in *. nia. }
  destruct (Z.leb_spec (kMidClass P + (l - m) * 2 ^ q + k) (kMidClass P)) as [Hle | Hgt].
  { assert (l = m /\ k = 0) as [-> ->] by nia. rewrite kMinSize_pow, kMidClass_pow.
    rewrite kMidSize_classes. lia. }
  replace (kMidClass P + (l - m) * 2 ^ q + k - kMidClass P) with ((l - m) * 2 ^ q + k) by lia.
  unfold kM, kS. fold q. rewrite Z.shiftl_1_l, land_pow2_mod, !Z.shiftr_div_pow2 by lia.
  rewrite kMidSize_pow. unfold wshl.
  destruct (Z.eq_dec k (2 ^ q)) as [-> | Hkq].
  - replace ((l - m) * 2 ^ q + 2 ^ q) with ((l - m + 1) * 2 ^ q) by lia.
    rewrite Z.div_mul, Z.mod_mul by lia. rewrite Z.shiftl_mul_pow2, <- Z.pow_add_r by lia.
    replace (m + (l - m + 1)) with (Z.succ l) by lia. rewrite Z.mul_0_r, Z.add_0_r.
    rewrite wrap_small by (apply pow2_lt_word; lia).
    rewrite <- Z.pow_add_r by lia. replace (l - q + q) with l by lia. rewrite Z.pow_succ_r by lia. lia.
  - rewrite Z.div_add_l, Z.div_small, Z.add_0_r by lia.
    rewrite (Z.add_comm ((l - m) * _)), Z.mod_add, Z.mod_small by lia.
    rewrite Z.shiftl_mul_pow2, <- Z.pow_add_r by lia. replace (m + (l - m)) with l by lia.
    rewrite wrap_small by (apply pow2_lt_word; lia). rewrite <- Z.pow_sub_r by lia. lia.
Qed.

Lemma ClassID_small (s : Z) : 0 <= s <= 2 ^ m ->
  ClassID P s = Ok ((s + 2 ^ a - 1) / 2 ^ a).
Proof.
  intros Hs. pose proof params as Hp. unfold ClassID. rewrite kMaxSize_pow, kMidSize_pow, kMinSize_pow.
  pose proof (Z.pow_le_mono_r 2 m z ltac:(lia) ltac:(lia)).
  pose proof (Z.pow_le_mono_r 2 m 30 ltac:(lia) ltac:(lia)).
  pose proof (Z.pow_le_mono_r 2 a 30 ltac:(lia) ltac:(lia)).
  pose proof (Z.pow_pos_nonneg 2 a ltac:(lia) ltac:(lia)). change (2 ^ 30) with 1073741824 in *.
  destruct (Z.ltb_spec (2 ^ z) s); [lia |]. destruct (Z.leb_spec s (2 ^ m)); [| lia].
  fold a. rewrite Z.shiftr_div_pow2 by lia. rewrite wrap_small by (unfold is_uptr, word_modulus; lia). done.
Qed.

(** A size above the middle, split at its power of two. *)
Lemma ClassID_large (l h b : Z) (s := 2 ^ l + 2 ^ (l - q) * h + b) :
  m <= l <= z -> 0 <= h < 2 ^ q -> 0 <= b < 2 ^ (l - q) -> 2 ^ m < s <= 2 ^ z ->
  ClassID P s = Ok (kMidClass P + (l - m) * 2 ^ q + (h + (if 0 <? b then 1 else 0))).
Proof.
  intros Hl Hh Hb Hs. pose proof params as Hp. unfold ClassID. rewrite kMaxSize_pow, kMidSize_pow.
  destruct (Z.ltb_spec (2 ^ z) s); [lia |]. destruct (Z.leb_spec s (2 ^ m)); [lia |].
  pose proof (Z.pow_pos_nonneg 2 m ltac:(lia) ltac:(lia)).
  pose proof (Z.pow_pos_nonneg 2 (l - q) ltac:(lia) ltac:(lia)) as Hlq.
  assert (Hpow : 2 ^ l = 2 ^ (l - q) * 2 ^ q) by (rewrite <- Z.pow_add_r by lia; f_equal; lia).
  assert (Hlog : Z.log2 s = l).
  { apply Z.log2_unique; [lia |]. rewrite Z.pow_succ_r by lia. unfold s. nia. }
  rewrite MostSignificantSetBitIndex_spec by lia. rewrite Hlog. step. f_equal.
  unfold kM, kS. fold q m. rewrite Z.shiftl_1_l, !land_pow2_mod, Z.shiftr_div_pow2 by lia.
  rewrite Z.shiftl_mul_pow2 by lia. rewrite Z.shiftl_1_l. unfold to_u32.
  assert (Hbits : 2 ^ (l - q) <= 2 ^ 30) by (apply Z.pow_le_mono_r; lia).
  change (2 ^ 30) with 1073741824 in Hbits.
  rewrite (Z.mod_small (2 ^ (l - q)) 4294967296), land_pow2_mod by lia.
  assert (Hs1 : s / 2 ^ (l - q) = 2 ^ q + h).
  { symmetry. apply (Z.div_unique_pos _ _ _ b); [lia |]. unfold s. nia. }
  assert (Hs2 : s mod 2 ^ (l - q) = b).
  { symmetry. apply (Z.mod_unique_pos _ _ (2 ^ q + h)); [lia |]. unfold s. nia. }
  rewrite Hs1, Hs2. rewrite <- (Z.mul_1_l (2 ^ q)) at 2. rewrite Z.add_comm, (Z.add_comm (1 * _)), Z.mod_add, Z.mod_small by lia.
  lia.
Qed.

(** Every size above the middle has such a split. *)
Lemma split_size (s : Z) : 2 ^ m < s <= 2 ^ z ->
  exists l h b, s = 2 ^ l + 2 ^ (l - q) * h + b /\ m <= l <= z /\ 0 <= h < 2 ^ q /\
    0 <= b < 2 ^ (l - q) /\ (l = z -> h = 0 /\ b = 0).
Proof.
  intros Hs. pose proof params as Hp. pose proof (Z.pow_pos_nonneg 2 m ltac:(lia) ltac:(lia)).
  set (l := Z.log2 s). pose proof (Z.log2_spec s ltac:(lia)) as Hlog. fold l in Hlog.
  assert (Hl : m <= l <= z).
  { split; [| apply (Z.pow_le_mono_r_iff 2); lia].
    apply Z.log2_le_pow2; lia. }
  rewrite Z.pow_succ_r in Hlog by lia.
  assert (Hpow : 2 ^ l = 2 ^ (l - q) * 2 ^ q) by (rewrite <- Z.pow_add_r by lia; f_equal; lia).
  pose proof (Z.pow_pos_nonneg 2 (l - q) ltac:(lia) ltac:(lia)) as Hlq.
  exists l, ((s - 2 ^ l) / 2 ^ (l - q)), ((s - 2 ^ l) mod 2 ^ (l - q)).
  pose proof (Z.div_mod (s - 2 ^ l) (2 ^ (l - q)) ltac:(lia)) as Hdm.
  pose proof (Z.mod_pos_bound (s - 2 ^ l) (2 ^ (l - q)) ltac:(lia)).
  split_and!; try lia.
  - apply Z.div_pos; lia.
  - apply Z.div_lt_upper_bound; lia.
  - intros ->. replace (s - 2 ^ z) with 0 by lia. by rewrite Z.div_0_l, Z.mod_0_l by lia.
Qed.

Lemma ClassID_spec (s : Z) : 1 <= s <= kMaxSize P ->
  exists c, ClassID P s = Ok c /\ 1 <= c <= kLargestClassID P /\ Size P (c - 1) < s <= Size P c /\
    (kMidSize P < s -> (Size P c - s) * 2 ^ q < s).
Proof.
  rewrite kMaxSize_pow, kMidSize_pow. intros Hs. pose proof params as Hp.
  pose proof (Z.pow_pos_nonneg 2 a ltac:(lia) ltac:(lia)) as Ha.
  pose proof (Z.pow_pos_nonneg 2 q ltac:(lia) ltac:(lia)) as Hq.
  pose proof kLargestClassID_eq as Hlarge. rewrite <- kMidClass_pow in Hlarge.
  destruct (Z.le_gt_cases s (2 ^ m)) as [Hsm | Hsm].
  - rewrite ClassID_small by lia. set (c := (s + 2 ^ a - 1) / 2 ^ a).
    assert (Hc : 2 ^ a * (c - 1) < s <= 2 ^ a * c).
    { unfold c. pose proof (Z.div_mod (s + 2 ^ a - 1) (2 ^ a) ltac:(lia)).
      pose proof (Z.mod_pos_bound (s + 2 ^ a - 1) (2 ^ a) ltac:(lia)). lia. }
    pose proof kMidSize_classes as Hmc. rewrite <- kMidClass_pow in Hmc.
    assert (Hcm : 1 <= c <= kMidClass P) by nia.
    exists c. split; [done |]. unfold kBatchClassID, kLargestClassID in *.
    rewrite !Size_small by (unfold kBatchClassID, kLargestClassID; nia). split_and!; nia.
  - destruct (split_size s ltac:(lia)) as (l & h & b & -> & Hl & Hh & Hb & Hz).
    rewrite ClassID_large by lia. eexists; split; [done |].
    pose proof (Z.pow_pos_nonneg 2 (l - q) ltac:(lia) ltac:(lia)) as Hlq.
    assert (Hpow : 2 ^ l = 2 ^ (l - q) * 2 ^ q) by (rewrite <- Z.pow_add_r by lia; f_equal; lia).
    set (k := h + (if 0 <? b then 1 else 0)).
    assert (Hk : 0 <= k <= 2 ^ q /\ (l = z -> k = 0) /\ (0 < b -> k = h + 1) /\ (b = 0 -> k = h)).
    { unfold k. destruct (Z.ltb_spec 0 b); lia. }
    assert (0 < kMidClass P) by (rewrite kMidClass_pow; apply Z.pow_pos_nonneg; lia).
    rewrite Size_pow by lia. split_and!.
    + nia.
    + destruct (Z.eq_dec l z) as [-> |]; [| rewrite Hlarge; nia].
      destruct Hk as (_ & Hk & _). rewrite Hlarge. specialize (Hk eq_refl). lia.
    + destruct (Z.eq_dec k 0) as [Hk0 |].
      * assert (h = 0 /\ b = 0) as [-> ->] by lia.
        assert (m < l) by (destruct (Z.eq_dec l m) as [-> |]; lia).
        replace (kMidClass P + (l - m) * 2 ^ q + k - 1)
          with (kMidClass P + (l - 1 - m) * 2 ^ q + (2 ^ q - 1)) by lia.
        rewrite Size_pow by lia.
        assert (Hpow1 : 2 ^ (l - 1) = 2 ^ (l - 1 - q) * 2 ^ q)
          by (rewrite <- Z.pow_add_r by lia; f_equal; lia).
        assert (2 ^ l = 2 * 2 ^ (l - 1)) by (rewrite <- Z.pow_succ_r by lia; f_equal; lia).
        pose proof (Z.pow_pos_nonneg 2 (l - 1 - q) ltac:(lia) ltac:(lia)). nia.
      * replace (kMidClass P + (l - m) * 2 ^ q + k - 1)
          with (kMidClass P + (l - m) * 2 ^ q + (k - 1)) by lia.
        rewrite Size_pow by lia. destruct (Z.eq_dec b 0); nia.
    + destruct (Z.eq_dec b 0); nia.
    + intros _. destruct (Z.eq_dec b 0); nia.
Qed.

(** ** [Validate] *)

Lemma Size_step (c : Z) : 1 <= c <= kLargestClassID P -> Size P (c - 1) + 2 <= Size P c.
Proof.
  intros Hc. pose proof params as Hp. pose proof kLargestClassID_eq as Hlarge.
  rewrite <- kMidClass_pow in Hlarge.
  pose proof (Z.pow_pos_nonneg 2 q ltac:(lia) ltac:(lia)) as Hq.
  destruct (Z.le_gt_cases c (kMidClass P)) as [Hs | Hs].
  - unfold kLargestClassID in *. rewrite !Size_small by (unfold kBatchClassID; lia).
    assert (2 <= 2 ^ a) by (change 2 with (2 ^ 1) at 1; apply Z.pow_le_mono_r; lia). nia.
  - set (d := c - kMidClass P - 1). set (l := m + d / 2 ^ q). set (k := d mod 2 ^ q + 1).
    pose proof (Z.div_mod d (2 ^ q) ltac:(lia)) as Hd. pose proof (Z.mod_pos_bound d (2 ^ q) ltac:(lia)).
    assert (Hl : m <= l < z).
    { unfold l. pose proof (Z.div_pos d (2 ^ q) ltac:(unfold d; lia) ltac:(lia)).
      assert (d / 2 ^ q < z - m) by (apply Z.div_lt_upper_bound; unfold d; lia). lia. }
    replace (c - 1) with (kMidClass P + (l - m) * 2 ^ q + (k - 1)) by (unfold l, k, d in *; lia).
    replace c with (kMidClass P + (l - m) * 2 ^ q + k) by (unfold l, k, d in *; lia).
    rewrite !Size_pow by (unfold k; lia).
    assert (2 <= 2 ^ (l - q)) by (change 2 with (2 ^ 1) at 1; apply Z.pow_le_mono_r; lia). nia.
Qed.

Lemma Size_mono (c d : Z) : 0 <= c < d -> d <= kLargestClassID P -> Size P c < Size P d.
Proof.
  intros Hcd. remember (Z.to_nat (d - c - 1)) as n eqn:Hn. revert d Hcd Hn.
  induction n as [| n IH]; intros d Hcd Hn Hd; pose proof (Size_step d ltac:(lia)) as Hs.
  - replace (d - 1) with c in Hs by lia. lia.
  - pose proof (IH (d - 1) ltac:(lia) ltac:(lia) ltac:(lia)). lia.
Qed.

Lemma Size_largest : Size P (kLargestClassID P) = kMaxSize P.
Proof.
  rewrite kLargestClassID_eq, <- kMidClass_pow. pose proof params.
  replace (kMidClass P + (z - m) * 2 ^ q) with (kMidClass P + (z - m) * 2 ^ q + 0) by lia.
  rewrite Size_pow by lia. rewrite kMaxSize_pow. lia.
Qed.

Lemma Size_0 : Size P 0 = 0.
Proof.
  pose proof params. pose proof kLargestClassID_eq as H'. rewrite <- kMidClass_pow in H'.
  assert (0 < kMidClass P) by (rewrite kMidClass_pow; apply Z.pow_pos_nonneg; lia).
  pose proof (Z.pow_pos_nonneg 2 q ltac:(lia) ltac:(lia)).
  rewrite Size_small; [lia | lia |]. unfold kBatchClassID, kLargestClassID in *. nia.
Qed.

Lemma ClassID_unique (s c : Z) : 1 <= s -> 1 <= c <= kLargestClassID P ->
  Size P (c - 1) < s <= Size P c -> ClassID P s = Ok c.
Proof.
  intros Hs Hc Hsc. pose proof Size_largest as Hl.
  assert (Hm : s <= kMaxSize P).
  { destruct (Z.eq_dec c (kLargestClassID P)) as [-> |]; [lia |].
    pose proof (Size_mono c (kLargestClassID P) ltac:(lia) ltac:(lia)). lia. }
  destruct (ClassID_spec s ltac:(lia)) as (c' & -> & Hc' & Hs' & _). f_equal.
  destruct (Z.lt_trichotomy c c') as [Hlt | [-> | Hgt]]; [| done |].
  - destruct (Z.eq_dec c (c' - 1)) as [-> |]; [lia |].
    pose proof (Size_mono c (c' - 1) ltac:(lia) ltac:(lia)). lia.
  - destruct (Z.eq_dec c' (c - 1)) as [-> |]; [lia |].
    pose proof (Size_mono c' (c - 1) ltac:(lia) ltac:(lia)). lia.
Qed.

Lemma validate_classes_ok (c : Z) (k : nat) :
  1 <= c -> c + Z.of_nat k = kNumClasses P -> validate_classes P c k = Ok tt.
Proof.
  revert c. induction k as [| k IH]; intros c Hc Hk; [done |]. cbn [validate_classes].
  assert (Hb : kBatchClassID P = kNumClasses P - 1 /\ kLargestClassID P = kNumClasses P - 2) by done.
  destruct (Z.eqb_spec c (kBatchClassID P)) as [He | Hne].
  - replace (Size P c =? 0) with false.
    2:{ symmetry. apply Z.eqb_neq. unfold Size. rewrite He, Z.eqb_refl. pose proof (wf_hint P). lia. }
    step. apply IH; lia.
  - pose proof (Size_step c ltac:(lia)) as Hstep. pose proof Size_0 as H0.
    assert (Hpos : 0 <= Size P (c - 1)).
    { destruct (Z.eq_dec c 1) as [-> |]; [change (1 - 1) with 0; lia |].
      pose proof (Size_mono 0 (c - 1) ltac:(lia) ltac:(lia)). lia. }
    replace (Size P c =? 0) with false by (symmetry; apply Z.eqb_neq; lia). step.
    rewrite (ClassID_unique (Size P c) c) by lia. step. rewrite Z.eqb_refl. step.
    rewrite (ClassID_unique (Size P c - 1) c) by lia.
    assert (Hnext : (if c <? kLargestClassID P
                     then c2 ← ClassID P (Size P c + 1); check (c2 =? c + 1) else Ok tt) = Ok tt).
    { destruct (Z.ltb_spec c (kLargestClassID P)); [| done].
      pose proof (Size_step (c + 1) ltac:(lia)) as Hs1. replace (c + 1 - 1) with c in Hs1 by lia.
      rewrite (ClassID_unique (Size P c + 1) (c + 1)) by (replace (c + 1 - 1) with c by lia; lia).
      step. by rewrite Z.eqb_refl. }
    rewrite Hnext. step. rewrite Z.eqb_refl. step.
    rewrite (check_true (_ <? _)) by (apply Z.ltb_lt; lia). step. apply IH; lia.
Qed.

Lemma validate_sizes_ok (s : Z) (k : nat) :
  1 <= s -> s + Z.of_nat k = kMaxSize P + 1 -> validate_sizes P s k = Ok tt.
Proof.
  revert s. induction k as [| k IH]; intros s Hs Hk; [done |]. cbn [validate_sizes].
  destruct (ClassID_spec s ltac:(lia)) as (c & -> & Hc & Hsc & _). step.
  assert (Hb : kLargestClassID P = kNumClasses P - 2) by done.
  rewrite (check_true (c <? _)) by (apply Z.ltb_lt; lia). step.
  rewrite (check_true (s <=? _)) by (apply Z.leb_le; lia). step.
  destruct (Z.ltb_spec 0 c); [| lia].
  rewrite (check_true (_ <? s)) by (apply Z.ltb_lt; lia). step. apply IH; lia.
Qed.

Lemma Validate_ok : Validate P = Ok tt.
Proof.
  unfold Validate. pose proof params as Hp. pose proof kLargestClassID_eq as Hl.
  pose proof (Z.pow_pos_nonneg 2 (m - a) ltac:(lia) ltac:(lia)).
  pose proof (Z.pow_pos_nonneg 2 q ltac:(lia) ltac:(lia)).
  assert (kLargestClassID P = kNumClasses P - 2) by done.
  rewrite validate_classes_ok; [| lia | nia]. step.
  unfold ClassID at 1. destruct (Z.ltb_spec (kMaxSize P) (kMaxSize P + 1)); [| lia]. step.
  pose proof (Z.pow_pos_nonneg 2 z ltac:(lia) ltac:(lia)). pose proof kMaxSize_pow.
  apply validate_sizes_ok; lia.
Qed.
End facts.



(** The self check [Validate] passes for every well-formed choice of the
    template parameters: classes and sizes are mutually inverse step
    functions, strictly increasing, and the loops end. *)
Theorem Validate_passes (P : size_class_params) (Hwf : WfSizeClassMap P) : Validate P = Ok tt.
Proof. by apply Validate_ok. Qed.

Lemma Validate_passes_witness :
  Validate DefaultSizeClassMap = Ok tt /\ Validate VeryDenseSizeClassMap = Ok tt.
Proof. split; apply Validate_passes; by split; cbn. Defined.
