(* ===== verification/IntrusiveList.v ===== *)
(** * Intrusive singly linked lists: sanitizer_list.h

    [IntrusiveList] over any heap of items that carry a [next] field.  The
    interface [IntrusiveHeap] says what the list needs of the heap; clients
    (the quarantine) instantiate it.  [list_rep] relates the three fields and
    the links to the sequence of items, and every operation is proved against
    the sequence. *)

From S2P Require Import Prelude.

(** ** The heap of items

    An address is an integer and 0 the null pointer.  [get_next h x] is the
    [next] field of the item at [x], [None] when no item lives there. *)
Class IntrusiveHeap (H : Type) : Type := {
  get_next : H -> Z -> option Z;
  set_next : H -> Z -> Z -> result H;
}.

(** Writing a [next] field of a live item changes that field only. *)
Class IntrusiveHeapLaws (H : Type) `{IntrusiveHeap H} : Prop := {
  set_next_live (h : H) (x n o : Z) : get_next h x = Some o ->
    exists h', set_next h x n = Ok h' /\ get_next h' x = Some n /\
      forall y, y <> x -> get_next h' y = get_next h y;
}.

Record IntrusiveList : Type := MkList { size_ : Z; first_ : Z; last_ : Z }.

Section operations.
Context {H : Type} `{IntrusiveHeap H}.

Definition clear : IntrusiveList := MkList 0 0 0.
Definition empty (l : IntrusiveList) : bool := size_ l =? 0.
Definition list_size (l : IntrusiveList) : Z := size_ l.

Definition push_back (h : H) (l : IntrusiveList) (x : Z) : result (H * IntrusiveList) :=
  if empty l then
    h ← set_next h x 0;
    Ok (h, MkList 1 x x)
  else
    h ← set_next h x 0;
    h ← set_next h (last_ l) x;
    Ok (h, MkList (size_ l +w 1) (first_ l) x).

Definition push_front (h : H) (l : IntrusiveList) (x : Z) : result (H * IntrusiveList) :=
  if empty l then
    h ← set_next h x 0;
    Ok (h, MkList 1 x x)
  else
    h ← set_next h x (first_ l);
    Ok (h, MkList (size_ l +w 1) x (last_ l)).

Definition pop_front (h : H) (l : IntrusiveList) : result IntrusiveList :=
  _ ← check (negb (empty l));
  n ← get_or_die (get_next h (first_ l));
  Ok (MkList (size_ l -w 1) n (if n =? 0 then 0 else last_ l)).

Definition extract (h : H) (l : IntrusiveList) (prev x : Z) : result (H * IntrusiveList) :=
  _ ← check (negb (empty l));
  _ ← check (negb (prev =? 0));
  _ ← check (negb (x =? 0));
  pn ← get_or_die (get_next h prev);
  _ ← check (pn =? x);
  xn ← get_or_die (get_next h x);
  h ← set_next h prev xn;
  Ok (h, MkList (size_ l -w 1) (first_ l) (if last_ l =? x then prev else last_ l)).

(** [front] and [back] are the fields themselves. *)
Definition front (l : IntrusiveList) : Z := first_ l.
Definition back (l : IntrusiveList) : Z := last_ l.

(** [CHECK_NE(this, l)] holds by construction: the two lists are two values.
    Both functions return the two lists afterwards, the second one cleared
    unless it was empty already. *)
Definition append_front (h : H) (this l : IntrusiveList) : result (H * IntrusiveList * IntrusiveList) :=
  if empty l then Ok (h, this, l)
  else if empty this then Ok (h, l, clear)
  else
    h ← set_next h (last_ l) (first_ this);
    Ok (h, MkList (size_ this +w list_size l) (first_ l) (last_ this), clear).

Definition append_back (h : H) (this l : IntrusiveList) : result (H * IntrusiveList * IntrusiveList) :=
  if empty l then Ok (h, this, l)
  else if empty this then Ok (h, l, clear)
  else
    h ← set_next h (last_ this) (first_ l);
    Ok (h, MkList (size_ this +w list_size l) (first_ this) (last_ l), clear).

(** The loop of [CheckConsistency] counts the items up to [last_]. *)
Fixpoint count_items (h : H) (l : IntrusiveList) (i count : Z) (fuel : nat) : result Z :=
  match fuel with
  | O => Die OutOfFuel
  | S fuel' =>
      if i =? last_ l then Ok (count + 1)
      else n ← get_or_die (get_next h i); count_items h l n (count + 1) fuel'
  end.

Definition CheckConsistency (h : H) (l : IntrusiveList) : result unit :=
  if size_ l =? 0 then
    _ ← check (first_ l =? 0);
    check (last_ l =? 0)
  else
    count ← count_items h l (first_ l) 0 (Z.to_nat (size_ l));
    _ ← check (list_size l =? count);
    n ← get_or_die (get_next h (last_ l));
    check (n =? 0).

(** ** Representation *)

(** The links lead from [p] through [xs] to [q]. *)
Fixpoint chain (h : H) (p : Z) (xs : list Z) (q : Z) : Prop :=
  match xs with
  | [] => p = q
  | x :: xs => p = x /\ x <> 0 /\ exists n, get_next h x = Some n /\ chain h n xs q
  end.

Record list_rep (h : H) (l : IntrusiveList) (xs : list Z) : Prop := {
  rep_size : size_ l = Z.of_nat (length xs);
  rep_small : Z.of_nat (length xs) < word_modulus - 1;
  rep_nodup : NoDup xs;
  rep_chain : chain h (first_ l) xs 0;
  rep_last : last_ l = List.last xs 0;
}.

Context `{!IntrusiveHeapLaws H}.

Lemma chain_frame (h h' : H) (p q : Z) (xs : list Z) :
  (forall y, In y xs -> get_next h' y = get_next h y) -> chain h p xs q -> chain h' p xs q.
Proof.
  revert p. induction xs as [| x xs IH]; intros p Hf; [done |].
  cbn [chain]. intros (-> & Hx & n & Hn & Hc). split; [done |]. split; [done |].
  exists n. split; [rewrite Hf by (by left); done |]. apply IH; [| done].
  intros y Hy. apply Hf. by right.
Qed.

Lemma chain_app (h : H) (p q : Z) (xs ys : list Z) :
  chain h p (xs ++ ys) q <-> exists r, chain h p xs r /\ chain h r ys q.
Proof.
  revert p. induction xs as [| x xs IH]; intros p; cbn [app chain].
  - split; [eauto |]. by intros (r & -> & Hr).
  - split.
    + intros (-> & Hx & n & Hn & Hc). apply IH in Hc as (r & Hc1 & Hc2). eauto 10.
    + intros (r & (-> & Hx & n & Hn & Hc1) & Hc2). split; [done |]. split; [done |].
      exists n. split; [done |]. apply IH. eauto.
Qed.

Lemma chain_live (h : H) (p q x : Z) (xs : list Z) :
  chain h p xs q -> In x xs -> x <> 0 /\ is_Some (get_next h x).
Proof.
  revert p. induction xs as [| y xs IH]; intros p; [done |].
  cbn [chain]. intros (-> & Hy & n & Hn & Hc) [-> | Hx]; [eauto | eauto].
Qed.

(** Relinking the last item of a chain. *)
Lemma chain_relink (h h' : H) (p x r : Z) (xs : list Z) :
  NoDup (xs ++ [x]) -> chain h p (xs ++ [x]) 0 ->
  get_next h' x = Some r -> (forall y, y <> x -> get_next h' y = get_next h y) ->
  chain h' p (xs ++ [x]) r.
Proof.
  intros Hnd Hc Hx Hf. apply chain_app in Hc as (q & Hc1 & Hc2).
  apply chain_app. exists q. split.
  - apply (chain_frame h); [| done]. intros y Hy. apply Hf. intros ->.
    apply NoDup_app in Hnd as (_ & Hnd & _). apply (Hnd x); [by apply list_elem_of_In | by apply list_elem_of_singleton].
  - cbn [chain] in *. destruct Hc2 as (-> & Hx0 & _). eauto.
Qed.

Lemma last_snoc_split (xs : list Z) : xs <> [] -> xs = removelast xs ++ [List.last xs 0].
Proof. apply app_removelast_last. Qed.

Lemma last_in (xs : list Z) : xs <> [] -> In (List.last xs 0) xs.
Proof. intros H'. rewrite (last_snoc_split xs H') at 2. apply in_or_app. right. by left. Qed.

Lemma last_app_ne (xs ys : list Z) : ys <> [] -> List.last (xs ++ ys) 0 = List.last ys 0.
Proof. intros H'. rewrite (last_snoc_split ys H') at 1. by rewrite app_assoc, last_last. Qed.

Lemma empty_rep (h : H) (l : IntrusiveList) (xs : list Z) :
  list_rep h l xs -> empty l = true <-> xs = [].
Proof.
  intros Hr. unfold empty. rewrite (rep_size _ _ _ Hr), Z.eqb_eq.
  destruct xs; cbn [length]; split; intros; (done || lia).
Qed.

Lemma clear_rep (h : H) : list_rep h clear [].
Proof. split; try done. constructor. Qed.

Lemma list_rep_frame (h h' : H) (l : IntrusiveList) (xs : list Z) :
  (forall y, In y xs -> get_next h' y = get_next h y) -> list_rep h l xs -> list_rep h' l xs.
Proof. intros Hf [H1 H2 H3 H4 H5]. split; try done. by apply (chain_frame h). Qed.

Lemma push_back_rep (h : H) (l : IntrusiveList) (xs : list Z) (x o : Z) :
  list_rep h l xs -> x <> 0 -> get_next h x = Some o -> ~ In x xs ->
  Z.of_nat (length xs) + 1 < word_modulus - 1 ->
  exists h' l', push_back h l x = Ok (h', l') /\ list_rep h' l' (xs ++ [x]) /\
    forall y, y <> x -> ~ In y xs -> get_next h' y = get_next h y.
Proof.
  intros Hr Hx Ho Hnin Hlen. unfold push_back.
  destruct (set_next_live h x 0 o Ho) as (h1 & -> & Hx1 & Hf1). step.
  destruct (empty l) eqn:He.
  - apply (empty_rep h l xs Hr) in He as ->. exists h1, (MkList 1 x x). split; [done |].
    split; [| intros; by apply Hf1]. split; try done; [apply NoDup_singleton |].
    cbn. eauto.
  - assert (Hne : xs <> []) by (intros ->; by rewrite (proj2 (empty_rep h l [] Hr) eq_refl) in He).
    destruct Hr as [R1 R2 R3 R4 R5]. pose proof (last_snoc_split xs Hne) as Hxs. rewrite <- R5 in Hxs.
    assert (Hin : In (last_ l) xs) by (rewrite R5; by apply last_in).
    destruct (chain_live h _ _ _ _ R4 Hin) as [Hl0 [n Hn]].
    assert (Hlx : last_ l <> x) by congruence.
    destruct (set_next_live h1 (last_ l) x n) as (h2 & -> & Hl2 & Hf2); [by rewrite Hf1 |]. step.
    exists h2. eexists. split; [done |]. split; [| intros; rewrite Hf2, Hf1; congruence].
    split; cbn [size_ first_ last_].
    + rewrite length_app, R1, wrap_small; [cbn; lia |]. unfold is_uptr. lia.
    + rewrite length_app. cbn. lia.
    + apply NoDup_app. split; [done |]. split; [| apply NoDup_singleton].
      intros y Hy Hyx%list_elem_of_singleton. subst y. by apply Hnin, list_elem_of_In.
    + apply chain_app. exists x. split.
      * rewrite Hxs. apply (chain_relink h1); [by rewrite <- Hxs | | done | done].
        rewrite <- Hxs. apply (chain_frame h); [| done]. intros y Hy. apply Hf1. by intros ->.
      * cbn. split; [done |]. split; [done |]. exists 0. split; [| done]. by rewrite Hf2.
    + by rewrite last_last.
Qed.

Lemma push_front_rep (h : H) (l : IntrusiveList) (xs : list Z) (x o : Z) :
  list_rep h l xs -> x <> 0 -> get_next h x = Some o -> ~ In x xs ->
  Z.of_nat (length xs) + 1 < word_modulus - 1 ->
  exists h' l', push_front h l x = Ok (h', l') /\ list_rep h' l' (x :: xs) /\
    forall y, y <> x -> get_next h' y = get_next h y.
Proof.
  intros Hr Hx Ho Hnin Hlen. unfold push_front. destruct (empty l) eqn:He.
  - destruct (set_next_live h x 0 o Ho) as (h1 & -> & Hx1 & Hf1). step.
    apply (empty_rep h l xs Hr) in He as ->. exists h1, (MkList 1 x x). split; [done |].
    split; [| done]. split; try done; [apply NoDup_singleton |]. cbn. eauto.
  - destruct (set_next_live h x (first_ l) o Ho) as (h1 & -> & Hx1 & Hf1). step.
    assert (Hne : xs <> []) by (intros ->; by rewrite (proj2 (empty_rep h l [] Hr) eq_refl) in He).
    destruct Hr as [R1 R2 R3 R4 R5]. exists h1. eexists. split; [done |]. split; [| done].
    split; cbn [size_ first_ last_].
    + rewrite R1, wrap_small; [cbn; lia |]. unfold is_uptr. lia.
    + cbn [length]. lia.
    + constructor; [| done]. intros Hin. by apply Hnin, list_elem_of_In.
    + cbn. split; [done |]. split; [done |]. exists (first_ l). split; [done |].
      apply (chain_frame h); [| done]. intros y Hy. apply Hf1. by intros ->.
    + rewrite R5. by destruct xs.
Qed.

Lemma pop_front_rep (h : H) (l : IntrusiveList) (x : Z) (xs : list Z) :
  list_rep h l (x :: xs) ->
  exists l', pop_front h l = Ok l' /\ front l = x /\ list_rep h l' xs.
Proof.
  intros [R1 R2 R3 R4 R5]. unfold pop_front, empty. cbn [length chain] in *.
  destruct R4 as (Hfx & Hx & n & Hn & Hc).
  rewrite check_true by (apply negb_true_iff, Z.eqb_neq; lia). step. rewrite Hfx, Hn. step.
  eexists. split; [done |]. split; [done |].
  split; cbn [size_ first_ last_].
  - rewrite R1, wrap_small; [lia |]. unfold is_uptr. lia.
  - lia.
  - by inversion R3.
  - done.
  - destruct xs as [| y ys]; cbn [chain] in Hc.
    + subst n. done.
    + destruct Hc as (-> & Hy & _). destruct (Z.eqb_spec y 0); [done |]. by rewrite R5.
Qed.

Lemma pop_front_empty (h : H) (l : IntrusiveList) :
  list_rep h l [] -> pop_front h l = Die CheckFailed.
Proof. intros Hr. unfold pop_front. by rewrite (proj2 (empty_rep h l [] Hr) eq_refl). Qed.

Lemma extract_rep (h : H) (l : IntrusiveList) (xs ys : list Z) (prev x : Z) :
  list_rep h l (xs ++ prev :: x :: ys) ->
  exists h' l', extract h l prev x = Ok (h', l') /\ list_rep h' l' (xs ++ prev :: ys) /\
    (forall y, y <> prev -> get_next h' y = get_next h y).
Proof.
  intros [R1 R2 R3 R4 R5]. unfold extract, empty.
  apply chain_app in R4 as (r & Hc1 & Hc2). cbn [chain] in Hc2.
  destruct Hc2 as (-> & Hp & ? & Hpn & -> & Hx & n & Hxn & Hc2).
  rewrite length_app in *. cbn [length] in *.
  rewrite (check_true (negb (size_ l =? 0))) by (apply negb_true_iff, Z.eqb_neq; lia). step.
  rewrite (check_true (negb (prev =? 0))) by (by apply negb_true_iff, Z.eqb_neq). step.
  rewrite (check_true (negb (x =? 0))) by (by apply negb_true_iff, Z.eqb_neq). step.
  rewrite Hpn. step. rewrite Z.eqb_refl. step. rewrite Hxn. step.
  destruct (set_next_live h prev n x Hpn) as (h1 & -> & Hx1 & Hf1). step.
  apply NoDup_app in R3 as (N1 & N2 & N3). apply NoDup_cons in N3 as [N3 N4].
  apply NoDup_cons in N4 as [N4 N5].
  exists h1. eexists. split; [done |]. split; [| done]. split; cbn [size_ first_ last_].
  - rewrite length_app, R1. cbn [length]. rewrite wrap_small; [lia |]. unfold is_uptr. lia.
  - rewrite length_app. cbn [length]. lia.
  - apply NoDup_app. split; [done |]. split.
    + intros y Hy Hyy. apply (N2 y Hy). rewrite !elem_of_cons in *. tauto.
    + apply NoDup_cons. split; [set_solver | done].
  - apply chain_app. exists prev. split.
    + apply (chain_frame h); [| done]. intros y Hy. apply Hf1. intros ->.
      apply (N2 prev); [by apply list_elem_of_In | set_solver].
    + cbn. split; [done |]. split; [done |]. exists n. split; [done |].
      apply (chain_frame h); [| done]. intros y Hy. apply Hf1. intros ->. apply N3.
      apply list_elem_of_In in Hy. set_solver.
  - rewrite last_app_ne in * by done. destruct ys as [| y ys].
    + cbn in R5. rewrite R5, Z.eqb_refl. done.
    + change (List.last (prev :: x :: y :: ys) 0) with (List.last (y :: ys) 0) in R5.
      destruct (Z.eqb_spec (last_ l) x) as [He |]; [| done].
      exfalso. apply N4, list_elem_of_In. rewrite <- He, R5. by apply last_in.
Qed.

(** Appending: the items of the second list go to the front or to the back. *)
Lemma join_rep (h : H) (l1 l2 : IntrusiveList) (xs ys : list Z) :
  list_rep h l1 xs -> list_rep h l2 ys -> xs <> [] -> ys <> [] -> NoDup (xs ++ ys) ->
  Z.of_nat (length xs + length ys) < word_modulus - 1 ->
  exists h', set_next h (last_ l1) (first_ l2) = Ok h' /\
    list_rep h' (MkList (size_ l1 +w size_ l2) (first_ l1) (last_ l2)) (xs ++ ys) /\
    forall y, ~ In y xs -> get_next h' y = get_next h y.
Proof.
  intros [R1 R2 R3 R4 R5] [S1 S2 S3 S4 S5] Hx Hy Hnd Hlen.
  pose proof (last_snoc_split xs Hx) as Hxs. rewrite <- R5 in Hxs.
  assert (Hin : In (last_ l1) xs) by (rewrite R5; by apply last_in).
  destruct (chain_live h _ _ _ _ R4 Hin) as [_ [o Ho]].
  destruct (set_next_live h (last_ l1) (first_ l2) o Ho) as (h1 & -> & Hl & Hf).
  exists h1. split; [done |]. split; [| intros; apply Hf; congruence].
  split; cbn [size_ first_ last_].
  - rewrite length_app, wrap_small; [lia |]. unfold is_uptr. lia.
  - rewrite length_app. lia.
  - done.
  - apply chain_app. exists (first_ l2). split.
    + rewrite Hxs. apply (chain_relink h); rewrite <- ?Hxs; done.
    + apply (chain_frame h); [| done]. intros y Hyy. apply Hf. intros ->.
      apply NoDup_app in Hnd as (_ & Hnd & _). apply (Hnd (last_ l1)); by apply list_elem_of_In.
  - by rewrite S5, last_app_ne.
Qed.

Lemma append_back_rep (h : H) (l1 l2 : IntrusiveList) (xs ys : list Z) :
  list_rep h l1 xs -> list_rep h l2 ys -> NoDup (xs ++ ys) ->
  Z.of_nat (length xs + length ys) < word_modulus - 1 ->
  exists h' l1' l2', append_back h l1 l2 = Ok (h', l1', l2') /\ list_rep h' l1' (xs ++ ys) /\
    list_rep h' l2' [] /\ (forall y, ~ In y xs -> get_next h' y = get_next h y).
Proof.
  intros Hr1 Hr2 Hnd Hlen. unfold append_back, list_size.
  destruct (empty l2) eqn:He2.
  { apply (empty_rep h l2 ys Hr2) in He2 as ->. rewrite app_nil_r. exists h, l1, l2. done. }
  destruct (empty l1) eqn:He1.
  { apply (empty_rep h l1 xs Hr1) in He1 as ->. exists h, l2, clear. split; [done |].
    split; [done |]. split; [apply clear_rep | done]. }
  destruct (join_rep h l1 l2 xs ys) as (h' & -> & Hr & Hf); try done.
  { intros ->. by rewrite (proj2 (empty_rep h l1 [] Hr1) eq_refl) in He1. }
  { intros ->. by rewrite (proj2 (empty_rep h l2 [] Hr2) eq_refl) in He2. }
  step. eexists h', _, clear. split; [done |]. split; [done |]. split; [apply clear_rep | done].
Qed.

Lemma append_front_rep (h : H) (l1 l2 : IntrusiveList) (xs ys : list Z) :
  list_rep h l1 xs -> list_rep h l2 ys -> NoDup (ys ++ xs) ->
  Z.of_nat (length ys + length xs) < word_modulus - 1 ->
  exists h' l1' l2', append_front h l1 l2 = Ok (h', l1', l2') /\ list_rep h' l1' (ys ++ xs) /\
    list_rep h' l2' [] /\ (forall y, ~ In y ys -> get_next h' y = get_next h y).
Proof.
  intros Hr1 Hr2 Hnd Hlen. unfold append_front, list_size.
  destruct (empty l2) eqn:He2.
  { apply (empty_rep h l2 ys Hr2) in He2 as ->. exists h, l1, l2. done. }
  destruct (empty l1) eqn:He1.
  { apply (empty_rep h l1 xs Hr1) in He1 as ->. rewrite app_nil_r. exists h, l2, clear. split; [done |].
    split; [done |]. split; [apply clear_rep | done]. }
  destruct (join_rep h l2 l1 ys xs) as (h' & -> & Hr & Hf); try done.
  { intros ->. by rewrite (proj2 (empty_rep h l2 [] Hr2) eq_refl) in He2. }
  { intros ->. by rewrite (proj2 (empty_rep h l1 [] Hr1) eq_refl) in He1. }
  step. eexists h', _, clear. split; [done |]. rewrite Z.add_comm. split; [done |].
  split; [apply clear_rep | done].
Qed.

Lemma count_items_spec (h : H) (l : IntrusiveList) (p count : Z) (xs : list Z) (fuel : nat) :
  NoDup xs -> xs <> [] -> chain h p xs 0 -> last_ l = List.last xs 0 -> (length xs <= fuel)%nat ->
  count_items h l p count fuel = Ok (count + Z.of_nat (length xs)).
Proof.
  revert p count fuel. induction xs as [| x xs IH]; intros p count fuel Hnd Hne Hc Hl Hfuel; [done |].
  destruct fuel as [| fuel]; [cbn in Hfuel; lia |]. cbn [chain] in Hc.
  destruct Hc as (-> & Hx & n & Hn & Hc). cbn [count_items].
  destruct xs as [| y ys].
  - cbn in Hl. rewrite Hl, Z.eqb_refl. cbn. f_equal.
  - cbn [length] in *. destruct (Z.eqb_spec x (last_ l)) as [He |].
    { exfalso. apply NoDup_cons in Hnd as [Hnd _]. apply Hnd. apply list_elem_of_In.
      rewrite He, Hl. change (List.last (x :: y :: ys) 0) with (List.last (y :: ys) 0).
      by apply last_in. }
    rewrite Hn. step. rewrite IH; [f_equal; cbn [length]; lia | | done | done | done | cbn [length] in *; lia].
    by apply NoDup_cons in Hnd as [_ Hnd].
Qed.

Lemma CheckConsistency_rep (h : H) (l : IntrusiveList) (xs : list Z) :
  list_rep h l xs -> CheckConsistency h l = Ok tt.
Proof.
  intros Hr. pose proof (empty_rep h l xs Hr) as He. unfold empty in He. unfold CheckConsistency.
  destruct Hr as [R1 R2 R3 R4 R5]. destruct (size_ l =? 0) eqn:Hs.
  - destruct He as [He _]. rewrite He in * by done. cbn in R4, R5. rewrite R4, R5. done.
  - assert (Hne : xs <> []) by (intros ->; by destruct He as [_ He]; specialize (He eq_refl)).
    rewrite (count_items_spec h l (first_ l) 0 xs); try done; [| lia]. step.
    rewrite Z.add_0_l. unfold list_size. rewrite R1, Z.eqb_refl. step.
    rewrite (last_snoc_split xs Hne), <- R5 in R4. apply chain_app in R4 as (r & _ & Hc).
    cbn in Hc. destruct Hc as (-> & _ & n & Hn & ->). by rewrite Hn.
Qed.
End operations.

(** ** Refinement: the list implements a sequence

    A client holds two lists over one heap of items and runs any sequence of
    operations on them.  [run_abs] runs it on two sequences and stops when the
    client breaks a precondition (a null or unknown item, an item that is
    already in a list, a pop from an empty list); whenever it does not stop,
    the lists do the same. *)

Inductive list_cmd : Type :=
| PushBack (x : Z)
| PushFront (x : Z)
| PopFront
| Extract (prev x : Z)
| AppendBack
| AppendFront
| SwapLists.

(** The heap of the refinement: the [next] fields of the live items. *)
Definition link_heap : Type := gmap Z Z.

#[export] Instance link_heap_links : IntrusiveHeap link_heap := {
  get_next h x := h !! x;
  set_next h x n := match h !! x with Some _ => Ok (<[x := n]> h) | None => Die BadAccess end;
}.

#[export] Instance link_heap_laws : IntrusiveHeapLaws link_heap.
Proof.
  split. cbn. intros h x n o Ho. rewrite Ho. eexists; split; [done |].
  split; [apply lookup_insert_eq |]. intros y Hy. by apply lookup_insert_ne.
Qed.

Definition list_state : Type := link_heap * IntrusiveList * IntrusiveList.

Definition exec (st : list_state) (c : list_cmd) : result list_state :=
  let '(h, a, b) := st in
  match c with
  | PushBack x => '(h, a) ← push_back h a x; Ok (h, a, b)
  | PushFront x => '(h, a) ← push_front h a x; Ok (h, a, b)
  | PopFront => a ← pop_front h a; Ok (h, a, b)
  | Extract prev x => '(h, a) ← extract h a prev x; Ok (h, a, b)
  | AppendBack => append_back h a b
  | AppendFront => append_front h a b
  | SwapLists => Ok (h, b, a)
  end.

Fixpoint remove_after (prev x : Z) (xs : list Z) : option (list Z) :=
  match xs with
  | p :: (y :: ys) as tl =>
      if (p =? prev) && (y =? x) then Some (p :: ys)
      else rest ← remove_after prev x tl; Some (p :: rest)
  | _ => None
  end.

(** [items] are the live items. *)
Definition fresh (items : gset Z) (xs ys : list Z) (x : Z) : bool :=
  bool_decide (x <> 0 /\ x ∈ items /\ x ∉ xs ++ ys).

Definition exec_abs (items : gset Z) (st : list Z * list Z) (c : list_cmd) : option (list Z * list Z) :=
  let '(xs, ys) := st in
  match c with
  | PushBack x => if fresh items xs ys x then Some (xs ++ [x], ys) else None
  | PushFront x => if fresh items xs ys x then Some (x :: xs, ys) else None
  | PopFront => match xs with [] => None | _ :: xs => Some (xs, ys) end
  | Extract prev x => xs ← remove_after prev x xs; Some (xs, ys)
  | AppendBack => Some (xs ++ ys, [])
  | AppendFront => Some (ys ++ xs, [])
  | SwapLists => Some (ys, xs)
  end.

Fixpoint run (st : list_state) (cs : list list_cmd) : result list_state :=
  match cs with
  | [] => Ok st
  | c :: cs => st ← exec st c; run st cs
  end.

Fixpoint run_abs (items : gset Z) (st : list Z * list Z) (cs : list list_cmd) : option (list Z * list Z) :=
  match cs with
  | [] => Some st
  | c :: cs => st ← exec_abs items st c; run_abs items st cs
  end.

Record simulates (items : gset Z) (st : list_state) (ab : list Z * list Z) : Prop := {
  sim_live : forall x, x ∈ items -> is_Some (get_next st.1.1 x);
  sim_first : list_rep st.1.1 st.1.2 ab.1;
  sim_second : list_rep st.1.1 st.2 ab.2;
  sim_items : forall x, x ∈ ab.1 ++ ab.2 -> x ∈ items;
  sim_disjoint : NoDup (ab.1 ++ ab.2);
}.

Lemma remove_after_split (prev x : Z) (xs xs' : list Z) :
  remove_after prev x xs = Some xs' ->
  exists l r, xs = l ++ prev :: x :: r /\ xs' = l ++ prev :: r.
Proof.
  revert xs'. induction xs as [| p tl IH]; intros xs'; [done |].
  destruct tl as [| y ys]; [done |].
  change (remove_after prev x (p :: y :: ys)) with
    (if (p =? prev) && (y =? x) then Some (p :: ys)
     else remove_after prev x (y :: ys) ≫= fun rest => Some (p :: rest)).
  destruct ((p =? prev) && (y =? x)) eqn:He.
  - intros [= <-]. zb. subst. exists [], ys. split; reflexivity.
  - destruct (remove_after prev x (y :: ys)) as [rest |]; simpl; [| done].
    intros [= <-].
    destruct (IH rest eq_refl) as (l & r & Hl & ->). rewrite Hl. exists (p :: l), r. split; reflexivity.
Qed.

Lemma bounded_by_items (items : gset Z) (xs : list Z) :
  NoDup xs -> (forall x, x ∈ xs -> x ∈ items) -> (length xs <= size items)%nat.
Proof.
  intros Hnd Hin. rewrite <- (size_list_to_set (C := gset Z)) by done.
  apply subseteq_size. intros x Hx. apply Hin. by apply elem_of_list_to_set in Hx.
Qed.

(** The links of the other list are untouched. *)
Lemma other_list (h h' : link_heap) (l : IntrusiveList) (ys : list Z) (changed : Z -> Prop) :
  (forall y, ~ changed y -> get_next h' y = get_next h y) ->
  (forall y, changed y -> y ∉ ys) -> list_rep h l ys -> list_rep h' l ys.
Proof.
  intros Hf Hc. apply list_rep_frame. intros y Hy. apply Hf. intros Hch.
  apply (Hc y Hch). by apply list_elem_of_In.
Qed.

Lemma live_frame (items : gset Z) (h h' : link_heap) (changed : list Z) :
  (forall x, x ∈ items -> is_Some (get_next h x)) ->
  (forall y, y ∉ changed -> get_next h' y = get_next h y) ->
  (forall y, y ∈ changed -> is_Some (get_next h' y)) ->
  forall x, x ∈ items -> is_Some (get_next h' x).
Proof.
  intros Hl Hf Hc x Hx. destruct (decide (x ∈ changed)); [by apply Hc |]. rewrite Hf by done. by apply Hl.
Qed.

(** Every operation keeps every item live. *)
Lemma set_next_live_all (h h' : link_heap) (x n : Z) :
  set_next h x n = Ok h' -> forall y, is_Some (get_next h y) -> is_Some (get_next h' y).
Proof.
  cbn [set_next get_next link_heap_links]. destruct (h !! x); [| done]. intros [= <-] y Hy.
  destruct (decide (y = x)) as [-> |].
  - exists n. apply lookup_insert_eq.
  - destruct Hy as [o Ho]. exists o. rewrite <- Ho. by apply lookup_insert_ne.
Qed.

Lemma exec_live (st st' : list_state) (c : list_cmd) :
  exec st c = Ok st' -> forall y, is_Some (get_next st.1.1 y) -> is_Some (get_next st'.1.1 y).
Proof.
  destruct st as [[h a] b]. intros He y Hy. cbn [fst] in Hy.
  destruct c; cbn [exec] in He;
    unfold push_back, push_front, pop_front, extract, append_back, append_front in He;
    repeat match type of He with context [if ?t then _ else _] => destruct t end;
    inv_ok; subst; cbn [fst];
    repeat match goal with
    | r : _ * _ |- _ => destruct r
    | H1 : (let '(_, _) := _ in _) = Ok _ |- _ => cbn in H1
    end; inv_ok; subst; cbn [fst]; eauto using set_next_live_all.
Qed.

Lemma exec_simulates (items : gset Z) (st : list_state) (ab ab' : list Z * list Z) (c : list_cmd) :
  Z.of_nat (size items) < word_modulus - 1 ->
  simulates items st ab -> exec_abs items ab c = Some ab' ->
  exists st', exec st c = Ok st' /\ simulates items st' ab'.
Proof.
  intros Hsz [Hlive R1 R2 Hin Hnd] Habs. destruct st as [[h a] b], ab as [xs ys]. cbn [fst snd] in *.
  assert (Hbound : forall zs, NoDup zs -> (forall x, x ∈ zs -> x ∈ items) ->
            Z.of_nat (length zs) < word_modulus - 1).
  { intros zs H1 H2. pose proof (bounded_by_items items zs H1 H2). lia. }
  pose proof Hnd as (N1 & N2 & N3)%NoDup_app.
  assert (Hstep : forall st' zs, exec (h, a, b) c = Ok st' -> list_rep st'.1.1 st'.1.2 ab'.1 ->
    list_rep st'.1.1 st'.2 ab'.2 -> ab'.1 ++ ab'.2 ≡ₚ zs -> (forall x, x ∈ zs -> x ∈ items) -> NoDup zs ->
    exists st', exec (h, a, b) c = Ok st' /\ simulates items st' ab').
  { intros st' zs He H1 H2 Hp H3 H4. exists st'. split; [done |]. split; try done.
    - intros x Hx. apply (exec_live _ _ _ He). by apply Hlive.
    - intros x. rewrite Hp. apply H3.
    - by rewrite Hp. }
  destruct c as [x | x | | prev x | | |]; cbn [exec_abs] in Habs.
  - unfold fresh in Habs. case_bool_decide as Hfr; [| done]. destruct Hfr as (Hx0 & Hxi & Hxn).
    injection Habs as <-. destruct (Hlive x Hxi) as [o Ho].
    destruct (push_back_rep h a xs x o R1 Hx0 Ho) as (h' & a' & He & Hr & Hf).
    { intros Hi. apply Hxn, elem_of_app. left. by apply list_elem_of_In. }
    { assert (Hb : Z.of_nat (length (x :: xs)) < word_modulus - 1)
        by (apply Hbound; [constructor; set_solver | set_solver]).
      cbn [length] in Hb. lia. }
    apply (Hstep (h', a', b) (x :: xs ++ ys)); cbn [exec fst snd]; [by rewrite He | done | | | set_solver |].
    + apply (other_list h _ _ _ (fun y => y = x \/ In y xs)); [naive_solver | | done].
      intros y [-> | Hy%list_elem_of_In]; [set_solver | by apply N2].
    + rewrite <- app_assoc. symmetry. apply Permutation_middle.
    + by constructor.
  - unfold fresh in Habs. case_bool_decide as Hfr; [| done]. destruct Hfr as (Hx0 & Hxi & Hxn).
    injection Habs as <-. destruct (Hlive x Hxi) as [o Ho].
    destruct (push_front_rep h a xs x o R1 Hx0 Ho) as (h' & a' & He & Hr & Hf).
    { intros Hi. apply Hxn, elem_of_app. left. by apply list_elem_of_In. }
    { assert (Hb : Z.of_nat (length (x :: xs)) < word_modulus - 1)
        by (apply Hbound; [constructor; set_solver | set_solver]).
      cbn [length] in Hb. lia. }
    apply (Hstep (h', a', b) (x :: xs ++ ys)); cbn [exec fst snd];
      [by rewrite He | done | | done | set_solver | by constructor].
    apply (other_list h _ _ _ (fun y => y = x)); [naive_solver | set_solver | done].
  - destruct xs as [| x xs]; [done |]. injection Habs as <-.
    destruct (pop_front_rep h a x xs R1) as (a' & He & _ & Hr).
    apply (Hstep (h, a', b) (xs ++ ys)); cbn [exec fst snd];
      [by rewrite He | done | done | done | set_solver | by apply NoDup_cons in Hnd as [_ Hnd]].
  - destruct (remove_after prev x xs) as [xs' |] eqn:Hrem; simpl in Habs; [| done]. injection Habs as <-.
    apply remove_after_split in Hrem as (l & r & -> & ->).
    destruct (extract_rep h a l r prev x R1) as (h' & a' & He & Hr & Hf).
    assert (Hp : (l ++ prev :: x :: r) ++ ys ≡ₚ x :: (l ++ prev :: r) ++ ys).
    { change (prev :: x :: r) with ([prev] ++ x :: r). change (prev :: r) with ([prev] ++ r).
      rewrite <- !app_assoc. rewrite !(app_assoc l). symmetry. apply Permutation_middle. }
    apply (Hstep (h', a', b) ((l ++ prev :: r) ++ ys)); cbn [exec fst snd];
      [by rewrite He | done | | done | |].
    + apply (other_list h _ _ _ (fun y => y = prev)); [naive_solver | set_solver | done].
    + intros y Hy. apply Hin. rewrite Hp. set_solver.
    + rewrite Hp in Hnd. by apply NoDup_cons in Hnd as [_ Hnd].
  - injection Habs as <-.
    destruct (append_back_rep h a b xs ys R1 R2 Hnd) as (h' & a' & b' & He & Hr & Hr' & Hf).
    { rewrite <- length_app. by apply Hbound. }
    apply (Hstep (h', a', b') (xs ++ ys)); cbn [exec fst snd]; try done. by rewrite app_nil_r.
  - injection Habs as <-.
    destruct (append_front_rep h a b xs ys R1 R2) as (h' & a' & b' & He & Hr & Hr' & Hf).
    { by rewrite Permutation_app_comm. }
    { rewrite <- length_app, Permutation_app_comm. by apply Hbound. }
    apply (Hstep (h', a', b') (xs ++ ys)); cbn [exec fst snd]; try done.
    by rewrite app_nil_r, Permutation_app_comm.
  - injection Habs as <-. apply (Hstep (h, b, a) (xs ++ ys)); try done. cbn. by rewrite Permutation_app_comm.
Qed.

Lemma run_simulates (items : gset Z) (cs : list list_cmd) (st : list_state) (ab ab' : list Z * list Z) :
  Z.of_nat (size items) < word_modulus - 1 ->
  simulates items st ab -> run_abs items ab cs = Some ab' ->
  exists st', run st cs = Ok st' /\ simulates items st' ab'.
Proof.
  intros Hsz. revert st ab. induction cs as [| c cs IH]; intros st ab Hsim Hrun.
  - injection Hrun as <-. by exists st.
  - cbn [run run_abs] in *. destruct (exec_abs items ab c) as [ab1 |] eqn:Habs; simpl in *; [| done].
    destruct (exec_simulates items st ab ab1 c Hsz Hsim Habs) as (st1 & -> & Hsim1).
    by apply (IH st1 ab1).
Qed.


