(* ===== verification/Quarantine.v ===== *)
(** * The quarantine: sanitizer_quarantine.h

    Freed memory waits in batches: a cache per thread and one global cache,
    each an [IntrusiveList] of [QuarantineBatch]es over a shared heap of
    batches.  The callbacks of the allocator are events of a log, in the order
    in which the code makes them.  Prefetches and statistics are not
    modelled. *)

From S2P Require Import Prelude IntrusiveList.

(** [kSize] entries; [sizeof(QuarantineBatch)] is 8192. *)
Definition kSize : Z := 1021.
Definition sizeof_batch : Z := 8 * (3 + kSize).

(** [batch] is the array: its first [count] cells are in use. *)
Record QuarantineBatch : Type := MkBatch {
  next : Z; size : Z; count : Z; batch : Z -> Z
}.

Abbreviation heap := (gmap Z QuarantineBatch).

#[export] Instance heap_links : IntrusiveHeap heap := {
  get_next h x := b ← h !! x; Some (next b);
  set_next h x n := match h !! x with
                    | Some b => Ok (<[x := MkBatch n (size b) (count b) (batch b)]> h)
                    | None => Die BadAccess
                    end;
}.

Definition init (b : QuarantineBatch) (ptr sz : Z) : QuarantineBatch :=
  MkBatch (next b) (sz +w sizeof_batch) 1 (fun i => if i =? 0 then ptr else batch b i).

Definition quarantined_size (b : QuarantineBatch) : Z := size b -w sizeof_batch.

Definition batch_push_back (b : QuarantineBatch) (ptr sz : Z) : result QuarantineBatch :=
  _ ← check (count b <? kSize);
  Ok (MkBatch (next b) (size b +w sz) (count b + 1) (fun i => if i =? count b then ptr else batch b i)).

Definition can_merge (b from : QuarantineBatch) : bool := count b + count from <=? kSize.

(** The two batches after the merge. *)
Definition merge (b from : QuarantineBatch) : result (QuarantineBatch * QuarantineBatch) :=
  _ ← check (count b + count from <=? kSize);
  _ ← check (sizeof_batch <=? size b);
  Ok (MkBatch (next b) (size b +w quarantined_size from) (count b + count from)
        (fun i => if (count b <=? i) && (i <? count b + count from) then batch from (i - count b)
                  else batch b i),
      MkBatch (next from) sizeof_batch 0 (batch from)).

(** What the callback is asked to do. *)
Inductive event : Type :=
| PreQuarantine (ptr : Z)
| RecyclePassThrough (ptr : Z)
| EvRecycle (ptr : Z)
| EvAllocate (b : Z)
| EvDeallocate (b : Z).

Record qstate : Type := QState { batches : heap; log : list event }.

Definition emit (s : qstate) (e : event) : qstate := QState (batches s) (log s ++ [e]).
Definition with_heap (s : qstate) (h : heap) : qstate := QState h (log s).

Record QuarantineCache : Type := MkCache { list_ : IntrusiveList; csize : Z }.

Definition Size (c : QuarantineCache) : Z := csize c.
Definition OverheadSize (c : QuarantineCache) : Z := list_size (list_ c) *w sizeof_batch.
Definition empty_cache : QuarantineCache := MkCache clear 0.

Section quarantine.
(** [cb.Allocate]: the address of the new batch, or the way the process ends
    when there is no memory, and the bytes that happen to be there. *)
Context (alloc : heap -> result Z) (garbage : QuarantineBatch).

Definition SizeAdd (c : QuarantineCache) (n : Z) : QuarantineCache :=
  MkCache (list_ c) (Size c +w n).
Definition SizeSub (c : QuarantineCache) (n : Z) : QuarantineCache :=
  MkCache (list_ c) (Size c -w n).

Definition EnqueueBatch (h : heap) (c : QuarantineCache) (b : Z) : result (heap * QuarantineCache) :=
  '(h, l) ← push_back h (list_ c) b;
  B ← get_or_die (h !! b);
  Ok (h, SizeAdd (MkCache l (csize c)) (size B)).

(** 0 is [nullptr]. *)
Definition DequeueBatch (h : heap) (c : QuarantineCache) : result (Z * QuarantineCache) :=
  if empty (list_ c) then Ok (0, c)
  else
    let b := front (list_ c) in
    l ← pop_front h (list_ c);
    B ← get_or_die (h !! b);
    Ok (b, SizeSub (MkCache l (csize c)) (size B)).

Definition Enqueue (s : qstate) (c : QuarantineCache) (ptr sz : Z) : result (qstate * QuarantineCache) :=
  full ← (if empty (list_ c) then Ok true
          else B ← get_or_die (batches s !! back (list_ c)); Ok (count B =? kSize));
  if (full : bool) then
    b ← alloc (batches s);
    let s := emit s (EvAllocate b) in
    _ ← check (negb (b =? 0));
    '(h, c) ← EnqueueBatch (<[b := init garbage ptr sz]> (batches s)) c b;
    Ok (with_heap s h, c)
  else
    B ← get_or_die (batches s !! back (list_ c));
    B' ← batch_push_back B ptr sz;
    Ok (with_heap s (<[back (list_ c) := B']> (batches s)), SizeAdd c sz).

Definition Transfer (h : heap) (this from : QuarantineCache)
  : result (heap * QuarantineCache * QuarantineCache) :=
  '(h, l, lf) ← append_back h (list_ this) (list_ from);
  Ok (h, SizeAdd (MkCache l (csize this)) (Size from), MkCache lf 0).

(** The loop of [MergeBatches]: [current], and the extracted size so far. *)
Fixpoint merge_loop (h : heap) (c to_deallocate : QuarantineCache) (current extracted_size : Z)
  (fuel : nat) : result (heap * QuarantineCache * QuarantineCache * Z) :=
  if current =? 0 then Ok (h, c, to_deallocate, extracted_size)
  else
    B ← get_or_die (h !! current);
    if next B =? 0 then Ok (h, c, to_deallocate, extracted_size)
    else
      match fuel with
      | O => Die OutOfFuel
      | S fuel' =>
          let extracted := next B in
          E ← get_or_die (h !! extracted);
          if can_merge B E then
            '(B', E') ← merge B E;
            let h := <[extracted := E']> (<[current := B']> h) in
            _ ← check (count E' =? 0);
            _ ← check (size E' =? sizeof_batch);
            '(h, l) ← extract h (list_ c) current extracted;
            let c := MkCache l (csize c) in
            let extracted_size := extracted_size +w size E' in
            '(h, to_deallocate) ← EnqueueBatch h to_deallocate extracted;
            merge_loop h c to_deallocate current extracted_size fuel'
          else merge_loop h c to_deallocate (next B) extracted_size fuel'
      end.

Definition MergeBatches (h : heap) (c to_deallocate : QuarantineCache)
  : result (heap * QuarantineCache * QuarantineCache) :=
  '(h, c, to_deallocate, extracted_size) ←
    merge_loop h c to_deallocate (front (list_ c)) 0 (Z.to_nat (list_size (list_ c)));
  Ok (h, SizeSub c extracted_size, to_deallocate).

Record Quarantine : Type := MkQuarantine {
  max_size : Z; min_size : Z; max_cache_size : Z; cache_ : QuarantineCache
}.

Definition with_cache (q : Quarantine) (c : QuarantineCache) : Quarantine :=
  MkQuarantine (max_size q) (min_size q) (max_cache_size q) c.

Definition Init (c : QuarantineCache) (sz cache_size : Z) : result Quarantine :=
  _ ← check (((sz =? 0) && (cache_size =? 0)) || negb (cache_size =? 0));
  Ok (MkQuarantine sz (sz / 10 * 9) cache_size c).

(** [for (i = 0; i < count; i++) cb.Recycle(b->batch[i]);] *)
Fixpoint recycle_items (s : qstate) (B : QuarantineBatch) (i : Z) (k : nat) : qstate :=
  match k with
  | O => s
  | S k' => recycle_items (emit s (EvRecycle (batch B i))) B (i + 1) k'
  end.

Fixpoint DoRecycle (s : qstate) (c : QuarantineCache) (fuel : nat) : result qstate :=
  match fuel with
  | O => Die OutOfFuel
  | S fuel' =>
      '(b, c) ← DequeueBatch (batches s) c;
      if b =? 0 then Ok s
      else
        B ← get_or_die (batches s !! b);
        let s := recycle_items s B 0 (Z.to_nat (count B)) in
        let s := emit (with_heap s (delete b (batches s))) (EvDeallocate b) in
        DoRecycle s c fuel'
  end.

(** [while (cache_.Size() > min_size) tmp.EnqueueBatch(cache_.DequeueBatch());] *)
Fixpoint extract_loop (h : heap) (c tmp : QuarantineCache) (min_size : Z) (fuel : nat)
  : result (heap * QuarantineCache * QuarantineCache) :=
  if Size c <=? min_size then Ok (h, c, tmp)
  else match fuel with
  | O => Die OutOfFuel
  | S fuel' =>
      '(b, c) ← DequeueBatch h c;
      '(h, tmp) ← EnqueueBatch h tmp b;
      extract_loop h c tmp min_size fuel'
  end.

Definition kOverheadThresholdPercents : Z := 100.

Definition Recycle (s : qstate) (q : Quarantine) (min_size : Z) : result (qstate * Quarantine) :=
  let tmp := empty_cache in
  let cache_size := Size (cache_ q) in
  let overhead_size := OverheadSize (cache_ q) in
  _ ← check (overhead_size <=? cache_size);
  '(h, c, tmp) ←
    (if (overhead_size <? cache_size) &&
        (cache_size *w kOverheadThresholdPercents <? overhead_size *w (100 + kOverheadThresholdPercents))
     then MergeBatches (batches s) (cache_ q) tmp
     else Ok (batches s, cache_ q, tmp));
  '(h, c, tmp) ← extract_loop h c tmp min_size (Z.to_nat (list_size (list_ c)));
  s ← DoRecycle (with_heap s h) tmp (S (Z.to_nat (list_size (list_ tmp))));
  Ok (s, with_cache q c).

(** [recycle_free]: whether [recycle_mutex_.TryLock()] succeeds. *)
Definition Drain (recycle_free : bool) (s : qstate) (q : Quarantine) (c : QuarantineCache)
  : result (qstate * Quarantine * QuarantineCache) :=
  '(h, g, c) ← Transfer (batches s) (cache_ q) c;
  let s := with_heap s h in
  let q := with_cache q g in
  if (max_size q <? Size (cache_ q)) && recycle_free then
    '(s, q) ← Recycle s q (min_size q); Ok (s, q, c)
  else Ok (s, q, c).

Definition DrainAndRecycle (s : qstate) (q : Quarantine) (c : QuarantineCache)
  : result (qstate * Quarantine * QuarantineCache) :=
  '(h, g, c) ← Transfer (batches s) (cache_ q) c;
  '(s, q) ← Recycle (with_heap s h) (with_cache q g) 0;
  Ok (s, q, c).

Definition Put (recycle_free : bool) (s : qstate) (q : Quarantine) (c : QuarantineCache) (ptr sz : Z)
  : result (qstate * Quarantine * QuarantineCache) :=
  '(s, c) ←
    (if negb (max_cache_size q =? 0) && (sz <=? max_size q) then
       Enqueue (emit s (PreQuarantine ptr)) c ptr sz
     else Ok (emit s (RecyclePassThrough ptr), c));
  if max_cache_size q <? Size c then Drain recycle_free s q c else Ok (s, q, c).

End quarantine.
