(* ===== verification/QuarantineSpecs.v ===== *)
(** * What the quarantine promises

    The quarantine is a FIFO of freed blocks with two bounds: nothing is lost
    or handed back twice, blocks come back in the order in which they went in,
    and the sizes stay under their limits. *)

From S2P Require Import Prelude IntrusiveList Quarantine.

Section specs.
Context (alloc : heap -> result Z) (garbage : QuarantineBatch).

(** The allocator of batches returns memory that no batch occupies. *)
Definition fresh_batch_at (h : heap) (b : Z) : Prop := alloc h = Ok b /\ b <> 0 /\ h !! b = None.

(** ** Contents *)

Definition items (B : QuarantineBatch) : list Z :=
  map (fun i => batch B (Z.of_nat i)) (seq 0 (Z.to_nat (count B))).

Definition contents (h : heap) (bs : list Z) : list Z :=
  concat (map (fun b => from_option items [] (h !! b)) bs).

Definition total (h : heap) (bs : list Z) : Z :=
  foldr Z.add 0 (map (fun b => from_option size 0 (h !! b)) bs).

Definition batch_ok (B : QuarantineBatch) : Prop :=
  0 <= count B <= kSize /\ sizeof_batch <= size B.

Definition limit : Z := 9223372036854775808.

Ltac sizes := unfold limit, sizeof_batch, kSize, is_uptr, word_modulus in *; lia.

Record cache_rep (h : heap) (c : QuarantineCache) (bs : list Z) : Prop := {
  cache_list : list_rep h (list_ c) bs;
  cache_size : csize c = total h bs;
  cache_limit : total h bs < limit;
  cache_batches : forall b, In b bs -> exists B, h !! b = Some B /\ batch_ok B;
}.

(** What a batch holds, without its link. *)
Definition payload (h : heap) (b : Z) : option (Z * Z * (Z -> Z)) :=
  (fun B => (size B, count B, batch B)) <$> h !! b.

Lemma contents_app (h : heap) (bs cs : list Z) : contents h (bs ++ cs) = contents h bs ++ contents h cs.
Proof. unfold contents. by rewrite map_app, concat_app. Qed.

Lemma total_app (h : heap) (bs cs : list Z) : total h (bs ++ cs) = total h bs + total h cs.
Proof.
  unfold total. rewrite map_app, foldr_app. induction bs as [| b bs IH]; cbn [map foldr]; lia.
Qed.

Lemma total_cons (h : heap) (b : Z) (bs : list Z) (B : QuarantineBatch) :
  h !! b = Some B -> total h (b :: bs) = size B + total h bs.
Proof. intros Hb. unfold total. cbn [map foldr]. by rewrite Hb. Qed.

Lemma total_single (h : heap) (b : Z) (B : QuarantineBatch) : h !! b = Some B -> total h [b] = size B.
Proof. intros Hb. rewrite (total_cons _ _ _ _ Hb). unfold total. cbn. lia. Qed.

Lemma contents_single (h : heap) (b : Z) (B : QuarantineBatch) : h !! b = Some B -> contents h [b] = items B.
Proof. intros Hb. unfold contents. cbn. by rewrite Hb, app_nil_r. Qed.

Lemma payload_lookup (h h' : heap) (b : Z) (B : QuarantineBatch) :
  payload h' b = payload h b -> h !! b = Some B ->
  exists B', h' !! b = Some B' /\ size B' = size B /\ count B' = count B /\ batch B' = batch B.
Proof.
  unfold payload. intros Hp Hb. rewrite Hb in Hp. destruct (h' !! b) as [B' |]; [| done].
  cbn in Hp. injection Hp as H1 H2 H3. eauto.
Qed.

Lemma payload_frame (h h' : heap) (bs : list Z) :
  (forall b, In b bs -> payload h' b = payload h b) ->
  contents h' bs = contents h bs /\ total h' bs = total h bs /\
  ((forall b, In b bs -> exists B, h !! b = Some B /\ batch_ok B) ->
   forall b, In b bs -> exists B, h' !! b = Some B /\ batch_ok B).
Proof.
  intros Hp. split_and!.
  - unfold contents. f_equal. apply map_ext_in. intros b Hb. specialize (Hp b Hb). unfold payload in Hp.
    destruct (h' !! b), (h !! b); cbn in *; try done. injection Hp as H1 H2 H3.
    unfold items. by rewrite H2, H3.
  - unfold total. f_equal. apply map_ext_in. intros b Hb. specialize (Hp b Hb). unfold payload in Hp.
    destruct (h' !! b), (h !! b); cbn in *; try done. by injection Hp.
  - intros Hall b Hb. destruct (Hall b Hb) as (B & HB & Hok).
    destruct (payload_lookup h h' b B (Hp b Hb) HB) as (B' & HB' & H1 & H2 & H3).
    exists B'. split; [done |]. unfold batch_ok. by rewrite H1, H2.
Qed.

Lemma total_nonneg (h : heap) (bs : list Z) :
  (forall b, In b bs -> exists B, h !! b = Some B /\ batch_ok B) ->
  sizeof_batch * Z.of_nat (length bs) <= total h bs.
Proof.
  induction bs as [| b bs IH]; intros Hall; [done |].
  destruct (Hall b ltac:(by left)) as (B & HB & _ & Hs). rewrite (total_cons _ _ _ _ HB).
  specialize (IH ltac:(intros y Hy; apply Hall; by right)). cbn [length].
  unfold sizeof_batch, kSize in *. lia.
Qed.

(** ** The heap laws *)

#[export] Instance heap_laws : IntrusiveHeapLaws heap.
Proof.
  split. intros h x n o Ho. cbn [get_next set_next heap_links] in *.
  destruct (h !! x) as [b |] eqn:Hx; [| done]. eexists; split; [done |]. split.
  - by rewrite lookup_insert_eq.
  - intros y Hy. by rewrite lookup_insert_ne.
Qed.

(** Links are all that list operations change. *)
Lemma set_next_payload (h h' : heap) (x n : Z) :
  set_next h x n = Ok h' -> forall b, payload h' b = payload h b.
Proof.
  cbn [set_next heap_links]. destruct (h !! x) as [B |] eqn:Hx; [| done]. intros [= <-] b.
  unfold payload. destruct (decide (b = x)) as [-> |].
  - by rewrite lookup_insert_eq, Hx.
  - by rewrite lookup_insert_ne.
Qed.

Lemma push_back_payload (h h' : heap) (l l' : IntrusiveList) (x : Z) :
  push_back h l x = Ok (h', l') -> forall b, payload h' b = payload h b.
Proof.
  unfold push_back. destruct (empty l); intros H b; inv_ok; simplify_eq;
    repeat match goal with H : set_next _ _ _ = Ok _ |- _ => apply set_next_payload with (b := b) in H end;
    congruence.
Qed.

Lemma extract_payload (h h' : heap) (l l' : IntrusiveList) (p x : Z) :
  extract h l p x = Ok (h', l') -> forall b, payload h' b = payload h b.
Proof.
  unfold extract. intros H b. inv_ok. simplify_eq.
  match goal with H : set_next _ _ _ = Ok _ |- _ => by apply set_next_payload with (b := b) in H end.
Qed.

Lemma append_back_payload (h h' : heap) (l m l' m' : IntrusiveList) :
  append_back h l m = Ok (h', l', m') -> forall b, payload h' b = payload h b.
Proof.
  unfold append_back. repeat case_match; intros H' b; inv_ok; simplify_eq; try done.
  match goal with H : set_next _ _ _ = Ok _ |- _ => by apply set_next_payload with (b := b) in H end.
Qed.

(** Same payload and same link: same batch. *)
Lemma same_batch (h h' : heap) (b : Z) :
  payload h' b = payload h b -> get_next h' b = get_next h b -> h' !! b = h !! b.
Proof.
  unfold payload. cbn [get_next heap_links].
  destruct (h' !! b) as [[n1 s1 c1 f1] |], (h !! b) as [[n2 s2 c2 f2] |]; cbn; congruence.
Qed.

Lemma live_link (h : heap) (b : Z) (B : QuarantineBatch) : h !! b = Some B -> get_next h b = Some (next B).
Proof. intros Hb. cbn [get_next heap_links]. by rewrite Hb. Qed.

Lemma cache_frame (h h' : heap) (c : QuarantineCache) (bs : list Z) :
  (forall b, In b bs -> h' !! b = h !! b) -> cache_rep h c bs ->
  cache_rep h' c bs /\ contents h' bs = contents h bs /\ total h' bs = total h bs.
Proof.
  intros Hf [C1 C2 C3 C4].
  destruct (payload_frame h h' bs) as (H1 & H2 & H3).
  { intros b Hb. unfold payload. by rewrite Hf. }
  split; [| done]. split; [| congruence | lia | by apply H3].
  apply (list_rep_frame h); [| done]. intros y Hy. cbn [get_next heap_links]. by rewrite Hf.
Qed.

Lemma small_list (h : heap) (c : QuarantineCache) (bs : list Z) :
  cache_rep h c bs -> Z.of_nat (length bs) + 1 < word_modulus - 1.
Proof.
  intros [_ _ Hl Hb]. pose proof (total_nonneg h bs Hb).
  unfold limit, sizeof_batch, kSize, word_modulus in *. lia.
Qed.

Lemma empty_cache_rep (h : heap) : cache_rep h empty_cache [].
Proof. split; [apply clear_rep | done | done | done]. Qed.

(** ** Moving batches *)

Lemma EnqueueBatch_spec (h : heap) (c : QuarantineCache) (bs : list Z) (b : Z) (B : QuarantineBatch) :
  cache_rep h c bs -> h !! b = Some B -> batch_ok B -> b <> 0 -> ~ In b bs ->
  total h bs + size B < limit ->
  exists h' c', EnqueueBatch h c b = Ok (h', c') /\ cache_rep h' c' (bs ++ [b]) /\
    (forall y, payload h' y = payload h y) /\ (forall y, y <> b -> ~ In y bs -> h' !! y = h !! y).
Proof.
  intros Hc HB Hok Hb0 Hnin Hlim. pose proof (small_list _ _ _ Hc) as Hsmall.
  pose proof Hc as [C1 C2 C3 C4].
  destruct (push_back_rep h (list_ c) bs b (next B) C1 Hb0 (live_link _ _ _ HB) Hnin Hsmall)
    as (h' & l' & He & Hr & Hf).
  pose proof (push_back_payload _ _ _ _ _ He) as Hp.
  unfold EnqueueBatch. rewrite He. step.
  destruct (payload_lookup h h' b B (Hp b) HB) as (B' & HB' & S1 & S2 & S3).
  rewrite HB'. step. eexists h', _. split; [done |].
  destruct (payload_frame h h' bs (fun y _ => Hp y)) as (F1 & F2 & F3).
  pose proof (total_nonneg h bs C4) as Htn. destruct Hok as [Hcnt Hsz].
  assert (Ht : total h' (bs ++ [b]) = total h bs + size B).
  { rewrite total_app, F2, (total_single _ _ _ HB'). lia. }
  split; [| split; [done |]].
  - split; [done | | lia |].
    + unfold SizeAdd, Size. cbn [csize]. rewrite wrap_small; [lia |].
      unfold is_uptr, word_modulus, limit, sizeof_batch, kSize in *. lia.
    + intros y [Hy | [<- | []]]%in_app_or; [by apply F3 |]. exists B'. split; [done |].
      unfold batch_ok. by rewrite S1, S2.
  - intros y Hy Hyn. apply same_batch; [done | by apply Hf].
Qed.

Lemma DequeueBatch_spec (h : heap) (c : QuarantineCache) (b : Z) (bs : list Z) :
  cache_rep h c (b :: bs) ->
  exists B c', h !! b = Some B /\ batch_ok B /\ b <> 0 /\ DequeueBatch h c = Ok (b, c') /\
    cache_rep h c' bs /\ total h (b :: bs) = size B + total h bs.
Proof.
  intros [C1 C2 C3 C4]. destruct (pop_front_rep h _ b bs C1) as (l' & He & Hfr & Hr).
  destruct (C4 b ltac:(by left)) as (B & HB & Hok).
  pose proof (total_cons h b bs B HB) as Ht.
  assert (C4' : forall y, In y bs -> exists B, h !! y = Some B /\ batch_ok B) by (intros; apply C4; by right).
  pose proof (total_nonneg h bs C4') as Htn.
  destruct (chain_live h _ _ b _ (rep_chain _ _ _ C1) ltac:(by left)) as [Hb0 _].
  unfold DequeueBatch.
  destruct (empty (list_ c)) eqn:Hemp; [by apply (empty_rep h _ _ C1) in Hemp |].
  rewrite Hfr, He. step. rewrite HB. step. exists B. eexists. split_and!; try done.
  destruct Hok as [Hcnt Hsz]. split; [done | | sizes | done].
  unfold SizeSub, Size. cbn [csize]. rewrite wrap_small; [lia |].
  unfold is_uptr, word_modulus, limit, sizeof_batch, kSize in *. lia.
Qed.

Lemma DequeueBatch_empty (h : heap) (c : QuarantineCache) :
  cache_rep h c [] -> DequeueBatch h c = Ok (0, c).
Proof. intros [C1 _ _ _]. unfold DequeueBatch. by rewrite (proj2 (empty_rep h _ _ C1) eq_refl). Qed.

Lemma Transfer_spec (h : heap) (a b : QuarantineCache) (xs ys : list Z) :
  cache_rep h a xs -> cache_rep h b ys -> NoDup (xs ++ ys) -> total h xs + total h ys < limit ->
  exists h' a' b', Transfer h a b = Ok (h', a', b') /\ cache_rep h' a' (xs ++ ys) /\ cache_rep h' b' [] /\
    (forall y, payload h' y = payload h y) /\ (forall y, ~ In y xs -> h' !! y = h !! y).
Proof.
  intros [A1 A2 A3 A4] [B1 B2 B3 B4] Hnd Hlim.
  assert (Hall : forall y, In y (xs ++ ys) -> exists B, h !! y = Some B /\ batch_ok B).
  { intros y [Hy | Hy]%in_app_or; [by apply A4 | by apply B4]. }
  pose proof (total_nonneg h _ Hall) as Htn. rewrite total_app, length_app in Htn.
  pose proof (total_nonneg h xs A4). pose proof (total_nonneg h ys B4).
  destruct (append_back_rep h (list_ a) (list_ b) xs ys A1 B1 Hnd) as (h' & l' & m' & He & R1 & R2 & Hf).
  { unfold limit, sizeof_batch, kSize, word_modulus in *. lia. }
  pose proof (append_back_payload _ _ _ _ _ _ He) as Hp.
  unfold Transfer. rewrite He. step. eexists h', _, _. split; [done |].
  destruct (payload_frame h h' (xs ++ ys) (fun y _ => Hp y)) as (F1 & F2 & F3).
  rewrite (total_app h) in F2. split_and!; try done.
  - split; [done | | lia | by apply F3]. unfold SizeAdd, Size. cbn [csize].
    rewrite wrap_small; [lia |]. unfold is_uptr, word_modulus, limit, sizeof_batch, kSize in *. lia.
  - intros y Hy. apply same_batch; [done | by apply Hf].
Qed.

(** ** Adding a block *)

Lemma items_push (B : QuarantineBatch) (ptr n s : Z) : 0 <= count B ->
  items (MkBatch n s (count B + 1) (fun i => if i =? count B then ptr else batch B i)) = items B ++ [ptr].
Proof.
  intros Hc. unfold items. cbn [count batch].
  replace (Z.to_nat (count B + 1)) with (S (Z.to_nat (count B))) by lia.
  rewrite seq_S, map_app. cbn [map]. rewrite Nat.add_0_l, Z2Nat.id, Z.eqb_refl by lia. f_equal.
  apply map_ext_in. intros i Hi%in_seq. destruct (Z.eqb_spec (Z.of_nat i) (count B)); [lia | done].
Qed.

Lemma Enqueue_spec (s : qstate) (c : QuarantineCache) (bs : list Z) (ptr sz b : Z) :
  fresh_batch_at (batches s) b ->
  cache_rep (batches s) c bs -> 0 <= sz -> total (batches s) bs + sz + sizeof_batch < limit ->
  exists s' c' bs' es, Enqueue alloc garbage s c ptr sz = Ok (s', c') /\ cache_rep (batches s') c' bs' /\
    log s' = log s ++ es /\ (es = [] /\ bs' = bs \/ es = [EvAllocate b] /\ bs' = bs ++ [b]) /\
    contents (batches s') bs' = contents (batches s) bs ++ [ptr] /\
    total (batches s') bs' <= total (batches s) bs + sz + sizeof_batch /\
    (forall y, ~ In y bs' -> batches s' !! y = batches s !! y).
Proof.
  intros (Hal & Hnn & Hfr) Hc Hsz Hlim. set (h := batches s) in *.
  pose proof Hc as [C1 C2 C3 C4]. pose proof (total_nonneg h bs C4) as Htn.
  assert (Hnew : exists s' c' bs' es,
    (b ← alloc h;
     let s := emit s (EvAllocate b) in
     _ ← check (negb (b =? 0));
     '(h, c) ← EnqueueBatch (<[b := init garbage ptr sz]> (batches s)) c b;
     Ok (with_heap s h, c)) = Ok (s', c') /\ cache_rep (batches s') c' bs' /\
    log s' = log s ++ es /\ (es = [] /\ bs' = bs \/ es = [EvAllocate b] /\ bs' = bs ++ [b]) /\
    contents (batches s') bs' = contents h bs ++ [ptr] /\ total (batches s') bs' <= total h bs + sz + sizeof_batch /\
    (forall y, ~ In y bs' -> batches s' !! y = h !! y)).
  { rewrite Hal, Ok_bind. cbn zeta.
    rewrite (check_true (negb _)), Ok_bind by (by apply negb_true_iff, Z.eqb_neq). cbn [emit batches]. fold h.
    set (h1 := <[b := init garbage ptr sz]> h).
    assert (Hnin : ~ In b bs) by (intros Hb; destruct (C4 b Hb) as (B & HB & _); congruence).
    destruct (cache_frame h h1 c bs) as (Hc1 & Hcon & Htot); [| done |].
    { intros y Hy. unfold h1. rewrite lookup_insert_ne; [done | by intros <-]. }
    assert (Hsize : size (init garbage ptr sz) = sz + sizeof_batch).
    { cbn [size init]. apply wrap_small. sizes. }
    destruct (EnqueueBatch_spec h1 c bs b (init garbage ptr sz)) as (h' & c' & -> & Hr & Hp & Hf); try done.
    { unfold h1. by rewrite lookup_insert_eq. }
    { unfold batch_ok. rewrite Hsize. cbn [count init]. sizes. }
    { rewrite Hsize. sizes. }
    step. eexists _, c', (bs ++ [b]), [EvAllocate b]. split; [done |]. cbn [with_heap batches log].
    destruct (payload_frame h1 h' (bs ++ [b]) (fun y _ => Hp y)) as (F1 & F2 & _).
    assert (Hb1 : h1 !! b = Some (init garbage ptr sz)) by (unfold h1; apply lookup_insert_eq).
    split_and!; try done.
    - by right.
    - rewrite F1, contents_app, Hcon, (contents_single _ _ _ Hb1). f_equal.
    - rewrite F2, total_app, Htot, (total_single _ _ _ Hb1), Hsize. lia.
    - intros y Hy. rewrite in_app_iff in Hy. cbn [In] in Hy. rewrite Hf by intuition congruence.
      unfold h1. rewrite lookup_insert_ne; [done |]. intros <-. apply Hy. right. by left. }
  unfold Enqueue. fold h. destruct (empty (list_ c)) eqn:Hemp; [rewrite Ok_bind; done |].
  assert (Hne : bs <> []) by (intros ->; by rewrite (proj2 (empty_rep h _ _ C1) eq_refl) in Hemp).
  pose proof (rep_last _ _ _ C1) as Hlast. unfold back. rewrite Hlast.
  clear Hfr Hnn. rename b into b0, Hal into Hal0.
  set (b := List.last bs 0). destruct (C4 b (last_in bs Hne)) as (B & HB & Hok). rewrite HB. cbn [get_or_die].
  rewrite !Ok_bind. destruct (Z.eqb_spec (count B) kSize) as [| Hroom]; [done |]. clear Hnew Hal0.
  unfold batch_push_back. destruct Hok as [Hcnt Hs].
  rewrite (check_true (count B <? kSize)) by (apply Z.ltb_lt; lia). step.
  set (B' := MkBatch _ _ _ _). set (h' := <[b := B']> h).
  pose proof (last_snoc_split bs Hne) as Hsplit. fold b in Hsplit. set (pre := removelast bs) in *.
  assert (Hnd : ~ In b pre).
  { pose proof (rep_nodup _ _ _ C1) as Hnd. rewrite Hsplit in Hnd.
    apply NoDup_app in Hnd as (_ & Hnd & _). intros Hb%list_elem_of_In. apply (Hnd b Hb), list_elem_of_singleton.
    done. }
  assert (Hpre : forall y, In y pre -> h' !! y = h !! y)
    by (intros y Hy; unfold h'; rewrite lookup_insert_ne; [done | by intros <-]).
  assert (Hb' : h' !! b = Some B') by apply lookup_insert_eq.
  assert (Htb : total h bs = total h pre + size B) by (rewrite Hsplit, total_app, (total_single _ _ _ HB); done).
  destruct (payload_frame h h' pre) as (F1 & F2 & F3).
  { intros y Hy. unfold payload. by rewrite Hpre. }
  assert (HsB : size B' = size B + sz).
  { cbn. apply wrap_small.
    assert (0 <= total h pre); [| sizes].
    pose proof (total_nonneg h pre ltac:(intros y Hy; apply C4; rewrite Hsplit; apply in_or_app; by left)).
    unfold sizeof_batch, kSize in *. lia. }
  assert (Htot : total h' bs = total h bs + sz).
  { rewrite Htb, Hsplit, total_app, F2, (total_single _ _ _ Hb'), HsB. lia. }
  exists (with_heap s h'). eexists. exists bs, []. split; [done |]. cbn [with_heap batches log]. rewrite app_nil_r.
  split_and!; [| done | by left | | |].
  - split; [| | sizes |].
    + apply (list_rep_frame h); [| done]. intros y Hy. unfold h'. cbn [get_next heap_links].
      destruct (decide (y = b)) as [-> |]; [by rewrite lookup_insert_eq, HB | by rewrite lookup_insert_ne].
    + unfold SizeAdd, Size. cbn [csize]. rewrite Htot, C2, wrap_small; [done |]. sizes.
    + intros y Hy. rewrite Hsplit in Hy. apply in_app_or in Hy as [Hy | [<- | []]].
      * apply F3; [| done]. intros x Hx. apply C4. rewrite Hsplit. apply in_or_app. by left.
      * exists B'. split; [done |]. split; cbn [count B']; sizes.
  - rewrite Hsplit, !contents_app, F1, (contents_single _ _ _ Hb'), (contents_single _ _ _ HB).
    rewrite <- app_assoc. f_equal. apply items_push. lia.
  - sizes.
  - intros y Hy. unfold h'. rewrite lookup_insert_ne; [done |]. intros <-. apply Hy. by apply last_in.
Qed.

(** ** Taking batches out *)

Lemma extract_loop_spec (xs : list Z) : forall (h : heap) (c tmp : QuarantineCache) (ts : list Z)
  (min_size : Z) (fuel : nat),
  cache_rep h c xs -> cache_rep h tmp ts -> NoDup (ts ++ xs) -> total h ts + total h xs < limit ->
  0 <= min_size -> (length xs <= fuel)%nat ->
  exists h' c' tmp' ys zs, xs = ys ++ zs /\ extract_loop h c tmp min_size fuel = Ok (h', c', tmp') /\
    cache_rep h' c' zs /\ cache_rep h' tmp' (ts ++ ys) /\ total h' zs <= min_size /\
    (forall y, payload h' y = payload h y) /\ (forall y, ~ In y (ts ++ xs) -> h' !! y = h !! y) /\
    (total h xs <= min_size -> ys = []).
Proof.
  induction xs as [| b xs IH]; intros h c tmp ts m fuel Hc Ht Hnd Hlim Hm Hfuel.
  - exists h, c, tmp, [], []. rewrite (app_nil_r ts). pose proof (cache_size _ _ _ Hc) as Hs.
    unfold total in Hs. cbn in Hs.
    assert (He : extract_loop h c tmp m fuel = Ok (h, c, tmp)).
    { unfold Size. destruct fuel; cbn [extract_loop]; unfold Size; rewrite Hs;
        destruct (Z.leb_spec 0 m); done || lia. }
    by split_and!.
  - pose proof (cache_size _ _ _ Hc) as Hs.
    destruct (Z.leb_spec (csize c) m) as [Hle | Hgt].
    { exists h, c, tmp, [], (b :: xs). rewrite (app_nil_r ts). split; [done |].
      split; [| split_and!; try done; lia].
      destruct fuel; cbn [extract_loop]; unfold Size; destruct (Z.leb_spec (csize c) m); done || lia. }
    destruct fuel as [| fuel]; [cbn in Hfuel; lia |]. cbn [extract_loop]. unfold Size.
    destruct (Z.leb_spec (csize c) m); [lia |].
    destruct (DequeueBatch_spec h c b xs Hc) as (B & c1 & HB & Hok & Hb0 & -> & Hc1 & Htot). step.
    rewrite Htot in Hlim.
    apply NoDup_app in Hnd as (N1 & N2 & N3). apply NoDup_cons in N3 as [N3 N4].
    assert (Hbt : ~ In b ts) by (intros Hb%list_elem_of_In; apply (N2 b Hb); set_solver).
    assert (Hpos : 0 <= total h xs).
    { pose proof (total_nonneg h xs (cache_batches _ _ _ Hc1)). sizes. }
    destruct (EnqueueBatch_spec h tmp ts b B Ht HB Hok Hb0 Hbt ltac:(lia)) as (h1 & t1 & -> & Ht1 & Hp1 & Hf1).
    step. assert (Hxs : forall y, In y xs -> h1 !! y = h !! y).
    { intros y Hy. apply Hf1; [intros ->; by apply N3, list_elem_of_In |].
      intros Hyt%list_elem_of_In. apply (N2 y Hyt). apply list_elem_of_In in Hy. set_solver. }
    destruct (cache_frame h h1 c1 xs Hxs Hc1) as (Hc2 & _ & Htx).
    destruct (payload_frame h h1 (ts ++ [b]) (fun y _ => Hp1 y)) as (_ & Htt & _).
    destruct (IH h1 c1 t1 (ts ++ [b]) m fuel) as (h' & c' & t' & ys & zs & -> & -> & Hr1 & Hr2 & Hle & Hp & Hf & _);
      try done.
    { rewrite <- app_assoc. cbn [app]. apply NoDup_app. split; [done |]. split; [done |]. by constructor. }
    { rewrite Htt, Htx, total_app, (total_single _ _ _ HB). lia. }
    { cbn in Hfuel. lia. }
    exists h', c', t', (b :: ys), zs. rewrite <- app_assoc in Hr2. split_and!; try done.
    + intros y. by rewrite Hp.
    + intros y Hy. rewrite Hf.
      * apply Hf1; intros Hy'; apply Hy; apply in_or_app; [right; subst; by left | by left].
      * intros Hy'. apply Hy. rewrite !in_app_iff in *. cbn in *. rewrite in_app_iff. tauto.
    + intros Hle'. lia.
Qed.

(** ** Giving blocks back *)

Definition recycled (es : list event) : list Z :=
  omap (fun e => match e with EvRecycle p => Some p | _ => None end) es.
Definition deallocated (es : list event) : list Z :=
  omap (fun e => match e with EvDeallocate b => Some b | _ => None end) es.

Definition batches_allocated (es : list event) : list Z :=
  omap (fun e => match e with EvAllocate b => Some b | _ => None end) es.

(** The callbacks of recycling. *)
Definition recycling (e : event) : Prop :=
  match e with EvRecycle _ | EvDeallocate _ => True | _ => False end.

Lemma recycling_allocates_nothing (es : list event) : Forall recycling es -> batches_allocated es = [].
Proof. induction 1 as [| e es He _ IH]; [done |]. by destruct e. Qed.

Lemma recycle_items_spec (s : qstate) (B : QuarantineBatch) (i : Z) (k : nat) : 0 <= i ->
  recycle_items s B i k =
  QState (batches s) (log s ++ map (fun j => EvRecycle (batch B (Z.of_nat j))) (seq (Z.to_nat i) k)).
Proof.
  revert s i. induction k as [| k IH]; intros s i Hi; cbn [recycle_items seq map].
  - rewrite app_nil_r. by destruct s.
  - rewrite IH by lia. cbn [emit batches log]. rewrite <- app_assoc. cbn [app].
    rewrite Z2Nat.id by lia. by replace (Z.to_nat (i + 1)) with (S (Z.to_nat i)) by lia.
Qed.

Lemma recycled_map (f : nat -> Z) (l : list nat) :
  recycled (map (fun j => EvRecycle (f j)) l) = map f l /\
  deallocated (map (fun j => EvRecycle (f j)) l) = [].
Proof. induction l as [| x l [IH1 IH2]]; cbn; [done |]. unfold recycled in IH1. by rewrite IH1. Qed.

Lemma recycled_app (es fs : list event) :
  recycled (es ++ fs) = recycled es ++ recycled fs /\ deallocated (es ++ fs) = deallocated es ++ deallocated fs.
Proof. unfold recycled, deallocated. by rewrite !omap_app. Qed.

Lemma allocated_app (es fs : list event) : batches_allocated (es ++ fs) = batches_allocated es ++ batches_allocated fs.
Proof. apply omap_app. Qed.

Lemma DoRecycle_spec (ts : list Z) : forall (s : qstate) (c : QuarantineCache) (fuel : nat),
  cache_rep (batches s) c ts -> (length ts < fuel)%nat ->
  exists s' es, DoRecycle s c fuel = Ok s' /\ log s' = log s ++ es /\
    recycled es = contents (batches s) ts /\ deallocated es = ts /\ Forall recycling es /\
    (forall y, ~ In y ts -> batches s' !! y = batches s !! y) /\
    (forall y, In y ts -> batches s' !! y = None).
Proof.
  induction ts as [| b ts IH]; intros s c fuel Hc Hfuel; (destruct fuel as [| fuel]; [cbn in Hfuel; lia |]);
    cbn [DoRecycle].
  - rewrite (DequeueBatch_empty _ _ Hc). step. cbn. exists s, []. rewrite app_nil_r. by split_and!.
  - destruct (DequeueBatch_spec _ c b ts Hc) as (B & c1 & HB & Hok & Hb0 & -> & Hc1 & Htot). step.
    destruct (Z.eqb_spec b 0); [done |]. rewrite HB. step.
    rewrite recycle_items_spec by lia. cbn [emit with_heap batches log].
    set (rs := map _ _).
    set (s1 := QState (delete b (batches s)) ((log s ++ rs) ++ [EvDeallocate b])).
    match goal with |- context [DoRecycle ?t c1 fuel] => change t with s1 end.
    pose proof (rep_nodup _ _ _ (cache_list _ _ _ Hc)) as Hnd. apply NoDup_cons in Hnd as [Hbn Hnd].
    assert (Hts : forall y, In y ts -> batches s1 !! y = batches s !! y).
    { intros y Hy. unfold s1. cbn [batches]. rewrite lookup_delete_ne; [done |]. intros ->. by apply Hbn, list_elem_of_In. }
    destruct (cache_frame (batches s) (batches s1) c1 ts Hts Hc1) as (Hc2 & Hcon & _).
    destruct (IH s1 c1 fuel Hc2 ltac:(cbn in Hfuel; lia)) as (s' & es & -> & Hlog & Hrec & Hdea & Hall & Hf1 & Hf2).
    exists s', (rs ++ [EvDeallocate b] ++ es). split; [done |].
    destruct (recycled_map (fun j => batch B (Z.of_nat j)) (seq (Z.to_nat 0) (Z.to_nat (count B)))) as [M1 M2].
    fold rs in M1, M2. split_and!.
    + rewrite Hlog. cbn. by rewrite <- !app_assoc.
    + rewrite !(proj1 (recycled_app _ _)), M1, Hrec, Hcon.
      unfold contents. cbn [map concat]. by rewrite HB.
    + rewrite !(proj2 (recycled_app _ _)), M2, Hdea. done.
    + apply Forall_app. split; [by apply Forall_map, Forall_true | by constructor].
    + intros y Hy. rewrite Hf1 by (intros Hy'; apply Hy; by right). unfold s1. cbn [batches].
      rewrite lookup_delete_ne; [done |]. intros <-. apply Hy. by left.
    + intros y [<- | Hy]; [| by apply Hf2]. rewrite Hf1; [unfold s1; apply lookup_delete_eq |].
      intros Hy. by apply Hbn, list_elem_of_In.
Qed.

(** ** Merging *)

(** In the loop the size of the cache still counts the [ext] bytes of the
    batches already extracted. *)
Record merge_rep (h : heap) (c : QuarantineCache) (bs : list Z) (ext : Z) : Prop := {
  merge_list : list_rep h (list_ c) bs;
  merge_size : csize c = total h bs + ext;
  merge_limit : total h bs + ext < limit /\ 0 <= ext;
  merge_batches : forall b, In b bs -> exists B, h !! b = Some B /\ batch_ok B;
}.

Lemma items_merge (B E : QuarantineBatch) (n s : Z) : 0 <= count B -> 0 <= count E ->
  items (MkBatch n s (count B + count E)
           (fun i => if (count B <=? i) && (i <? count B + count E) then batch E (i - count B)
                     else batch B i)) = items B ++ items E.
Proof.
  intros HB HE. unfold items. cbn [count batch].
  rewrite Z2Nat.inj_add, seq_app, map_app by lia. f_equal.
  - apply map_ext_in. intros i Hi%in_seq.
    destruct (Z.leb_spec (count B) (Z.of_nat i)); [lia | done].
  - rewrite Nat.add_0_l. rewrite <- (Nat.add_0_r (Z.to_nat (count B))), <- fmap_add_seq.
    rewrite <- list_fmap_compose. apply map_ext_in. intros i Hi%in_seq. cbn.
    rewrite Nat2Z.inj_add, Z2Nat.id by lia.
    destruct (Z.leb_spec (count B) (count B + Z.of_nat i)); [| lia].
    destruct (Z.ltb_spec (count B + Z.of_nat i) (count B + count E)); [| lia]. cbn [andb].
    f_equal. lia.
Qed.

Lemma contents_cons (h : heap) (b : Z) (bs : list Z) (B : QuarantineBatch) :
  h !! b = Some B -> contents h (b :: bs) = items B ++ contents h bs.
Proof. intros Hb. unfold contents. cbn [map concat]. by rewrite Hb. Qed.

(** One merge: the next batch moves into the current one and leaves the list. *)
Lemma merge_step (h : heap) (c tmp : QuarantineCache) (ps qs ts : list Z) (x e ext : Z) (B E : QuarantineBatch) :
  merge_rep h c (ps ++ x :: e :: qs) ext -> cache_rep h tmp ts -> NoDup (ts ++ ps ++ x :: e :: qs) ->
  total h ts + total h (ps ++ x :: e :: qs) < limit ->
  h !! x = Some B -> h !! e = Some E -> can_merge B E = true ->
  exists B' E' h2 l h3 t',
    merge B E = Ok (B', E') /\ count E' = 0 /\ size E' = sizeof_batch /\
    h2 = <[e := E']> (<[x := B']> h) /\
    (exists h25, extract h2 (list_ c) x e = Ok (h25, l) /\ EnqueueBatch h25 tmp e = Ok (h3, t')) /\
    merge_rep h3 (MkCache l (csize c)) (ps ++ x :: qs) (ext + sizeof_batch) /\
    cache_rep h3 t' (ts ++ [e]) /\
    contents h3 (ps ++ x :: qs) = contents h (ps ++ x :: e :: qs) /\
    contents h3 (ts ++ [e]) = contents h ts /\
    total h3 (ps ++ x :: qs) + sizeof_batch = total h (ps ++ x :: e :: qs) /\
    total h3 (ts ++ [e]) = total h ts + sizeof_batch /\
    (forall y, ~ In y (ts ++ ps ++ x :: e :: qs) -> h3 !! y = h !! y).
Proof.
  intros [M1 M2 [M3 M3'] M4] Ht Hnd Hlim HB HE Hcan.
  destruct (M4 x ltac:(apply in_or_app; right; by left)) as (B0 & HB0 & HokB). rewrite HB in HB0. injection HB0 as <-.
  destruct (M4 e ltac:(apply in_or_app; right; right; by left)) as (E0 & HE0 & HokE). rewrite HE in HE0. injection HE0 as <-.
  destruct HokB as [HcB HsB], HokE as [HcE HsE].
  assert (Hps : 0 <= total h ps).
  { pose proof (total_nonneg h ps ltac:(intros; apply M4; apply in_or_app; by left)). sizes. }
  assert (Hqs : 0 <= total h qs).
  { pose proof (total_nonneg h qs ltac:(intros; apply M4; apply in_or_app; right; right; by right)). sizes. }
  assert (Hts0 : 0 <= total h ts) by (pose proof (total_nonneg h ts (cache_batches _ _ _ Ht)); sizes).
  rewrite total_app, (total_cons _ _ _ _ HB), (total_cons _ _ _ _ HE) in *.
  unfold merge. unfold can_merge in Hcan. rewrite Hcan. step.
  rewrite (check_true (sizeof_batch <=? _)) by (apply Z.leb_le; lia). step.
  set (B' := MkBatch (next B) _ _ _). set (E' := MkBatch (next E) _ _ _).
  assert (HsB' : size B' = size B + size E - sizeof_batch).
  { cbn [size B']. unfold quarantined_size. rewrite (wrap_small (size E - _)) by sizes.
    rewrite wrap_small by sizes. lia. }
  (* the links of the new heap are those of the old one *)
  set (h2 := <[e := E']> (<[x := B']> h)).
  assert (Hxe : x <> e /\ ~ In x ts /\ ~ In e ts /\ ~ In x ps /\ ~ In e ps /\ ~ In x qs /\ ~ In e qs).
  { rewrite !NoDup_app, !NoDup_cons in Hnd. setoid_rewrite elem_of_app in Hnd.
    setoid_rewrite elem_of_cons in Hnd. setoid_rewrite elem_of_cons in Hnd.
    setoid_rewrite list_elem_of_In in Hnd. naive_solver. }
  destruct Hxe as (Hxe & Hxt & Het & Hxp & Hep & Hxq & Heq).
  assert (Hh2x : h2 !! x = Some B') by (unfold h2; rewrite lookup_insert_ne, lookup_insert_eq; done).
  assert (Hh2e : h2 !! e = Some E') by (unfold h2; apply lookup_insert_eq).
  assert (Hh2 : forall y, y <> x -> y <> e -> h2 !! y = h !! y).
  { intros y H1 H2. unfold h2. by rewrite !lookup_insert_ne. }
  assert (Hlinks : forall y, get_next h2 y = get_next h y).
  { intros y. cbn [get_next heap_links]. destruct (decide (y = x)) as [-> |]; [by rewrite Hh2x, HB |].
    destruct (decide (y = e)) as [-> |]; [by rewrite Hh2e, HE |]. by rewrite Hh2. }
  destruct (extract_rep h2 (list_ c) ps qs x e) as (h25 & l & Hex & Hlr & Hf25).
  { apply (list_rep_frame h); [| done]. intros y _. apply Hlinks. }
  pose proof (extract_payload _ _ _ _ _ _ Hex) as Hp25.
  destruct (payload_lookup h2 h25 e E' (Hp25 e) Hh2e) as (E2 & HE2 & Ee1 & Ee2 & Ee3).
  destruct (payload_lookup h2 h25 x B' (Hp25 x) Hh2x) as (B2 & HB2 & Bb1 & Bb2 & Bb3).
  assert (Hfar : forall y, y <> x -> y <> e -> h25 !! y = h !! y).
  { intros y H1 H2. rewrite <- Hh2 by done. apply same_batch; [apply Hp25 | by apply Hf25]. }
  destruct (cache_frame h h25 tmp ts) as (Ht25 & Hct & Htt); [| done |].
  { intros y Hy. apply Hfar; by intros ->. }
  assert (HE2ok : batch_ok E2) by (unfold batch_ok; rewrite Ee1, Ee2; cbn; sizes).
  assert (HsE2 : size E2 = sizeof_batch) by (rewrite Ee1; done).
  destruct (EnqueueBatch_spec h25 tmp ts e E2) as (h3 & t' & Hen & Ht3 & Hp3 & Hf3); try done.
  { intros ->. destruct (chain_live h _ _ 0 _ (rep_chain _ _ _ M1)) as [H0 _]; [| done].
    apply in_or_app; right; right; by left. }
  { rewrite Htt, HsE2. sizes. }
  assert (Hps3 : forall y, In y (ps ++ qs) -> payload h3 y = payload h y).
  { intros y Hy. rewrite Hp3. unfold payload. rewrite Hfar; [done | |];
      intros ->; apply in_app_or in Hy; tauto. }
  assert (Hsplit : forall g, contents g (ps ++ x :: qs) = contents g ps ++ contents g [x] ++ contents g qs).
  { intros g. change (x :: qs) with ([x] ++ qs). by rewrite !contents_app. }
  destruct (payload_frame h h3 ps) as (P1 & P2 & P3); [intros; apply Hps3; apply in_or_app; tauto |].
  destruct (payload_frame h h3 qs) as (Q1 & Q2 & Q3); [intros; apply Hps3; apply in_or_app; tauto |].
  destruct (payload_lookup h25 h3 x B2 (Hp3 x) HB2) as (B3 & HB3 & Bc1 & Bc2 & Bc3).
  destruct (payload_frame h25 h3 (ts ++ [e]) (fun y _ => Hp3 y)) as (T1 & T2 & _).
  assert (Hitems : items B3 = items B ++ items E).
  { unfold items at 1. rewrite Bc2, Bc3, Bb2, Bb3. apply (items_merge B E 0 0); lia. }
  assert (HsB3 : size B3 = size B + size E - sizeof_batch) by congruence.
  assert (Htot3 : total h3 (ps ++ x :: qs) = total h ps + (size B + size E - sizeof_batch) + total h qs).
  { rewrite total_app, (total_cons _ _ _ _ HB3), P2, Q2. lia. }
  exists B', E', h2, l, h3, t'. split; [done |]. split; [done |]. split; [done |]. split; [done |].
  split; [by exists h25 |]. split; [| split; [done |]].
  - split; cbn [list_ csize]; [| lia | sizes |].
    + apply (list_rep_frame h25); [| done]. intros y Hy. cbn [get_next heap_links].
      rewrite Hf3; [done | |].
      * intros ->. apply in_app_or in Hy as [Hy | [Hy | Hy]]; [done | congruence | done].
      * intros Hyt. rewrite !NoDup_app in Hnd. destruct Hnd as (_ & Hnd & _).
        apply (Hnd y); [by apply list_elem_of_In |]. apply list_elem_of_In.
        apply in_app_or in Hy. apply in_or_app. cbn in *. tauto.
    + intros y [Hy | [<- | Hy]]%in_app_or.
      * apply P3; [| done]. intros; apply M4; apply in_or_app; by left.
      * exists B3. split; [done |]. split; [| lia]. rewrite Bc2, Bb2. cbn. zb. lia.
      * apply Q3; [| done]. intros; apply M4; apply in_or_app; right; right; by right.
  - split_and!.
    + rewrite Hsplit, P1, Q1, (contents_single _ _ _ HB3), Hitems.
      by rewrite contents_app, (contents_cons _ _ _ _ HB), (contents_cons _ _ _ _ HE), <- app_assoc.
    + rewrite T1, contents_app, Hct, (contents_single _ _ _ HE2). unfold items. rewrite Ee2. cbn.
      by rewrite app_nil_r.
    + lia.
    + rewrite T2, total_app, Htt, (total_single _ _ _ HE2). lia.
    + intros y Hy. rewrite !in_app_iff in Hy. cbn in Hy.
      assert (y <> x /\ y <> e /\ ~ In y ts) as (Y1 & Y2 & Y3)
        by (split_and!; [intros -> | intros -> |]; tauto).
      rewrite Hf3 by done. by apply Hfar.
Qed.

Lemma merge_loop_spec (n : nat) : forall (h : heap) (c tmp : QuarantineCache) (ps qs ts : list Z) (x ext : Z),
  merge_rep h c (ps ++ x :: qs) ext -> cache_rep h tmp ts -> NoDup (ts ++ ps ++ x :: qs) ->
  total h ts + total h (ps ++ x :: qs) < limit -> (length qs <= n)%nat ->
  exists h' c' tmp' ext' bs' ts',
    merge_loop h c tmp x ext n = Ok (h', c', tmp', ext') /\
    merge_rep h' c' bs' ext' /\ cache_rep h' tmp' ts' /\
    contents h' bs' = contents h (ps ++ x :: qs) /\ contents h' ts' = contents h ts /\
    total h' bs' + total h' ts' = total h (ps ++ x :: qs) + total h ts /\
    ts' ++ bs' ≡ₚ ts ++ ps ++ x :: qs /\
    (forall y, ~ In y (ts ++ ps ++ x :: qs) -> h' !! y = h !! y).
Proof.
  induction n as [| n IH]; intros h c tmp ps qs ts x ext Hc Ht Hnd Hlim Hn; pose proof Hc as [M1 M2 [M3 M3'] M4];
    destruct (M4 x ltac:(apply in_or_app; right; by left)) as (B & HB & HokB);
    destruct (proj1 (chain_app _ _ _ _ _) (rep_chain _ _ _ M1)) as (r & _ & Hch);
    cbn [chain] in Hch; destruct Hch as (-> & Hx0 & nx & Hnx & Hch);
    rewrite (live_link _ _ _ HB) in Hnx; injection Hnx as <-;
    assert (Hdone : forall m, next B = 0 -> merge_loop h c tmp x ext m = Ok (h, c, tmp, ext))
      by (intros m Hz; destruct m; cbn [merge_loop]; (destruct (Z.eqb_spec x 0); [done |]); rewrite HB; step;
          by rewrite Hz).
  - destruct qs as [| e qs]; [| cbn in Hn; lia]. cbn [chain] in Hch.
    exists h, c, tmp, ext, (ps ++ [x]), ts. rewrite Hdone by done. by split_and!.
  - destruct qs as [| e qs].
    { cbn [chain] in Hch. exists h, c, tmp, ext, (ps ++ [x]), ts. rewrite Hdone by done.
      by split_and!. }
    cbn [chain] in Hch. destruct Hch as (Hne & He0 & ne & Hene & Hch).
    destruct (M4 e ltac:(apply in_or_app; right; right; by left)) as (E & HE & HokE).
    cbn [merge_loop]. destruct (Z.eqb_spec x 0); [done |]. rewrite HB. step. rewrite Hne.
    destruct (Z.eqb_spec e 0); [done |]. rewrite HE. step.
    destruct (can_merge B E) eqn:Hcan.
    + destruct (merge_step h c tmp ps qs ts x e ext B E) as
        (B' & E' & h2 & l & h3 & t' & Hm & Hc0 & Hs0 & -> & (h25 & Hex & Hen) & R1 & R2 & K1 & K2 & K3 & K4 & K5);
        try done.
      rewrite Hm. step. rewrite Hc0, Hs0. cbn [Z.eqb]. rewrite Z.eqb_refl. step. rewrite Hex. step.
      rewrite Hen. step. rewrite (wrap_small (ext + sizeof_batch)).
      2:{ pose proof (total_nonneg h _ M4). pose proof (merge_limit _ _ _ _ R1).
          pose proof (total_nonneg h3 _ (merge_batches _ _ _ _ R1)). sizes. }
      assert (Hperm : (ts ++ [e]) ++ ps ++ x :: qs ≡ₚ ts ++ ps ++ x :: e :: qs).
      { rewrite <- app_assoc. apply Permutation_app_head. cbn [app].
        change (x :: e :: qs) with ([x] ++ e :: qs). change (x :: qs) with ([x] ++ qs).
        rewrite !(app_assoc ps). apply Permutation_middle. }
      destruct (IH h3 (MkCache l (csize c)) t' ps qs (ts ++ [e]) x (ext + sizeof_batch)) as
        (h' & c' & t2 & ext' & bs' & ts' & -> & S1 & S2 & S3 & S4 & S5 & S6 & S7); try done.
      { by rewrite Hperm. }
      { lia. }
      { cbn in Hn. lia. }
      exists h', c', t2, ext', bs', ts'. split_and!; try done.
      * by rewrite S3.
      * by rewrite S4.
      * lia.
      * by rewrite S6.
      * intros y Hy. rewrite S7, K5; [done | done |]. intros Hy2. apply Hy.
        apply list_elem_of_In in Hy2. rewrite Hperm in Hy2. by apply list_elem_of_In.
    + replace (ps ++ x :: e :: qs) with ((ps ++ [x]) ++ e :: qs) in * by (by rewrite <- app_assoc).
      replace (ts ++ (ps ++ [x]) ++ e :: qs) with (ts ++ (ps ++ [x]) ++ e :: qs) in * by done.
      apply (IH h c tmp (ps ++ [x]) qs ts e ext); try done. cbn in Hn. lia.
Qed.

Lemma MergeBatches_spec (h : heap) (c : QuarantineCache) (bs : list Z) :
  cache_rep h c bs -> bs <> [] ->
  exists h' c' tmp' bs' ts', MergeBatches h c empty_cache = Ok (h', c', tmp') /\
    cache_rep h' c' bs' /\ cache_rep h' tmp' ts' /\ contents h' bs' = contents h bs /\
    contents h' ts' = [] /\ total h' bs' + total h' ts' = total h bs /\
    ts' ++ bs' ≡ₚ bs /\ (forall y, ~ In y bs -> h' !! y = h !! y).
Proof.
  intros Hc Hne. pose proof Hc as [C1 C2 C3 C4]. destruct bs as [| x qs]; [done |].
  pose proof (total_nonneg h _ C4) as Htn.
  destruct (merge_loop_spec (Z.to_nat (list_size (list_ c))) h c empty_cache [] qs [] x 0)
    as (h' & c' & t' & ext' & bs' & ts' & He & R1 & R2 & K1 & K2 & K3 & K4 & K5); try done.
  { split; [done | cbn [app]; lia | cbn [app]; lia | done]. }
  { apply empty_cache_rep. }
  { apply (rep_nodup _ _ _ C1). }
  { unfold list_size. rewrite (rep_size _ _ _ C1). cbn [length]. lia. }
  unfold MergeBatches, front. pose proof (rep_chain _ _ _ C1) as (-> & _). rewrite He. step.
  destruct R1 as [S1 S2 [S3 S3'] S4]. pose proof (total_nonneg h' _ S4).
  eexists h', _, t', bs', ts'. split; [done |]. split; [| split_and!; try done].
  - split; [done | | sizes | done]. unfold SizeSub, Size. cbn [csize].
    rewrite wrap_small; [lia |]. sizes.
  - rewrite K3. unfold total at 2. cbn. lia.
Qed.

(** ** Recycling *)

(** The sizes of the global cache and of the events of one recycling. *)
Lemma Recycle_spec (s : qstate) (q : Quarantine) (bs : list Z) (m : Z) :
  cache_rep (batches s) (cache_ q) bs -> 0 <= m ->
  exists s' q' es bs', Recycle s q m = Ok (s', q') /\ q' = with_cache q (cache_ q') /\
    log s' = log s ++ es /\ cache_rep (batches s') (cache_ q') bs' /\
    recycled es ++ contents (batches s') bs' = contents (batches s) bs /\
    Forall recycling es /\ deallocated es ++ bs' ≡ₚ bs /\
    (forall y, In y (deallocated es) -> batches s' !! y = None) /\
    total (batches s') bs' <= m /\ total (batches s') bs' <= total (batches s) bs /\
    (forall b, In b bs' -> In b bs) /\
    (forall y, ~ In y bs -> batches s' !! y = batches s !! y).
Proof.
  intros Hc Hm. pose proof Hc as [C1 C2 C3 C4]. pose proof (total_nonneg _ _ C4) as Htn.
  unfold Recycle, Size, OverheadSize, list_size. rewrite (rep_size _ _ _ C1), C2.
  rewrite (wrap_small (Z.of_nat (length bs) * sizeof_batch)) by sizes.
  rewrite (check_true (_ <=? _)) by (apply Z.leb_le; sizes). step.
  assert (Hmerge : exists h c tmp bs1 ts1,
    (if (Z.of_nat (length bs) * sizeof_batch <? total (batches s) bs) &&
        (wrap (total (batches s) bs * kOverheadThresholdPercents) <?
         wrap (Z.of_nat (length bs) * sizeof_batch * (100 + kOverheadThresholdPercents)))
     then MergeBatches (batches s) (cache_ q) empty_cache
     else Ok (batches s, cache_ q, empty_cache)) = Ok (h, c, tmp) /\
    cache_rep h c bs1 /\ cache_rep h tmp ts1 /\ contents h bs1 = contents (batches s) bs /\
    contents h ts1 = [] /\ total h bs1 + total h ts1 = total (batches s) bs /\
    ts1 ++ bs1 ≡ₚ bs /\ (forall y, ~ In y bs -> h !! y = batches s !! y)).
  { destruct (_ && _) eqn:Hcond.
    - apply MergeBatches_spec; [done |]. intros ->. apply andb_true_iff in Hcond as [Hcond _].
      unfold total in Hcond. cbn in Hcond. done.
    - exists (batches s), (cache_ q), empty_cache, bs, []. split_and!; try done.
      + apply empty_cache_rep.
      + unfold total at 2. cbn. lia. }
  destruct Hmerge as (h & c & tmp & bs1 & ts1 & -> & Hc1 & Ht1 & K1 & K2 & K3 & K4 & K5). step.
  assert (Hnd : NoDup (ts1 ++ bs1)) by (rewrite K4; apply (rep_nodup _ _ _ C1)).
  destruct (extract_loop_spec bs1 h c tmp ts1 m (Z.to_nat (size_ (list_ c)))) as
    (h2 & c2 & t2 & ys & zs & -> & -> & Hc2 & Ht2 & Hle & Hp & Hf & _); try done.
  { lia. }
  { rewrite (rep_size _ _ _ (cache_list _ _ _ Hc1)). lia. }
  step.
  destruct (DoRecycle_spec (ts1 ++ ys) (with_heap s h2) t2 (S (Z.to_nat (size_ (list_ t2))))) as
    (s' & es & Hdo & Hlog & Hrec & Hdea & Hall & Hf2 & Hgone); [done | |].
  { rewrite (rep_size _ _ _ (cache_list _ _ _ Ht2)). lia. }
  rewrite Hdo. step. exists s'. eexists. exists es, zs. split; [done |].
  assert (Hzs : forall y, In y zs -> batches s' !! y = h2 !! y).
  { intros y Hy. rewrite Hf2; [done |]. intros Hy2. rewrite app_assoc in Hnd.
    apply NoDup_app in Hnd as (_ & Hnd & _). apply (Hnd y); by apply list_elem_of_In. }
  destruct (cache_frame h2 (batches s') c2 zs Hzs Hc2) as (Hc3 & Hcon & Htot).
  destruct (payload_frame h h2 (ts1 ++ ys ++ zs) (fun y _ => Hp y)) as (P1 & P2 & _).
  destruct (payload_frame h h2 zs (fun y _ => Hp y)) as (_ & P3 & _).
  pose proof (total_nonneg h ts1 (cache_batches _ _ _ Ht1)) as Hn1.
  assert (Hn2 : 0 <= total h ys).
  { assert (Hys : forall b, In b ys -> exists B, h !! b = Some B /\ batch_ok B).
    { intros b Hb. apply (cache_batches _ _ _ Hc1). apply in_or_app. by left. }
    pose proof (total_nonneg h ys Hys). sizes. }
  split_and!; try done.
  6:{ intros b Hb. apply list_elem_of_In. rewrite <- K4. apply list_elem_of_In.
      apply in_or_app. right. apply in_or_app. by right. }
  - rewrite Hrec, Hcon. cbn [batches with_heap]. rewrite <- contents_app, <- app_assoc, P1, contents_app, K2.
    cbn [app]. by rewrite K1.
  - by rewrite Hdea, <- app_assoc.
  - by rewrite Hdea.
  - by rewrite Htot.
  - rewrite Htot, P3. rewrite total_app in K3. sizes.
  - intros y Hy. assert (Hy' : ~ In y (ts1 ++ ys ++ zs)).
    { intros Hin. apply Hy. apply list_elem_of_In. rewrite <- K4. by apply list_elem_of_In. }
    rewrite Hf2 by (intros Hin; apply Hy'; rewrite app_assoc; apply in_or_app; by left).
    cbn [batches with_heap]. rewrite Hf by done. by apply K5.
Qed.

(** The two caches of an operation, over one heap. *)
Record caches_rep (s : qstate) (q : Quarantine) (c : QuarantineCache) (gs cs : list Z) : Prop := {
  caches_global : cache_rep (batches s) (cache_ q) gs;
  caches_local : cache_rep (batches s) c cs;
  caches_disjoint : NoDup (gs ++ cs);
}.

(** What every operation of the quarantine does: [es] are the callbacks made,
    recycled blocks leave at the front, and a batch is in one of the caches
    from its allocation to its deallocation. *)
Record queue_step (s : qstate) (gs cs : list Z) (added : list Z) (es : list event)
  (s' : qstate) (gs' cs' : list Z) : Prop := {
  step_log : log s' = log s ++ es;
  step_order : recycled es ++ contents (batches s') gs' ++ contents (batches s') cs' =
    contents (batches s) gs ++ contents (batches s) cs ++ added;
  step_batches : deallocated es ++ gs' ++ cs' ≡ₚ gs ++ cs ++ batches_allocated es;
  step_gone : forall y, In y (deallocated es) -> batches s' !! y = None;
  step_frame : forall y, ~ In y (deallocated es ++ gs' ++ cs') -> batches s' !! y = batches s !! y;
}.

(** A step that frees no batch and a step that allocates none. *)
Lemma queue_step_trans (s s1 s2 : qstate) (gs cs gs1 cs1 gs2 cs2 added : list Z) (es1 es2 : list event) :
  queue_step s gs cs added es1 s1 gs1 cs1 -> queue_step s1 gs1 cs1 [] es2 s2 gs2 cs2 ->
  deallocated es1 = [] -> Forall recycling es2 -> queue_step s gs cs added (es1 ++ es2) s2 gs2 cs2.
Proof.
  intros [L1 C1 B1 G1 F1] [L2 C2 B2 G2 F2] Hd Ha%recycling_allocates_nothing.
  rewrite Hd in *. rewrite Ha, app_nil_r in B2. cbn [app] in B1, F1.
  split; rewrite ?(proj1 (recycled_app _ _)), ?(proj2 (recycled_app _ _)), ?allocated_app, ?Hd, ?Ha, ?app_nil_r.
  - by rewrite L2, L1, app_assoc.
  - by rewrite <- app_assoc, C2, app_nil_r.
  - cbn [app]. by rewrite B2, B1.
  - exact G2.
  - cbn [app]. intros y Hy. rewrite F2 by done. apply F1. intros Hin. apply Hy.
    apply list_elem_of_In. rewrite B2. by apply list_elem_of_In.
Qed.

Lemma transfer_recycle_spec (s : qstate) (q : Quarantine) (c : QuarantineCache) (gs cs : list Z) (m : Z) :
  caches_rep s q c gs cs -> total (batches s) gs + total (batches s) cs < limit -> 0 <= m ->
  exists h g c', Transfer (batches s) (cache_ q) c = Ok (h, g, c') /\
    caches_rep (with_heap s h) (with_cache q g) c' (gs ++ cs) [] /\
    queue_step s gs cs [] [] (with_heap s h) (gs ++ cs) [] /\ csize c' = 0 /\
    total h (gs ++ cs) = total (batches s) gs + total (batches s) cs /\
    exists s' q' gs' es, Recycle (with_heap s h) (with_cache q g) m = Ok (s', q') /\
      caches_rep s' q' c' gs' [] /\ queue_step s gs cs [] es s' gs' [] /\ Forall recycling es /\
      csize (cache_ q') <= m /\ max_size q' = max_size q /\ max_cache_size q' = max_cache_size q /\
      min_size q' = min_size q.
Proof.
  intros [G L D] Hlim Hm.
  destruct (Transfer_spec (batches s) (cache_ q) c gs cs G L D Hlim) as (h & g & c' & -> & R1 & R2 & Hp & Hf).
  destruct (payload_frame (batches s) h (gs ++ cs) (fun y _ => Hp y)) as (F1 & F2 & _).
  exists h, g, c'. split; [done |]. split; [split; [done | done | by rewrite app_nil_r] |].
  assert (Hstep : queue_step s gs cs [] [] (with_heap s h) (gs ++ cs) []).
  { split; cbn [with_heap log batches app recycled deallocated batches_allocated omap list_omap]; rewrite ?app_nil_r; try done.
    - by rewrite F1, contents_app.
    - intros y Hy. apply Hf. intros Hin. apply Hy, in_app_iff. by left. }
  split; [done |]. split; [by rewrite (cache_size _ _ _ R2) |]. split; [by rewrite F2, total_app |].
  destruct (Recycle_spec (with_heap s h) (with_cache q g) (gs ++ cs) m R1 Hm) as
    (s' & q' & es & gs' & -> & Hq & Hlog & Hc & Hcon & Hall & Hdea & Hgone & Hle & _ & Hin & Hfr).
  exists s', q', gs', es. split; [done |]. cbn [with_heap batches log] in *.
  assert (Hc' : cache_rep (batches s') c' []).
  { by apply (cache_frame h (batches s') c' []). }
  split_and!; try (rewrite Hq; done); [| | done |].
  - split; [done | done |]. rewrite app_nil_r. apply (rep_nodup _ _ _ (cache_list _ _ _ Hc)).
  - apply (queue_step_trans _ _ _ _ _ _ _ _ _ _ _ _ Hstep); [| done | done].
    split; rewrite ?(recycling_allocates_nothing _ Hall), ?app_nil_r; cbn [with_heap log batches]; try done.
    intros y Hy. apply Hfr. intros Hy2. apply Hy. apply list_elem_of_In. rewrite Hdea. by apply list_elem_of_In.
  - by rewrite (cache_size _ _ _ Hc).
Qed.

Lemma Drain_spec (free : bool) (s : qstate) (q : Quarantine) (c : QuarantineCache) (gs cs : list Z) :
  caches_rep s q c gs cs -> total (batches s) gs + total (batches s) cs < limit ->
  0 <= min_size q <= max_size q ->
  exists s' q' c' gs' es, Drain free s q c = Ok (s', q', c') /\ caches_rep s' q' c' gs' [] /\
    queue_step s gs cs [] es s' gs' [] /\ Forall recycling es /\ csize c' = 0 /\
    (free = true -> csize (cache_ q') <= max_size q) /\
    max_size q' = max_size q /\ max_cache_size q' = max_cache_size q /\ min_size q' = min_size q.
Proof.
  intros Hr Hlim Hm.
  destruct (transfer_recycle_spec s q c gs cs (min_size q) Hr Hlim ltac:(lia)) as
    (h & g & c' & Htr & Hr1 & Hf1 & Hz & Htot & s' & q' & gs' & es & Hrec & Hr2 & Hf2 & Hall & Hle & Hq1 & Hq2 & Hq3).
  unfold Drain. rewrite Htr. step. cbn [with_cache cache_ max_size min_size]. unfold Size.
  destruct ((max_size q <? csize g) && free) eqn:Hcond.
  - rewrite Hrec. step. exists s', q', c', gs', es. split_and!; try done. lia.
  - exists (with_heap s h), (with_cache q g), c', (gs ++ cs), []. split_and!; try done.
    intros ->. rewrite andb_true_r in Hcond. zb. cbn. lia.
Qed.

(** The callbacks of [Put]: the block is prepared, a batch may be allocated,
    and the rest is recycling. *)
Definition put_events (quarantined : bool) (ptr : Z) (h : heap) (es : list event) : Prop :=
  exists new rest, es = (if quarantined then PreQuarantine ptr :: new else [RecyclePassThrough ptr]) ++ rest /\
    (new = [] \/ exists b, fresh_batch_at h b /\ new = [EvAllocate b]) /\ Forall recycling rest.

Lemma Put_spec (free : bool) (s : qstate) (q : Quarantine) (c : QuarantineCache)
  (gs cs : list Z) (ptr sz b : Z) :
  fresh_batch_at (batches s) b -> caches_rep s q c gs cs -> 0 <= sz ->
  total (batches s) gs + total (batches s) cs + sz + sizeof_batch < limit ->
  0 <= min_size q <= max_size q -> 0 <= max_cache_size q ->
  let quarantined := negb (max_cache_size q =? 0) && (sz <=? max_size q) in
  exists s' q' c' gs' cs' es, Put alloc garbage free s q c ptr sz = Ok (s', q', c') /\
    caches_rep s' q' c' gs' cs' /\
    queue_step s gs cs (if quarantined then [ptr] else []) es s' gs' cs' /\ put_events quarantined ptr (batches s) es /\
    csize c' <= max_cache_size q /\
    (free = true -> csize (cache_ q) <= max_size q -> csize (cache_ q') <= max_size q) /\
    max_size q' = max_size q /\ max_cache_size q' = max_cache_size q /\ min_size q' = min_size q.
Proof.
  intros Hb [G L D] Hsz Hlim Hm Hmc quarantined. pose proof Hb as (_ & _ & Hfr).
  assert (Hput : exists s1 c1 cs1 es1,
    (if quarantined then Enqueue alloc garbage (emit s (PreQuarantine ptr)) c ptr sz
     else Ok (emit s (RecyclePassThrough ptr), c)) = Ok (s1, c1) /\
    caches_rep s1 q c1 gs cs1 /\
    queue_step s gs cs (if quarantined then [ptr] else []) es1 s1 gs cs1 /\
    put_events quarantined ptr (batches s) es1 /\ deallocated es1 = [] /\
    total (batches s1) gs + total (batches s1) cs1 < limit).
  { destruct quarantined.
    - destruct (Enqueue_spec (emit s (PreQuarantine ptr)) c cs ptr sz b Hb L Hsz) as
        (s1 & c1 & cs1 & es & -> & R1 & HL & Hes & K1 & K2 & K4).
      { cbn [emit batches]. pose proof (total_nonneg _ _ (cache_batches _ _ _ G)). sizes. }
      cbn [emit batches log] in *. exists s1, c1, cs1, (PreQuarantine ptr :: es). split; [done |].
      assert (Hgin : forall y, In y gs -> exists B, batches s !! y = Some B)
        by (intros y Hy; destruct (cache_batches _ _ _ G y Hy) as (B & HB & _); by exists B).
      assert (Hlin : forall y, In y cs -> exists B, batches s !! y = Some B)
        by (intros y Hy; destruct (cache_batches _ _ _ L y Hy) as (B & HB & _); by exists B).
      assert (Hnd : NoDup (gs ++ cs1)).
      { destruct Hes as [[_ ->] | [_ ->]]; [done |]. rewrite app_assoc. apply NoDup_app. split; [done |].
        split; [| apply NoDup_singleton]. intros x Hx Hx2%list_elem_of_singleton. subst x.
        apply elem_of_app in Hx as [Hx | Hx]; apply list_elem_of_In in Hx.
        - destruct (Hgin _ Hx); congruence.
        - destruct (Hlin _ Hx); congruence. }
      assert (Hgs : forall y, In y gs -> batches s1 !! y = batches s !! y).
      { intros y Hy. apply K4. intros Hy2. apply NoDup_app in Hnd as (_ & Hnd & _).
        apply (Hnd y); by apply list_elem_of_In. }
      destruct (cache_frame (batches s) (batches s1) (cache_ q) gs Hgs G) as (G' & Hcon & Htot).
      assert (Hdea : deallocated es = [] /\ recycled es = [] /\ gs ++ cs1 ≡ₚ gs ++ cs ++ batches_allocated es /\
        (es = [] \/ exists b, fresh_batch_at (batches s) b /\ es = [EvAllocate b])).
      { destruct Hes as [[-> ->] | [-> ->]]; cbn; rewrite ?app_nil_r; split_and!; try done; [by left |].
        right. by exists b. }
      destruct Hdea as (Hd1 & Hd2 & Hd3 & Hd4).
      split; [by split |]. split; [| split; [| split; [exact Hd1 | lia]]].
      + split.
        * by rewrite HL, <- app_assoc.
        * change (recycled (PreQuarantine ptr :: es)) with (recycled es). rewrite Hd2, Hcon, K1. done.
        * change (deallocated (PreQuarantine ptr :: es)) with (deallocated es).
          change (batches_allocated (PreQuarantine ptr :: es)) with (batches_allocated es). by rewrite Hd1.
        * change (deallocated (PreQuarantine ptr :: es)) with (deallocated es). by rewrite Hd1.
        * intros y Hy. apply K4. intros Hy2. apply Hy. rewrite !in_app_iff. tauto.
      + exists es, []. by rewrite app_nil_r.
    - exists (emit s (RecyclePassThrough ptr)), c, cs, [RecyclePassThrough ptr]. split; [done |].
      split; [done |]. split; [| split; [by exists [], []; repeat split; [left | constructor] | split; [done | cbn; sizes]]].
      split; cbn; rewrite ?app_nil_r; done. }
  destruct Hput as (s1 & c1 & cs1 & es1 & Hp & Hr1 & Hf1 & Hev1 & Hd1 & Hlim1). unfold Put. fold quarantined. rewrite Hp.
  step. unfold Size. destruct (Z.ltb_spec (max_cache_size q) (csize c1)) as [Hbig | Hsmall].
  - destruct (Drain_spec free s1 q c1 gs cs1 Hr1 Hlim1 Hm) as
      (s' & q' & c' & gs' & es & -> & Hr2 & Hf2 & Hall & Hz & Hle & Hq).
    exists s', q', c', gs', [], (es1 ++ es). split_and!; try done; try apply Hq.
    + by apply (queue_step_trans s s1 s' gs cs gs cs1).
    + destruct Hev1 as (new & rest & -> & Hnew & Hrest). exists new, (rest ++ es).
      rewrite <- app_assoc. split_and!; [done | done | by apply Forall_app].
    + lia.
    + intros Hfree _. by apply Hle.
  - exists s1, q, c1, gs, cs1, es1. by split_and!.
Qed.

Lemma DrainAndRecycle_spec (s : qstate) (q : Quarantine) (c : QuarantineCache) (gs cs : list Z) :
  caches_rep s q c gs cs -> total (batches s) gs + total (batches s) cs < limit ->
  exists s' q' c' es, DrainAndRecycle s q c = Ok (s', q', c') /\ caches_rep s' q' c' [] [] /\
    queue_step s gs cs [] es s' [] [] /\ Forall recycling es.
Proof.
  intros Hr Hlim.
  destruct (transfer_recycle_spec s q c gs cs 0 Hr Hlim ltac:(lia)) as
    (h & g & c' & Htr & Hr1 & Hf1 & Hz & Htot & s' & q' & gs' & es & Hrec & Hr2 & Hf2 & Hall & Hle & _).
  unfold DrainAndRecycle. rewrite Htr. step. rewrite Hrec. step. exists s', q', c', es. split; [done |].
  assert (gs' = []) as ->.
  { pose proof (caches_global _ _ _ _ _ Hr2) as Hg.
    pose proof (total_nonneg _ _ (cache_batches _ _ _ Hg)). rewrite (cache_size _ _ _ Hg) in Hle.
    destruct gs'; [done |]. cbn [length] in *. sizes. }
  by split_and!.
Qed.
End specs.

(** An allocator of batches: a fresh positive address. *)
Definition fresh_batch (h : heap) : result Z := Ok (base.fresh ({[0]} ∪ dom h : gset Z)).

Lemma fresh_batch_ok (h : heap) : exists b, fresh_batch_at fresh_batch h b.
Proof.
  eexists. split; [done |]. pose proof (is_fresh ({[0]} ∪ dom h : gset Z)) as Hf.
  split; [set_solver |]. apply not_elem_of_dom. set_solver.
Qed.

(** C11.  The quarantine is a FIFO within its limits.  [Put] never fails; the
    blocks it recycles, followed by the blocks still in the global cache and
    in the thread's cache, are the blocks that were there before followed by
    the new one (when its size is admitted), in order: none is lost, none
    comes back twice and none overtakes another.  Afterwards the thread's
    cache is within [max_cache_size], and the global one within [max_size] if
    it was so before and nobody else is recycling. *)
Theorem quarantine_put_fifo (alloc : heap -> result Z) (garbage : QuarantineBatch)
  (free : bool) (s : qstate) (q : Quarantine) (c : QuarantineCache) (gs cs : list Z) (ptr sz b : Z)
  (Hfresh : fresh_batch_at alloc (batches s) b) (Hrep : caches_rep s q c gs cs) (Hsz : 0 <= sz)
  (Hlim : total (batches s) gs + total (batches s) cs + sz + sizeof_batch < limit)
  (Hmin : 0 <= min_size q <= max_size q) (Hmc : 0 <= max_cache_size q) :
  let quarantined := negb (max_cache_size q =? 0) && (sz <=? max_size q) in
  exists s' q' c' gs' cs' es, Put alloc garbage free s q c ptr sz = Ok (s', q', c') /\
    caches_rep s' q' c' gs' cs' /\
    queue_step s gs cs (if quarantined then [ptr] else []) es s' gs' cs' /\
    put_events alloc quarantined ptr (batches s) es /\
    csize c' <= max_cache_size q /\
    (free = true -> csize (cache_ q) <= max_size q -> csize (cache_ q') <= max_size q) /\
    max_size q' = max_size q /\ max_cache_size q' = max_cache_size q /\ min_size q' = min_size q.
Proof. by apply (Put_spec alloc garbage free s q c gs cs ptr sz b). Qed.

Lemma quarantine_put_fifo_witness :
  exists s' q' c' gs' cs' es,
    Put fresh_batch (MkBatch 0 0 0 (fun _ => 0)) true (QState ∅ [])
      (MkQuarantine 10000 9000 100 empty_cache) empty_cache 4096 64 = Ok (s', q', c') /\
    caches_rep s' q' c' gs' cs' /\ queue_step (QState ∅ []) [] [] [4096] es s' gs' cs' /\
    put_events fresh_batch true 4096 ∅ es /\
    csize c' <= 100 /\ (true = true -> 0 <= 10000 -> csize (cache_ q') <= 10000) /\
    max_size q' = 10000 /\ max_cache_size q' = 100 /\ min_size q' = 9000.
Proof.
  destruct (fresh_batch_ok ∅) as (b & Hb).
  apply (quarantine_put_fifo fresh_batch (MkBatch 0 0 0 (fun _ => 0)) true (QState ∅ [])
    (MkQuarantine 10000 9000 100 empty_cache) empty_cache [] [] 4096 64 b Hb); try (cbn; lia); try reflexivity.
  split; [apply empty_cache_rep | apply empty_cache_rep | apply NoDup_nil_2].
Defined.


