(* ===== verification/Strings.v ===== *)
(** * Strings: the string functions of sanitizer_libc.cpp

    Every function of the file that walks a NUL-terminated string, over the
    byte memory of [Memory].  A loop whose bound the caller does not pass runs
    on [fuel]; the theorems take strings shorter than [fuel] and conclude that
    the call returns.  Addresses do not wrap inside an object.  [char] is
    signed and [wchar_t] four bytes wide, as on Linux. *)

From S2P Require Import Prelude Words Memory.

(** [wchar_t] cells. *)
Definition load_wchar (m : memory) (p : Z) : Z := load_bytes m p 4.
Definition store_wchar (m : memory) (p v : Z) : memory := store_bytes m p v 4.

Section strings.
Context (fuel : nat).

Fixpoint strlen_loop (m : memory) (s i : Z) (k : nat) : result Z :=
  match k with
  | O => Die OutOfFuel
  | S k' => if load_s8 m (s + i) =? 0 then Ok i else strlen_loop m s (i + 1) k'
  end.
Definition internal_strlen (m : memory) (s : Z) : result Z := strlen_loop m s 0 fuel.

Fixpoint strnlen_loop (m : memory) (s maxlen i : Z) (k : nat) : result Z :=
  match k with
  | O => Die OutOfFuel
  | S k' =>
      if (i <? maxlen) && negb (load_s8 m (s + i) =? 0) then strnlen_loop m s maxlen (i + 1) k'
      else Ok i
  end.
Definition internal_strnlen (m : memory) (s maxlen : Z) : result Z := strnlen_loop m s maxlen 0 fuel.

Fixpoint wcslen_loop (m : memory) (s i : Z) (k : nat) : result Z :=
  match k with
  | O => Die OutOfFuel
  | S k' => if load_wchar m (s + 4 * i) =? 0 then Ok i else wcslen_loop m s (i + 1) k'
  end.
Definition internal_wcslen (m : memory) (s : Z) : result Z := wcslen_loop m s 0 fuel.

Fixpoint wcsnlen_loop (m : memory) (s maxlen i : Z) (k : nat) : result Z :=
  match k with
  | O => Die OutOfFuel
  | S k' =>
      if (i <? maxlen) && negb (load_wchar m (s + 4 * i) =? 0) then wcsnlen_loop m s maxlen (i + 1) k'
      else Ok i
  end.
Definition internal_wcsnlen (m : memory) (s maxlen : Z) : result Z := wcsnlen_loop m s maxlen 0 fuel.

(** The null pointer that a search may return is [None]. *)
Fixpoint strchr_loop (m : memory) (s c : Z) (k : nat) : result (option Z) :=
  match k with
  | O => Die OutOfFuel
  | S k' =>
      if load_s8 m s =? to_s8 c then Ok (Some s)
      else if load_s8 m s =? 0 then Ok None
      else strchr_loop m (s + 1) c k'
  end.
Definition internal_strchr (m : memory) (s c : Z) : result (option Z) := strchr_loop m s c fuel.

Definition internal_strchrnul (m : memory) (s c : Z) : result Z :=
  res ← internal_strchr m s c;
  match res with
  | Some p => Ok p
  | None => n ← internal_strlen m s; Ok (s + n)
  end.

(** [s[i] == c] compares a signed [char] with an [int]. *)
Fixpoint strrchr_loop (m : memory) (s c i : Z) (res : option Z) (k : nat) : result (option Z) :=
  match k with
  | O => Die OutOfFuel
  | S k' =>
      if load_s8 m (s + i) =? 0 then Ok res
      else strrchr_loop m s c (i + 1) (if load_s8 m (s + i) =? c then Some (s + i) else res) k'
  end.
Definition internal_strrchr (m : memory) (s c : Z) : result (option Z) := strrchr_loop m s c 0 None fuel.

Fixpoint strcspn_loop (m : memory) (s reject i : Z) (k : nat) : result Z :=
  match k with
  | O => Die OutOfFuel
  | S k' =>
      if load_s8 m (s + i) =? 0 then Ok i
      else
        r ← internal_strchr m reject (load_s8 m (s + i));
        match r with
        | Some _ => Ok i
        | None => strcspn_loop m s reject (i + 1) k'
        end
  end.
Definition internal_strcspn (m : memory) (s reject : Z) : result Z := strcspn_loop m s reject 0 fuel.

(** [unsigned c1 = *s1] sign-extends the byte to 32 bits. *)
Definition unsigned_char (m : memory) (s : Z) : Z := to_u32 (load_s8 m s).

Fixpoint strcmp_loop (m : memory) (s1 s2 : Z) (k : nat) : result Z :=
  match k with
  | O => Die OutOfFuel
  | S k' =>
      let c1 := unsigned_char m s1 in
      let c2 := unsigned_char m s2 in
      if negb (c1 =? c2) then Ok (if c1 <? c2 then -1 else 1)
      else if c1 =? 0 then Ok 0
      else strcmp_loop m (s1 + 1) (s2 + 1) k'
  end.
Definition internal_strcmp (m : memory) (s1 s2 : Z) : result Z := strcmp_loop m s1 s2 fuel.

Fixpoint strncmp_loop (m : memory) (s1 s2 i n : Z) (k : nat) : result Z :=
  match k with
  | O => Die OutOfFuel
  | S k' =>
      if i <? n then
        let c1 := unsigned_char m s1 in
        let c2 := unsigned_char m s2 in
        if negb (c1 =? c2) then Ok (if c1 <? c2 then -1 else 1)
        else if c1 =? 0 then Ok 0
        else strncmp_loop m (s1 + 1) (s2 + 1) (i + 1) n k'
      else Ok 0
  end.
Definition internal_strncmp (m : memory) (s1 s2 n : Z) : result Z := strncmp_loop m s1 s2 0 n fuel.

(** [s2] is the block [InternalAlloc] returned. *)
Definition internal_strdup (m : memory) (s s2 : Z) : result (memory * Z) :=
  len ← internal_strlen m s;
  Ok (store (internal_memcpy m s2 s len) (s2 + len) 0, s2).

Definition internal_strlcat (m : memory) (dst src maxlen : Z) : result (memory * Z) :=
  srclen ← internal_strlen m src;
  dstlen ← internal_strnlen m dst maxlen;
  if dstlen =? maxlen then Ok (m, maxlen +w srclen)
  else
    m ← (if srclen <? maxlen - dstlen then internal_memmove m (dst + dstlen) src (srclen + 1)
         else
           m ← internal_memmove m (dst + dstlen) src (maxlen - dstlen - 1);
           Ok (store m (dst + maxlen - 1) 0));
    Ok (m, dstlen +w srclen).

Definition internal_strlcpy (m : memory) (dst src maxlen : Z) : result (memory * Z) :=
  srclen ← internal_strlen m src;
  m ← (if srclen <? maxlen then internal_memmove m dst src (srclen + 1)
       else if negb (maxlen =? 0) then
         m ← internal_memmove m dst src (maxlen - 1);
         Ok (store m (dst + maxlen - 1) 0)
       else Ok m);
  Ok (m, srclen).

(** [for (i = 0; i < n && src[i]; i++) dst[i] = src[i];] and the index it
    stops at. *)
Fixpoint copy_chars (m : memory) (dst src n i : Z) (k : nat) : result (memory * Z) :=
  match k with
  | O => Die OutOfFuel
  | S k' =>
      if (i <? n) && negb (load_s8 m (src + i) =? 0) then
        copy_chars (store m (dst + i) (m (src + i))) dst src n (i + 1) k'
      else Ok (m, i)
  end.

Definition internal_strncat (m : memory) (dst src n : Z) : result memory :=
  len ← internal_strlen m dst;
  '(m, i) ← copy_chars m (dst + len) src n 0 fuel;
  Ok (store m (dst + len + i) 0).

Definition internal_strncpy (m : memory) (dst src n : Z) : result memory :=
  '(m, i) ← copy_chars m dst src n 0 fuel;
  Ok (internal_memset m (dst + i) 0 (n - i)).

Fixpoint copy_wchars (m : memory) (dst src n i : Z) (k : nat) : result (memory * Z) :=
  match k with
  | O => Die OutOfFuel
  | S k' =>
      if (i <? n) && negb (load_wchar m (src + 4 * i) =? 0) then
        copy_wchars (store_wchar m (dst + 4 * i) (load_wchar m (src + 4 * i))) dst src n (i + 1) k'
      else Ok (m, i)
  end.

Definition internal_wcsncpy (m : memory) (dst src n : Z) : result memory :=
  '(m, i) ← copy_wchars m dst src n 0 fuel;
  Ok (internal_memset m (dst + 4 * i) 0 ((n - i) * 4)).

(** [do { *dst_it++ = *src++; } while ( *src);] *)
Fixpoint internal_wcscpy (m : memory) (dst_it src : Z) (k : nat) : result memory :=
  match k with
  | O => Die OutOfFuel
  | S k' =>
      let m := store_wchar m dst_it (load_wchar m src) in
      if load_wchar m (src + 4) =? 0 then Ok m else internal_wcscpy m (dst_it + 4) (src + 4) k'
  end.

Fixpoint strstr_loop (m : memory) (haystack needle len2 pos : Z) (k : nat) : option Z :=
  match k with
  | O => None
  | S k' =>
      if internal_memcmp m (haystack + pos) needle len2 =? 0 then Some (haystack + pos)
      else strstr_loop m haystack needle len2 (pos + 1) k'
  end.

(** The loop over [pos] takes [len1 - len2 + 1] turns. *)
Definition internal_strstr (m : memory) (haystack needle : Z) : result (option Z) :=
  len1 ← internal_strlen m haystack;
  len2 ← internal_strlen m needle;
  if len1 <? len2 then Ok None
  else Ok (strstr_loop m haystack needle len2 0 (Z.to_nat (len1 - len2 + 1))).

Definition UINT64_MAX : Z := 18446744073709551615.
Definition INT64_MAX : Z := 9223372036854775807.
Definition INT64_MIN : Z := -9223372036854775808.

Fixpoint skip_spaces (m : memory) (nptr : Z) (k : nat) : result Z :=
  match k with
  | O => Die OutOfFuel
  | S k' => if IsSpace (load_s8 m nptr) then skip_spaces m (nptr + 1) k' else Ok nptr
  end.

(** One turn of the digit loop on the accumulator. *)
Definition add_digit (res digit : Z) : Z :=
  let res := if res <=? UINT64_MAX / 10 then res * 10 else UINT64_MAX in
  if res <=? UINT64_MAX - digit then res + digit else UINT64_MAX.

Fixpoint read_digits (m : memory) (nptr res : Z) (have_digits : bool) (k : nat)
  : result (Z * Z * bool) :=
  match k with
  | O => Die OutOfFuel
  | S k' =>
      if IsDigit (load_s8 m nptr) then
        read_digits m (nptr + 1) (add_digit res (load_s8 m nptr - 48)) true k'
      else Ok (nptr, res, have_digits)
  end.

(** The value and [*endptr]. *)
Definition internal_simple_strtoll (m : memory) (nptr base : Z) : result (Z * Z) :=
  _ ← check (base =? 10);
  nptr ← skip_spaces m nptr fuel;
  let old_nptr := nptr in
  let '(sgn, nptr) :=
    if load_s8 m nptr =? 43 then (1, nptr + 1)
    else if load_s8 m nptr =? 45 then (-1, nptr + 1)
    else (1, nptr) in
  '(nptr, res, have_digits) ← read_digits m nptr 0 false fuel;
  let endptr := if have_digits : bool then nptr else old_nptr in
  Ok (if 0 <? sgn then Z.min INT64_MAX res
      else if INT64_MAX <? res then INT64_MIN else res * -1, endptr).

Definition internal_atoll (m : memory) (nptr : Z) : result Z :=
  '(v, _) ← internal_simple_strtoll m nptr 10;
  Ok v.
End strings.
