(* ===== verification/StringSpecs.v ===== *)
(** * What the string functions compute

    A C string is the list of its non-zero bytes followed by a zero byte in
    memory ([cstr]).  Against that view: the bounded copies, the comparisons,
    the substring search and the number parser of [Strings]. *)

From S2P Require Import Prelude Words Memory Strings.

(** The bytes [bs] lie at [p]. *)
Fixpoint bytes_at (m : memory) (p : Z) (bs : list Z) : Prop :=
  match bs with
  | [] => True
  | b :: bs' => m p = b /\ bytes_at m (p + 1) bs'
  end.

Definition chars (bs : list Z) : Prop := Forall (fun b => 0 < b < 256) bs.
Definition cstr (m : memory) (s : Z) (bs : list Z) : Prop := chars bs /\ bytes_at m s (bs ++ [0]).

Abbreviation len bs := (Z.of_nat (length bs)).

Lemma bytes_at_app (m : memory) (p : Z) (xs ys : list Z) :
  bytes_at m p (xs ++ ys) <-> bytes_at m p xs /\ bytes_at m (p + len xs) ys.
Proof.
  revert p. induction xs as [| x xs IH]; intros p; cbn [app bytes_at length].
  - rewrite Z.add_0_r. tauto.
  - rewrite IH. replace (p + 1 + len xs) with (p + Z.of_nat (S (length xs))) by lia. tauto.
Qed.

Lemma bytes_at_frame (m m' : memory) (p : Z) (bs : list Z) :
  (forall a, p <= a < p + len bs -> m' a = m a) -> bytes_at m p bs -> bytes_at m' p bs.
Proof.
  revert p. induction bs as [| b bs IH]; intros p Hf; cbn [bytes_at length] in *; [done |].
  intros [Hb H]. split; [rewrite Hf by lia; done |]. apply IH; [| done]. intros a Ha. apply Hf. lia.
Qed.

(** [m'] holds at [q] what [m] holds at [p]. *)
Lemma bytes_at_move (m m' : memory) (p q : Z) (bs : list Z) :
  (forall i, 0 <= i < len bs -> m' (q + i) = m (p + i)) -> bytes_at m p bs -> bytes_at m' q bs.
Proof.
  revert p q. induction bs as [| b bs IH]; intros p q Hf; cbn [bytes_at length] in *; [done |].
  intros [Hb H]. split; [rewrite <- (Z.add_0_r q), Hf, Z.add_0_r by lia; done |].
  apply (IH (p + 1)); [| done]. intros i Hi. rewrite <- !Z.add_assoc. apply Hf. lia.
Qed.

Lemma cstr_nil (m : memory) (s : Z) : cstr m s [] <-> m s = 0.
Proof. unfold cstr, chars. cbn. rewrite Forall_nil. tauto. Qed.

Lemma cstr_cons (m : memory) (s b : Z) (bs : list Z) :
  cstr m s (b :: bs) <-> m s = b /\ 0 < b < 256 /\ cstr m (s + 1) bs.
Proof. unfold cstr, chars. cbn. rewrite Forall_cons. tauto. Qed.

Lemma cstr_bytes (m : memory) (s : Z) (bs : list Z) :
  cstr m s bs -> bytes_at m s bs /\ m (s + len bs) = 0.
Proof. intros [_ H]. apply bytes_at_app in H as [H1 [H2 _]]. done. Qed.

Lemma load_s8_eq (m : memory) (p b : Z) : m p = b -> load_s8 m p = to_s8 b.
Proof. unfold load_s8. by intros ->. Qed.

Lemma load_s8_zero (m : memory) (p : Z) : m p = 0 -> load_s8 m p = 0.
Proof. unfold load_s8. by intros ->. Qed.

Lemma load_s8_char (m : memory) (p : Z) : 0 < m p < 256 -> (load_s8 m p =? 0) = false.
Proof.
  intros H. apply Z.eqb_neq. unfold load_s8. change 0 with (to_s8 0). intros Heq.
  apply to_s8_inj in Heq; unfold is_u8; lia.
Qed.

(** [chr] decides the tests on the byte at the head of a string. *)
Ltac chr := match goal with
  | H : ?m ?p = 0 |- context [load_s8 ?m ?p] => rewrite (load_s8_zero m p H)
  | H : 0 < ?m ?p < 256 |- context [load_s8 ?m ?p =? 0] => rewrite (load_s8_char m p H)
  end.

Section specs.
Context (fuel : nat).

Lemma strlen_loop_spec (m : memory) (bs : list Z) (s i : Z) (k : nat) :
  cstr m (s + i) bs -> (length bs < k)%nat -> strlen_loop m s i k = Ok (i + len bs).
Proof.
  revert i k. induction bs as [| b bs IH]; intros i k H Hk; destruct k as [| k];
    cbn [length strlen_loop] in *; try lia.
  - apply cstr_nil in H. chr. cbn. f_equal. lia.
  - apply cstr_cons in H as (Hb & Hr & H). rewrite <- Hb in Hr. chr.
    rewrite (IH (i + 1)); [f_equal; lia | by rewrite Z.add_assoc | lia].
Qed.

Lemma internal_strlen_spec (m : memory) (s : Z) (bs : list Z) :
  cstr m s bs -> (length bs < fuel)%nat -> internal_strlen fuel m s = Ok (len bs).
Proof. intros H Hk. apply (strlen_loop_spec m bs s 0); [by rewrite Z.add_0_r | done]. Qed.

(** Nothing but characters for [maxlen] bytes, or up to a zero byte. *)
Definition bounded_str (m : memory) (s maxlen : Z) (bs : list Z) : Prop :=
  chars bs /\ bytes_at m s bs /\ (len bs < maxlen /\ m (s + len bs) = 0 \/ len bs = maxlen).

Lemma strnlen_loop_spec (m : memory) (bs : list Z) (s maxlen i : Z) (k : nat) :
  bounded_str m (s + i) (maxlen - i) bs -> (length bs < k)%nat ->
  strnlen_loop m s maxlen i k = Ok (i + len bs).
Proof.
  revert i k. induction bs as [| b bs IH]; intros i k (Hc & Hb & He) Hk; destruct k as [| k];
    cbn [length strnlen_loop bytes_at] in *; try lia.
  - rewrite !Z.add_0_r in *. destruct He as [[_ He] | He].
    + chr. cbn. rewrite andb_false_r. done.
    + rewrite (proj2 (Z.ltb_ge _ _)) by lia. done.
  - inversion_clear Hc as [| ? ? Hr Hc']. destruct Hb as [Hb Hb']. rewrite <- Hb in Hr. chr.
    rewrite (proj2 (Z.ltb_lt _ _)) by lia. cbn [negb andb].
    rewrite (IH (i + 1)); [f_equal; lia | | lia]. split; [done |].
    split; [by rewrite Z.add_assoc |]. destruct He as [[? He] | He]; [left | right; lia].
    split; [lia |]. rewrite <- He. f_equal. lia.
Qed.

Lemma internal_strnlen_spec (m : memory) (s maxlen : Z) (bs : list Z) :
  bounded_str m s maxlen bs -> (length bs < fuel)%nat -> internal_strnlen fuel m s maxlen = Ok (len bs).
Proof.
  intros H Hk. apply (strnlen_loop_spec m bs s maxlen 0); [| done]. by rewrite Z.add_0_r, Z.sub_0_r.
Qed.

(** [internal_memmove] as the later proofs use it. *)
Lemma memmove_spec (m : memory) (dest src n : Z) : 0 <= n < 9223372036854775808 ->
  exists m', internal_memmove m dest src n = Ok m' /\
    (forall i, 0 <= i < n -> m' (dest + i) = m (src + i)) /\
    (forall a, a < dest \/ dest + n <= a -> m' a = m a).
Proof.
  intros Hn. unfold internal_memmove. rewrite swrap_small by (unfold is_sptr; lia).
  rewrite check_true by (apply Z.leb_le; lia). step. eexists. split; [done |].
  assert (Hgen : forall a,
    (if dest <? src then copy_up m dest src 0 (Z.to_nat n)
     else if (src <? dest) && (0 <? n) then copy_down m dest src (Z.to_nat n) else m) a =
    if (dest <=? a) && (a <? dest + n) then m (src + (a - dest)) else m a).
  { intros a. destruct (Z.ltb_spec dest src).
    - rewrite copy_up_spec by lia. by rewrite Z.add_0_r, Z2Nat.id by lia.
    - destruct (Z.ltb_spec src dest), (Z.ltb_spec 0 n); cbn [andb].
      + rewrite copy_down_spec by lia. by rewrite Z2Nat.id by lia.
      + destruct (Z.leb_spec dest a), (Z.ltb_spec a (dest + n)); simpl; done || lia.
      + replace (src + (a - dest)) with a by lia. by destruct (_ && _).
      + destruct (Z.leb_spec dest a), (Z.ltb_spec a (dest + n)); simpl; done || lia. }
  split; intros a Ha; rewrite Hgen.
  - rewrite (proj2 (Z.leb_le _ _)), (proj2 (Z.ltb_lt _ _)) by lia. cbn. f_equal. lia.
  - destruct (Z.leb_spec dest a), (Z.ltb_spec a (dest + n)); simpl; done || lia.
Qed.

(** ** Bounded copies *)

(** The part of [strlcpy] and [strlcat] that writes: [ss] is appended at
    [d] within [room] bytes, the last of which is kept for the zero byte. *)
Definition append_within (m : memory) (d src srclen room : Z) : result memory :=
  if srclen <? room then internal_memmove m d src (srclen + 1)
  else m ← internal_memmove m d src (room - 1); Ok (store m (d + room - 1) 0).

Lemma take_chars (n : nat) (bs : list Z) : chars bs -> chars (take n bs).
Proof. apply Forall_take. Qed.

Lemma append_within_spec (m : memory) (d src room : Z) (ss : list Z) :
  cstr m src ss -> 0 < room < 9223372036854775808 ->
  exists m', append_within m d src (len ss) room = Ok m' /\
    cstr m' d (take (Z.to_nat (room - 1)) ss) /\
    (forall a, a < d \/ d + room <= a -> m' a = m a).
Proof.
  intros Hs Hroom. unfold append_within. pose proof (cstr_bytes _ _ _ Hs) as [Hb Hz].
  destruct (Z.ltb_spec (len ss) room) as [Hlt | Hge].
  - destruct (memmove_spec m d src (len ss + 1) ltac:(lia)) as (m' & -> & Hin & Hout).
    exists m'. split; [done |]. rewrite take_ge by lia. split.
    + destruct Hs as [Hc Hs]. split; [done |]. apply (bytes_at_move m m' src d); [| done].
      rewrite length_app. cbn. intros i Hi. apply Hin. lia.
    + intros a Ha. apply Hout. lia.
  - destruct (memmove_spec m d src (room - 1) ltac:(lia)) as (m' & -> & Hin & Hout). step.
    eexists. split; [done |]. split.
    + split; [by apply take_chars, (proj1 Hs) |]. apply bytes_at_app.
      rewrite length_take, Nat.min_l by lia. split.
      * apply (bytes_at_move m (store m' (d + room - 1) 0) src d).
        -- rewrite length_take. intros i Hi. rewrite store_other by lia. apply Hin. lia.
        -- rewrite <- (take_drop (Z.to_nat (room - 1)) ss) in Hb.
           by apply bytes_at_app in Hb as [Hb _].
      * split; [| done]. rewrite Z2Nat.id by lia. by rewrite Z.add_sub_assoc, store_same.
    + intros a Ha. rewrite store_other by lia. apply Hout. lia.
Qed.

(** C33.  [internal_strlcpy] and [internal_strlcat] never write past
    [dst + maxlen], always leave a NUL-terminated string there (the longest
    prefix of the copy, or of the concatenation, that fits), and return the
    length of the untruncated result; with no room at all, or with no NUL
    within [maxlen] bytes of [dst], they write nothing.  Source and
    destination may overlap. *)
Theorem strlcpy_strlcat_truncate (m : memory) (dst src maxlen : Z) (ds ss : list Z)
  (Hsrc : cstr m src ss) (Hmax : 0 <= maxlen < 9223372036854775808)
  (Hfs : (length ss < fuel)%nat) (Hls : len ss < 9223372036854775808)
  (Hdst : bounded_str m dst maxlen ds) (Hfd : (length ds < fuel)%nat) :
  (exists m', internal_strlcpy fuel m dst src maxlen = Ok (m', len ss) /\
    (0 < maxlen -> cstr m' dst (take (Z.to_nat (maxlen - 1)) ss)) /\
    (forall a, a < dst \/ dst + maxlen <= a -> m' a = m a)) /\
  (exists m', internal_strlcat fuel m dst src maxlen = Ok (m', len ds + len ss) /\
    (len ds < maxlen -> cstr m' dst (take (Z.to_nat (maxlen - 1)) (ds ++ ss))) /\
    (forall a, a < dst \/ dst + maxlen <= a -> m' a = m a)).
Proof.
  split.
  - unfold internal_strlcpy. rewrite (internal_strlen_spec m src ss) by done. step.
    destruct (decide (maxlen = 0)) as [-> | Hne].
    + rewrite (proj2 (Z.ltb_ge _ _)) by lia. exists m. by split_and!.
    + rewrite (proj2 (Z.eqb_neq maxlen 0)) by done. cbn [negb].
      destruct (append_within_spec m dst src maxlen ss Hsrc ltac:(lia)) as (m' & He & Hc & Ho).
      unfold append_within in He. rewrite He. step. by exists m'.
  - unfold internal_strlcat. rewrite (internal_strlen_spec m src ss) by done. step.
    rewrite (internal_strnlen_spec m dst maxlen ds) by done. step.
    destruct Hdst as (Hcd & Hbd & [[Hlt Hz] | Heq]).
    + rewrite (proj2 (Z.eqb_neq _ _)) by lia.
      destruct (append_within_spec m (dst + len ds) src (maxlen - len ds) ss Hsrc ltac:(lia))
        as (m' & He & Hc & Ho).
      unfold append_within in He. rewrite (Z.add_sub_assoc (dst + len ds) maxlen) in He.
      replace (dst + len ds + maxlen - len ds - 1) with (dst + maxlen - 1) in He by lia.
      rewrite He. step. exists m'.
      rewrite wrap_small by (unfold is_uptr, word_modulus; lia). split; [done |]. split.
      * intros _. destruct Hc as [Hc1 Hc2]. rewrite take_app_ge by lia.
        replace (Z.to_nat (maxlen - 1) - length ds)%nat with (Z.to_nat (maxlen - len ds - 1)) by lia.
        split; [by apply Forall_app |]. rewrite <- app_assoc. apply bytes_at_app. split; [| done].
        apply (bytes_at_frame m m'); [| done]. intros a Ha. apply Ho. lia.
      * intros a Ha. apply Ho. lia.
    + rewrite (proj2 (Z.eqb_eq _ _)) by done. exists m.
      rewrite wrap_small by (unfold is_uptr, word_modulus; lia). rewrite Heq. split_and!; [done | lia | done].
Qed.

(** ** Comparison *)

Fixpoint lex_compare (xs ys : list Z) : Z :=
  match xs, ys with
  | [], [] => 0
  | [], _ => -1
  | _, [] => 1
  | x :: xs', y :: ys' => if x =? y then lex_compare xs' ys' else if x <? y then -1 else 1
  end.

(** Sign extension to 32 bits keeps the order of unsigned bytes. *)
Lemma unsigned_char_value (m : memory) (p b : Z) : m p = b -> 0 <= b < 256 ->
  unsigned_char m p = if b <? 128 then b else b + 4294967040.
Proof.
  unfold unsigned_char, load_s8, to_s8, to_u8, to_u32. intros -> Hb.
  rewrite (Z.mod_small b) by lia. destruct (Z.ltb_spec b 128); zlia.
Qed.

(** One turn of the two loops on the heads of the strings, [r] being the
    rest of the loop. *)
Lemma compare_heads (m : memory) (p q : Z) (bs cs : list Z) (n : nat) (r : result Z) :
  cstr m p bs -> cstr m q cs ->
  (forall b bs' cs', bs = b :: bs' -> cs = b :: cs' -> cstr m (p + 1) bs' -> cstr m (q + 1) cs' ->
    r = Ok (lex_compare (take n bs') (take n cs'))) ->
  (if negb (unsigned_char m p =? unsigned_char m q) then
     Ok (if unsigned_char m p <? unsigned_char m q then -1 else 1)
   else if unsigned_char m p =? 0 then Ok 0 else r) =
  Ok (lex_compare (take (S n) bs) (take (S n) cs)).
Proof.
  intros Hp Hq Hr. destruct bs as [| b bs], cs as [| c cs]; rewrite ?cstr_nil, ?cstr_cons in *.
  - by rewrite !(unsigned_char_value m _ 0).
  - destruct Hq as (Hc & Hrc & Hq). rewrite (unsigned_char_value m p 0), (unsigned_char_value m q c) by lia.
    change (0 <? 128) with true. cbv iota. destruct (Z.ltb_spec c 128); rewrite (proj2 (Z.eqb_neq 0 _)), (proj2 (Z.ltb_lt _ _)) by lia; done.
  - destruct Hp as (Hb & Hrb & Hp). rewrite (unsigned_char_value m q 0), (unsigned_char_value m p b) by lia.
    change (0 <? 128) with true. cbv iota. destruct (Z.ltb_spec b 128); rewrite (proj2 (Z.eqb_neq _ 0)), (proj2 (Z.ltb_ge _ _)) by lia; done.
  - destruct Hp as (Hb & Hrb & Hp), Hq as (Hc & Hrc & Hq).
    rewrite (unsigned_char_value m p b), (unsigned_char_value m q c) by lia. cbn [take lex_compare].
    destruct (Z.eqb_spec b c) as [<- | Hne].
    + rewrite Z.eqb_refl. cbn [negb]. rewrite (Hr b bs cs) by done.
      destruct (Z.ltb_spec b 128); by rewrite (proj2 (Z.eqb_neq _ 0)) by lia.
    + clear Hr. destruct (Z.ltb_spec b 128), (Z.ltb_spec c 128);
        rewrite (proj2 (Z.eqb_neq _ _)) by lia; cbn [negb];
        repeat match goal with |- context [?x <? ?y] => destruct (Z.ltb_spec x y) end; done || lia.
Qed.

Lemma strcmp_loop_spec (m : memory) (n : nat) (bs cs : list Z) (p q : Z) (k : nat) :
  cstr m p bs -> cstr m q cs -> (length bs < k)%nat -> (length bs < n)%nat ->
  strcmp_loop m p q k = Ok (lex_compare (take n bs) (take n cs)).
Proof.
  revert n bs cs p q. induction k as [| k IH]; intros n bs cs p q Hp Hq Hk Hn; [lia |].
  destruct n as [| n]; [lia |]. cbn [strcmp_loop]. apply compare_heads; [done | done |].
  intros b bs' cs' -> -> Hp' Hq'. cbn [length] in *. apply IH; done || lia.
Qed.

Lemma strncmp_loop_spec (m : memory) (bs cs : list Z) (p q i n : Z) (k : nat) :
  cstr m p bs -> cstr m q cs -> (length bs < k)%nat ->
  strncmp_loop m p q i n k =
  Ok (lex_compare (take (Z.to_nat (n - i)) bs) (take (Z.to_nat (n - i)) cs)).
Proof.
  revert bs cs p q i. induction k as [| k IH]; intros bs cs p q i Hp Hq Hk; [lia |].
  cbn [strncmp_loop]. destruct (Z.ltb_spec i n) as [Hi | Hi].
  - replace (Z.to_nat (n - i)) with (S (Z.to_nat (n - (i + 1)))) by lia.
    apply compare_heads; [done | done |]. intros b bs' cs' -> -> Hp' Hq'. cbn [length] in *.
    apply IH; done || lia.
  - by replace (Z.to_nat (n - i)) with 0%nat by lia.
Qed.

(** [internal_strcmp] and [internal_strncmp] return, and their answer is
    the lexicographic order of the two strings, of their first [n] bytes for
    [internal_strncmp], with bytes compared as unsigned values although
    [char] is signed. *)
Theorem strcmp_lexicographic (m : memory) (s1 s2 n : Z) (bs cs : list Z)
  (H1 : cstr m s1 bs) (H2 : cstr m s2 cs) (Hf : (length bs < fuel)%nat) :
  internal_strcmp fuel m s1 s2 = Ok (lex_compare bs cs) /\
  internal_strncmp fuel m s1 s2 n = Ok (lex_compare (take (Z.to_nat n) bs) (take (Z.to_nat n) cs)).
Proof.
  split.
  - unfold internal_strcmp. rewrite (strcmp_loop_spec m (S (length bs + length cs)) bs cs) by (done || lia).
    by rewrite !take_ge by lia.
  - unfold internal_strncmp. rewrite (strncmp_loop_spec m bs cs) by done. by rewrite Z.sub_0_r.
Qed.

(** ** Substring search *)

Lemma memcmp_loop_zero (m : memory) (xs ys : list Z) (p q : Z) :
  chars xs -> chars ys -> bytes_at m p xs -> bytes_at m q ys -> length xs = length ys ->
  memcmp_loop m p q (length xs) = 0 <-> xs = ys.
Proof.
  revert ys p q. induction xs as [| x xs IH]; intros [| y ys] p q Hx Hy Hp Hq Hl;
    cbn [length memcmp_loop bytes_at] in *; try lia; [done |].
  inversion_clear Hx. inversion_clear Hy. destruct Hp as [Hp Hp'], Hq as [Hq Hq'].
  rewrite (load_s8_eq m p x Hp), (load_s8_eq m q y Hq).
  destruct (Z.eqb_spec (to_s8 x) (to_s8 y)) as [He | He]; cbn [negb].
  - apply to_s8_inj in He; [subst y | unfold is_u8; lia | unfold is_u8; lia].
    rewrite IH; [| done | done | done | done | lia]. split; congruence.
  - split; [destruct (_ <? _); lia |]. injection 1. congruence.
Qed.

(** [needle] occurs in [hay] after [pre]. *)
Definition occurs_at (hay needle pre : list Z) : Prop := exists suf, hay = pre ++ needle ++ suf.

Lemma occurs_at_head (m : memory) (h n : Z) (hay needle : list Z) :
  cstr m h hay -> cstr m n needle -> (length needle <= length hay)%nat ->
  internal_memcmp m h n (len needle) = 0 <-> occurs_at hay needle [].
Proof.
  intros Hh Hn Hl. unfold internal_memcmp. rewrite Nat2Z.id.
  pose proof (cstr_bytes _ _ _ Hh) as [Hb _]. pose proof (cstr_bytes _ _ _ Hn) as [Hbn _].
  assert (Hlen : length (take (length needle) hay) = length needle) by (rewrite length_take; lia).
  rewrite <- Hlen at 1. rewrite (memcmp_loop_zero m _ needle); try done.
  - split.
    + intros He. exists (drop (length needle) hay). cbn [app].
      rewrite <- (take_drop (length needle) hay) at 1. by rewrite He.
    + intros [suf ->]. cbn. by rewrite take_app_length.
  - apply take_chars, Hh.
  - apply Hn.
  - rewrite <- (take_drop (length needle) hay) in Hb. by apply bytes_at_app in Hb as [Hb _].
Qed.

Lemma strstr_loop_spec (m : memory) (h n : Z) (needle : list Z) :
  cstr m n needle -> forall k hay pos, cstr m (h + pos) hay ->
  (length hay + 1 = length needle + k)%nat ->
  match strstr_loop m h n (len needle) pos k with
  | Some p => exists pre, p = h + pos + len pre /\ occurs_at hay needle pre /\
      forall pre', occurs_at hay needle pre' -> (length pre <= length pre')%nat
  | None => forall pre, ~ occurs_at hay needle pre
  end.
Proof.
  intros Hn. induction k as [| k IH]; intros hay pos Hh Hl; cbn [strstr_loop].
  - intros pre [suf Heq]. rewrite Heq, !length_app in Hl. lia.
  - pose proof (occurs_at_head m (h + pos) n hay needle Hh Hn ltac:(lia)) as Hhead.
    destruct (Z.eqb_spec (internal_memcmp m (h + pos) n (len needle)) 0) as [He | He].
    + exists []. split; [cbn; lia |]. split; [by apply Hhead |]. intros pre' _. cbn. lia.
    + assert (Hno : ~ occurs_at hay needle []) by (by rewrite <- Hhead). clear Hhead.
      destruct hay as [| b hay].
      * assert (k = 0%nat) as -> by (cbn in Hl; destruct needle; cbn in *; [by destruct Hno; exists [] | lia]).
        cbn. intros [| x pre] Hpre; [done |]. by destruct Hpre.
      * apply cstr_cons in Hh as (_ & _ & Hh). rewrite <- Z.add_assoc in Hh.
        specialize (IH hay (pos + 1) Hh ltac:(cbn in Hl; lia)).
        assert (Hsh : forall pre', occurs_at (b :: hay) needle pre' ->
          exists pre, pre' = b :: pre /\ occurs_at hay needle pre).
        { intros [| x pre] Hp; [done |]. destruct Hp as [suf [= <- Hp]]. exists pre. split; [done |]. by exists suf. }
        destruct (strstr_loop m h n (len needle) (pos + 1) k) as [p |].
        -- destruct IH as (pre & -> & [suf Ho] & Hmin). exists (b :: pre). split; [cbn; lia |]. split.
           ++ exists suf. cbn. by rewrite Ho.
           ++ intros pre' Hp'. apply Hsh in Hp' as (pre2 & -> & Hp'). apply Hmin in Hp'. cbn. lia.
        -- intros pre' Hp'. apply Hsh in Hp' as (pre2 & -> & Hp'). by apply IH in Hp'.
Qed.

(** [internal_strstr] returns the first occurrence of the needle in the
    haystack, and null exactly when there is none. *)
Theorem strstr_first_occurrence (m : memory) (haystack needle : Z) (hay ndl : list Z)
  (Hh : cstr m haystack hay) (Hn : cstr m needle ndl)
  (Hfh : (length hay < fuel)%nat) (Hfn : (length ndl < fuel)%nat) :
  exists r, internal_strstr fuel m haystack needle = Ok r /\
    match r with
    | Some p => exists pre, p = haystack + len pre /\ occurs_at hay ndl pre /\
        forall pre', occurs_at hay ndl pre' -> (length pre <= length pre')%nat
    | None => forall pre, ~ occurs_at hay ndl pre
    end.
Proof.
  unfold internal_strstr. rewrite (internal_strlen_spec m haystack hay), (internal_strlen_spec m needle ndl) by done.
  step. destruct (Z.ltb_spec (len hay) (len ndl)).
  - exists None. split; [done |]. intros pre [suf ->]. rewrite !length_app in *. lia.
  - eexists. split; [done |].
    pose proof (strstr_loop_spec m haystack needle ndl Hn (Z.to_nat (len hay - len ndl + 1)) hay 0) as H1.
    rewrite Z.add_0_r in H1. apply H1; [done | lia].
Qed.

(** ** Numbers *)

Definition decimal (ds : list Z) : Z := fold_left (fun v d => v * 10 + (d - 48)) ds 0.
Definition digits (ds : list Z) : Prop := Forall (fun d => 48 <= d <= 57) ds.
Definition spaces (sp : list Z) : Prop := Forall (fun c => c = 32 \/ 9 <= c <= 13) sp.

Lemma to_s8_ascii (b : Z) : 0 <= b < 128 -> to_s8 b = b.
Proof.
  intros Hb. unfold to_s8, to_u8. rewrite Z.mod_small by lia.
  by rewrite (proj2 (Z.ltb_lt _ _)) by lia.
Qed.

Lemma skip_spaces_spec (m : memory) (sp : list Z) (p : Z) (k : nat) :
  spaces sp -> bytes_at m p sp -> IsSpace (load_s8 m (p + len sp)) = false ->
  (length sp < k)%nat -> skip_spaces m p k = Ok (p + len sp).
Proof.
  revert p k. induction sp as [| c sp IH]; intros p k Hs Hb Hend Hk; destruct k as [| k];
    cbn [length skip_spaces bytes_at] in *; try lia.
  - rewrite Z.add_0_r in *. by rewrite Hend.
  - inversion_clear Hs as [| ? ? Hc Hs']. destruct Hb as [Hb Hb'].
    rewrite (load_s8_eq m p c Hb), to_s8_ascii by lia.
    assert (IsSpace c = true) as ->.
    { unfold IsSpace. rewrite !orb_true_iff, !Z.eqb_eq. lia. }
    rewrite IH; [f_equal; lia | done | done | | lia]. rewrite <- Hend. do 2 f_equal. lia.
Qed.

Lemma add_digit_saturates (v d : Z) : 0 <= v -> 0 <= d <= 9 ->
  add_digit (Z.min UINT64_MAX v) d = Z.min UINT64_MAX (v * 10 + d).
Proof.
  unfold add_digit, UINT64_MAX. change (18446744073709551615 / 10) with 1844674407370955161. intros Hv Hd.
  destruct (Z.leb_spec (Z.min 18446744073709551615 v) 1844674407370955161);
    match goal with |- context [?a <=? ?b] => destruct (Z.leb_spec a b) end; lia.
Qed.

Lemma IsDigit_digit (b : Z) : 48 <= b <= 57 -> IsDigit b = true.
Proof. intros Hb. unfold IsDigit. rewrite andb_true_iff, !Z.leb_le. lia. Qed.

Lemma read_digits_spec (m : memory) (ds : list Z) (p v : Z) (h : bool) (k : nat) :
  digits ds -> bytes_at m p ds -> IsDigit (load_s8 m (p + len ds)) = false ->
  (length ds < k)%nat -> 0 <= v ->
  read_digits m p (Z.min UINT64_MAX v) h k =
  Ok (p + len ds, Z.min UINT64_MAX (fold_left (fun v d => v * 10 + (d - 48)) ds v),
    match ds with [] => h | _ => true end).
Proof.
  revert p v h k. induction ds as [| d ds IH]; intros p v h k Hd Hb Hend Hk Hv; destruct k as [| k];
    cbn [length read_digits bytes_at fold_left] in *; try lia.
  - rewrite Z.add_0_r in *. by rewrite Hend.
  - inversion_clear Hd as [| ? ? Hc Hd']. destruct Hb as [Hb Hb'].
    rewrite (load_s8_eq m p d Hb), to_s8_ascii, IsDigit_digit by lia.
    rewrite add_digit_saturates by lia.
    rewrite IH; [do 2 f_equal; [f_equal; lia | by destruct ds] | done | done | | lia | lia].
    rewrite <- Hend. do 2 f_equal. lia.
Qed.

Definition sign_value (sign : list Z) : Z := if decide (sign = [45]) then -1 else 1.

(** [internal_simple_strtoll] in base 10 reads optional spaces, an
    optional sign and the digits that follow, and returns their value clamped
    to the range of [s64], however many digits there are; the end pointer is
    past the last digit, or after the spaces when there is no digit. *)
Theorem simple_strtoll_saturates (m : memory) (nptr : Z) (sp sign ds : list Z)
  (Hsp : spaces sp) (Hsign : sign = [] \/ sign = [43] \/ sign = [45]) (Hds : digits ds)
  (Hb : bytes_at m nptr (sp ++ sign ++ ds))
  (Hend : let c := load_s8 m (nptr + len (sp ++ sign ++ ds)) in
    IsDigit c = false /\
    (sign = [] -> ds = [] -> IsSpace c = false /\ c <> 43 /\ c <> 45))
  (Hf : (length (sp ++ sign ++ ds) < fuel)%nat) :
  internal_simple_strtoll fuel m nptr 10 =
  Ok (Z.max INT64_MIN (Z.min INT64_MAX (sign_value sign * decimal ds)),
    match ds with [] => nptr + len sp | _ => nptr + len (sp ++ sign ++ ds) end).
Proof.
  rewrite !length_app in *. cbv zeta in Hend. destruct Hend as [Hend Hend0].
  apply bytes_at_app in Hb as [Hb1 Hb]. apply bytes_at_app in Hb as [Hb2 Hb3].
  set (q := nptr + len sp) in *.
  assert (Hhead : IsSpace (load_s8 m q) = false /\
    (sign = [] -> load_s8 m q <> 43 /\ load_s8 m q <> 45)).
  { destruct Hsign as [-> | [-> | ->]]; cbn [bytes_at app] in *.
    - destruct ds as [| d ds]; cbn in *.
      + destruct Hend0 as (H1 & H2 & H3); [done | done |]. rewrite Nat.add_0_r in *. done.
      + rewrite Z.add_0_r in Hb3. inversion_clear Hds as [| ? ? Hd _]. destruct Hb3 as [Hb3 _].
        rewrite (load_s8_eq m q d Hb3), to_s8_ascii by lia. split; [| lia].
        unfold IsSpace. rewrite !orb_false_iff, !Z.eqb_neq. lia.
    - destruct Hb2 as [Hb2 _]. by rewrite (load_s8_eq m q _ Hb2).
    - destruct Hb2 as [Hb2 _]. by rewrite (load_s8_eq m q _ Hb2). }
  destruct Hhead as [Hns Hnsign]. unfold internal_simple_strtoll. cbn [check Z.eqb Pos.eqb]. step.
  rewrite (skip_spaces_spec m sp nptr) by (done || lia). step. fold q.
  assert (Hsg : (if load_s8 m q =? 43 then (1, q + 1) else if load_s8 m q =? 45 then (-1, q + 1) else (1, q)) =
    (sign_value sign, q + len sign)).
  { unfold sign_value. destruct Hsign as [-> | [-> | ->]]; cbn [bytes_at length] in *.
    - destruct Hnsign as [H1 H2]; [done |].
      rewrite (proj2 (Z.eqb_neq _ _)), (proj2 (Z.eqb_neq _ _)), Z.add_0_r by done. by rewrite decide_False.
    - destruct Hb2 as [Hb2 _]. by rewrite (load_s8_eq m q _ Hb2), decide_False.
    - destruct Hb2 as [Hb2 _]. by rewrite (load_s8_eq m q _ Hb2), decide_True. }
  rewrite Hsg.
  pose proof (read_digits_spec m ds (q + len sign) 0 false fuel) as Hrd.
  change (Z.min UINT64_MAX 0) with 0 in Hrd. rewrite Hrd; try done; try lia.
  2: { rewrite <- Hend. do 2 f_equal. lia. }
  step. f_equal. f_equal.
  - fold (decimal ds). assert (Hd0 : 0 <= decimal ds).
    { unfold decimal. assert (Hgen : forall v, 0 <= v -> 0 <= fold_left (fun v d => v * 10 + (d - 48)) ds v).
      { clear -Hds. induction Hds as [| d ds Hd _ IH]; intros v Hv; cbn; [done |]. apply IH. lia. }
      by apply Hgen. }
    unfold sign_value, INT64_MAX, INT64_MIN, UINT64_MAX. destruct (decide (sign = [45])); cbn [Z.ltb Z.compare].
    + match goal with |- context [?a <? ?b] => destruct (Z.ltb_spec a b) end; lia.
    + lia.
  - destruct ds; [done |]. unfold q. lia.
Qed.
End specs.

(** ** Concrete strings *)

(** Two strings, at addresses 100 and 200. *)
Definition two_strings (s t : list Z) : memory := fun a =>
  if a <? 200 then nth (Z.to_nat (a - 100)) s 0 else nth (Z.to_nat (a - 200)) t 0.

Ltac concrete_string :=
  repeat split; try (vm_compute; congruence); try (repeat constructor; lia).

Lemma strlcpy_strlcat_truncate_witness : let m := two_strings [97; 98; 99] [120; 121] in
  (exists m', internal_strlcpy 10 m 200 100 5 = Ok (m', 3) /\
    (0 < 5 -> cstr m' 200 [97; 98; 99]) /\ (forall a, a < 200 \/ 200 + 5 <= a -> m' a = m a)) /\
  (exists m', internal_strlcat 10 m 200 100 5 = Ok (m', 5) /\
    (2 < 5 -> cstr m' 200 [120; 121; 97; 98]) /\ (forall a, a < 200 \/ 200 + 5 <= a -> m' a = m a)).
Proof.
  apply (strlcpy_strlcat_truncate 10 (two_strings [97; 98; 99] [120; 121]) 200 100 5 [120; 121] [97; 98; 99]);
    try (cbn; lia); [concrete_string |]. split; [| split; [| left]]; concrete_string.
Defined.

Lemma strcmp_lexicographic_witness : let m := two_strings [97; 255] [97; 98] in
  internal_strcmp 10 m 100 200 = Ok 1 /\ internal_strncmp 10 m 100 200 1 = Ok 0.
Proof.
  apply (strcmp_lexicographic 10 (two_strings [97; 255] [97; 98]) 100 200 1 [97; 255] [97; 98]);
    [concrete_string | concrete_string | cbn; lia].
Defined.

Lemma strstr_first_occurrence_witness :
  exists r, internal_strstr 10 (two_strings [97; 98; 97; 98] [98]) 100 200 = Ok r /\
    match r with
    | Some p => exists pre, p = 100 + len pre /\ occurs_at [97; 98; 97; 98] [98] pre /\
        forall pre', occurs_at [97; 98; 97; 98] [98] pre' -> (length pre <= length pre')%nat
    | None => forall pre, ~ occurs_at [97; 98; 97; 98] [98] pre
    end.
Proof.
  apply (strstr_first_occurrence 10 (two_strings [97; 98; 97; 98] [98]) 100 200 [97; 98; 97; 98] [98]);
    [concrete_string | concrete_string | cbn; lia | cbn; lia].
Defined.

Lemma simple_strtoll_saturates_witness :
  internal_simple_strtoll 30 (two_strings [32; 45; 52; 50; 120] []) 100 10 = Ok (-42, 104).
Proof.
  apply (simple_strtoll_saturates 30 (two_strings [32; 45; 52; 50; 120] []) 100 [32] [45] [52; 50]);
    [repeat constructor; lia | auto | repeat constructor; lia | concrete_string | | cbn; lia].
  vm_compute. split; [done |]. discriminate 1.
Defined.

(** [internal_wcscpy] tests the character after the one it copied: the
    terminator is never written. *)
Example wcscpy_drops_terminator :
  match internal_wcscpy (fun a => if a =? 100 then 65 else if 200 <=? a then 255 else 0) 200 100 10 with
  | Ok m => load_wchar m 200 = 65 /\ load_wchar m 204 = 4294967295
  | Die _ => False
  end.
Proof. vm_compute. split; reflexivity. Qed.
