(* ===== verification/Sorting.v ===== *)
(** * Sorting and searching: Sort, InternalLowerBound and SortAndDedup

    The generic algorithms of sanitizer_common.h on arrays, for any element
    type and any [Compare] object that is a strict weak order.  An array is
    the list of its elements and an index a natural number: no index exceeds
    [2 * size + 1], so none wraps.  An access outside the array is [BadAccess]. *)

From S2P Require Import Prelude.

#[local] Open Scope nat_scope.

(** The contract of a [Compare] object. *)
Class StrictWeakOrder {A} (comp : A -> A -> bool) : Prop := {
  comp_asym x y : comp x y = true -> comp y x = false;
  comp_negtrans x y z : comp y x = false -> comp z y = false -> comp z x = false;
}.

#[export] Instance less_strict_weak : StrictWeakOrder Z.ltb.
Proof. split; intros *; rewrite ?Z.ltb_lt, ?Z.ltb_ge; lia. Qed.

Section sort.
Context {A : Type} (comp : A -> A -> bool).

Definition at_ (v : list A) (i : nat) : result A := get_or_die (v !! i).

Definition Swap (v : list A) (i j : nat) : result (list A) :=
  x ← at_ v i;
  y ← at_ v j;
  Ok (<[j := x]> (<[i := y]> v)).

(** Stage 1: [for (j = i; j > 0; j = p)]. *)
Fixpoint sift_up (v : list A) (j : nat) (fuel : nat) : result (list A) :=
  match fuel with
  | O => Die OutOfFuel
  | S fuel' =>
      if (0 <? j)%nat then
        let p := (j - 1) / 2 in
        x ← at_ v p;
        y ← at_ v j;
        if comp x y then
          v ← Swap v j p;
          sift_up v p fuel'
        else Ok v
      else Ok v
  end.

Fixpoint build_heap (v : list A) (i : nat) (k : nat) : result (list A) :=
  match k with
  | O => Ok v
  | S k' => v ← sift_up v i (S i); build_heap v (S i) k'
  end.

(** Stage 2: [for (j = 0; j < i; j = max_ind)]. *)
Definition larger_child (v : list A) (i max_ind child : nat) : result nat :=
  if (child <? i)%nat then
    x ← at_ v max_ind;
    y ← at_ v child;
    Ok (if comp x y then child else max_ind)
  else Ok max_ind.

Fixpoint sink (v : list A) (i j : nat) (fuel : nat) : result (list A) :=
  match fuel with
  | O => Die OutOfFuel
  | S fuel' =>
      if (j <? i)%nat then
        let left := 2 * j + 1 in
        let right := 2 * j + 2 in
        max_ind ← larger_child v i j left;
        max_ind ← larger_child v i max_ind right;
        if negb (max_ind =? j)%nat then
          v ← Swap v j max_ind;
          sink v i max_ind fuel'
        else Ok v
      else Ok v
  end.

Fixpoint drain_heap (v : list A) (i : nat) : result (list A) :=
  match i with
  | O => Ok v
  | S i' =>
      v ← Swap v 0 i;
      v ← sink v i 0 (S i);
      drain_heap v i'
  end.

Definition Sort (v : list A) : result (list A) :=
  let size := length v in
  if (size <? 2)%nat then Ok v
  else
    v ← build_heap v 1 (size - 1);
    drain_heap v (size - 1).

Fixpoint lower_bound_loop (v : list A) (val : A) (first last : nat) (fuel : nat) : result nat :=
  match fuel with
  | O => Die OutOfFuel
  | S fuel' =>
      if (first <? last)%nat then
        let mid := (first + last) / 2 in
        x ← at_ v mid;
        if comp x val then lower_bound_loop v val (mid + 1) last fuel'
        else lower_bound_loop v val first mid fuel'
      else Ok first
  end.

Definition InternalLowerBound (v : list A) (val : A) : result nat :=
  lower_bound_loop v val 0 (length v) (S (length v)).

Fixpoint dedup_loop (v : list A) (last i : nat) (k : nat) : result (list A * nat) :=
  match k with
  | O => Ok (v, last)
  | S k' =>
      x ← at_ v last;
      y ← at_ v i;
      if comp x y then
        let last := S last in
        let v := if negb (last =? i)%nat then <[last := y]> v else v in
        dedup_loop v last (S i) k'
      else
        _ ← check (negb (comp y x));
        dedup_loop v last (S i) k'
  end.

(** [v.resize(last + 1)] keeps the first elements. *)
Definition SortAndDedup (v : list A) : result (list A) :=
  v ← Sort v;
  let size := length v in
  if (size <? 2)%nat then Ok v
  else
    '(v, last) ← dedup_loop v 0 1 (size - 1);
    Ok (take (S last) v).

(** ** The heap sort *)

(** Element [k] is not above element [l]. *)
Definition le_at (v : list A) (k l : nat) : Prop :=
  forall x y, v !! k = Some x -> v !! l = Some y -> comp y x = false.

Definition sw (i j k : nat) : nat := if decide (k = i) then j else if decide (k = j) then i else k.

Definition swapped (v v' : list A) (i j : nat) : Prop :=
  v' ≡ₚ v /\ forall k, v' !! k = v !! sw i j k.

Lemma Swap_spec (v : list A) (i j : nat) : i < length v -> j < length v ->
  exists v', Swap v i j = Ok v' /\ swapped v v' i j.
Proof.
  intros Hi Hj. destruct (lookup_lt_is_Some_2 v i Hi) as [x Hx]. destruct (lookup_lt_is_Some_2 v j Hj) as [y Hy].
  unfold Swap, at_. rewrite Hx. step. rewrite Hy. step. eexists. split; [done |].
  split; [by apply Permutation_insert_swap |].
  intros k. unfold sw. rewrite !list_lookup_insert, length_insert.
  repeat case_decide; naive_solver.
Qed.

Lemma swapped_length (v v' : list A) (i j : nat) : swapped v v' i j -> length v' = length v.
Proof. intros [H _]. by apply Permutation_length. Qed.

Lemma swapped_le (v v' : list A) (i j k l : nat) :
  swapped v v' i j -> le_at v' k l <-> le_at v (sw i j k) (sw i j l).
Proof. intros [_ H]. unfold le_at. by rewrite !H. Qed.

Context `{!StrictWeakOrder comp}.

Lemma le_at_trans (v : list A) (k l n : nat) :
  l < length v -> le_at v k l -> le_at v l n -> le_at v k n.
Proof.
  intros [y Hy]%lookup_lt_is_Some_2 Hkl Hln x z Hx Hz.
  apply (comp_negtrans _ y); [by apply Hkl | by apply Hln].
Qed.

Lemma le_at_refl (v : list A) (k : nat) : le_at v k k.
Proof.
  intros x y Hx Hy. simplify_eq. destruct (comp x x) eqn:H; [| done]. pose proof (comp_asym _ _ H). congruence.
Qed.

(** The test of the loops decides the order of two elements. *)
Lemma comp_le (v : list A) (k l : nat) (x y : A) :
  v !! k = Some x -> v !! l = Some y -> if comp x y then le_at v k l else le_at v l k.
Proof.
  intros Hx Hy. destruct (comp x y) eqn:H; intros x' y' Hx' Hy'; simplify_eq; [by apply comp_asym | done].
Qed.

Definition parent (k : nat) : nat := (k - 1) / 2.

Lemma parent_lt (k : nat) : 0 < k -> parent k < k.
Proof. intros. unfold parent. apply Nat.Div0.div_lt_upper_bound. lia. Qed.

Lemma parent_child (k j : nat) : 0 < k -> parent k = j <-> k = 2 * j + 1 \/ k = 2 * j + 2.
Proof. unfold parent. intros. pose proof (Nat.div_mod_eq (k - 1) 2). pose proof (Nat.mod_upper_bound (k - 1) 2). lia. Qed.

(** The first [n] elements are a heap, except that [j] may be above its
    parent ([up]) or below its children ([down]). *)
Definition heap_up (v : list A) (j n : nat) : Prop :=
  (forall k, 0 < k < n -> k <> j -> le_at v k (parent k)) /\
  (forall k, 0 < k < n -> parent k = j -> 0 < j -> le_at v k (parent j)).
Definition heap_down (v : list A) (j n : nat) : Prop :=
  (forall k, 0 < k < n -> parent k <> j -> le_at v k (parent k)) /\
  (forall k, 0 < k < n -> parent k = j -> 0 < j -> le_at v k (parent j)).
Definition heap (v : list A) (n : nat) : Prop := forall k, 0 < k < n -> le_at v k (parent k).

(** Elements from [n] on are as they were. *)
Definition same_from (n : nat) (v v' : list A) : Prop := forall k, n <= k -> v' !! k = v !! k.

Lemma same_from_swap (v v' : list A) (i j n : nat) :
  swapped v v' i j -> i < n -> j < n -> same_from n v v'.
Proof. intros [_ H] Hi Hj k Hk. rewrite H. unfold sw. repeat case_decide; subst; (done || lia). Qed.

(** Cases on the positions that a swap of [i] and [j] exchanges. *)
Ltac sw_cases := unfold sw; repeat case_decide; subst; try done; try lia.

Lemma heap_up_swap (v v' : list A) (j n : nat) :
  heap_up v j n -> 0 < j < n -> n <= length v -> le_at v (parent j) j ->
  swapped v v' j (parent j) -> heap_up v' (parent j) n.
Proof.
  intros [H1 H2] Hj Hn Hle Hsw. pose proof (parent_lt j ltac:(lia)) as Hp.
  split; intros k Hk; rewrite (swapped_le _ _ _ _ _ _ Hsw).
  - intros Hkp. pose proof (parent_lt k ltac:(lia)).
    destruct (decide (k = j)) as [-> |]; [by sw_cases; try congruence |].
    assert (sw j (parent j) k = k) as -> by sw_cases.
    destruct (decide (parent k = j)) as [Hpk |].
    + rewrite Hpk. assert (sw j (parent j) j = parent j) as -> by sw_cases. apply H2; lia.
    + destruct (decide (parent k = parent j)) as [Hpk |].
      * rewrite Hpk. assert (sw j (parent j) (parent j) = j) as -> by sw_cases.
        apply (le_at_trans v k (parent j)); [lia | rewrite <- Hpk; by apply H1 | done].
      * assert (sw j (parent j) (parent k) = parent k) as -> by sw_cases. by apply H1.
  - intros Hpk H0. pose proof (parent_lt (parent j) ltac:(lia)).
    assert (sw j (parent j) (parent (parent j)) = parent (parent j)) as -> by sw_cases.
    pose proof (parent_lt k ltac:(lia)).
    destruct (decide (k = j)) as [-> |].
    + assert (sw j (parent j) j = parent j) as -> by sw_cases. apply H1; lia.
    + assert (sw j (parent j) k = k) as -> by sw_cases.
      apply (le_at_trans v k (parent j)); [lia | rewrite <- Hpk; apply H1; lia | apply H1; lia].
Qed.

Lemma sift_up_spec (v : list A) (j n fuel : nat) :
  heap_up v j n -> j < n <= length v -> j < fuel ->
  exists v', sift_up v j fuel = Ok v' /\ v' ≡ₚ v /\ heap v' n /\ same_from n v v'.
Proof.
  revert v j. induction fuel as [| fuel IH]; intros v j Hh Hj Hf; [lia |]. cbn [sift_up].
  destruct (Nat.ltb_spec 0 j) as [H0 | H0].
  - fold (parent j). pose proof (parent_lt j H0) as Hp.
    destruct (lookup_lt_is_Some_2 v (parent j) ltac:(lia)) as [x Hx].
    destruct (lookup_lt_is_Some_2 v j ltac:(lia)) as [y Hy].
    unfold at_ at 1 2. rewrite Hx. step. rewrite Hy. step.
    pose proof (comp_le v (parent j) j x y Hx Hy) as Hc. destruct (comp x y).
    + destruct (Swap_spec v j (parent j) ltac:(lia) ltac:(lia)) as (v1 & -> & Hsw). step.
      pose proof (swapped_length _ _ _ _ Hsw) as Hlen.
      destruct (IH v1 (parent j)) as (v' & -> & P & Hv' & Hs).
      { apply (heap_up_swap v v1 j n); done || lia. } { lia. } { lia. }
      exists v'. split_and!; [done | by rewrite P, (proj1 Hsw) | done |].
      intros k Hk. rewrite Hs by lia. apply (same_from_swap v v1 j (parent j) n Hsw); lia.
    + exists v. split_and!; try done. intros k Hk. destruct (decide (k = j)) as [-> |]; [done |].
      by apply Hh.
  - exists v. split_and!; try done. intros k Hk. apply Hh; lia.
Qed.

Lemma heap_extend (v : list A) (n : nat) : heap v n -> heap_up v n (S n).
Proof.
  intros H. split; intros k Hk Hne; [apply H; lia |]. intros. pose proof (parent_lt k ltac:(lia)). lia.
Qed.

Lemma build_heap_spec (v : list A) (i k : nat) :
  heap v i -> i + k = length v -> 0 < i ->
  exists v', build_heap v i k = Ok v' /\ v' ≡ₚ v /\ heap v' (length v).
Proof.
  revert v i. induction k as [| k IH]; intros v i Hh Hl Hi; cbn [build_heap].
  - exists v. rewrite Nat.add_0_r in Hl. by subst.
  - destruct (sift_up_spec v i (S i) (S i)) as (v1 & -> & P & H1 & _); [by apply heap_extend | lia | lia |].
    step. pose proof (Permutation_length P) as Hlen.
    destruct (IH v1 (S i)) as (v' & -> & P' & H'); [done | lia | lia |].
    exists v'. rewrite <- Hlen. split_and!; [done | by rewrite P', P | done].
Qed.

(** [larger_child] keeps the candidate or moves to the child, whichever is
    not below the other. *)
Lemma larger_child_spec (v : list A) (i m c : nat) : m < length v -> i <= length v ->
  exists m', larger_child v i m c = Ok m' /\ (m' = m \/ m' = c /\ c < i) /\
    le_at v m m' /\ (c < i -> le_at v c m').
Proof.
  intros Hm Hi. unfold larger_child. destruct (Nat.ltb_spec c i) as [Hc | Hc].
  - destruct (lookup_lt_is_Some_2 v m Hm) as [x Hx]. destruct (lookup_lt_is_Some_2 v c ltac:(lia)) as [y Hy].
    unfold at_. rewrite Hx. step. rewrite Hy. step. eexists. split; [done |].
    pose proof (comp_le v m c x y Hx Hy) as Hle. destruct (comp x y).
    + split_and!; [by right | done | intros _; apply le_at_refl].
    + split_and!; [by left | apply le_at_refl | done].
  - eexists. split_and!; [done | by left | apply le_at_refl | lia].
Qed.

Lemma heap_down_swap (v v' : list A) (j m n : nat) :
  heap_down v j n -> j < n <= length v -> m < n -> (m = 2 * j + 1 \/ m = 2 * j + 2) ->
  (forall k, 0 < k < n -> parent k = j -> le_at v k m) -> le_at v j m ->
  swapped v v' j m -> heap_down v' m n.
Proof.
  intros [H1 H2] Hj Hm Hmj Hmax Hle Hsw. assert (Hpm : parent m = j) by (apply parent_child; lia).
  split; intros k Hk; rewrite (swapped_le _ _ _ _ _ _ Hsw).
  - intros Hkm. pose proof (parent_lt k ltac:(lia)).
    assert (sw j m (parent k) = if decide (parent k = j) then m else parent k) as -> by sw_cases.
    destruct (decide (parent k = j)) as [Hpk |].
    + destruct (decide (k = m)) as [-> |].
      * assert (sw j m m = j) as -> by sw_cases. done.
      * assert (sw j m k = k) as -> by sw_cases. by apply Hmax.
    + destruct (decide (k = j)) as [-> |].
      * assert (sw j m j = m) as -> by sw_cases. apply H2; lia.
      * assert (sw j m k = k) as -> by (sw_cases; congruence). by apply H1.
  - intros Hpk H0. rewrite Hpm. pose proof (parent_lt k ltac:(lia)).
    assert (sw j m j = m) as -> by sw_cases. assert (sw j m k = k) as -> by sw_cases.
    rewrite <- Hpk. apply H1; lia.
Qed.

(** One turn of the sinking loop: the child that [j] is exchanged with. *)
Lemma larger_children_spec (v : list A) (i j : nat) : j < i <= length v ->
  exists m, (max_ind ← larger_child v i j (2 * j + 1); larger_child v i max_ind (2 * j + 2)) = Ok m /\
    (m = j \/ (m = 2 * j + 1 \/ m = 2 * j + 2) /\ m < i) /\
    le_at v j m /\ (forall k, 0 < k < i -> parent k = j -> le_at v k m).
Proof.
  intros Hj. destruct (larger_child_spec v i j (2 * j + 1)) as (m1 & -> & C1 & L1 & M1); [lia | lia |]. step.
  assert (m1 < length v) by lia.
  destruct (larger_child_spec v i m1 (2 * j + 2)) as (m & -> & C & L & M); [lia | lia |].
  exists m. split_and!; [done | lia | by apply (le_at_trans v j m1) |].
  intros k Hk Hp. apply parent_child in Hp as [-> | ->]; [| apply M; lia | lia].
  apply (le_at_trans v _ m1); [done | apply M1; lia | done].
Qed.

Lemma sink_spec (v : list A) (i j fuel : nat) :
  heap_down v j i -> i <= length v -> i - j < fuel ->
  exists v', sink v i j fuel = Ok v' /\ v' ≡ₚ v /\ heap v' i /\ same_from i v v'.
Proof.
  revert v j. induction fuel as [| fuel IH]; intros v j Hh Hi Hf; [lia |]. cbn [sink].
  destruct (Nat.ltb_spec j i) as [Hj | Hj].
  - destruct (larger_children_spec v i j ltac:(lia)) as (m & Hm & C & L & M). inv_ok.
    rewrite Hr. step. rewrite Hk. step. destruct (Nat.eqb_spec m j) as [-> | Hne]; cbn [negb].
    + exists v. split_and!; try done. intros k Hk'. destruct (decide (parent k = j)) as [<- | Hp]; [by apply M |].
      by apply Hh.
    + destruct C as [-> | [C Hmi]]; [done |].
      destruct (Swap_spec v j m ltac:(lia) ltac:(lia)) as (v1 & -> & Hsw). step.
      pose proof (swapped_length _ _ _ _ Hsw) as Hlen.
      destruct (IH v1 m) as (v' & -> & P & Hv' & Hs).
      { apply (heap_down_swap v v1 j m i); done || lia. } { lia. } { lia. }
      exists v'. split_and!; [done | by rewrite P, (proj1 Hsw) | done |].
      intros k Hk'. rewrite Hs by lia. apply (same_from_swap v v1 j m i Hsw); lia.
  - exists v. split_and!; try done. intros k Hk. pose proof (parent_lt k ltac:(lia)). apply Hh; lia.
Qed.

Lemma heap_root (v : list A) (n k : nat) : heap v n -> n <= length v -> k < n -> le_at v k 0.
Proof.
  intros Hh Hn. induction (lt_wf k) as [k _ IH]. intros Hk.
  destruct (decide (k = 0)) as [-> |]; [apply le_at_refl |].
  pose proof (parent_lt k ltac:(lia)).
  apply (le_at_trans v k (parent k)); [lia | apply Hh; lia | apply IH; lia].
Qed.

(** Stage 2 has put the elements after [i] in order, above all the others. *)
Definition settled (v : list A) (i : nat) : Prop :=
  forall k l, k < l < length v -> i < l -> le_at v k l.

Definition sorted (v : list A) : Prop := settled v 0.

(** A permutation of the first elements keeps the rest settled. *)
Lemma settled_prefix (v v' : list A) (i : nat) :
  settled v i -> v' ≡ₚ v -> same_from (S i) v v' -> settled v' i.
Proof.
  intros Hs P Hf k l Hk Hl x y Hx Hy. pose proof (Permutation_length P) as Hlen.
  rewrite Hf in Hy by lia. destruct (decide (k <= i)) as [Hki | Hki].
  - assert (Hv : v = take (S i) v ++ drop (S i) v) by (by rewrite take_drop).
    assert (Hv' : v' = take (S i) v' ++ drop (S i) v') by (by rewrite take_drop).
    assert (Hd : drop (S i) v' = drop (S i) v).
    { apply list_eq. intros n. rewrite !lookup_drop. apply Hf. lia. }
    assert (Hp : take (S i) v' ≡ₚ take (S i) v).
    { apply (Permutation_app_inv_r (drop (S i) v)). rewrite <- Hd at 1. by rewrite !take_drop. }
    assert (Hin : x ∈ take (S i) v).
    { rewrite <- Hp. apply list_elem_of_lookup. exists k. by rewrite lookup_take_lt by lia. }
    apply list_elem_of_lookup in Hin as [k' Hk'].
    pose proof (lookup_lt_Some _ _ _ Hk') as Hkl. rewrite length_take in Hkl.
    rewrite lookup_take_lt in Hk' by lia. by apply (Hs k' l ltac:(lia) Hl).
  - rewrite Hf in Hx by lia. by apply (Hs k l ltac:(lia) Hl).
Qed.

Lemma drain_heap_spec (v : list A) (i : nat) :
  heap v (S i) -> i < length v -> settled v i ->
  exists v', drain_heap v i = Ok v' /\ v' ≡ₚ v /\ sorted v'.
Proof.
  revert v. induction i as [| i IH]; intros v Hh Hi Hs; cbn [drain_heap]; [by exists v |].
  destruct (Swap_spec v 0 (S i) ltac:(lia) ltac:(lia)) as (v1 & -> & Hsw). step.
  pose proof (swapped_length _ _ _ _ Hsw) as Hlen.
  destruct (sink_spec v1 (S i) 0 (S (S i))) as (v2 & -> & P2 & H2 & F2); [| lia | lia |].
  { split; [| lia]. intros k Hk Hp. apply (swapped_le _ _ _ _ _ _ Hsw). pose proof (parent_lt k ltac:(lia)).
    replace (sw 0 (S i) k) with k by sw_cases. replace (sw 0 (S i) (parent k)) with (parent k) by sw_cases.
    apply Hh. lia. }
  step. pose proof (Permutation_length P2) as Hlen2.
  destruct (IH v2) as (v' & -> & P' & S'); [done | lia | |].
  - apply (settled_prefix v1); [| done | done].
    intros k l Hk Hl. apply (swapped_le _ _ _ _ _ _ Hsw).
    destruct (decide (l = S i)) as [-> |].
    + replace (sw 0 (S i) (S i)) with 0 by sw_cases.
      apply (heap_root v (S (S i))); [done | lia | sw_cases].
    + replace (sw 0 (S i) l) with l by sw_cases. apply Hs; [sw_cases | lia].
  - exists v'. split_and!; [done | by rewrite P', P2, (proj1 Hsw) | done].
Qed.

Lemma Sort_spec (v : list A) : exists v', Sort v = Ok v' /\ v' ≡ₚ v /\ sorted v'.
Proof.
  unfold Sort. destruct (Nat.ltb_spec (length v) 2) as [Hl | Hl].
  - exists v. split_and!; [done | done |]. intros k l Hk Hl0. lia.
  - destruct (build_heap_spec v 1 (length v - 1)) as (v1 & -> & P1 & H1); [intros k Hk; lia | lia | lia |].
    step. pose proof (Permutation_length P1) as Hlen.
    destruct (drain_heap_spec v1 (length v - 1)) as (v' & -> & P' & S').
    + by replace (S (length v - 1)) with (length v) by lia.
    + lia.
    + intros k l Hk Hl'. lia.
    + exists v'. split_and!; [done | by rewrite P', P1 | done].
Qed.

(** ** Searching *)

Lemma lower_bound_spec (v : list A) (val : A) (first last fuel : nat) :
  sorted v -> first <= last <= length v -> last - first < fuel ->
  (forall k x, k < first -> v !! k = Some x -> comp x val = true) ->
  (forall k x, last <= k -> v !! k = Some x -> comp x val = false) ->
  exists r, lower_bound_loop v val first last fuel = Ok r /\ r <= length v /\
    (forall k x, k < r -> v !! k = Some x -> comp x val = true) /\
    (forall k x, r <= k -> v !! k = Some x -> comp x val = false).
Proof.
  intros Hs. revert first last. induction fuel as [| fuel IH]; intros first last Hl Hf Hlo Hhi; [lia |].
  cbn [lower_bound_loop]. destruct (Nat.ltb_spec first last) as [Hlt | Hge].
  - set (mid := (first + last) / 2).
    assert (Hmid : first <= mid < last).
    { unfold mid. pose proof (Nat.div_mod_eq (first + last) 2).
      pose proof (Nat.mod_upper_bound (first + last) 2). lia. }
    destruct (lookup_lt_is_Some_2 v mid ltac:(lia)) as [x Hx]. unfold at_. rewrite Hx. step.
    destruct (comp x val) eqn:Hc; apply IH; try lia; try done.
    + intros k y Hk Hy. destruct (decide (k = mid)) as [-> |]; [congruence |].
      destruct (decide (k < first)); [by apply (Hlo k) |].
      pose proof (Hs k mid ltac:(pose proof (lookup_lt_Some _ _ _ Hx); lia) ltac:(lia) y x Hy Hx) as Hyx.
      destruct (comp y val) eqn:Hyv; [done |].
      assert (comp x val = false); [| congruence].
      by apply (comp_negtrans val y x).
    + intros k y Hk Hy. destruct (decide (k = mid)) as [-> |]; [congruence |].
      pose proof (Hs mid k ltac:(pose proof (lookup_lt_Some _ _ _ Hy); lia) ltac:(lia) x y Hx Hy).
      by apply (comp_negtrans val x y).
  - exists first. split_and!; [done | lia | done |]. intros k x Hk. apply Hhi. lia.
Qed.

(** ** Removing duplicates *)

Definition increasing (v : list A) (n : nat) : Prop :=
  forall k l x y, k < l < n -> v !! k = Some x -> v !! l = Some y -> comp x y = true.

Definition equivalent (x y : A) : Prop := comp x y = false /\ comp y x = false.

Lemma comp_trans (x y z : A) : comp x y = true -> comp y z = true -> comp x z = true.
Proof.
  intros H1 H2. destruct (comp x z) eqn:H; [done |]. apply comp_asym in H2.
  pose proof (comp_negtrans y z x H2 H). congruence.
Qed.

Lemma equivalent_refl (x : A) : equivalent x x.
Proof. unfold equivalent. destruct (comp x x) eqn:H; [| done]. pose proof (comp_asym _ _ H). congruence. Qed.

(** The elements the loop still has to keep: those kept so far and those from
    [i] on. *)
Definition pending (v : list A) (last i : nat) (x : A) : Prop :=
  exists k, (k <= last \/ i <= k) /\ v !! k = Some x.

Definition represents (P Q : A -> Prop) : Prop :=
  (forall x, Q x -> P x) /\ (forall x, P x -> exists y, Q y /\ equivalent x y).

Lemma increasing_snoc (v : list A) (last : nat) (x y : A) :
  increasing v (S last) -> v !! last = Some x -> comp x y = true -> S last < length v ->
  increasing (<[S last := y]> v) (S (S last)).
Proof.
  intros Hi Hx Hc Hl k l a b Hk Ha Hb. rewrite list_lookup_insert_ne in Ha by lia.
  destruct (decide (l = S last)) as [-> |].
  - rewrite list_lookup_insert_eq in Hb by done. simplify_eq.
    destruct (decide (k = last)) as [-> |]; [congruence |].
    apply (comp_trans a x b); [| done]. by apply (Hi k last); [lia | |].
  - rewrite list_lookup_insert_ne in Hb by lia. by apply (Hi k l); [lia | |].
Qed.

Lemma equivalent_trans (x y z : A) : equivalent x y -> equivalent y z -> equivalent x z.
Proof. intros [H1 H2] [H3 H4]. split; [by apply (comp_negtrans z y x) | by apply (comp_negtrans x y z)]. Qed.

Lemma represents_trans (P Q R : A -> Prop) : represents P Q -> represents Q R -> represents P R.
Proof.
  intros [A1 A2] [B1 B2]. split; [auto |]. intros x (y & Hy & Hxy)%A2. apply B2 in Hy as (z & Hz & Hyz).
  exists z. split; [done |]. by apply (equivalent_trans x y z).
Qed.

(** The elements still to be read are in order, above the last one kept. *)
Definition pending_sorted (v : list A) (last i : nat) : Prop :=
  forall k l, (k = last \/ i <= k) -> k < l -> i <= l -> le_at v k l.

(** Element [i] is kept. *)
Lemma pending_keep (v : list A) (last i : nat) (y : A) :
  v !! i = Some y -> last < i -> pending_sorted v last i ->
  pending_sorted (<[S last := y]> v) (S last) (S i) /\
  represents (pending v last i) (pending (<[S last := y]> v) (S last) (S i)).
Proof.
  intros Hy Hli Hs. pose proof (lookup_lt_Some _ _ _ Hy) as Hl.
  assert (Hlast : <[S last := y]> v !! S last = v !! i) by (rewrite list_lookup_insert_eq by lia; done).
  assert (Hrest : forall k, k <> S last -> <[S last := y]> v !! k = v !! k)
    by (intros k Hk; by rewrite list_lookup_insert_ne by lia).
  split.
  - intros k l Hk Hkl Hl' a b Ha Hb. rewrite Hrest in Hb by lia. destruct Hk as [-> | Hk].
    + rewrite Hlast in Ha. by apply (Hs i l); [lia | lia | lia | |].
    + rewrite Hrest in Ha by lia. by apply (Hs k l); [lia | lia | lia | |].
  - assert (Hiff : forall x, pending (<[S last := y]> v) (S last) (S i) x <-> pending v last i x).
    { intros x. split; intros (k & Hk & Hx).
      - destruct (decide (k = S last)) as [-> |].
        + exists i. split; [lia |]. by rewrite <- Hlast.
        + exists k. rewrite Hrest in Hx by done. split; [lia | done].
      - destruct (decide (k = i)) as [-> |].
        + exists (S last). split; [lia |]. by rewrite Hlast.
        + exists k. rewrite Hrest by lia. split; [lia | done]. }
    split; [apply Hiff |]. intros x Hx. exists x. split; [by apply Hiff | apply equivalent_refl].
Qed.

(** Element [i] repeats the last one kept. *)
Lemma pending_skip (v : list A) (last i : nat) (x y : A) :
  v !! last = Some x -> v !! i = Some y -> equivalent y x -> pending_sorted v last i ->
  pending_sorted v last (S i) /\ represents (pending v last i) (pending v last (S i)).
Proof.
  intros Hx Hy Heq Hs. split.
  - intros k l Hk Hkl Hl. apply Hs; lia.
  - split.
    + intros z (k & Hk & Hz). exists k. split; [lia | done].
    + intros z (k & Hk & Hz). destruct (decide (k = i)) as [-> |].
      * exists x. split; [exists last; split; [lia | done] | congruence].
      * exists z. split; [exists k; split; [lia | done] | apply equivalent_refl].
Qed.

Lemma dedup_loop_spec (v : list A) (last i k : nat) :
  pending_sorted v last i -> i + k = length v -> last < i -> increasing v (S last) ->
  exists v' last', dedup_loop v last i k = Ok (v', last') /\ last' < length v' /\
    increasing v' (S last') /\ represents (pending v last i) (pending v' last' (length v')).
Proof.
  revert v last i. induction k as [| k IH]; intros v last i Hs Hl Hli Hi; cbn [dedup_loop].
  - exists v, last. rewrite Nat.add_0_r in Hl. subst i. split_and!; try done. split; [done |].
    intros x Hx. exists x. split; [done | apply equivalent_refl].
  - destruct (lookup_lt_is_Some_2 v last ltac:(lia)) as [x Hx].
    destruct (lookup_lt_is_Some_2 v i ltac:(lia)) as [y Hy].
    unfold at_ at 1 2. rewrite Hx. step. rewrite Hy. step.
    assert (Hyx : comp y x = false) by (apply (Hs last i); done || lia).
    destruct (comp x y) eqn:Hc.
    + assert ((if negb (S last =? i) then <[S last := y]> v else v) = <[S last := y]> v) as ->.
      { destruct (Nat.eqb_spec (S last) i) as [-> |]; cbn [negb]; [by rewrite list_insert_id | done]. }
      destruct (pending_keep v last i y Hy Hli Hs) as [Hs1 Hr1].
      destruct (IH (<[S last := y]> v) (S last) (S i)) as (v' & last' & -> & Hb & Hi' & Hr); try done;
        rewrite ?length_insert; try lia.
      { by apply (increasing_snoc v last x y); try lia. }
      exists v', last'. split_and!; try done. by apply (represents_trans _ _ _ Hr1).
    + rewrite Hyx. step. destruct (pending_skip v last i x y Hx Hy) as [Hs1 Hr1]; [done | done |].
      destruct (IH v last (S i)) as (v' & last' & -> & Hb & Hi' & Hr); try done; try lia.
      exists v', last'. split_and!; try done. by apply (represents_trans _ _ _ Hr1).
Qed.

Lemma dedup_spec (v v1 : list A) : Sort v = Ok v1 -> v1 ≡ₚ v -> sorted v1 ->
  exists v', SortAndDedup v = Ok v' /\ increasing v' (length v') /\
    represents (fun x => x ∈ v) (fun x => x ∈ v').
Proof.
  intros Hv1 P Hs. unfold SortAndDedup. rewrite Hv1. step.
  destruct (Nat.ltb_spec (length v1) 2) as [Hl | Hl].
  - exists v1. split_and!; [done | intros k l x y; lia |]. split; intros x Hx; [by rewrite <- P |].
    exists x. split; [by rewrite P | apply equivalent_refl].
  - destruct (dedup_loop_spec v1 0 1 (length v1 - 1)) as (v' & last & -> & Hb & Hi & R1 & R2); try lia.
    { intros k l Hk Hkl Hl1 x y Hx Hy. pose proof (lookup_lt_Some _ _ _ Hy). by apply (Hs k l ltac:(lia) ltac:(lia)). }
    { intros k l. lia. }
    assert (Hin : forall x, x ∈ v <-> pending v1 0 1 x).
    { intros x. rewrite <- P, list_elem_of_lookup. split; [intros [k Hk]; exists k; split; [lia | done] |].
      intros (k & _ & Hk). by exists k. }
    assert (Hout : forall x, x ∈ take (S last) v' <-> pending v' last (length v') x).
    { intros x. rewrite list_elem_of_lookup. split; intros [k Hk]; exists k.
      - pose proof (lookup_lt_Some _ _ _ Hk) as H. rewrite length_take in H.
        rewrite lookup_take_lt in Hk by lia. split; [lia | done].
      - destruct Hk as [Hk Hx]. pose proof (lookup_lt_Some _ _ _ Hx). by rewrite lookup_take_lt by lia. }
    exists (take (S last) v'). split_and!; [done | |].
    + rewrite length_take. intros k l x y Hk Hx Hy. rewrite lookup_take_lt in Hx, Hy by lia.
      by apply (Hi k l); [lia | |].
    + split; intros x Hx; [by apply Hin, R1, Hout |]. apply Hin, R2 in Hx as (y & Hy & He).
      exists y. split; [by apply Hout | done].
Qed.
End sort.

(** C24.  The heap sort of sanitizer_common.h sorts: for any [Compare] object
    that is a strict weak order and any array, [Sort] returns (no index leaves
    the array), its result is a permutation of the array, and no element is
    above a later one. *)
Theorem Sort_correct {A} (comp : A -> A -> bool) (Hcomp : StrictWeakOrder comp) (v : list A) :
  exists v', Sort comp v = Ok v' /\ v' ≡ₚ v /\
    forall k l x y, k < l -> v' !! k = Some x -> v' !! l = Some y -> comp y x = false.
Proof.
  destruct (Sort_spec comp v) as (v' & Hv & P & Hs). exists v'. split_and!; try done.
  intros k l x y Hkl Hx Hy. pose proof (lookup_lt_Some _ _ _ Hy). by apply (Hs k l ltac:(lia) ltac:(lia)).
Qed.

Lemma Sort_correct_witness :
  exists v', Sort Z.ltb [3; 1; 2; 1; 5; 0; 4]%Z = Ok v' /\ v' ≡ₚ [3; 1; 2; 1; 5; 0; 4]%Z /\
    forall k l x y, k < l -> v' !! k = Some x -> v' !! l = Some y -> Z.ltb y x = false.
Proof. apply (Sort_correct Z.ltb less_strict_weak). Defined.

Lemma SortAndDedup_spec {A} (comp : A -> A -> bool) (Hcomp : StrictWeakOrder comp) (v : list A) :
  exists v', SortAndDedup comp v = Ok v' /\
    (forall k l x y, k < l -> v' !! k = Some x -> v' !! l = Some y -> comp x y = true) /\
    (forall x, x ∈ v' -> x ∈ v) /\
    (forall x, x ∈ v -> exists y, y ∈ v' /\ comp x y = false /\ comp y x = false) /\
    forall val, exists r, InternalLowerBound comp v' val = Ok r /\ r <= length v' /\
      (forall k x, k < r -> v' !! k = Some x -> comp x val = true) /\
      (forall k x, r <= k -> v' !! k = Some x -> comp x val = false).
Proof.
  destruct (Sort_spec comp v) as (v1 & Hv & P & Hs).
  destruct (dedup_spec comp v v1 Hv P Hs) as (v' & Hd & Hi & R1 & R2).
  exists v'. split_and!; try done.
  - intros k l x y Hkl Hx Hy. pose proof (lookup_lt_Some _ _ _ Hy). by apply (Hi k l); [lia | |].
  - intros val. apply (lower_bound_spec comp v' val 0 (length v') (S (length v'))); try lia.
    + intros k l Hkl _ x y Hx Hy. apply comp_asym. by apply (Hi k l); [lia | |].
    + intros k x Hk Hx. pose proof (lookup_lt_Some _ _ _ Hx). lia.
Qed.

(** [SortAndDedup] returns, and no [CHECK] of it fails: the result is
    strictly increasing, holds elements of the array only and, for each
    element of the array, one that is equivalent to it; [InternalLowerBound]
    then finds, for any value, the first element that is not less. *)
Theorem SortAndDedup_lower_bound {A} (comp : A -> A -> bool) (Hcomp : StrictWeakOrder comp) (v : list A) :
  exists v', SortAndDedup comp v = Ok v' /\
    (forall k l x y, k < l -> v' !! k = Some x -> v' !! l = Some y -> comp x y = true) /\
    (forall x, x ∈ v' -> x ∈ v) /\
    (forall x, x ∈ v -> exists y, y ∈ v' /\ comp x y = false /\ comp y x = false) /\
    forall val, exists r, InternalLowerBound comp v' val = Ok r /\ r <= length v' /\
      (forall k x, k < r -> v' !! k = Some x -> comp x val = true) /\
      (forall k x, r <= k -> v' !! k = Some x -> comp x val = false).
Proof. by apply SortAndDedup_spec. Qed.

Lemma SortAndDedup_lower_bound_witness :
  exists v', SortAndDedup Z.ltb [3; 1; 2; 1; 3]%Z = Ok v' /\
    (forall k l x y, k < l -> v' !! k = Some x -> v' !! l = Some y -> Z.ltb x y = true) /\
    (forall x, x ∈ v' -> x ∈ [3; 1; 2; 1; 3]%Z) /\
    (forall x, x ∈ [3; 1; 2; 1; 3]%Z -> exists y, y ∈ v' /\ Z.ltb x y = false /\ Z.ltb y x = false) /\
    forall val, exists r, InternalLowerBound Z.ltb v' val = Ok r /\ r <= length v' /\
      (forall k x, k < r -> v' !! k = Some x -> Z.ltb x val = true) /\
      (forall k x, r <= k -> v' !! k = Some x -> Z.ltb x val = false).
Proof. apply (SortAndDedup_lower_bound Z.ltb less_strict_weak). Defined.
