(* ===== verification/Leb128.v ===== *)
(** * LEB128: sanitizer_leb128.h

    The signed and unsigned variable-length codes, at the 64-bit types the
    runtime instantiates them with.  The output range [begin, end) is the
    number of bytes there is room for, and the bytes written are returned; the
    input range is the list of its bytes, and a decoder returns the value (when
    it got to store one) with the bytes it did not read. *)

From S2P Require Import Prelude.

(** The loop ends when the room does: [begin == end]. *)
Fixpoint EncodeULEB128 (value : Z) (room : nat) : list Z :=
  let byte := Z.land value 127 in
  let value := Z.shiftr value 7 in
  let byte := if negb (value =? 0) then Z.lor byte 128 else byte in
  match room with
  | O => []
  | S room' => byte :: (if negb (value =? 0) then EncodeULEB128 value room' else [])
  end.

(** [slice << shift] is undefined when the shift reaches the width. *)
Definition shl64 (slice shift : Z) : result Z :=
  if shift <? 64 then Ok (wshl slice shift) else Die BadAccess.

Fixpoint DecodeULEB128 (bytes : list Z) (value shift : Z) : result (option Z * list Z) :=
  match bytes with
  | [] => Ok (None, [])
  | byte :: rest =>
      slice ← shl64 (Z.land byte 127) shift;
      let value := value +w slice in
      let shift := shift + 7 in
      if 128 <=? byte then DecodeULEB128 rest value shift
      else Ok (Some value, rest)
  end.

Fixpoint EncodeSLEB128 (value : Z) (room : nat) : list Z :=
  let byte := Z.land value 127 in
  let value := Z.shiftr value 7 in
  let more := negb (((value =? 0) && (Z.land byte 64 =? 0)) ||
                    ((value =? -1) && negb (Z.land byte 64 =? 0))) in
  let byte := if more then Z.lor byte 128 else byte in
  match room with
  | O => []
  | S room' => byte :: (if more then EncodeSLEB128 value room' else [])
  end.

(** [value] is signed: it is kept as the signed value of its 64 bits. *)
Fixpoint DecodeSLEB128 (bytes : list Z) (value shift : Z) : result (option Z * list Z) :=
  match bytes with
  | [] => Ok (None, [])
  | byte :: rest =>
      slice ← shl64 (Z.land byte 127) shift;
      let value := swrap (Z.lor value slice) in
      let shift := shift + 7 in
      if 128 <=? byte then DecodeSLEB128 rest value shift
      else
        Ok (Some (if (shift <? 64) && negb (Z.land byte 64 =? 0)
                  then swrap (Z.lor value (wshl (word_modulus - 1) shift)) else value), rest)
  end.

(** ** Bits *)

Lemma land_127 (v : Z) : Z.land v 127 = v mod 128.
Proof. apply (land_pow2_mod v 7). lia. Qed.

Lemma shiftr_7 (v : Z) : Z.shiftr v 7 = v / 128.
Proof. by rewrite Z.shiftr_div_pow2. Qed.

Lemma lor_disjoint (x y n : Z) : 0 <= n -> 0 <= x < 2 ^ n -> Z.lor x (y * 2 ^ n) = x + y * 2 ^ n.
Proof.
  intros Hn Hx. rewrite <- Z.shiftl_mul_pow2 by done.
  assert (Hl : Z.land x (Z.shiftl y n) = 0).
  { apply Z.bits_inj'. intros i Hi. rewrite Z.land_spec, Z.bits_0.
    destruct (Z.ltb_spec i n).
    - by rewrite Z.shiftl_spec_low, andb_false_r.
    - by rewrite (testbit_high x i n). }
  rewrite Z.add_nocarry_lxor by done. symmetry. by apply Z.lxor_lor.
Qed.

Lemma byte_more (a : Z) : 0 <= a < 128 ->
  Z.lor a 128 = a + 128 /\ Z.land (a + 128) 127 = a /\ Z.land a 127 = a.
Proof.
  intros Ha. change 128 with (1 * 2 ^ 7) at 1. rewrite lor_disjoint by lia.
  rewrite !land_127. split_and!; [lia | |]; zlia.
Qed.

Lemma sign_bit (a : Z) : 0 <= a < 128 -> (Z.land a 64 =? 0) = (a <? 64).
Proof.
  intros Ha.
  assert (Hall : forallb (fun a => Bool.eqb (Z.land a 64 =? 0) (a <? 64)) (seqZ 0 128) = true)
    by (vm_compute; reflexivity).
  rewrite forallb_forall in Hall. apply eqb_prop, Hall. apply list_elem_of_In, elem_of_seqZ. lia.
Qed.

(** The shift of the [j]-th byte. *)
Definition shift_of (j : nat) : Z := 7 * Z.of_nat j.

(** A slice that fits is added below the bits that are still to come. *)
Lemma slice_fits (a shift : Z) : 0 <= shift < 64 -> 0 <= a -> a * 2 ^ shift < word_modulus ->
  shl64 a shift = Ok (a * 2 ^ shift).
Proof.
  intros Hs Ha Hb. unfold shl64. rewrite (proj2 (Z.ltb_lt _ _)) by lia.
  unfold wshl. rewrite Z.shiftl_mul_pow2, wrap_small by (unfold is_uptr; lia). done.
Qed.

Lemma pow_split (shift : Z) : 0 <= shift < 64 ->
  2 ^ shift * 2 ^ (64 - shift) = word_modulus /\ 0 < 2 ^ shift /\ 0 < 2 ^ (64 - shift).
Proof.
  intros H. rewrite <- Z.pow_add_r by lia. split; [by replace (shift + (64 - shift)) with 64 by lia | lia].
Qed.

Lemma uleb_roundtrip (room j : nat) (v acc : Z) (rest : list Z) :
  shift_of j < 64 -> (10 <= j + room)%nat -> 0 <= v < 2 ^ (64 - shift_of j) -> 0 <= acc < 2 ^ shift_of j ->
  DecodeULEB128 (EncodeULEB128 v room ++ rest) acc (shift_of j) =
  Ok (Some (acc + v * 2 ^ shift_of j), rest).
Proof.
  revert j v acc. induction room as [| room IH]; intros j v acc Hj Hroom Hv Hacc;
    [unfold shift_of in *; lia |].
  assert (Hs0 : 0 <= shift_of j) by (unfold shift_of; lia).
  pose proof (pow_split (shift_of j) ltac:(lia)) as (Hp & Hp1 & Hp2).
  cbn [EncodeULEB128 app DecodeULEB128]. rewrite land_127, shiftr_7.
  pose proof (Z.mod_pos_bound v 128 ltac:(lia)) as Hm. pose proof (Z.div_mod v 128 ltac:(lia)) as Hdm.
  destruct (byte_more (v mod 128) Hm) as (B1 & B2 & B3).
  assert (Hle : v mod 128 <= v) by (apply Z.mod_le; lia).
  assert (Hfit : acc + v * 2 ^ shift_of j < word_modulus) by nia.
  assert (Hfit1 : v mod 128 * 2 ^ shift_of j <= v * 2 ^ shift_of j) by nia.
  destruct (Z.eqb_spec (v / 128) 0) as [Hz | Hnz]; cbn [negb app].
  - rewrite B3, slice_fits by lia. step. rewrite (proj2 (Z.leb_gt _ _)) by lia.
    rewrite wrap_small by (unfold is_uptr; lia). do 3 f_equal. nia.
  - rewrite B1, B2, slice_fits by lia. step. rewrite (proj2 (Z.leb_le _ _)) by lia.
    rewrite wrap_small by (unfold is_uptr; nia).
    assert (Hdiv : 0 < v / 128) by (pose proof (Z.div_pos v 128); lia).
    assert (Hj7 : shift_of j + 7 < 64).
    { apply Z.lt_nge. intros Hge. assert (2 ^ (64 - shift_of j) <= 2 ^ 7) by (apply Z.pow_le_mono_r; lia).
      change (2 ^ 7) with 128 in *. rewrite Z.div_small in Hdiv; lia. }
    replace (shift_of j + 7) with (shift_of (S j)) in * by (unfold shift_of; lia).
    assert (Hsp : 2 ^ shift_of (S j) = 128 * 2 ^ shift_of j).
    { replace (shift_of (S j)) with (7 + shift_of j) by (unfold shift_of; lia). by rewrite Z.pow_add_r by lia. }
    assert (Hsp2 : 2 ^ (64 - shift_of j) = 128 * 2 ^ (64 - shift_of (S j))).
    { replace (64 - shift_of j) with (7 + (64 - shift_of (S j))) by (unfold shift_of; lia).
      rewrite Z.pow_add_r by lia. done. }
    rewrite IH; [| lia | lia | nia | nia]. do 3 f_equal. nia.
Qed.

(** ** Signed values *)

Lemma swrap_negative (z : Z) : 9223372036854775808 <= z < word_modulus -> swrap z = z - word_modulus.
Proof.
  intros Hz. unfold swrap. rewrite wrap_small by (unfold is_uptr; lia). cbv zeta.
  by rewrite (proj2 (Z.ltb_ge _ _)) by lia.
Qed.

(** The sign extension of the last byte. *)
Lemma extend_sign (x s : Z) : 0 <= s < 64 -> 0 <= x < 2 ^ s -> x < 9223372036854775808 ->
  swrap (Z.lor x (wshl (word_modulus - 1) s)) = x - 2 ^ s.
Proof.
  intros Hs Hx Hx63. pose proof (pow_split s Hs) as (Hp & Hp1 & Hp2).
  assert (Hw : wshl (word_modulus - 1) s = (2 ^ (64 - s) - 1) * 2 ^ s).
  { unfold wshl. rewrite Z.shiftl_mul_pow2 by lia. unfold wrap.
    symmetry. apply (Zmod_unique _ _ (2 ^ s - 1)); nia. }
  rewrite Hw, lor_disjoint by lia.
  assert (2 ^ s <= 9223372036854775808).
  { change 9223372036854775808 with (2 ^ 63). apply Z.pow_le_mono_r; lia. }
  assert (Hm : (2 ^ (64 - s) - 1) * 2 ^ s = word_modulus - 2 ^ s) by nia.
  rewrite Hm, swrap_negative by (unfold word_modulus; lia). unfold word_modulus. lia.
Qed.

(** The last byte at the last position: only the sign is left. *)
Lemma sleb_last (room : nat) (v acc : Z) (rest : list Z) : (0 < room)%nat ->
  -1 <= v < 1 -> 0 <= acc < 9223372036854775808 ->
  DecodeSLEB128 (EncodeSLEB128 v room ++ rest) acc 63 = Ok (Some (acc + v * 9223372036854775808), rest).
Proof.
  intros Hroom Hv Hacc. destruct room as [| room]; [lia |].
  assert (Hdec : forall byte slice, shl64 (Z.land byte 127) 63 = Ok slice -> byte < 128 ->
    DecodeSLEB128 (byte :: rest) acc 63 = Ok (Some (swrap (Z.lor acc slice)), rest)).
  { intros byte slice Hsl Hb. cbn [DecodeSLEB128]. rewrite Hsl. step.
    by rewrite (proj2 (Z.leb_gt _ _)) by done. }
  assert (v = 0 \/ v = -1) as [-> | ->] by lia.
  - change (EncodeSLEB128 0 (S room) ++ rest) with (0 :: rest). rewrite (Hdec 0 0) by done.
    rewrite Z.lor_0_r, swrap_small by (unfold is_sptr; lia). do 3 f_equal. lia.
  - change (EncodeSLEB128 (-1) (S room) ++ rest) with (127 :: rest). rewrite (Hdec 127 (1 * 2 ^ 63)) by done.
    rewrite lor_disjoint by (change (2 ^ 63) with 9223372036854775808; lia).
    change (1 * 2 ^ 63) with 9223372036854775808.
    rewrite swrap_negative by (unfold word_modulus; lia). do 3 f_equal. unfold word_modulus. lia.
Qed.

Lemma sleb_roundtrip (room j : nat) (v acc : Z) (rest : list Z) :
  shift_of j < 64 -> (10 <= j + room)%nat -> - 2 ^ (63 - shift_of j) <= v < 2 ^ (63 - shift_of j) ->
  0 <= acc < 2 ^ shift_of j ->
  DecodeSLEB128 (EncodeSLEB128 v room ++ rest) acc (shift_of j) =
  Ok (Some (acc + v * 2 ^ shift_of j), rest).
Proof.
  revert j v acc. induction room as [| room IH]; intros j v acc Hj Hroom Hv Hacc;
    [unfold shift_of in *; lia |].
  destruct (decide (j = 9%nat)) as [-> |].
  { change (shift_of 9) with 63 in *. change (2 ^ 63) with 9223372036854775808 in *.
    apply sleb_last; [lia | change (2 ^ (63 - 63)) with 1 in Hv; lia | done]. }
  assert (Hs0 : 0 <= shift_of j <= 56) by (unfold shift_of in *; lia).
  assert (Hpow : 128 * 2 ^ shift_of j = 2 ^ (shift_of j + 7)) by (rewrite Z.pow_add_r by lia; lia).
  assert (Hpow63 : 2 ^ (shift_of j + 7) <= 9223372036854775808).
  { change 9223372036854775808 with (2 ^ 63). apply Z.pow_le_mono_r; lia. }
  assert (Hp1 : 0 < 2 ^ shift_of j) by lia.
  cbn [EncodeSLEB128 app DecodeSLEB128]. rewrite land_127, shiftr_7.
  pose proof (Z.mod_pos_bound v 128 ltac:(lia)) as Hm. pose proof (Z.div_mod v 128 ltac:(lia)) as Hdm.
  destruct (byte_more (v mod 128) Hm) as (B1 & B2 & B3). rewrite sign_bit by done.
  assert (Hfit : 0 <= acc + v mod 128 * 2 ^ shift_of j < 2 ^ (shift_of j + 7)) by nia.
  assert (Hslice : shl64 (v mod 128) (shift_of j) = Ok (v mod 128 * 2 ^ shift_of j)).
  { apply slice_fits; [lia | lia |]. unfold word_modulus. nia. }
  destruct (_ || _) eqn:Hend; cbn [negb app].
  - rewrite B3, Hslice. step. rewrite lor_disjoint, swrap_small by (unfold is_sptr; lia).
    rewrite (proj2 (Z.leb_gt _ _)), (proj2 (Z.ltb_lt (shift_of j + 7) 64)) by lia.
    rewrite sign_bit by done. cbn [andb]. do 3 f_equal.
    apply orb_true_iff in Hend as [[H1 H2]%andb_true_iff | [H1 H2]%andb_true_iff].
    + rewrite H2. cbn [negb]. apply Z.eqb_eq in H1. nia.
    + rewrite H2, extend_sign by lia. apply Z.eqb_eq in H1. nia.
  - rewrite B1, B2, Hslice. step. rewrite lor_disjoint, swrap_small by (unfold is_sptr; lia).
    rewrite (proj2 (Z.leb_le _ _)) by lia.
    replace (shift_of j + 7) with (shift_of (S j)) in * by (unfold shift_of; lia).
    assert (Hsp2 : 2 ^ (63 - shift_of j) = 128 * 2 ^ (63 - shift_of (S j))).
    { replace (63 - shift_of j) with (7 + (63 - shift_of (S j))) by (unfold shift_of in *; lia).
      rewrite Z.pow_add_r by (unfold shift_of in *; lia). done. }
    rewrite IH; [do 3 f_equal; nia | unfold shift_of in *; lia | lia | nia | nia].
Qed.

Lemma uleb_length (v : Z) (room : nat) : (length (EncodeULEB128 v room) <= room)%nat.
Proof.
  revert v. induction room as [| room IH]; intros v; cbn; [lia |].
  destruct (negb _); cbn; [specialize (IH (Z.shiftr v 7)); lia | lia].
Qed.

Lemma sleb_length (v : Z) (room : nat) : (length (EncodeSLEB128 v room) <= room)%nat.
Proof.
  revert v. induction room as [| room IH]; intros v; cbn; [lia |].
  destruct (negb _); cbn; [specialize (IH (Z.shiftr v 7)); lia | lia].
Qed.

(** C25.  Decoding what was encoded gives the value back and leaves the bytes
    that follow, for every 64-bit value, unsigned and signed, whenever there
    is room for ten bytes; no encoder ever writes more than the room it has,
    and no decoder of an encoding shifts by the width or more. *)
Theorem leb128_roundtrip (room : nat) (rest : list Z) (Hroom : (10 <= room)%nat) :
  (forall v, 0 <= v < 2 ^ 64 -> DecodeULEB128 (EncodeULEB128 v room ++ rest) 0 0 = Ok (Some v, rest)) /\
  (forall v, - 2 ^ 63 <= v < 2 ^ 63 ->
    DecodeSLEB128 (EncodeSLEB128 v room ++ rest) 0 0 = Ok (Some v, rest)) /\
  (forall v r, (length (EncodeULEB128 v r) <= r)%nat /\ (length (EncodeSLEB128 v r) <= r)%nat).
Proof.
  split_and!.
  - intros v Hv. change 0 with (shift_of 0) at 2. rewrite uleb_roundtrip; [| done | lia | done | done].
    change (2 ^ shift_of 0) with 1. do 3 f_equal. lia.
  - intros v Hv. change 0 with (shift_of 0) at 2. rewrite sleb_roundtrip; [| done | lia | done | done].
    change (2 ^ shift_of 0) with 1. do 3 f_equal. lia.
  - intros v r. split; [apply uleb_length | apply sleb_length].
Qed.

Lemma leb128_roundtrip_witness :
  DecodeULEB128 (EncodeULEB128 300 12 ++ [7]) 0 0 = Ok (Some 300, [7]) /\
  DecodeSLEB128 (EncodeSLEB128 (-9223372036854775808) 12 ++ [7]) 0 0 =
    Ok (Some (-9223372036854775808), [7]).
Proof.
  destruct (leb128_roundtrip 12 [7] ltac:(lia)) as (Hu & Hs & _).
  split; [apply Hu; lia | apply Hs; lia].
Defined.
