(* ===== verification/Lzw.v ===== *)
(** * LZW: sanitizer_lzw.h

    [LzwEncode] and [LzwDecode] as functions on the sequences that their input
    iterators yield and their output iterators receive.  The encoder's
    [DenseMap] from (prefix code, next item) to code is a finite map; the
    decoder's substrings are ranges of positions of its own output, as in the
    source.  Codes are [u32]. *)

From S2P Require Import Prelude Sorting.

(** [Min(~0U, ~0U - 1) - 1]: neither the empty nor the tombstone key. *)
Definition kNoPrefix : Z := Z.min 4294967295 4294967294 - 1.

Abbreviation code_map := (gmap (Z * Z) Z).

(** [prefix_to_code.size()], an [unsigned]. *)
Definition map_size (m : code_map) : Z := to_u32 (Z.of_nat (size m)).

(** [for (it = begin; it != end; ++it) if (try_emplace(...).second) push_back] *)
Fixpoint collect_items (input : list Z) (m : code_map) (dict_len1 : list Z) : code_map * list Z :=
  match input with
  | [] => (m, dict_len1)
  | x :: input' =>
      match m !! (kNoPrefix, x) with
      | Some _ => collect_items input' m dict_len1
      | None => collect_items input' (<[(kNoPrefix, x) := 0]> m) (dict_len1 ++ [x])
      end
  end.

Fixpoint remap_items (dict_len1 : list Z) (i : Z) (m : code_map) : code_map :=
  match dict_len1 with
  | [] => m
  | x :: rest => remap_items rest (i + 1) (<[(kNoPrefix, x) := to_u32 i]> m)
  end.

(** The main loop: the codes it emits, the last one included. *)
Fixpoint encode_loop (input : list Z) (m : code_map) (code : Z) : result (list Z) :=
  match input with
  | [] => Ok [code]
  | x :: input' =>
      match m !! (code, x) with
      | Some known => encode_loop input' m known
      | None =>
          let m := <[(code, x) := map_size m]> m in
          next ← get_or_die (m !! (kNoPrefix, x));
          rest ← encode_loop input' m next;
          Ok (code :: rest)
      end
  end.

Definition LzwEncode (input : list Z) : result (list Z) :=
  let '(m, dict_len1) := collect_items input ∅ [] in
  dict_len1 ← Sort Z.ltb dict_len1;
  let m := remap_items dict_len1 0 m in
  let out := Z.of_nat (length dict_len1) :: dict_len1 in
  _ ← check (map_size m =? Z.of_nat (length dict_len1));
  match input with
  | [] => Ok out
  | x :: input' =>
      code ← get_or_die (m !! (kNoPrefix, x));
      codes ← encode_loop input' m code;
      Ok (out ++ codes)
  end.

(** [for (auto& v : dict_len1) { v = *begin; ++begin; }] *)
Fixpoint read_dict (n : nat) (input : list Z) : result (list Z * list Z) :=
  match n with
  | O => Ok ([], input)
  | S n' =>
      match input with
      | [] => Die BadAccess
      | x :: input' => '(dict, rest) ← read_dict n' input'; Ok (x :: dict, rest)
      end
  end.

(** The state of the decoder: the items, the substrings as (begin, end)
    positions of the output, and the output. *)
Fixpoint copy_range (out : list Z) (it : nat) (k : nat) : result (list Z) :=
  match k with
  | O => Ok out
  | S k' => x ← get_or_die (out !! it); copy_range (out ++ [x]) (S it) k'
  end.

Section decoder.
Context (dict_len1 : list Z).

Definition get_substr (code_to_substr : list (nat * nat)) (code : Z) : result (nat * nat) :=
  let i := Z.to_nat (code - Z.of_nat (length dict_len1)) in
  _ ← check (i <? length code_to_substr)%nat;
  get_or_die (code_to_substr !! i).

Definition copy (code_to_substr : list (nat * nat)) (code : Z) (out : list Z) : result (list Z) :=
  if code <? Z.of_nat (length dict_len1) then
    x ← get_or_die (dict_len1 !! Z.to_nat code);
    Ok (out ++ [x])
  else
    '(first, second) ← get_substr code_to_substr code;
    copy_range out first (second - first).

Definition code_to_len (code_to_substr : list (nat * nat)) (code : Z) : result nat :=
  if code <? Z.of_nat (length dict_len1) then Ok 1%nat
  else
    '(first, second) ← get_substr code_to_substr code;
    Ok (second - first)%nat.

Fixpoint decode_loop (codes : list Z) (code_to_substr : list (nat * nat)) (prev_code : Z) (out : list Z)
  : result (list Z) :=
  match codes with
  | [] => Ok out
  | c :: codes' =>
      let code := to_u32 c in
      let start := length out in
      out ← (if code =? Z.of_nat (length dict_len1) + Z.of_nat (length code_to_substr) then
               out ← copy code_to_substr prev_code out;
               x ← get_or_die (out !! start);
               Ok (out ++ [x])
             else copy code_to_substr code out);
      len ← code_to_len code_to_substr prev_code;
      decode_loop codes' (code_to_substr ++ [(start - len, start + 1)%nat]) code out
  end.
End decoder.

Definition LzwDecode (input : list Z) : result (list Z) :=
  match input with
  | [] => Ok []
  | n :: input =>
      match input with
      | [] => Ok []
      | _ :: _ =>
          '(dict_len1, input) ← read_dict (Z.to_nat n) input;
          match input with
          | [] => Die BadAccess
          | c :: input =>
              let prev_code := to_u32 c in
              out ← copy dict_len1 [] prev_code [];
              decode_loop dict_len1 input [] prev_code out
          end
      end
  end.

(** ** The dictionary

    [ws] lists the substrings by code: the single items in their sorted
    order, then the longer ones in the order they were found. *)
Record dictionary (m : code_map) (dict_len1 : list Z) (ws : list (list Z)) : Prop := {
  dict_items : take (length dict_len1) ws = map (fun x => [x]) dict_len1;
  dict_size : size m = length ws;
  dict_codes : Z.of_nat (length ws) <= kNoPrefix;
  dict_single : forall i x, dict_len1 !! i = Some x -> m !! (kNoPrefix, x) = Some (Z.of_nat i);
  dict_longer : forall c x c', m !! (c, x) = Some c' -> c <> kNoPrefix ->
    exists w, 0 <= c /\ ws !! Z.to_nat c = Some w /\ 0 <= c' /\ ws !! Z.to_nat c' = Some (w ++ [x]);
}.

(** The strings the decoder's ranges denote. *)
Definition slice (out : list Z) (r : nat * nat) : list Z := take (snd r - fst r) (drop (fst r) out).

Record decoder_knows (out : list Z) (subs : list (nat * nat)) (dict_len1 : list Z) (ws : list (list Z)) : Prop := {
  knows_items : take (length dict_len1) ws = map (fun x => [x]) dict_len1;
  knows_ranges : forall i r, subs !! i = Some r -> (fst r <= snd r <= length out)%nat;
  knows_substr : map (slice out) subs = drop (length dict_len1) ws;
}.

Lemma slice_app (out ext : list Z) (r : nat * nat) : (fst r <= snd r <= length out)%nat ->
  slice (out ++ ext) r = slice out r.
Proof.
  intros Hr. unfold slice. rewrite drop_app_le by lia. rewrite take_app_le; [done |].
  rewrite length_drop. lia.
Qed.

Lemma knows_app (out ext : list Z) (subs : list (nat * nat)) (dict : list Z) (ws : list (list Z)) :
  decoder_knows out subs dict ws -> decoder_knows (out ++ ext) subs dict ws.
Proof.
  intros [H1 H2 H3]. split; [done | |].
  - intros i r Hr. rewrite length_app. specialize (H2 i r Hr). lia.
  - rewrite <- H3. apply list_eq. intros i. rewrite !list_lookup_fmap.
    destruct (subs !! i) eqn:Hr; [| done]. cbn. f_equal. apply slice_app. by apply (H2 i).
Qed.

Lemma knows_length (out : list Z) (subs : list (nat * nat)) (dict : list Z) (ws : list (list Z)) :
  decoder_knows out subs dict ws -> length ws = (length dict + length subs)%nat.
Proof.
  intros [H1 _ H3]. apply (f_equal length) in H1, H3.
  rewrite length_map, length_take in H1. rewrite length_map, length_drop in H3. lia.
Qed.

Lemma copy_range_spec (k : nat) (out : list Z) (it : nat) : (it + k <= length out)%nat ->
  copy_range out it k = Ok (out ++ take k (drop it out)).
Proof.
  revert out it. induction k as [| k IH]; intros out it Hk; cbn [copy_range].
  - by rewrite take_0, app_nil_r.
  - destruct (lookup_lt_is_Some_2 out it ltac:(lia)) as [x Hx]. rewrite Hx. step.
    rewrite IH by (rewrite length_app; cbn; lia). f_equal.
    rewrite (drop_S out x it Hx). cbn [take]. rewrite drop_app_le by lia.
    rewrite take_app_le by (rewrite length_drop; lia). by rewrite <- app_assoc.
Qed.

(** What a known code stands for is copied, and its length is known. *)
Lemma copy_spec (out : list Z) (subs : list (nat * nat)) (dict : list Z) (ws : list (list Z)) (c : Z) (w : list Z) :
  decoder_knows out subs dict ws -> 0 <= c -> ws !! Z.to_nat c = Some w ->
  copy dict subs c out = Ok (out ++ w) /\ code_to_len dict subs c = Ok (length w).
Proof.
  intros Hk Hc Hw. pose proof (knows_length _ _ _ _ Hk) as Hlen. destruct Hk as [H1 H2 H3].
  pose proof (lookup_lt_Some _ _ _ Hw) as Hlt. unfold copy, code_to_len.
  destruct (Z.ltb_spec c (Z.of_nat (length dict))) as [Hs | Hl].
  - assert (Hw1 : take (length dict) ws !! Z.to_nat c = Some w) by (by rewrite lookup_take_lt by lia).
    rewrite H1 in Hw1. apply list_lookup_fmap_Some in Hw1 as (x & -> & Hx). rewrite Hx. by step.
  - set (i := Z.to_nat (c - Z.of_nat (length dict))).
    assert (Hi : (i < length subs)%nat) by lia.
    destruct (lookup_lt_is_Some_2 subs i Hi) as [[a b] Hr]. unfold get_substr. fold i.
    rewrite check_true by (by apply Nat.ltb_lt). step. rewrite Hr. step.
    assert (Hsl : slice out (a, b) = w).
    { assert (Hd : drop (length dict) ws !! i = Some w).
      { rewrite lookup_drop. rewrite <- Hw. f_equal. lia. }
      rewrite <- H3, list_lookup_fmap, Hr in Hd. by injection Hd. }
    specialize (H2 i (a, b) Hr). cbn in H2. unfold slice in Hsl. cbn in Hsl.
    rewrite copy_range_spec by lia. rewrite Hsl. split; [done |]. f_equal.
    rewrite <- Hsl, length_take, length_drop. lia.
Qed.

Lemma knows_prefix (ws0 : list (list Z)) (dict : list Z) (w : list Z) :
  take (length dict) ws0 = map (fun x => [x]) dict -> (length dict <= length ws0)%nat ->
  take (length dict) (ws0 ++ [w]) = map (fun x => [x]) dict.
Proof. intros H Hl. by rewrite take_app_le by done. Qed.

(** The encoder's dictionary is one substring [wp ++ [x]] ahead of the
    decoder's; [wp] is what the decoder wrote last. *)
Record one_ahead (out : list Z) (subs : list (nat * nat)) (dict : list Z) (ws : list (list Z))
  (p : Z) (x : Z) : Prop := {
  ahead : exists ws0 wp o1 h t, ws = ws0 ++ [wp ++ [x]] /\ decoder_knows out subs dict ws0 /\
    0 <= p /\ ws0 !! Z.to_nat p = Some wp /\ wp = h :: t /\ out = o1 ++ wp;
}.

Lemma to_u32_code (c : Z) (ws : list (list Z)) (w : list Z) :
  0 <= c -> ws !! Z.to_nat c = Some w -> Z.of_nat (length ws) <= kNoPrefix -> to_u32 c = c.
Proof.
  intros Hc Hw Hn. apply lookup_lt_Some in Hw. unfold to_u32. apply Z.mod_small.
  change kNoPrefix with 4294967293 in Hn. lia.
Qed.

Lemma decode_step (out : list Z) (subs : list (nat * nat)) (dict : list Z) (ws : list (list Z))
  (p x c : Z) (t : list Z) :
  one_ahead out subs dict ws p x -> Z.of_nat (length ws) <= kNoPrefix ->
  0 <= c -> ws !! Z.to_nat c = Some (x :: t) ->
  exists subs', decoder_knows (out ++ x :: t) subs' dict ws /\ forall codes,
    decode_loop dict (c :: codes) subs p out = decode_loop dict codes subs' c (out ++ x :: t).
Proof.
  intros [(ws0 & wp & o1 & h & t1 & -> & Hk & Hp & Hwp & Hh & Ho)] Hcap Hc Hw.
  pose proof (knows_length _ _ _ _ Hk) as Hlen.
  exists (subs ++ [(length out - length wp, length out + 1)%nat]). split.
  - pose proof (knows_app out (x :: t) _ _ _ Hk) as [K1 K2 K3]. split.
    + apply knows_prefix; [done | lia].
    + intros i r Hr. apply lookup_app_Some in Hr as [Hr | [_ Hr]]; [by apply (K2 i) |].
      apply list_lookup_singleton_Some in Hr as [_ <-]. cbn. rewrite length_app. cbn. lia.
    + rewrite map_app, K3, drop_app_le by lia. f_equal. cbn. f_equal. unfold slice. cbn.
      rewrite Ho, length_app, <- app_assoc. rewrite drop_app_ge by lia.
      replace (length o1 + length wp - length wp - length o1)%nat with 0%nat by lia. rewrite drop_0.
      replace (length o1 + length wp + 1 - (length o1 + length wp - length wp))%nat
        with (length wp + 1)%nat by lia.
      rewrite take_app_ge by lia. replace (length wp + 1 - length wp)%nat with 1%nat by lia. done.
  - intros codes. cbn [decode_loop]. rewrite (to_u32_code c _ _ Hc Hw Hcap).
    destruct (copy_spec out subs dict ws0 p wp Hk Hp Hwp) as [Hcp ->].
    rewrite length_app in Hcap. cbn in Hcap.
    destruct (Z.eqb_spec c (Z.of_nat (length dict) + Z.of_nat (length subs))) as [He | Hne].
    + assert (Hlast : wp ++ [x] = x :: t).
      { rewrite lookup_app_r in Hw by lia. replace (Z.to_nat c - length ws0)%nat with 0%nat in Hw by lia.
        by injection Hw. }
      rewrite Hcp. step. rewrite lookup_app_r by lia. rewrite Nat.sub_diag, Hh.
      change ((h :: t1) !! 0%nat) with (Some h). step.
      assert (h = x) as -> by (rewrite Hh in Hlast; by injection Hlast).
      rewrite <- app_assoc. rewrite <- Hh, Hlast. done.
    + assert (Hw0 : ws0 !! Z.to_nat c = Some (x :: t)).
      { pose proof (lookup_lt_Some _ _ _ Hw) as Hlt. rewrite length_app in Hlt. cbn in Hlt.
        rewrite lookup_app_l in Hw by lia. done. }
      destruct (copy_spec out subs dict ws0 c (x :: t) Hk Hc Hw0) as [-> _]. by step.
Qed.

(** A new substring: the encoder's entry, and the code of the item it starts
    from again. *)
Lemma dictionary_insert (m : code_map) (dict : list Z) (ws : list (list Z)) (c x : Z) (w : list Z) :
  dictionary m dict ws -> 0 <= c -> ws !! Z.to_nat c = Some w -> m !! (c, x) = None -> x ∈ dict ->
  Z.of_nat (length ws) + 1 <= kNoPrefix -> (length dict <= length ws)%nat ->
  let m' := <[(c, x) := map_size m]> m in
  dictionary m' dict (ws ++ [w ++ [x]]) /\
  exists i, m' !! (kNoPrefix, x) = Some i /\ 0 <= i /\ (ws ++ [w ++ [x]]) !! Z.to_nat i = Some [x].
Proof.
  intros [D1 D2 D3 D4 D5] Hc Hw Hnone Hx Hcap Hdl. cbv zeta.
  assert (Hsz : map_size m = Z.of_nat (length ws)).
  { unfold map_size, to_u32. rewrite D2. apply Z.mod_small. change kNoPrefix with 4294967293 in Hcap. lia. }
  pose proof (lookup_lt_Some _ _ _ Hw) as Hlt.
  assert (Hne : c <> kNoPrefix) by lia. rewrite Hsz. split.
  - split.
    + by apply knows_prefix.
    + rewrite map_size_insert_None, length_app by done. cbn. lia.
    + rewrite length_app. cbn. lia.
    + intros i y Hy. rewrite lookup_insert_ne by congruence. by apply D4.
    + intros c1 y c' Hl Hc1. destruct (decide ((c1, y) = (c, x))) as [[= -> ->] | Hk].
      * rewrite lookup_insert_eq in Hl. injection Hl as <-. exists w. rewrite Nat2Z.id.
        rewrite lookup_app_l by done. rewrite lookup_app_r, Nat.sub_diag by lia. split_and!; done || lia.
      * rewrite lookup_insert_ne in Hl by congruence. apply D5 in Hl as (w1 & H1 & H2 & H3 & H4); [| done].
        exists w1. split_and!; [done | by apply lookup_app_l_Some | done | by apply lookup_app_l_Some].
  - apply list_elem_of_lookup in Hx as [i Hi]. exists (Z.of_nat i).
    rewrite lookup_insert_ne by congruence. rewrite (D4 i x Hi). split_and!; [done | lia |].
    rewrite Nat2Z.id. pose proof (lookup_lt_Some _ _ _ Hi).
    apply lookup_app_l_Some. rewrite <- (lookup_take_lt _ (length dict)) by lia.
    rewrite D1. by rewrite list_lookup_fmap, Hi.
Qed.

Lemma encode_decode (input : list Z) : forall m dict ws c w t x p out subs,
  dictionary m dict ws -> (forall y, y ∈ input -> y ∈ dict) ->
  Z.of_nat (length ws + length input) <= kNoPrefix ->
  0 <= c -> ws !! Z.to_nat c = Some w -> w = x :: t -> one_ahead out subs dict ws p x ->
  exists codes, encode_loop input m c = Ok codes /\
    decode_loop dict codes subs p out = Ok (out ++ w ++ input).
Proof.
  induction input as [| y input IH]; intros m dict ws c w t x p out subs HD Hin Hcap Hc Hw Hx Hah;
    cbn [encode_loop length] in *; pose proof (dict_codes _ _ _ HD) as Hn.
  - exists [c]. split; [done |]. subst w.
    destruct (decode_step out subs dict ws p x c t Hah Hn Hc Hw) as (subs' & _ & ->). cbn. by rewrite app_nil_r.
  - destruct (m !! (c, y)) as [known |] eqn:Hm.
    + pose proof (lookup_lt_Some _ _ _ Hw) as Hlt.
      destruct (dict_longer _ _ _ HD c y known Hm ltac:(lia)) as (w' & _ & Hw' & Hk0 & Hk). simplify_eq.
      destruct (IH m dict ws known ((x :: t) ++ [y]) (t ++ [y]) x p out subs) as (codes & He & Hd);
        try done; [intros z Hz; apply Hin; by right | lia |].
      exists codes. split; [done |]. by rewrite Hd, <- app_assoc.
    + subst w. destruct (decode_step out subs dict ws p x c t Hah Hn Hc Hw) as (subs' & Hk & Hdec).
      pose proof (knows_length _ _ _ _ Hk) as Hlk.
      destruct (dictionary_insert m dict ws c y (x :: t) HD Hc Hw Hm) as (HD' & i & Hi & Hi0 & Hwi);
        [apply Hin; by left | lia | lia |].
      destruct (IH _ dict _ i [y] [] y c (out ++ x :: t) subs' HD') as (codes & He & Hd); try done.
      * intros z Hz. apply Hin. by right.
      * rewrite length_app. cbn. lia.
      * split. exists ws, (x :: t), out, x, t. by split_and!.
      * exists (c :: codes). rewrite Hi. step. rewrite He. step. split; [done |].
        rewrite Hdec, Hd, <- app_assoc. done.
Qed.

(** ** The initial dictionary *)

Definition items_map (m : code_map) (d : list Z) : Prop :=
  forall k, is_Some (m !! k) <-> exists x, k = (kNoPrefix, x) /\ x ∈ d.

Lemma collect_items_spec (input : list Z) (m : code_map) (d : list Z) :
  NoDup d -> items_map m d ->
  let r := collect_items input m d in
  NoDup (snd r) /\ items_map (fst r) (snd r) /\ (length (snd r) <= length d + length input)%nat /\
  (forall x, x ∈ d -> x ∈ snd r) /\ (forall x, x ∈ input -> x ∈ snd r).
Proof.
  revert m d. induction input as [| x input IH]; intros m d Hd Hm; cbn [collect_items length].
  - cbn. split_and!; try done; [lia |]. intros x Hx. by apply not_elem_of_nil in Hx.
  - destruct (m !! (kNoPrefix, x)) eqn:Hx.
    + destruct (IH m d Hd Hm) as (H1 & H2 & H3 & H4 & H5). split_and!; try done; [lia |].
      intros y [-> | Hy]%elem_of_cons; [| by apply H5]. apply H4.
      destruct (proj1 (Hm (kNoPrefix, x))) as (y & [= <-] & Hy); [by eexists | done].
    + assert (Hnx : x ∉ d).
      { intros Hxd. destruct (proj2 (Hm (kNoPrefix, x))) as [v Hv]; [by exists x | congruence]. }
      destruct (IH (<[(kNoPrefix, x) := 0]> m) (d ++ [x])) as (H1 & H2 & H3 & H4 & H5).
      * apply NoDup_app. split_and!; [done | | apply NoDup_singleton].
        intros y Hy ->%list_elem_of_singleton. done.
      * intros k. destruct (decide (k = (kNoPrefix, x))) as [-> | Hk].
        -- rewrite lookup_insert_eq. split; [intros _; exists x; set_solver | by eexists].
        -- rewrite lookup_insert_ne by congruence. rewrite (Hm k). split; intros (y & -> & Hy); exists y;
             (split; [done |]); [set_solver |]. apply elem_of_app in Hy as [Hy | ->%list_elem_of_singleton]; done.
      * rewrite length_app in H3. cbn in H3. split_and!; try done; [lia | |].
        -- intros y Hy. apply H4. set_solver.
        -- intros y [-> | Hy]%elem_of_cons; [apply H4; set_solver | by apply H5].
Qed.

Lemma remap_items_spec (dict : list Z) (i : Z) (m : code_map) : NoDup dict ->
  (forall j x, dict !! j = Some x ->
    remap_items dict i m !! (kNoPrefix, x) = Some (to_u32 (i + Z.of_nat j))) /\
  (forall k, (forall x, x ∈ dict -> k <> (kNoPrefix, x)) -> remap_items dict i m !! k = m !! k).
Proof.
  revert i m. induction dict as [| x dict IH]; intros i m Hd; cbn [remap_items]; [done |].
  apply NoDup_cons in Hd as [Hx Hd]. destruct (IH (i + 1) (<[(kNoPrefix, x) := to_u32 i]> m) Hd) as [H1 H2].
  split.
  - intros [| j] y Hy; cbn in Hy.
    + injection Hy as <-. rewrite H2, lookup_insert_eq by (intros z Hz [= ->]; done).
      by rewrite Z.add_0_r.
    + rewrite (H1 j y Hy). do 2 f_equal. lia.
  - intros k Hk. rewrite H2 by (intros y Hy; apply Hk; set_solver).
    rewrite lookup_insert_ne; [done |]. intros <-. by apply (Hk x); [set_solver |].
Qed.

Lemma initial_dictionary (input : list Z) (m : code_map) (d dict : list Z) :
  NoDup d -> items_map m d -> dict ≡ₚ d -> Z.of_nat (length d) <= kNoPrefix ->
  map_size (remap_items dict 0 m) = Z.of_nat (length dict) /\
  dictionary (remap_items dict 0 m) dict (map (fun x => [x]) dict) /\
  forall k, is_Some (remap_items dict 0 m !! k) -> fst k = kNoPrefix.
Proof.
  intros Hd Hm P Hcap. assert (Hnd : NoDup dict) by (by rewrite P).
  destruct (remap_items_spec dict 0 m Hnd) as [R1 R2]. set (m2 := remap_items dict 0 m) in *.
  assert (Hm2 : items_map m2 dict).
  { intros k. split.
    - intros Hk. destruct (decide (k ∈ map (pair kNoPrefix) dict)) as [(x & -> & Hx)%list_elem_of_fmap | Hno].
      + by exists x.
      + rewrite R2 in Hk; [| intros x Hx ->; apply Hno, list_elem_of_fmap; by exists x].
        apply Hm in Hk as (x & -> & Hx). exists x. split; [done |]. by rewrite P.
    - intros (x & -> & [j Hj]%list_elem_of_lookup). by rewrite (R1 j x Hj). }
  assert (Hsz : size m2 = length dict).
  { rewrite <- size_dom. assert (dom m2 = list_to_set (map (pair kNoPrefix) dict)) as ->.
    { apply set_eq. intros k. rewrite elem_of_dom, elem_of_list_to_set, list_elem_of_fmap. apply Hm2. }
    rewrite size_list_to_set, length_map; [done |]. apply NoDup_fmap; [intros ? ? [= ->]; done | done]. }
  assert (Hlen : length dict = length d) by (by apply Permutation_length).
  split_and!.
  - unfold map_size, to_u32. rewrite Hsz. apply Z.mod_small. change kNoPrefix with 4294967293 in Hcap. lia.
  - split.
    + by rewrite take_ge by (by rewrite length_map).
    + by rewrite length_map.
    + rewrite length_map. lia.
    + intros i x Hi. rewrite (R1 i x Hi). f_equal. pose proof (lookup_lt_Some _ _ _ Hi).
      unfold to_u32. apply Z.mod_small. change kNoPrefix with 4294967293 in Hcap. lia.
    + intros c x c' Hc Hne. destruct (proj1 (Hm2 (c, x))) as (y & [= -> ->] & _); [by eexists | done].
  - intros k (x & -> & _)%Hm2. done.
Qed.

Lemma read_dict_spec (dict rest : list Z) : read_dict (length dict) (dict ++ rest) = Ok (dict, rest).
Proof. induction dict as [| x dict IH]; [done |]. cbn [length read_dict app]. rewrite IH. done. Qed.

Lemma encode_codes (x : Z) (input : list Z) (m : code_map) (dict : list Z) (i : nat) :
  dictionary m dict (map (fun x => [x]) dict) -> (forall k, is_Some (m !! k) -> fst k = kNoPrefix) ->
  (forall y, y ∈ input -> y ∈ dict) -> Z.of_nat (length dict + length input) <= kNoPrefix ->
  dict !! i = Some x ->
  exists c codes, encode_loop input m (Z.of_nat i) = Ok (c :: codes) /\ to_u32 c = Z.of_nat i /\
    decode_loop dict codes [] (Z.of_nat i) [x] = Ok (x :: input).
Proof.
  intros HD Hkeys Hin Hcap Hi. pose proof (lookup_lt_Some _ _ _ Hi) as Hlt.
  assert (Hu : to_u32 (Z.of_nat i) = Z.of_nat i).
  { apply Z.mod_small. change kNoPrefix with 4294967293 in Hcap. lia. }
  destruct input as [| y input]; cbn [encode_loop].
  - by exists (Z.of_nat i), [].
  - cbn [length] in Hcap. assert (Hnone : m !! (Z.of_nat i, y) = None).
    { apply eq_None_not_Some. intros Hs. apply Hkeys in Hs. cbn in Hs. lia. }
    assert (Hw : map (fun x => [x]) dict !! Z.to_nat (Z.of_nat i) = Some [x])
      by (by rewrite Nat2Z.id, list_lookup_fmap, Hi).
    destruct (dictionary_insert m dict _ (Z.of_nat i) y [x] HD ltac:(lia) Hw Hnone) as (HD' & j & Hj & Hj0 & Hwj);
      [apply Hin; by left | rewrite length_map; lia | rewrite length_map; lia |].
    rewrite Hnone, Hj. step.
    destruct (encode_decode input _ dict _ j [y] [] y (Z.of_nat i) [x] [] HD') as (codes & -> & Hd); try done.
    + intros z Hz. apply Hin. by right.
    + rewrite length_app, length_map. cbn. lia.
    + split. exists (map (fun x => [x]) dict), [x], [], x, []. split_and!; try done; [| lia].
      split; [by rewrite take_ge by (by rewrite length_map) | done |].
      by rewrite drop_ge by (by rewrite length_map).
    + step. exists (Z.of_nat i), codes. split_and!; done.
Qed.

Lemma lzw_spec (input : list Z) : 2 * Z.of_nat (length input) <= kNoPrefix ->
  exists out, LzwEncode input = Ok out /\ LzwDecode out = Ok input.
Proof.
  intros Hcap. unfold LzwEncode.
  destruct (collect_items_spec input ∅ [] (NoDup_nil_2)) as (H1 & H2 & H3 & _ & H5).
  { intros k. rewrite lookup_empty. split; [by intros [] |]. intros (x & _ & Hx). by apply not_elem_of_nil in Hx. }
  destruct (collect_items input ∅ []) as [m d] eqn:Hcol. cbn [fst snd] in *.
  destruct (Sort_spec Z.ltb d) as (dict & -> & P & _). step. cbn [length] in H3.
  destruct (initial_dictionary input m d dict H1 H2 P ltac:(lia)) as (I1 & I2 & I3).
  assert (Hlen : length dict = length d) by (by apply Permutation_length).
  rewrite check_true by (by apply Z.eqb_eq). step. destruct input as [| x input].
  - cbn in Hcol. injection Hcol as <- <-. apply Permutation_nil_r in P as ->.
    eexists. by split.
  - destruct (proj1 (list_elem_of_lookup dict x)) as [i Hi]; [rewrite P; apply H5; by left |].
    rewrite (dict_single _ _ _ I2 i x Hi). step. cbn [length] in *.
    destruct (encode_codes x input _ dict i I2 I3) as (c & codes & -> & Hu & Hd); [| lia | done |].
    { intros y Hy. rewrite P. apply H5. by right. }
    step. eexists. split; [done |]. unfold LzwDecode. cbn [app].
    destruct (dict ++ c :: codes) eqn:Happ; [by destruct dict |]. rewrite <- Happ, Nat2Z.id, read_dict_spec.
    step. rewrite Hu. unfold copy. pose proof (lookup_lt_Some _ _ _ Hi).
    rewrite (proj2 (Z.ltb_lt _ _)), Nat2Z.id, Hi by lia. step. done.
Qed.

(** C26.  Decoding inverts encoding: for every input whose codes fit in 32 bits
    below the reserved keys, [LzwEncode] returns (its [CHECK] passes and every
    item it looks up is in the dictionary), and [LzwDecode] of its output
    returns the input, whether or not a code is used before the decoder has
    it; no access leaves the decoder's tables or its output. *)
Theorem lzw_roundtrip (input : list Z) (Hlen : 2 * Z.of_nat (length input) <= kNoPrefix) :
  exists out, LzwEncode input = Ok out /\ LzwDecode out = Ok input.
Proof. by apply lzw_spec. Qed.

Lemma lzw_roundtrip_witness :
  exists out, LzwEncode [7; 7; 7; 7; 8; 7; 7; 8] = Ok out /\ LzwDecode out = Ok [7; 7; 7; 7; 8; 7; 7; 8].
Proof. apply (lzw_roundtrip [7; 7; 7; 7; 8; 7; 7; 8]). vm_compute. discriminate. Defined.
