(* ===== verification/StackStore.v ===== *)
(** * The stack store: sanitizer_stack_store.h and sanitizer_stack_store.cpp

    Stack traces are appended to blocks of frames; a full block may be packed
    (delta or LZW codes, written as signed LEB128 differences) and is unpacked
    by the first load from it.  A block's memory is the value its [data_]
    pointer leads to: nothing, frames, or packed bytes.  The geometry and the
    page size are parameters ([StoreConfig]); [tasan_store] has the source's
    values.  [Store] is the composition of an allocation and a completion, so
    that the completions of several threads can be interleaved. *)

From S2P Require Import Prelude Words Sorting Leb128 Lzw.

Class StoreConfig : Type := {
  kBlockSizeFrames : Z;
  kBlockCount : Z;
  GetPageSizeCached : Z;
}.

Definition tasan_store : StoreConfig := {|
  kBlockSizeFrames := 1048576; kBlockCount := 4096; GetPageSizeCached := 4096 |}.

Inductive Compression : Type := CNone | CDelta | CLZW.
Inductive State : Type := Storing | Packed | Unpacked.

#[export] Instance compression_eq_dec : EqDecision Compression.
Proof. solve_decision. Defined.
#[export] Instance state_eq_dec : EqDecision State.
Proof. solve_decision. Defined.

(** [StackTrace]: [size] frames and a tag. *)
Record StackTrace : Type := Trace { frames : list Z; tag : Z }.

Definition trace_size (t : StackTrace) : Z := Z.of_nat (length (frames t)).

(** ** Codes *)

(** [SLeb128Encoder]: assigning a value writes its difference to the previous
    one. *)
Fixpoint encode_stream (previous : Z) (room : nat) (values : list Z) : list Z :=
  match values with
  | [] => []
  | v :: values' =>
      let bytes := EncodeSLEB128 (swrap (v - previous)) room in
      bytes ++ encode_stream v (room - length bytes) values'
  end.

(** [SLeb128Decoder]: the values it yields until it reaches the end. *)
Fixpoint decode_stream (bytes : list Z) (previous : Z) (fuel : nat) : result (list Z) :=
  match fuel with
  | O => Die OutOfFuel
  | S fuel' =>
      match bytes with
      | [] => Ok []
      | _ :: _ =>
          '(diff, rest) ← DecodeSLEB128 bytes 0 0;
          diff ← get_or_die diff;
          let previous := previous +w diff in
          values ← decode_stream rest previous fuel';
          Ok (previous :: values)
      end
  end.

Definition CompressDelta (from : list Z) (room : nat) : list Z := encode_stream 0 room from.

(** The result is [to_end - to] frames, or the [CHECK_EQ] fails. *)
Definition UncompressDelta (from : list Z) (n : Z) : result (list Z) :=
  values ← decode_stream from 0 (S (length from));
  _ ← check (Z.of_nat (length values) =? n);
  Ok values.

Definition CompressLzw (from : list Z) (room : nat) : result (list Z) :=
  values ← LzwEncode from;
  Ok (encode_stream 0 room values).

Definition UncompressLzw (from : list Z) (n : Z) : result (list Z) :=
  codes ← decode_stream from 0 (S (length from));
  values ← LzwDecode codes;
  _ ← check (Z.of_nat (length values) =? n);
  Ok values.

(** [StackTraceHeader] *)
Record StackTraceHeader : Type := Header { h_size : Z; h_tag : Z }.

Definition header_of_trace (t : StackTrace) : result StackTraceHeader :=
  let h := Header (to_u8 (Z.min (trace_size t) 255)) (to_u8 (tag t)) in
  _ ← check (tag t =? h_tag h);
  Ok h.
Definition header_of_uptr (h : Z) : StackTraceHeader :=
  Header (to_u8 (Z.land h 255)) (to_u8 (Z.shiftr h 8)).
Definition ToUptr (h : StackTraceHeader) : Z := Z.lor (h_size h) (Z.shiftl (h_tag h) 8).

Section store.
Context `{StoreConfig}.

Definition kBlockSizeBytes : Z := kBlockSizeFrames * 8.
(** [offsetof(PackedHeader, data)] and [sizeof(PackedHeader)]. *)
Definition packed_data_offset : Z := 9.
Definition sizeof_PackedHeader : Z := 16.

(** What a block's [data_] points to: [PackedData] holds [header->type] and the
    bytes of [header->data]. *)
Inductive block_data : Type :=
| NoData
| Frames (cells : Z -> Z)
| PackedData (type : Compression) (bytes : list Z).

Record BlockInfo : Type := Block { data_ : block_data; stored_ : Z; state : State }.

Record StackStore : Type := MkStore {
  total_frames_ : Z; allocated_ : Z; blocks_ : Z -> BlockInfo
}.

Definition GetBlockIdx (frame_idx : Z) : Z := frame_idx / kBlockSizeFrames.
Definition GetInBlockIdx (frame_idx : Z) : Z := frame_idx mod kBlockSizeFrames.
Definition IdToOffset (id : Z) : result Z := _ ← check (negb (id =? 0)); Ok (to_u32 (id - 1)).
Definition OffsetToId (id : Z) : Z := to_u32 (id + 1).

(** [blocks_[i]]: an index outside the array is a bad access. *)
Definition get_block (s : StackStore) (i : Z) : result BlockInfo :=
  if (0 <=? i) && (i <? kBlockCount) then Ok (blocks_ s i) else Die BadAccess.
Definition set_block (s : StackStore) (i : Z) (b : BlockInfo) : StackStore :=
  MkStore (total_frames_ s) (allocated_ s) (fun j => if j =? i then b else blocks_ s j).

(** The memory itself is fresh and zeroed. *)
Definition Map (s : StackStore) (size : Z) : StackStore :=
  MkStore (total_frames_ s) (allocated_ s +w size) (blocks_ s).
Definition Unmap (s : StackStore) (size : Z) : StackStore :=
  MkStore (total_frames_ s) (allocated_ s -w size) (blocks_ s).

(** [BlockInfo::GetOrCreate], [Create] included. *)
Definition GetOrCreate (s : StackStore) (i : Z) : result StackStore :=
  b ← get_block s i;
  match data_ b with
  | NoData => Ok (set_block (Map s kBlockSizeBytes) i (Block (Frames (fun _ => 0)) (stored_ b) (state b)))
  | _ => Ok s
  end.

(** [BlockInfo::Stored] *)
Definition Stored (s : StackStore) (i n : Z) : result (StackStore * bool) :=
  b ← get_block s i;
  Ok (set_block s i (Block (data_ b) (to_u32 (stored_ b + n)) (state b)),
      n + stored_ b =? kBlockSizeFrames).

(** [Alloc]: the index of the range, if there is space, and [*pack]. *)
Fixpoint Alloc (s : StackStore) (count pack : Z) (fuel : nat) : result (StackStore * option Z * Z) :=
  match fuel with
  | O => Die OutOfFuel
  | S fuel' =>
      let start := total_frames_ s in
      let s := MkStore (total_frames_ s +w count) (allocated_ s) (blocks_ s) in
      let block_idx := GetBlockIdx start in
      let last_idx := GetBlockIdx (start + count - 1) in
      if block_idx =? last_idx then
        if kBlockCount <=? block_idx then Ok (s, None, pack)
        else s ← GetOrCreate s block_idx; Ok (s, Some start, pack)
      else
        _ ← check (count <=? kBlockSizeFrames);
        let in_first := kBlockSizeFrames - GetInBlockIdx start in
        '(s, full1) ← Stored s block_idx in_first;
        '(s, full2) ← Stored s last_idx (count - in_first);
        Alloc s count (pack + Z.b2z full1 + Z.b2z full2) fuel'
  end.

(** A second attempt always succeeds. *)
Definition alloc_fuel : nat := 2.

(** The first half of [Store]: the header and the range for it. *)
Definition Store_begin (s : StackStore) (t : StackTrace)
  : result (StackStore * option (Z * StackTraceHeader) * Z) :=
  h ← header_of_trace t;
  '(s, idx, pack) ← Alloc s (h_size h + 1) 0 alloc_fuel;
  match idx with
  | None => Ok (s, None, pack)
  | Some idx => Ok (s, Some (idx, h), pack)
  end.

(** [*stack_trace = h.ToUptr(); internal_memcpy(stack_trace + 1, ...)] *)
Definition write_cells (cells : Z -> Z) (at_ : Z) (values : list Z) : Z -> Z :=
  fun i => if (at_ <=? i) && (i <? at_ + Z.of_nat (length values))
           then nth (Z.to_nat (i - at_)) values 0 else cells i.

(** The second half: the frames are written, then the range is counted. *)
Definition Store_finish (s : StackStore) (idx : Z) (h : StackTraceHeader) (t : StackTrace)
  : result (StackStore * Z * bool) :=
  b ← get_block s (GetBlockIdx idx);
  s ← (match data_ b with
       | Frames cells =>
           Ok (set_block s (GetBlockIdx idx)
                 (Block (Frames (write_cells cells (GetInBlockIdx idx)
                                   (ToUptr h :: take (Z.to_nat (h_size h)) (frames t))))
                        (stored_ b) (state b)))
       | _ => Die BadAccess
       end);
  '(s, full) ← Stored s (GetBlockIdx idx) (h_size h + 1);
  Ok (s, OffsetToId idx, full).

(** The id and [*pack]. *)
Definition Store (s : StackStore) (t : StackTrace) : result (StackStore * Z * Z) :=
  if (trace_size t =? 0) && (tag t =? 0) then Ok (s, 0, 0)
  else
    '(s, r, pack) ← Store_begin s t;
    match r with
    | None => Ok (s, 0, pack)
    | Some (idx, h) =>
        '(s, id, full) ← Store_finish s idx h t;
        Ok (s, id, pack + Z.b2z full)
    end.

Definition packed_size (bytes : list Z) : Z := packed_data_offset + Z.of_nat (length bytes).

(** The block's frames as the compressors read them. *)
Definition frame_list (cells : Z -> Z) : list Z := map cells (seqZ 0 kBlockSizeFrames).
Definition cells_of_list (l : list Z) : Z -> Z := fun i => nth (Z.to_nat i) l 0.

(** [BlockInfo::GetOrUnpack]; [None] is the null pointer. *)
Definition GetOrUnpack (s : StackStore) (i : Z) : result (StackStore * option (Z -> Z)) :=
  b ← get_block s i;
  match state b with
  | Packed =>
      match data_ b with
      | PackedData type bytes =>
          let size := packed_size bytes in
          _ ← check (size <=? kBlockSizeBytes);
          _ ← check (sizeof_PackedHeader <=? size);
          packed_size_aligned ← RoundUpTo size GetPageSizeCached;
          let s := Map s kBlockSizeBytes in
          unpacked ← (match type with
                      | CDelta => UncompressDelta bytes kBlockSizeFrames
                      | CLZW => UncompressLzw bytes kBlockSizeFrames
                      | CNone => Die Unreachable
                      end);
          _ ← check (kBlockSizeFrames =? Z.of_nat (length unpacked));
          let cells := cells_of_list unpacked in
          Ok (set_block (Unmap s packed_size_aligned) i (Block (Frames cells) (stored_ b) Unpacked),
              Some cells)
      | _ => Die CheckFailed
      end
  | _ =>
      let s := set_block s i (Block (data_ b) (stored_ b) Unpacked) in
      match data_ b with
      | Frames cells => Ok (s, Some cells)
      | NoData => Ok (s, None)
      | PackedData _ _ => Die BadAccess
      end
  end.

(** [BlockInfo::Pack]: the bytes it released. *)
Definition Pack_block (s : StackStore) (type : Compression) (i : Z) : result (StackStore * Z) :=
  if decide (type = CNone) then Ok (s, 0)
  else
    b ← get_block s i;
    match state b with
    | Unpacked | Packed => Ok (s, 0)
    | Storing =>
        match data_ b with
        | NoData => Ok (s, 0)
        | PackedData _ _ => Die BadAccess
        | Frames cells =>
            '(s, full) ← Stored s i 0;
            if negb full then Ok (s, 0)
            else
              let s := Map s kBlockSizeBytes in
              let room := Z.to_nat (kBlockSizeBytes - packed_data_offset) in
              bytes ← (match type with
                       | CDelta => Ok (CompressDelta (frame_list cells) room)
                       | CLZW => CompressLzw (frame_list cells) room
                       | CNone => Die Unreachable
                       end);
              let size := packed_size bytes in
              if kBlockSizeBytes - size <? kBlockSizeBytes / 8 then
                Ok (set_block (Unmap s kBlockSizeBytes) i (Block (Frames cells) (stored_ b) Unpacked), 0)
              else
                packed_size_aligned ← RoundUpTo size GetPageSizeCached;
                let s := Unmap s (kBlockSizeBytes - packed_size_aligned) in
                let s := Unmap s kBlockSizeBytes in
                Ok (set_block s i (Block (PackedData type bytes) (stored_ b) Packed),
                    kBlockSizeBytes - packed_size_aligned)
        end
    end.

(** [for (BlockInfo &b : blocks_) res += b.Pack(type, this);] *)
Fixpoint Pack_loop (s : StackStore) (type : Compression) (idxs : list Z) (res : Z)
  : result (StackStore * Z) :=
  match idxs with
  | [] => Ok (s, res)
  | i :: idxs' => '(s, n) ← Pack_block s type i; Pack_loop s type idxs' (res +w n)
  end.
Definition Pack (s : StackStore) (type : Compression) : result (StackStore * Z) :=
  Pack_loop s type (seqZ 0 kBlockCount) 0.

(** [Load]: the frames are read through the pointer it returns. *)
Definition Load (s : StackStore) (id : Z) : result (StackStore * StackTrace) :=
  if id =? 0 then Ok (s, Trace [] 0)
  else
    idx ← IdToOffset id;
    let block_idx := GetBlockIdx idx in
    _ ← check (block_idx <? kBlockCount);
    '(s, cells) ← GetOrUnpack s block_idx;
    match cells with
    | None => Ok (s, Trace [] 0)
    | Some cells =>
        let p := GetInBlockIdx idx in
        let h := header_of_uptr (cells p) in
        Ok (s, Trace (map (fun k => cells (p + 1 + k)) (seqZ 0 (h_size h))) (h_tag h))
    end.

(** [constexpr StackStore() = default] *)
Definition empty_store : StackStore := MkStore 0 0 (fun _ => Block NoData 0 Storing).
End store.
