(* ===== verification/StackStoreSpecs.v ===== *)
(** * The stack store returns what was stored

    The streams of signed LEB128 differences decode to what was encoded
    unless the encoder ran out of room; the store's counters say which frames
    are still being written; and any interleaving of stores, packing and
    loads keeps every completed trace. *)

From S2P Require Import Prelude Words Sorting Leb128 Lzw StackStore.

(** ** Streams *)

(** An encoding that left room is the one more room would have given. *)
Lemma sleb_room (v : Z) (r r' : nat) : (r <= r')%nat -> (length (EncodeSLEB128 v r) < r)%nat ->
  EncodeSLEB128 v r' = EncodeSLEB128 v r.
Proof.
  revert v r'. induction r as [| r IH]; intros v r' Hr; [cbn; lia |]. destruct r' as [| r']; [lia |].
  cbn [EncodeSLEB128]. destruct (negb _); cbn [length]; intros Hl; [| done]. f_equal. apply IH; lia.
Qed.

Lemma sleb_nonempty (v : Z) (r : nat) : (0 < r)%nat -> (0 < length (EncodeSLEB128 v r))%nat.
Proof. destruct r; cbn; lia. Qed.

Lemma stream_roundtrip (values : list Z) : forall (previous : Z) (room fuel : nat),
  Forall is_uptr values -> is_uptr previous ->
  (length (encode_stream previous room values) < room)%nat ->
  (length (encode_stream previous room values) < fuel)%nat ->
  decode_stream (encode_stream previous room values) previous fuel = Ok values.
Proof.
  induction values as [| v values IH]; intros previous room fuel Hv Hp Hroom Hfuel;
    (destruct fuel as [| fuel]; [lia |]); [done |].
  inversion_clear Hv as [| ? ? Hv0 Hv']. cbn [encode_stream] in *. set (d := swrap (v - previous)) in *.
  set (bs := EncodeSLEB128 d room) in *. rewrite length_app in *.
  assert (Hlen : (0 < length bs)%nat) by (apply sleb_nonempty; lia).
  assert (Hdec : forall rest, DecodeSLEB128 (bs ++ rest) 0 0 = Ok (Some d, rest)).
  { intros rest. pose proof (swrap_range (v - previous)) as Hd. fold d in Hd. unfold is_sptr in Hd.
    pose proof (sleb_roundtrip (room + 10) 0 d 0 rest) as H. change (2 ^ (63 - shift_of 0)) with 9223372036854775808 in H.
    change (2 ^ shift_of 0) with 1 in H. change (shift_of 0) with 0 in H.
    rewrite (sleb_room d room) in H; [| lia | fold bs; lia]. fold bs in H.
    rewrite H; [do 3 f_equal; lia | lia | lia | lia | lia]. }
  cbn [decode_stream]. destruct (bs ++ _) eqn:Hbs; [apply app_eq_nil in Hbs as [Hbs _]; rewrite Hbs in Hlen; cbn in Hlen; lia |]. rewrite <- Hbs, Hdec. step.
  assert (Hprev : previous +w d = v).
  { unfold d. rewrite <- wrap_add_r, wrap_swrap, wrap_add_r.
    replace (previous + (v - previous)) with v by lia. by apply wrap_small. }
  rewrite Hprev, IH; [done | done | done | lia | lia].
Qed.

Lemma stream_length (values : list Z) : forall (previous : Z) (room : nat),
  (length (encode_stream previous room values) < room)%nat ->
  (length values <= length (encode_stream previous room values))%nat.
Proof.
  induction values as [| v values IH]; intros previous room Hroom; [done |]. cbn [encode_stream] in *.
  rewrite length_app in *. cbn [length].
  pose proof (sleb_nonempty (swrap (v - previous)) room ltac:(lia)).
  specialize (IH v (room - length (EncodeSLEB128 (swrap (v - previous)) room))%nat). lia.
Qed.

(** ** How much LZW codes expand *)

Lemma copy_range_length (k : nat) (out out' : list Z) (it : nat) :
  copy_range out it k = Ok out' -> length out' = (length out + k)%nat.
Proof.
  revert out it. induction k as [| k IH]; intros out it H; cbn in H; [inv_ok; lia |].
  apply bind_Ok in H as (x & _ & H). apply IH in H. rewrite length_app in H. cbn in H. lia.
Qed.

Definition short (subs : list (nat * nat)) : Prop :=
  forall i r, subs !! i = Some r -> (snd r - fst r <= length subs + 1)%nat.

Lemma get_substr_short (dict : list Z) (subs : list (nat * nat)) (c : Z) (r : nat * nat) :
  short subs -> get_substr dict subs c = Ok r -> (snd r - fst r <= length subs + 1)%nat.
Proof. intros Hs H. unfold get_substr in H. inv_ok. by eapply Hs. Qed.

Lemma copy_length (dict : list Z) (subs : list (nat * nat)) (c : Z) (out out' : list Z) :
  short subs -> copy dict subs c out = Ok out' -> (length out' <= length out + (length subs + 1))%nat.
Proof.
  intros Hs H. unfold copy in H. destruct (c <? _).
  - inv_ok. rewrite length_app. cbn. lia.
  - apply bind_Ok in H as ([a b] & Hr & H). apply (get_substr_short _ _ _ _ Hs) in Hr. cbn in Hr.
    apply copy_range_length in H. lia.
Qed.

Lemma code_to_len_short (dict : list Z) (subs : list (nat * nat)) (c : Z) (n : nat) :
  short subs -> code_to_len dict subs c = Ok n -> (n <= length subs + 1)%nat.
Proof.
  intros Hs H. unfold code_to_len in H. destruct (c <? _); [inv_ok; lia |].
  apply bind_Ok in H as ([a b] & Hr & H). apply (get_substr_short _ _ _ _ Hs) in Hr. cbn in Hr. inv_ok. lia.
Qed.

Lemma decode_loop_length (dict codes : list Z) : forall subs p out out', short subs ->
  decode_loop dict codes subs p out = Ok out' ->
  (length out' <= length out + length codes * (length subs + length codes + 1))%nat.
Proof.
  induction codes as [| c codes IH]; intros subs p out out' Hs H; cbn [decode_loop length] in *.
  - inv_ok. lia.
  - apply bind_Ok in H as (out1 & H1 & H). apply bind_Ok in H as (n & Hn & H).
    apply (code_to_len_short _ _ _ _ Hs) in Hn.
    assert (Hout1 : (length out1 <= length out + (length subs + 2))%nat).
    { destruct (_ =? _).
      - apply bind_Ok in H1 as (o & Ho & H1). apply (copy_length _ _ _ _ _ Hs) in Ho.
        apply bind_Ok in H1 as (x & _ & H1). inv_ok. rewrite length_app. cbn. lia.
      - apply (copy_length _ _ _ _ _ Hs) in H1. lia. }
    apply IH in H; [rewrite length_app in H; cbn in H; nia |].
    intros i r Hr. rewrite length_app. cbn. apply lookup_app_Some in Hr as [Hr | [_ Hr]].
    + specialize (Hs i r Hr). lia.
    + apply list_lookup_singleton_Some in Hr as [_ <-]. cbn. lia.
Qed.

Lemma read_dict_length (k : nat) (l dict rest : list Z) :
  read_dict k l = Ok (dict, rest) -> (length rest <= length l)%nat.
Proof.
  revert l dict rest. induction k as [| k IH]; intros l dict rest H; cbn in H; [inv_ok; lia |].
  destruct l as [| y l]; [done |]. apply bind_Ok in H as ([d r] & H1 & H2). apply IH in H1. inv_ok. cbn in *. lia.
Qed.

Lemma lzw_decode_length (tokens values : list Z) : LzwDecode tokens = Ok values ->
  (length tokens <= 6)%nat -> (length values <= 31)%nat.
Proof.
  intros H Ht. destruct tokens as [| n [| x tokens]]; cbn [LzwDecode] in H; [inv_ok; cbn; lia | inv_ok; cbn; lia |].
  apply bind_Ok in H as ([dict rest] & Hd & H).
  assert (Hrest : (length rest <= length (x :: tokens))%nat)
    by (by apply read_dict_length in Hd).
  destruct rest as [| c codes]; [done |]. apply bind_Ok in H as (out & Ho & H).
  apply copy_length in Ho; [| by intros i r]. apply decode_loop_length in H; [| by intros i r].
  cbn [length] in *. nia.
Qed.

(** ** The abstract state

    A trace occupies [range_len t] frames from its index on: the header, then
    at most 255 frames. *)

(** The geometries the store works for; the source's is one of them. *)
Class WfStore `{StoreConfig} : Prop := {
  wf_frames : 512 <= kBlockSizeFrames;
  wf_codes : 2 * kBlockSizeFrames <= kNoPrefix;
  wf_count : 0 < kBlockCount /\ kBlockCount * kBlockSizeFrames <= 4294967296;
  wf_page : pow2_word GetPageSizeCached;
}.

#[export] Instance tasan_store_wf : WfStore (H := tasan_store).
Proof. split; cbn; [lia | vm_compute; discriminate | lia |]. exists 12. split; [lia | reflexivity]. Qed.

Definition header_size (t : StackTrace) : Z := Z.min (trace_size t) 255.
Definition range_len (t : StackTrace) : Z := header_size t + 1.
Definition trace_header (t : StackTrace) : StackTraceHeader := Header (header_size t) (tag t).
Definition wf_trace (t : StackTrace) : Prop := Forall is_uptr (frames t) /\ is_u8 (tag t).
(** What a load gives back. *)
Definition truncated (t : StackTrace) : StackTrace := Trace (take 255 (frames t)) (tag t).
(** The cells of a stored trace. *)
Definition trace_cells (t : StackTrace) : list Z := ToUptr (trace_header t) :: take 255 (frames t).

Lemma header_size_range (t : StackTrace) : 0 <= header_size t <= 255.
Proof. unfold header_size, trace_size. lia. Qed.

Lemma trace_cells_length (t : StackTrace) : Z.of_nat (length (trace_cells t)) = range_len t.
Proof. unfold trace_cells, range_len, header_size, trace_size. cbn [length]. rewrite length_take. lia. Qed.

Lemma header_of_trace_wf (t : StackTrace) : wf_trace t -> header_of_trace t = Ok (trace_header t).
Proof.
  intros [_ Ht]. pose proof (header_size_range t). unfold header_of_trace, header_size, to_u8, is_u8 in *.
  rewrite !Z.mod_small by lia. cbn [h_tag]. by rewrite Z.eqb_refl.
Qed.

Lemma ToUptr_value (t : StackTrace) : wf_trace t -> ToUptr (trace_header t) = header_size t + tag t * 256.
Proof.
  intros [_ Ht]. pose proof (header_size_range t). unfold ToUptr, trace_header. cbn.
  rewrite Z.shiftl_mul_pow2 by lia. apply (lor_disjoint _ _ 8); lia.
Qed.

Lemma header_roundtrip (t : StackTrace) : wf_trace t -> header_of_uptr (ToUptr (trace_header t)) = trace_header t.
Proof.
  intros Hwf. rewrite ToUptr_value by done. destruct Hwf as [_ Ht]. pose proof (header_size_range t).
  unfold header_of_uptr, trace_header, is_u8, to_u8 in *. rewrite (land_pow2_mod _ 8) by lia.
  rewrite Z.shiftr_div_pow2 by lia. change (2 ^ 8) with 256.
  f_equal; rewrite ?Zmod_mod; zlia.
Qed.

Lemma trace_cells_uptr (t : StackTrace) : wf_trace t -> Forall is_uptr (trace_cells t).
Proof.
  intros Hwf. constructor; [| apply Forall_take, Hwf]. rewrite ToUptr_value by done.
  pose proof (header_size_range t). destruct Hwf as [_ Ht]. unfold is_u8, is_uptr, word_modulus in *. lia.
Qed.

(** ** Frames being written *)

Section pending.
Context (K : Z).

Definition weight (i s : Z) (t : StackTrace) : Z := if s / K =? i then range_len t else 0.

(** The frames of block [i] that are allocated and not yet counted. *)
Definition pending_frames (R : gmap Z StackTrace) (i : Z) : Z :=
  map_fold (fun s t acc => weight i s t + acc) 0 R.

Lemma weight_nonneg (i s : Z) (t : StackTrace) : 0 <= weight i s t.
Proof. unfold weight, range_len. pose proof (header_size_range t). destruct (_ =? _); lia. Qed.

Lemma pending_insert (R : gmap Z StackTrace) (s : Z) (t : StackTrace) (i : Z) : R !! s = None ->
  pending_frames (<[s := t]> R) i = weight i s t + pending_frames R i.
Proof. intros Hs. unfold pending_frames. rewrite map_fold_insert_L; [done | intros; lia | done]. Qed.

Lemma pending_delete (R : gmap Z StackTrace) (s : Z) (t : StackTrace) (i : Z) : R !! s = Some t ->
  pending_frames R i = weight i s t + pending_frames (delete s R) i.
Proof. intros Hs. unfold pending_frames. rewrite (map_fold_delete_L _ _ s t); [done | intros; lia | done]. Qed.

Lemma pending_nonneg (R : gmap Z StackTrace) (i : Z) : 0 <= pending_frames R i.
Proof.
  unfold pending_frames. induction R as [| s t R Hs IH] using map_ind; [by rewrite map_fold_empty |].
  fold (pending_frames (<[s := t]> R) i). fold (pending_frames R i) in IH.
  rewrite pending_insert by done. pose proof (weight_nonneg i s t). lia.
Qed.
End pending.

Section specs.
Context `{WfStore}.
Abbreviation K := kBlockSizeFrames.
Abbreviation N := kBlockCount.

(** The allocated part of block [i]. *)
Definition reached (total i : Z) : Z := Z.max 0 (Z.min K (total - i * K)).

Definition counted (s : StackStore) (R : gmap Z StackTrace) : Prop :=
  forall i, 0 <= i < N ->
    0 <= stored_ (blocks_ s i) /\
    stored_ (blocks_ s i) + pending_frames K R i = reached (total_frames_ s) i.

Definition uncompress (type : Compression) (bytes : list Z) : result (list Z) :=
  match type with
  | CDelta => UncompressDelta bytes K
  | CLZW => UncompressLzw bytes K
  | CNone => Die Unreachable
  end.

(** Block [i] holds the frames [C (i * K)], [C (i * K + 1)], ... *)
Definition block_holds (C : Z -> Z) (i : Z) (b : BlockInfo) : Prop :=
  match data_ b with
  | NoData => state b <> Packed /\ forall j, 0 <= j < K -> C (i * K + j) = 0
  | Frames cells => state b <> Packed /\ forall j, 0 <= j < K -> cells j = C (i * K + j)
  | PackedData type bytes =>
      state b = Packed /\ stored_ b = K /\ 16 <= packed_size bytes <= kBlockSizeBytes /\
      uncompress type bytes = Ok (map (fun j => C (i * K + j)) (seqZ 0 K))
  end.

(** [s] is a range of the store that holds (or will hold) the trace [t]. *)
Record range_ok (st : StackStore) (s : Z) (t : StackTrace) : Prop := {
  range_wf : wf_trace t;
  range_bounds : 0 <= s /\ s + range_len t <= total_frames_ st;
  range_block : s / K = (s + range_len t - 1) / K;
  range_data : data_ (blocks_ st (s / K)) <> NoData;
}.

Record store_inv (st : StackStore) (R D : gmap Z StackTrace) (C : Z -> Z) : Prop := {
  inv_total : 0 <= total_frames_ st <= N * K;
  inv_counted : counted st R;
  inv_blocks : forall i, 0 <= i < N -> block_holds C i (blocks_ st i);
  inv_words : forall i, is_uptr (C i);
  inv_keys : R ##ₘ D;
  inv_ranges : forall s t, (R ∪ D) !! s = Some t -> range_ok st s t;
  inv_disjoint : forall s1 s2 t1 t2, (R ∪ D) !! s1 = Some t1 -> (R ∪ D) !! s2 = Some t2 ->
    s1 < s2 -> s1 + range_len t1 <= s2;
  inv_done : forall s t, D !! s = Some t ->
    forall k x, trace_cells t !! k = Some x -> C (s + Z.of_nat k) = x;
}.

(** ** Arithmetic of the blocks *)

Lemma K_bounds : 512 <= K <= 2147483647 /\ 0 < N /\ N * K <= 4294967296.
Proof.
  pose proof wf_frames. pose proof wf_codes as Hc. change kNoPrefix with 4294967293 in Hc.
  pose proof wf_count. lia.
Qed.

Lemma reached_at (q r i : Z) : 0 <= r <= K ->
  reached (q * K + r) i = if i <? q then K else if i =? q then r else 0.
Proof.
  pose proof K_bounds. intros Hr. unfold reached.
  replace (q * K + r - i * K) with ((q - i) * K + r) by lia.
  destruct (Z.ltb_spec i q).
  - assert (K <= (q - i) * K) by nia. lia.
  - destruct (Z.eqb_spec i q) as [-> |].
    + rewrite Z.sub_diag. lia.
    + assert ((q - i) * K <= - K) by nia. lia.
Qed.

Lemma split_frame (x : Z) : x = x / K * K + x mod K /\ 0 <= x mod K < K.
Proof. pose proof K_bounds. split; [rewrite Z.mul_comm; apply Z.div_mod; lia | apply Z.mod_pos_bound; lia]. Qed.

(** A range inside one block. *)
Lemma same_block (x c : Z) : 0 < c -> x / K = (x + c - 1) / K <-> x mod K + c <= K.
Proof.
  pose proof K_bounds. intros Hc. pose proof (split_frame x) as [Hx Hm]. split; intros Hs.
  - pose proof (split_frame (x + c - 1)). nia.
  - apply (Z.div_unique _ _ _ (x mod K + c - 1)); lia.
Qed.

Lemma next_block (x c : Z) : 0 < c <= K -> K < x mod K + c -> (x + c - 1) / K = x / K + 1.
Proof.
  pose proof K_bounds. intros Hc Hs. pose proof (split_frame x) as [Hx Hm].
  symmetry. apply (Z.div_unique _ _ _ (x mod K + c - 1 - K)); lia.
Qed.

Lemma block_index (x : Z) : 0 <= x < N * K -> 0 <= x / K < N.
Proof.
  pose proof K_bounds. intros Hx. split; [apply Z.div_pos; lia |]. apply Z.div_lt_upper_bound; lia.
Qed.

Lemma get_block_ok (st : StackStore) (i : Z) : 0 <= i < N -> get_block st i = Ok (blocks_ st i).
Proof.
  intros Hi. unfold get_block. by rewrite (proj2 (Z.leb_le _ _)), (proj2 (Z.ltb_lt _ _)) by lia.
Qed.

Lemma Stored_spec (st : StackStore) (i n : Z) : 0 <= i < N -> 0 <= stored_ (blocks_ st i) + n <= K ->
  Stored st i n =
  Ok (set_block st i (Block (data_ (blocks_ st i)) (stored_ (blocks_ st i) + n) (state (blocks_ st i))),
      n + stored_ (blocks_ st i) =? K).
Proof.
  pose proof K_bounds. intros Hi Hn. unfold Stored. rewrite get_block_ok by done. step.
  unfold to_u32. by rewrite Z.mod_small by lia.
Qed.

(** ** The invariant along the operations *)

Lemma counted_bound (st : StackStore) (R : gmap Z StackTrace) (i : Z) :
  counted st R -> 0 <= i < N -> 0 <= stored_ (blocks_ st i) <= reached (total_frames_ st) i /\
    reached (total_frames_ st) i <= K.
Proof.
  intros Hc Hi. destruct (Hc i Hi) as [H1 H2]. pose proof (pending_nonneg K R i). pose proof K_bounds.
  unfold reached in *. lia.
Qed.

(** A block that still expects frames is not packed. *)
Lemma unpacked_block (C : Z -> Z) (i : Z) (b : BlockInfo) : block_holds C i b -> stored_ b < K -> state b <> Packed.
Proof. unfold block_holds. destruct (data_ b); intros Hb Hs; [apply Hb | apply Hb |]. destruct Hb as (_ & Hb & _). lia. Qed.

(** Counting frames in a block that is not packed keeps what it holds. *)
Lemma block_holds_stored (C : Z -> Z) (i n : Z) (b : BlockInfo) :
  block_holds C i b -> stored_ b < K -> block_holds C i (Block (data_ b) n (state b)).
Proof.
  intros Hb Hs. pose proof (unpacked_block C i b Hb Hs). unfold block_holds in *. cbn.
  destruct (data_ b); [done | done |]. tauto.
Qed.

Lemma range_ok_mono (st st' : StackStore) (s : Z) (t : StackTrace) :
  range_ok st s t -> total_frames_ st <= total_frames_ st' ->
  (data_ (blocks_ st (s / K)) <> NoData -> data_ (blocks_ st' (s / K)) <> NoData) -> range_ok st' s t.
Proof. intros [R1 R2 R3 R4] Ht Hd. split; [done | lia | done | by apply Hd]. Qed.

Lemma range_before (st : StackStore) (R D : gmap Z StackTrace) (C : Z -> Z) (s : Z) (t : StackTrace) :
  store_inv st R D C -> (R ∪ D) !! s = Some t -> s + range_len t <= total_frames_ st.
Proof. intros I Hs. by destruct (inv_ranges _ _ _ _ I s t Hs) as [_ [_ Hb] _ _]. Qed.

Lemma range_len_bounds (t : StackTrace) : 1 <= range_len t <= 256.
Proof. unfold range_len. pose proof (header_size_range t). lia. Qed.

(** An attempt that would straddle two blocks gives its frames up. *)
Lemma alloc_skip (st : StackStore) (R D : gmap Z StackTrace) (C : Z -> Z) (c pack : Z) (fuel : nat) :
  store_inv st R D C -> 1 <= c <= 256 -> K < total_frames_ st mod K + c ->
  total_frames_ st + c <= N * K ->
  exists st' pack', Alloc st c pack (S fuel) = Alloc st' c pack' fuel /\ store_inv st' R D C /\
    total_frames_ st' = total_frames_ st + c /\ total_frames_ st' mod K + c <= K.
Proof.
  intros I Hc Hstr Htot. pose proof K_bounds as HK. set (T := total_frames_ st) in *.
  pose proof (split_frame T) as [HT Hm]. pose proof (inv_total _ _ _ _ I) as HT0. fold T in HT0.
  set (q := T / K) in *. pose proof (block_index T ltac:(lia)) as Hq. fold q in Hq.
  pose proof (block_index (T + c - 1) ltac:(lia)) as Hq1.
  pose proof (next_block T c ltac:(lia) Hstr) as Hnext. fold q in Hnext. rewrite Hnext in Hq1.
  cbn [Alloc]. fold T. unfold GetBlockIdx at 1 2. rewrite Hnext. fold q.
  rewrite (proj2 (Z.eqb_neq q (q + 1))) by lia.
  rewrite check_true by (apply Z.leb_le; lia). step. rewrite (wrap_small (T + c)) by (unfold is_uptr, word_modulus; lia).
  set (st1 := MkStore (T + c) (allocated_ st) (blocks_ st)).
  change (GetBlockIdx T) with q. change (GetBlockIdx (T + c - 1)) with ((T + c - 1) / K). rewrite Hnext.
  unfold GetInBlockIdx. set (r := T mod K) in *.
  assert (Hcnt : forall i, 0 <= i < N -> 0 <= stored_ (blocks_ st i) /\
    stored_ (blocks_ st i) + pending_frames K R i = if i <? q then K else if i =? q then r else 0).
  { intros i Hi. destruct (inv_counted _ _ _ _ I i Hi) as [H1 H2]. fold T in H2.
    rewrite HT, reached_at in H2 by lia. done. }
  pose proof (Hcnt q Hq) as [Sq1 Sq2]. rewrite Z.ltb_irrefl, Z.eqb_refl in Sq2.
  pose proof (Hcnt (q + 1) Hq1) as [Sn1 Sn2].
  rewrite (proj2 (Z.ltb_ge _ _)), (proj2 (Z.eqb_neq _ _)) in Sn2 by lia.
  pose proof (pending_nonneg K R q). pose proof (pending_nonneg K R (q + 1)).
  rewrite (Stored_spec st1 q) by (cbn; lia). step.
  rewrite Stored_spec; [| done | cbn; rewrite (proj2 (Z.eqb_neq (q + 1) q)) by lia; lia].
  step. cbn [blocks_ set_block st1]. rewrite (proj2 (Z.eqb_neq (q + 1) q)) by lia.
  eexists _, _. split; [reflexivity |]. split; [| split].
  - split; cbn [total_frames_ blocks_ set_block st1]; try apply I; [lia | | |].
    + intros i Hi. cbn [total_frames_ blocks_ set_block st1].
      replace (T + c) with ((q + 1) * K + (r + c - K)) by lia. rewrite reached_at by lia.
      specialize (Hcnt i Hi). destruct (Z.eqb_spec i (q + 1)) as [-> |].
      * rewrite Z.ltb_irrefl. cbn. lia.
      * destruct (Z.eqb_spec i q) as [Heq |]; cbn.
        -- rewrite Heq in *. rewrite (proj2 (Z.ltb_lt _ _)) by lia. lia.
        -- destruct (Z.ltb_spec i q), (Z.ltb_spec i (q + 1)); lia.
    + intros i Hi. pose proof (inv_blocks _ _ _ _ I i Hi) as Hb.
      destruct (Z.eqb_spec i (q + 1)) as [-> |]; [apply block_holds_stored; [done | lia] |].
      destruct (Z.eqb_spec i q) as [-> |]; [apply block_holds_stored; [done | lia] | done].
    + intros s t Hs. apply (range_ok_mono st); [by apply (inv_ranges _ _ _ _ I) | cbn; lia |].
      cbn. destruct (Z.eqb_spec (s / K) (q + 1)) as [-> |]; [done |].
      by destruct (Z.eqb_spec (s / K) q) as [-> |].
  - done.
  - cbn. replace (T + c) with ((r + c - K) + (q + 1) * K) by lia. rewrite Z.mod_add by lia.
    rewrite Z.mod_small by lia. lia.
Qed.

Lemma GetOrCreate_spec (st : StackStore) (C : Z -> Z) (i : Z) :
  0 <= i < N -> block_holds C i (blocks_ st i) ->
  exists st', GetOrCreate st i = Ok st' /\ total_frames_ st' = total_frames_ st /\
    (forall j, stored_ (blocks_ st' j) = stored_ (blocks_ st j)) /\
    (forall j, j <> i -> blocks_ st' j = blocks_ st j) /\
    data_ (blocks_ st' i) <> NoData /\ block_holds C i (blocks_ st' i).
Proof.
  intros Hi Hb. unfold GetOrCreate. rewrite get_block_ok by done. step.
  destruct (data_ (blocks_ st i)) eqn:Hd; [| eexists; split_and!; try done; by rewrite Hd ..].
  eexists. split; [done |]. split_and!; cbn; try done.
  - intros j. by destruct (Z.eqb_spec j i) as [-> |].
  - intros j Hj. by rewrite (proj2 (Z.eqb_neq _ _)).
  - by rewrite Z.eqb_refl.
  - rewrite Z.eqb_refl. unfold block_holds in *. rewrite Hd in Hb. cbn. destruct Hb as [Hb1 Hb2].
    split; [done |]. intros j Hj. by rewrite Hb2.
Qed.

(** An attempt inside one block takes the range. *)
Lemma alloc_take (st : StackStore) (R D : gmap Z StackTrace) (C : Z -> Z) (t : StackTrace) (pack : Z) (fuel : nat) :
  store_inv st R D C -> wf_trace t -> total_frames_ st mod K + range_len t <= K ->
  total_frames_ st + range_len t <= N * K ->
  exists st', Alloc st (range_len t) pack (S fuel) = Ok (st', Some (total_frames_ st), pack) /\
    total_frames_ st' = total_frames_ st + range_len t /\
    (R ∪ D) !! total_frames_ st = None /\ store_inv st' (<[total_frames_ st := t]> R) D C.
Proof.
  intros I Hwf Hfit Htot. pose proof K_bounds as HK. set (T := total_frames_ st) in *.
  set (c := range_len t) in *. pose proof (range_len_bounds t) as Hc. fold c in Hc.
  pose proof (split_frame T) as [HT Hm]. pose proof (inv_total _ _ _ _ I) as HT0. fold T in HT0.
  set (q := T / K) in *. pose proof (block_index T ltac:(lia)) as Hq. fold q in Hq.
  pose proof (proj2 (same_block T c ltac:(lia)) Hfit) as Hsame. fold q in Hsame.
  cbn [Alloc]. fold T. unfold GetBlockIdx. rewrite <- Hsame. fold q. rewrite Z.eqb_refl.
  rewrite (proj2 (Z.leb_gt _ _)) by lia. rewrite (wrap_small (T + c)) by (unfold is_uptr, word_modulus; lia).
  set (st1 := MkStore (T + c) (allocated_ st) (blocks_ st)).
  destruct (GetOrCreate_spec st1 C q Hq (inv_blocks _ _ _ _ I q Hq)) as (st' & -> & Ht & Hst & Hoth & Hd & Hh).
  step. cbn [st1 total_frames_ blocks_] in *.
  assert (Hfresh : forall s u, (R ∪ D) !! s = Some u -> s + range_len u <= T)
    by (intros s u; by apply (range_before st R D C)).
  assert (Hnone : (R ∪ D) !! T = None).
  { destruct ((R ∪ D) !! T) as [u |] eqn:Hu; [| done]. apply Hfresh in Hu. pose proof (range_len_bounds u). lia. }
  exists st'. split_and!; [done | done | done |].
  pose proof (proj1 (lookup_union_None _ _ _) Hnone) as [HR HD].
  assert (Hold : forall s u, (<[T := t]> R ∪ D) !! s = Some u -> s = T /\ u = t \/ (R ∪ D) !! s = Some u).
  { intros s u. rewrite <- insert_union_l. intros [[<- <-] | [_ Hu]]%lookup_insert_Some; auto. }
  split; try apply I.
  - rewrite Ht. lia.
  - intros i Hi. rewrite Hst, Ht, pending_insert by done. destruct (inv_counted _ _ _ _ I i Hi) as [H1 H2].
    split; [done |]. fold T in H2. rewrite HT, reached_at in H2 by lia.
    replace (T + c) with (q * K + (T mod K + c)) by lia. rewrite reached_at by lia.
    unfold weight. fold q c. rewrite (Z.eqb_sym q i).
    destruct (Z.ltb_spec i q), (Z.eqb_spec i q); lia.
  - intros i Hi. destruct (decide (i = q)) as [-> |]; [done |]. rewrite Hoth by done. by apply I.
  - apply map_disjoint_insert_l_2; [done | apply I].
  - intros s u [[-> ->] | Hu]%Hold.
    + split; [done | rewrite Ht; split; [lia | done] | done | done].
    + apply (range_ok_mono st); [by apply (inv_ranges _ _ _ _ I) | lia |].
      intros Hnd. destruct (decide (s / K = q)) as [-> |]; [done |]. by rewrite Hoth.
  - intros s1 s2 u1 u2 H1%Hold H2%Hold Hlt. destruct H1 as [[-> ->] | H1].
    + destruct H2 as [[-> _] | H2]; [lia |]. apply Hfresh in H2. pose proof (range_len_bounds u2). lia.
    + destruct H2 as [[-> ->] | H2]; [by apply Hfresh |]. by apply (inv_disjoint _ _ _ _ I s1 s2 u1 u2).
Qed.

Lemma Store_begin_spec (st : StackStore) (R D : gmap Z StackTrace) (C : Z -> Z) (t : StackTrace) :
  store_inv st R D C -> wf_trace t -> total_frames_ st + 512 <= N * K ->
  exists st' s pack, Store_begin st t = Ok (st', Some (s, trace_header t), pack) /\
    total_frames_ st <= total_frames_ st' <= total_frames_ st + 512 /\
    (R ∪ D) !! s = None /\ store_inv st' (<[s := t]> R) D C.
Proof.
  intros I Hwf Htot. unfold Store_begin. rewrite header_of_trace_wf by done. step.
  change (h_size (trace_header t) + 1) with (range_len t). pose proof (range_len_bounds t) as Hc.
  unfold alloc_fuel. destruct (decide (total_frames_ st mod K + range_len t <= K)) as [Hfit | Hstr].
  - destruct (alloc_take st R D C t 0 1 I Hwf Hfit ltac:(lia)) as (st' & -> & Ht & Hn & I'). step.
    eexists _, _, _. split; [done |]. split_and!; try done; lia.
  - destruct (alloc_skip st R D C (range_len t) 0 1 I Hc ltac:(lia) ltac:(lia)) as (st1 & p & -> & I1 & Ht1 & Hfit).
    destruct (alloc_take st1 R D C t p 0 I1 Hwf Hfit ltac:(lia)) as (st' & -> & Ht & Hn & I'). step.
    eexists _, _, _. split; [done |]. split_and!; try done; lia.
Qed.

Lemma block_holds_ext (C C' : Z -> Z) (i : Z) (b : BlockInfo) :
  (forall j, 0 <= j < K -> C' (i * K + j) = C (i * K + j)) -> block_holds C i b -> block_holds C' i b.
Proof.
  intros He. unfold block_holds. destruct (data_ b) as [| cells | ty bytes].
  - intros [H1 H2]. split; [done |]. intros j Hj. rewrite He by done. by apply H2.
  - intros [H1 H2]. split; [done |]. intros j Hj. rewrite He by done. by apply H2.
  - intros (H1 & H2 & H3 & H4). split_and!; try done; try apply H3. rewrite H4. f_equal.
    apply map_ext_in. intros j Hj%list_elem_of_In%elem_of_seqZ. symmetry. apply He. lia.
Qed.

(** The frames after a trace is written at [s]. *)
Definition write_trace (C : Z -> Z) (s : Z) (t : StackTrace) : Z -> Z := write_cells C s (trace_cells t).

Lemma write_trace_in (C : Z -> Z) (s : Z) (t : StackTrace) (k : nat) (x : Z) :
  trace_cells t !! k = Some x -> write_trace C s t (s + Z.of_nat k) = x.
Proof.
  intros Hx. pose proof (lookup_lt_Some _ _ _ Hx) as Hk. unfold write_trace, write_cells.
  rewrite (proj2 (Z.leb_le _ _)), (proj2 (Z.ltb_lt _ _)) by lia. cbn [andb].
  replace (Z.to_nat (s + Z.of_nat k - s)) with k by lia. by apply nth_lookup_Some.
Qed.

Lemma write_trace_out (C : Z -> Z) (s g : Z) (t : StackTrace) :
  g < s \/ s + range_len t <= g -> write_trace C s t g = C g.
Proof.
  intros Hg. unfold write_trace, write_cells. rewrite trace_cells_length.
  destruct (Z.leb_spec s g), (Z.ltb_spec g (s + range_len t)); cbn; done || lia.
Qed.

Lemma move_range (R D : gmap Z StackTrace) (s : Z) (t : StackTrace) :
  R !! s = Some t -> R ##ₘ D -> delete s R ∪ <[s := t]> D = R ∪ D /\ delete s R ##ₘ <[s := t]> D.
Proof.
  intros Hs Hd. split.
  - rewrite <- insert_union_r by apply lookup_delete_eq. rewrite insert_union_l. by rewrite insert_delete_id.
  - apply map_disjoint_insert_r_2; [apply lookup_delete_eq | by apply map_disjoint_delete_l].
Qed.

Lemma header_take (t : StackTrace) : take (Z.to_nat (header_size t)) (frames t) = take 255 (frames t).
Proof.
  unfold header_size, trace_size. destruct (decide (length (frames t) <= 255)%nat).
  - rewrite !take_ge by lia. done.
  - by replace (Z.to_nat (Z.min (Z.of_nat (length (frames t))) 255)) with 255%nat by lia.
Qed.

(** The block a pending range is in has frames and still expects some. *)
Lemma pending_block (st : StackStore) (R D : gmap Z StackTrace) (C : Z -> Z) (s : Z) (t : StackTrace) :
  store_inv st R D C -> R !! s = Some t ->
  0 <= s / K < N /\ s mod K + range_len t <= K /\
  0 <= stored_ (blocks_ st (s / K)) /\ stored_ (blocks_ st (s / K)) + range_len t <= K /\
  exists cells, data_ (blocks_ st (s / K)) = Frames cells /\ state (blocks_ st (s / K)) <> Packed.
Proof.
  intros I Hs. pose proof (range_len_bounds t) as Hc.
  destruct (inv_ranges _ _ _ _ I s t) as [Hwf [Hb1 Hb2] Hblk Hnd]; [by apply lookup_union_Some_l |].
  pose proof (inv_total _ _ _ _ I) as HT. pose proof (block_index s ltac:(lia)) as Hi.
  pose proof (inv_counted _ _ _ _ I (s / K) Hi) as [S1 S2]. pose proof (counted_bound st R _ (inv_counted _ _ _ _ I) Hi) as [_ S3].
  rewrite (pending_delete K R s t) in S2 by done. unfold weight in S2. rewrite Z.eqb_refl in S2.
  pose proof (pending_nonneg K (delete s R) (s / K)).
  split_and!; try lia; [apply same_block; [lia | done] |].
  pose proof (inv_blocks _ _ _ _ I _ Hi) as Hh. pose proof (unpacked_block _ _ _ Hh ltac:(lia)) as Hst.
  unfold block_holds in Hh. destruct (data_ (blocks_ st (s / K))) as [| cells | ty bytes]; [done | by exists cells |].
  tauto.
Qed.

Lemma Store_finish_spec (st : StackStore) (R D : gmap Z StackTrace) (C : Z -> Z) (s : Z) (t : StackTrace) :
  store_inv st R D C -> R !! s = Some t ->
  exists st' full, Store_finish st s (trace_header t) t = Ok (st', OffsetToId s, full) /\
    total_frames_ st' = total_frames_ st /\
    store_inv st' (delete s R) (<[s := t]> D) (write_trace C s t).
Proof.
  intros I Hs. pose proof K_bounds as HK. pose proof (range_len_bounds t) as Hc.
  destruct (pending_block st R D C s t I Hs) as (Hi & Hfit & S1 & S2 & cells & Hd & Hst).
  pose proof (split_frame s) as [Hsp Hm]. set (i := s / K) in *.
  assert (HRD : (R ∪ D) !! s = Some t) by (by apply lookup_union_Some_l).
  destruct (inv_ranges _ _ _ _ I s t HRD) as [Hwf [Hb1 Hb2] _ _].
  unfold Store_finish. change (GetBlockIdx s) with i. rewrite get_block_ok by done. step. rewrite Hd. step.
  change (h_size (trace_header t)) with (header_size t). rewrite header_take. fold (trace_cells t).
  change (header_size t + 1) with (range_len t).
  rewrite Stored_spec; [| done | cbn; rewrite Z.eqb_refl; cbn; lia]. step. cbn [blocks_ set_block].
  rewrite Z.eqb_refl. cbn [stored_ data_ state]. eexists _, _. split; [reflexivity |]. split; [done |].
  destruct (move_range R D s t Hs (inv_keys _ _ _ _ I)) as [HU Hdisj].
  assert (Hout : forall j, 0 <= j -> j <> i -> forall k, 0 <= k < K -> write_trace C s t (j * K + k) = C (j * K + k)).
  { intros j Hj Hne k Hk. apply write_trace_out. assert (j < i \/ i < j) as [Hlt | Hgt] by lia; nia. }
  split.
  - apply I.
  - intros j Hj. cbn. destruct (inv_counted _ _ _ _ I j Hj) as [C1 C2].
    rewrite (pending_delete K R s t) in C2 by done. unfold weight in C2. fold i in C2.
    destruct (Z.eqb_spec j i) as [-> |]; cbn.
    + rewrite Z.eqb_refl in C2. lia.
    + rewrite (proj2 (Z.eqb_neq i j)) in C2 by done. lia.
  - intros j Hj. cbn. pose proof (inv_blocks _ _ _ _ I j Hj) as Hh. destruct (Z.eqb_spec j i) as [-> |].
    + unfold block_holds in *. rewrite Hd in Hh. cbn. split; [done |]. destruct Hh as [_ Hh]. intros k Hk.
      unfold write_trace, write_cells, GetInBlockIdx. rewrite Hh by done.
      replace (Z.to_nat (i * K + k - s)) with (Z.to_nat (k - s mod K)) by lia.
      destruct (Z.leb_spec (s mod K) k), (Z.leb_spec s (i * K + k)); try lia; cbn [andb]; try done.
      destruct (Z.ltb_spec k (s mod K + Z.of_nat (length (trace_cells t)))),
        (Z.ltb_spec (i * K + k) (s + Z.of_nat (length (trace_cells t)))); try lia; done.
    + apply (block_holds_ext C); [| done]. apply Hout; lia.
  - intros g. unfold write_trace, write_cells. destruct (_ && _); [| apply I].
    pose proof (trace_cells_uptr t Hwf) as Hall. rewrite Forall_forall in Hall.
    destruct (nth_in_or_default (Z.to_nat (g - s)) (trace_cells t) 0) as [Hin | ->].
    + by apply Hall, list_elem_of_In.
    + unfold is_uptr, word_modulus. lia.
  - done.
  - intros s2 u. rewrite HU. intros Hu. apply (range_ok_mono st); [by apply (inv_ranges _ _ _ _ I) | done |].
    cbn. by destruct (Z.eqb_spec (s2 / K) i) as [-> |].
  - intros s1 s2 u1 u2. rewrite HU. apply (inv_disjoint _ _ _ _ I).
  - intros s2 u Hu k x Hx. apply lookup_insert_Some in Hu as [[<- <-] | [Hne Hu]]; [by apply write_trace_in |].
    rewrite write_trace_out; [by apply (inv_done _ _ _ _ I s2 u) |].
    pose proof (lookup_lt_Some _ _ _ Hx). pose proof (trace_cells_length u).
    assert (HRD2 : (R ∪ D) !! s2 = Some u) by (apply lookup_union_Some_r; [apply I | done]).
    assert (s < s2 \/ s2 < s) as [Hlt | Hgt] by lia.
    + pose proof (inv_disjoint _ _ _ _ I s s2 t u HRD HRD2 Hlt). lia.
    + pose proof (inv_disjoint _ _ _ _ I s2 s u t HRD2 HRD Hgt). lia.
Qed.

(** ** Packing and unpacking *)

Lemma store_inv_set_block (st st' : StackStore) (R D : gmap Z StackTrace) (C : Z -> Z) (i : Z) (b : BlockInfo) :
  store_inv st R D C -> 0 <= i < N -> total_frames_ st' = total_frames_ st ->
  (forall j, blocks_ st' j = if j =? i then b else blocks_ st j) ->
  block_holds C i b -> stored_ b = stored_ (blocks_ st i) ->
  (data_ (blocks_ st i) <> NoData -> data_ b <> NoData) -> store_inv st' R D C.
Proof.
  intros I Hi Ht Hb Hh Hs Hd. split; try apply I.
  - rewrite Ht. apply I.
  - intros j Hj. rewrite Hb, Ht. destruct (Z.eqb_spec j i) as [-> |]; [rewrite Hs |]; by apply I.
  - intros j Hj. rewrite Hb. destruct (Z.eqb_spec j i) as [-> |]; [done | by apply I].
  - intros s t Hst. apply (range_ok_mono st); [by apply (inv_ranges _ _ _ _ I) | lia |].
    rewrite Hb. by destruct (Z.eqb_spec (s / K) i) as [-> |].
Qed.

Lemma encode_loop_uptr (input : list Z) : forall m c codes,
  (forall k v, m !! k = Some v -> is_uptr v) -> is_uptr c -> encode_loop input m c = Ok codes ->
  Forall is_uptr codes.
Proof.
  induction input as [| x input IH]; intros m c codes Hm Hc He0; cbn in He0; [inv_ok; by constructor |].
  destruct (m !! (c, x)) as [v |] eqn:Hv; [apply IH in He0; [done | done | by apply (Hm (c, x))] |].
  apply bind_Ok in He0 as (n & Hn & He0). apply bind_Ok in He0 as (rest & Hr & He0). inv_ok.
  assert (Hm' : forall k v, <[(c, x) := map_size m]> m !! k = Some v -> is_uptr v).
  { intros k v [[_ <-] | [_ Hk]]%lookup_insert_Some; [| by apply (Hm k)].
    unfold map_size, to_u32, is_uptr, word_modulus. pose proof (Z.mod_pos_bound (Z.of_nat (size m)) 4294967296). lia. }
  constructor; [done |]. by apply (IH _ _ _ Hm' (Hm' _ _ Hn)) in Hr.
Qed.

Lemma remap_items_uptr (dict : list Z) : forall i (m : code_map),
  (forall k v, m !! k = Some v -> is_uptr v) ->
  forall k v, remap_items dict i m !! k = Some v -> is_uptr v.
Proof.
  induction dict as [| x dict IH]; intros i m Hm; cbn [remap_items]; [done |]. apply IH.
  intros k v [[_ <-] | [_ Hk]]%lookup_insert_Some; [| by apply (Hm k)].
  unfold to_u32, is_uptr, word_modulus. pose proof (Z.mod_pos_bound i 4294967296). lia.
Qed.

Lemma collect_items_uptr (input : list Z) : forall (m : code_map) d,
  (forall k v, m !! k = Some v -> is_uptr v) -> Forall is_uptr input -> Forall is_uptr d ->
  (forall k v, fst (collect_items input m d) !! k = Some v -> is_uptr v) /\
  Forall is_uptr (snd (collect_items input m d)).
Proof.
  induction input as [| x input IH]; intros m d Hm Hi Hd; cbn [collect_items]; [done |].
  inversion_clear Hi. destruct (m !! (kNoPrefix, x)); [by apply IH |]. apply IH; [| done |].
  - intros k v [[_ <-] | [_ Hk]]%lookup_insert_Some; [unfold is_uptr, word_modulus; lia | by apply (Hm k)].
  - apply Forall_app. split; [done | by apply Forall_singleton].
Qed.

Lemma LzwEncode_uptr (input out : list Z) : Forall is_uptr input -> Z.of_nat (length input) < word_modulus ->
  LzwEncode input = Ok out -> Forall is_uptr out.
Proof.
  intros Hi Hlen He0. unfold LzwEncode in He0.
  destruct (collect_items_uptr input ∅ []) as [U1 U2]; [by intros k v; rewrite lookup_empty | done | done |].
  destruct (collect_items_spec input ∅ [] (NoDup_nil_2)) as (_ & _ & H3 & _).
  { intros k. rewrite lookup_empty. split; [by intros [] |]. intros (x & _ & Hx). by apply not_elem_of_nil in Hx. }
  destruct (collect_items input ∅ []) as [m d]. cbn [fst snd length] in *.
  destruct (Sort_spec Z.ltb d) as (dict & Hs & P & _). rewrite Hs in He0. cbn [mbind result_bind] in He0.
  apply bind_Ok in He0 as (u & _ & He0).
  assert (Hdict : Forall is_uptr (Z.of_nat (length dict) :: dict)).
  { constructor; [apply Permutation_length in P; unfold is_uptr; lia | by rewrite P]. }
  destruct input as [| x input]; [by inv_ok |].
  apply bind_Ok in He0 as (c & Hc & He0). apply bind_Ok in He0 as (codes & He & He0). inv_ok.
  apply (Forall_app is_uptr (_ :: dict)). split; [done |].
  pose proof (remap_items_uptr dict 0 m U1) as U3. by apply (encode_loop_uptr _ _ _ _ U3 (U3 _ _ Hc)) in He.
Qed.

(** What a compressor wrote, when it had room to spare. *)
Lemma compress_roundtrip (type : Compression) (l bytes : list Z) (room : nat) :
  type <> CNone -> Forall is_uptr l -> Z.of_nat (length l) = K ->
  match type with CDelta => Ok (CompressDelta l room) | _ => CompressLzw l room end = Ok bytes ->
  (length bytes < room)%nat -> uncompress type bytes = Ok l /\ (7 <= length bytes)%nat.
Proof.
  intros Hty Hl Hlen Hc Hroom. pose proof K_bounds as HK. destruct type; [done | |].
  - injection Hc as <-. unfold CompressDelta in *. cbn [uncompress]. unfold UncompressDelta.
    rewrite stream_roundtrip; [| done | unfold is_uptr, word_modulus; lia | done | lia]. step.
    rewrite Hlen, Z.eqb_refl. step. split; [done |]. pose proof (stream_length l 0 room Hroom). lia.
  - unfold CompressLzw in Hc. apply bind_Ok in Hc as (values & Hv & Hc). inv_ok.
    pose proof (LzwEncode_uptr l values Hl ltac:(unfold word_modulus; lia) Hv) as Huv.
    destruct (lzw_spec l) as (values' & Hv' & Hdec); [pose proof wf_codes; lia |].
    assert (values' = values) as -> by congruence.
    cbn [uncompress]. unfold UncompressLzw.
    rewrite stream_roundtrip; [| done | unfold is_uptr, word_modulus; lia | done | lia]. step.
    rewrite Hdec. step. rewrite Hlen, Z.eqb_refl. step. split; [done |].
    pose proof (stream_length values 0 room Hroom).
    destruct (decide (length values <= 6)%nat) as [Hs |]; [| lia].
    pose proof (lzw_decode_length values l Hdec Hs). lia.
Qed.

Lemma RoundUpTo_page (n : Z) : exists m, RoundUpTo n GetPageSizeCached = Ok m.
Proof. unfold RoundUpTo. rewrite IsPowerOfTwo_pow2 by apply wf_page. by eexists. Qed.

Lemma frame_list_holds (C cells : Z -> Z) (i : Z) : (forall j, 0 <= j < K -> cells j = C (i * K + j)) ->
  frame_list cells = map (fun j => C (i * K + j)) (seqZ 0 K).
Proof. intros Hc. apply map_ext_in. intros j Hj%list_elem_of_In%elem_of_seqZ. apply Hc. lia. Qed.

Lemma Pack_block_spec (st : StackStore) (R D : gmap Z StackTrace) (C : Z -> Z) (type : Compression) (i : Z) :
  store_inv st R D C -> 0 <= i < N ->
  exists st' n, Pack_block st type i = Ok (st', n) /\ total_frames_ st' = total_frames_ st /\ store_inv st' R D C.
Proof.
  intros I Hi. pose proof K_bounds as HK. unfold Pack_block. destruct (decide (type = CNone)) as [| Hty]; [by exists st, 0 |].
  rewrite get_block_ok by done. step. destruct (state (blocks_ st i)) eqn:Hst; try (by exists st, 0).
  pose proof (inv_blocks _ _ _ _ I i Hi) as Hh. pose proof (counted_bound st R i (inv_counted _ _ _ _ I) Hi) as [Hs1 Hs2].
  unfold block_holds in Hh. destruct (data_ (blocks_ st i)) as [| cells | ty bytes] eqn:Hd; [by exists st, 0 | |].
  2: { destruct Hh as (Hp & _). congruence. }
  destruct Hh as [_ Hc]. rewrite Stored_spec by lia. step. rewrite Z.add_0_l, Z.add_0_r.
  destruct (Z.eqb_spec (stored_ (blocks_ st i)) K) as [Hfull | Hnot]; cbn [negb].
  - set (l := frame_list cells).
    assert (Hl : Forall is_uptr l).
    { unfold l. rewrite (frame_list_holds C cells i Hc). apply Forall_forall.
      intros x (j & -> & _)%list_elem_of_fmap. apply I. }
    assert (Hlen : Z.of_nat (length l) = K) by (unfold l, frame_list; rewrite length_map, length_seqZ; lia).
    set (room := Z.to_nat (kBlockSizeBytes - packed_data_offset)).
    assert (exists bytes, match type with CDelta => Ok (CompressDelta l room) | CLZW => CompressLzw l room
      | CNone => Die Unreachable end = Ok bytes) as [bytes Hb].
    { destruct type; [done | by eexists |]. destruct (lzw_spec l) as (v & Hv & _); [pose proof wf_codes; lia |].
      unfold CompressLzw. rewrite Hv. by eexists. }
    rewrite Hb. step. destruct (Z.ltb_spec (kBlockSizeBytes - packed_size bytes) (kBlockSizeBytes / 8)) as [Hundo | Hfit].
    + eexists _, _. split; [reflexivity |]. split; [done |].
      apply (store_inv_set_block st _ R D C i (Block (Frames cells) (stored_ (blocks_ st i)) Unpacked)); try done.
      intros j. cbn. by destruct (j =? i).
    + destruct (RoundUpTo_page (packed_size bytes)) as [m ->]. step.
      eexists _, _. split; [reflexivity |]. split; [done |].
      apply (store_inv_set_block st _ R D C i (Block (PackedData type bytes) (stored_ (blocks_ st i)) Packed)); try done.
      * intros j. cbn. by destruct (j =? i).
      * assert (Hbb : kBlockSizeBytes = K * 8) by done. unfold packed_size, packed_data_offset in *.
        assert (Hdiv : K * 8 / 8 = K) by (apply Z.div_mul; lia). rewrite Hbb, Hdiv in Hfit.
        destruct (compress_roundtrip type l bytes room Hty Hl Hlen) as [Hun H7].
        { by destruct type. } { unfold room. lia. }
        unfold block_holds. cbn. split_and!; try done; [unfold packed_size, packed_data_offset; lia | unfold packed_size, packed_data_offset; lia |].
        rewrite Hun. unfold l. by rewrite (frame_list_holds C cells i Hc).
  - eexists _, _. split; [reflexivity |]. split; [done |].
    apply (store_inv_set_block st _ R D C i (Block (Frames cells) (stored_ (blocks_ st i)) Storing)); try done.
    intros j. cbn. by rewrite Hd, Hst.
Qed.

Lemma Pack_loop_spec (R D : gmap Z StackTrace) (C : Z -> Z) (type : Compression) (l : list Z) :
  forall st res, (forall i, i ∈ l -> 0 <= i < N) -> store_inv st R D C ->
  exists st' n, Pack_loop st type l res = Ok (st', n) /\ total_frames_ st' = total_frames_ st /\
    store_inv st' R D C.
Proof.
  induction l as [| i l IH]; intros st res Hin I; cbn [Pack_loop]; [by exists st, res |].
  destruct (Pack_block_spec st R D C type i I) as (st1 & n & -> & Ht & I1); [apply Hin; by left |]. step.
  destruct (IH st1 (res +w n)) as (st' & m & -> & Ht' & I'); [intros j Hj; apply Hin; by right | done |].
  exists st', m. split_and!; [done | congruence | done].
Qed.

Lemma Pack_spec (st : StackStore) (R D : gmap Z StackTrace) (C : Z -> Z) (type : Compression) :
  store_inv st R D C ->
  exists st' n, Pack st type = Ok (st', n) /\ total_frames_ st' = total_frames_ st /\ store_inv st' R D C.
Proof. apply Pack_loop_spec. intros i Hi%elem_of_seqZ. lia. Qed.

Lemma cells_of_list_map (f : Z -> Z) (j : Z) : 0 <= j < K -> cells_of_list (map f (seqZ 0 K)) j = f j.
Proof.
  intros Hj. unfold cells_of_list. apply nth_lookup_Some. rewrite list_lookup_fmap, lookup_seqZ_lt by lia.
  cbn. do 2 f_equal. lia.
Qed.

Lemma GetOrUnpack_spec (st : StackStore) (R D : gmap Z StackTrace) (C : Z -> Z) (i : Z) :
  store_inv st R D C -> 0 <= i < N -> data_ (blocks_ st i) <> NoData ->
  exists st' cells, GetOrUnpack st i = Ok (st', Some cells) /\ total_frames_ st' = total_frames_ st /\
    (forall j, 0 <= j < K -> cells j = C (i * K + j)) /\ store_inv st' R D C.
Proof.
  intros I Hi Hnd. pose proof K_bounds as HK. unfold GetOrUnpack. rewrite get_block_ok by done. step.
  pose proof (inv_blocks _ _ _ _ I i Hi) as Hh. unfold block_holds in Hh.
  destruct (data_ (blocks_ st i)) as [| cells | ty bytes] eqn:Hd; [done | |].
  - assert (Hres : state (blocks_ st i) <> Packed ->
      exists st' c, Ok (set_block st i (Block (Frames cells) (stored_ (blocks_ st i)) Unpacked), Some cells) =
        Ok (st', Some c) /\ total_frames_ st' = total_frames_ st /\
        (forall j, 0 <= j < K -> c j = C (i * K + j)) /\ store_inv st' R D C).
    { intros Hs. eexists _, _. split; [reflexivity |]. split_and!; [done | apply Hh |].
      apply (store_inv_set_block st _ R D C i (Block (Frames cells) (stored_ (blocks_ st i)) Unpacked)); try done.
      unfold block_holds. cbn. by split; [| apply Hh]. }
    destruct (state (blocks_ st i)); [apply Hres; apply Hh | by destruct Hh | apply Hres; apply Hh].
  - destruct Hh as (Hst & Hfull & Hsz & Hun). rewrite Hst.
    rewrite !check_true by (apply Z.leb_le; unfold sizeof_PackedHeader; lia). step.
    destruct (RoundUpTo_page (packed_size bytes)) as [m ->]. step. fold (uncompress ty bytes). rewrite Hun. step.
    rewrite check_true by (apply Z.eqb_eq; rewrite length_map, length_seqZ; lia). step.
    eexists _, _. split; [reflexivity |]. split_and!; [done | intros j Hj; by rewrite cells_of_list_map |].
    apply (store_inv_set_block st _ R D C i
      (Block (Frames (cells_of_list (map (fun j => C (i * K + j)) (seqZ 0 K)))) (stored_ (blocks_ st i)) Unpacked)); try done.
    unfold block_holds. cbn. split; [done |]. intros j Hj. by rewrite cells_of_list_map.
Qed.

Lemma Load_spec (st : StackStore) (R D : gmap Z StackTrace) (C : Z -> Z) (s : Z) (t : StackTrace) :
  store_inv st R D C -> D !! s = Some t -> total_frames_ st < N * K ->
  exists st', Load st (OffsetToId s) = Ok (st', truncated t) /\ total_frames_ st' = total_frames_ st /\
    store_inv st' R D C.
Proof.
  intros I Hs Htot. pose proof K_bounds as HK. pose proof (range_len_bounds t) as Hc.
  assert (HRD : (R ∪ D) !! s = Some t) by (apply lookup_union_Some_r; [apply I | done]).
  destruct (inv_ranges _ _ _ _ I s t HRD) as [Hwf [Hb1 Hb2] Hblk Hnd].
  pose proof (block_index s ltac:(lia)) as Hi. apply same_block in Hblk; [| lia].
  pose proof (split_frame s) as [Hsp Hm]. unfold Load, OffsetToId.
  assert (Hid : to_u32 (s + 1) = s + 1) by (apply Z.mod_small; lia). rewrite Hid.
  rewrite (proj2 (Z.eqb_neq _ _)) by lia. unfold IdToOffset. rewrite (proj2 (Z.eqb_neq (s + 1) 0)) by lia. cbn [negb]. step.
  replace (s + 1 - 1) with s by lia. assert (to_u32 s = s) as -> by (apply Z.mod_small; lia).
  unfold GetBlockIdx. rewrite check_true by (apply Z.ltb_lt; lia). step.
  destruct (GetOrUnpack_spec st R D C (s / K) I Hi Hnd) as (st' & cells & -> & Ht & Hcells & I'). step.
  exists st'. split_and!; [| done | done]. do 2 f_equal. unfold GetInBlockIdx, truncated.
  assert (Hcell : forall k x, trace_cells t !! k = Some x -> cells (s mod K + Z.of_nat k) = x).
  { intros k x Hx. pose proof (lookup_lt_Some _ _ _ Hx). pose proof (trace_cells_length t).
    rewrite Hcells by lia. rewrite Z.add_assoc, <- Hsp. by apply (inv_done _ _ _ _ I s t). }
  pose proof (Hcell 0%nat _ eq_refl) as Hc0. rewrite Z.add_0_r in Hc0. rewrite Hc0, header_roundtrip by done.
  cbn [h_size h_tag trace_header]. f_equal. apply list_eq. intros k.
  pose proof (header_size_range t). pose proof (trace_cells_length t) as Hlen. unfold range_len in Hlen.
  destruct (decide (k < length (take 255 (frames t)))%nat) as [Hk | Hk].
  - destruct (lookup_lt_is_Some_2 _ k Hk) as [x Hx]. rewrite Hx.
    rewrite list_lookup_fmap, lookup_seqZ_lt by (cbn [length trace_cells] in Hlen; lia). cbn. f_equal.
    rewrite <- (Hcell (S k) x) by done. f_equal. lia.
  - rewrite (lookup_ge_None_2 (take _ _)) by lia. rewrite list_lookup_fmap, lookup_seqZ_ge; [done |].
    cbn [length trace_cells] in Hlen. lia.
Qed.

(** ** Interleavings

    The store is shared: a thread's [Store] is the allocation of its range and,
    later, the writing and counting of it, and other threads' operations come
    in between.  [Pack] and [Load] may come at any time.  A command names a
    range by its first frame, a trace to load by its id. *)
Inductive store_cmd : Type :=
| BeginStore (t : StackTrace)
| FinishStore (idx : Z)
| PackBlocks (type : Compression)
| LoadTrace (id : Z).

Record world : Type := World {
  the_store : StackStore; in_flight : gmap Z StackTrace; completed : gmap Z StackTrace
}.

Definition exec_store (w : world) (c : store_cmd) : result world :=
  match c with
  | BeginStore t =>
      if (trace_size t =? 0) && (tag t =? 0) then Ok w
      else
        '(s, r, _) ← Store_begin (the_store w) t;
        match r with
        | None => Ok (World s (in_flight w) (completed w))
        | Some (idx, _) => Ok (World s (<[idx := t]> (in_flight w)) (completed w))
        end
  | FinishStore idx =>
      match in_flight w !! idx with
      | None => Ok w
      | Some t =>
          h ← header_of_trace t;
          '(s, id, _) ← Store_finish (the_store w) idx h t;
          Ok (World s (delete idx (in_flight w)) (<[id := t]> (completed w)))
      end
  | PackBlocks type =>
      '(s, _) ← Pack (the_store w) type;
      Ok (World s (in_flight w) (completed w))
  | LoadTrace id =>
      match completed w !! id with
      | None => Ok w
      | Some _ => '(s, _) ← Load (the_store w) id; Ok (World s (in_flight w) (completed w))
      end
  end.

Fixpoint run_store (w : world) (cs : list store_cmd) : result world :=
  match cs with
  | [] => Ok w
  | c :: cs' => w ← exec_store w c; run_store w cs'
  end.

Definition wf_store_cmd (c : store_cmd) : Prop :=
  match c with BeginStore t => wf_trace t | _ => True end.

Definition world_ok (w : world) (D : gmap Z StackTrace) (C : Z -> Z) : Prop :=
  store_inv (the_store w) (in_flight w) D C /\
  forall id t, completed w !! id = Some t -> exists s, id = OffsetToId s /\ D !! s = Some t.

Lemma exec_store_spec (w : world) (D : gmap Z StackTrace) (C : Z -> Z) (c : store_cmd) :
  world_ok w D C -> wf_store_cmd c -> total_frames_ (the_store w) + 512 < N * K ->
  exists w' D' C', exec_store w c = Ok w' /\ world_ok w' D' C' /\
    total_frames_ (the_store w') <= total_frames_ (the_store w) + 512.
Proof.
  intros [I Hcomp] Hwf Htot. destruct c as [t | idx | type | id]; cbn [exec_store].
  - destruct (_ && _); [exists w, D, C; split_and!; done || lia |].
    destruct (Store_begin_spec _ _ D C t I Hwf ltac:(lia)) as (st' & s & pack & -> & Ht & Hn & I'). step.
    exists (World st' (<[s := t]> (in_flight w)) (completed w)), D, C. split_and!; [done | done | cbn; lia].
  - destruct (in_flight w !! idx) as [t |] eqn:Hf; [| exists w, D, C; split_and!; done || lia].
    assert (Hwt : wf_trace t) by (apply (inv_ranges _ _ _ _ I idx t); by apply lookup_union_Some_l).
    rewrite header_of_trace_wf by done. step.
    destruct (Store_finish_spec _ _ D C idx t I Hf) as (st' & full & -> & Ht & I'). step.
    eexists _, (<[idx := t]> D), (write_trace C idx t). split; [done |]. split; [split; [done |] | cbn; lia].
    cbn. intros i u [[<- <-] | [_ Hu]]%lookup_insert_Some.
    + exists idx. by rewrite lookup_insert_eq.
    + apply Hcomp in Hu as (s & -> & Hs). exists s. split; [done |]. rewrite lookup_insert_ne; [done |].
      intros <-. assert (D !! idx = None); [| congruence].
      by apply (map_disjoint_Some_l _ _ _ _ (inv_keys _ _ _ _ I) Hf).
  - destruct (Pack_spec _ _ D C type I) as (st' & n & -> & Ht & I'). step.
    eexists _, D, C. split; [done |]. split; [done | cbn; lia].
  - destruct (completed w !! id) as [t |] eqn:Hid; [| exists w, D, C; split_and!; done || lia].
    destruct (Hcomp id t Hid) as (s & -> & Hs).
    destruct (Load_spec _ _ D C s t I Hs ltac:(lia)) as (st' & -> & Ht & I'). step.
    eexists _, D, C. split; [done |]. split; [done | cbn; lia].
Qed.

Lemma run_store_spec (cs : list store_cmd) : forall (w : world) (D : gmap Z StackTrace) (C : Z -> Z),
  world_ok w D C -> Forall wf_store_cmd cs ->
  total_frames_ (the_store w) + 512 * Z.of_nat (length cs) < N * K ->
  exists w' D' C', run_store w cs = Ok w' /\ world_ok w' D' C' /\ total_frames_ (the_store w') < N * K.
Proof.
  induction cs as [| c cs IH]; intros w D C Hw Hwf Htot; cbn [run_store length] in *.
  - exists w, D, C. split_and!; done || lia.
  - inversion_clear Hwf. destruct (exec_store_spec w D C c) as (w1 & D1 & C1 & -> & Hw1 & Ht1); [done | done | lia |].
    step. apply (IH w1 D1 C1); [done | done | lia].
Qed.

Lemma empty_store_ok : world_ok (World empty_store ∅ ∅) ∅ (fun _ => 0).
Proof.
  pose proof K_bounds as HK. split.
  - split; cbn; try done.
    + lia.
    + intros i Hi. cbn. unfold pending_frames. rewrite map_fold_empty. unfold reached.
      assert (0 <= i * K) by lia. lia.
  - intros id t. cbn. by rewrite lookup_empty.
Qed.

(** C7.  The stack store refines a map from ids to traces.  Whatever order the
    allocations, completions, packings (delta or LZW) and loads of any number
    of threads come in, every operation returns and, afterwards, loading the
    id of any completed store gives its trace back (its first 255 frames and
    its tag): no packed block expects frames, no range is given twice, and
    what a packed block decodes to is what it held. *)
Theorem stack_store_keeps_traces (cs : list store_cmd) (Hcs : Forall wf_store_cmd cs)
  (Hroom : 512 * Z.of_nat (length cs) < kBlockCount * kBlockSizeFrames) :
  exists w, run_store (World empty_store ∅ ∅) cs = Ok w /\
    forall id t, completed w !! id = Some t ->
      exists st', Load (the_store w) id = Ok (st', truncated t).
Proof.
  destruct (run_store_spec cs _ ∅ (fun _ => 0) empty_store_ok Hcs ltac:(cbn; lia)) as (w & D & C & Hrun & [I Hcomp] & Ht).
  exists w. split; [done |]. intros id t Hid. destruct (Hcomp id t Hid) as (s & -> & Hs).
  destruct (Load_spec _ _ D C s t I Hs Ht) as (st' & Hl & _). by exists st'.
Qed.
End specs.

(** A small geometry, so that concrete runs fill whole blocks. *)
Definition small_store : StoreConfig := {|
  kBlockSizeFrames := 512; kBlockCount := 16; GetPageSizeCached := 512 |}.

#[export] Instance small_store_wf : WfStore (H := small_store).
Proof. split; cbn; [lia | vm_compute; discriminate | lia |]. exists 9. split; [lia | reflexivity]. Qed.

Definition example_trace : StackTrace := Trace (repeat 5 255) 1.
Definition example_schedule : list store_cmd :=
  [BeginStore example_trace; BeginStore example_trace; FinishStore 256; PackBlocks CLZW;
   FinishStore 0; PackBlocks CLZW; LoadTrace 1; BeginStore (Trace [7; 8] 0); FinishStore 512].

Lemma example_schedule_wf : Forall wf_store_cmd example_schedule.
Proof.
  assert (Ht : wf_trace example_trace).
  { split; [| unfold is_u8; cbn; lia]. apply Forall_forall. intros x Hx%list_elem_of_In%repeat_spec. subst x.
    unfold is_uptr, word_modulus. lia. }
  repeat constructor; try apply Ht; cbn; lia.
Qed.

Lemma stack_store_keeps_traces_witness :
  exists w, run_store (H := small_store) (World empty_store ∅ ∅) example_schedule = Ok w /\
    forall id t, completed w !! id = Some t ->
      exists st', Load (H := small_store) (the_store w) id = Ok (st', truncated t).
Proof.
  apply (stack_store_keeps_traces (H := small_store) (H0 := small_store_wf) example_schedule);
    [apply example_schedule_wf | reflexivity].
Defined.

(** In that run the first block does get packed. *)
Example example_schedule_packs :
  match run_store (H := small_store) (World empty_store ∅ ∅) (take 6 example_schedule) with
  | Ok w => state (blocks_ (the_store w) 0)
  | Die _ => Storing
  end = Packed.
Proof. vm_compute. reflexivity. Qed.

