(* ===== verification/BitVector.v ===== *)
(** * Bit vectors: sanitizer_bitvector.h

    [BitVector] is the interface the deadlock detector programs against (the
    template argument [BV]); [BitVectorSpec] is its contract: the operations
    are those of finite sets of indices, and each reports whether the set
    changed.  [BasicBitVector], over a machine integer of any width up to 64,
    is the first implementation; [TwoLevelBitVector] is the second. *)

From S2P Require Import Prelude Words.

(** ** The interface *)
Class BitVector (BV : Type) : Type := {
  kSize : Z;
  clear : BV -> BV;
  setAll : BV -> BV;
  empty : BV -> bool;
  setBit : BV -> Z -> result (BV * bool);
  clearBit : BV -> Z -> result (BV * bool);
  getBit : BV -> Z -> result bool;
  getAndClearFirstOne : BV -> result (BV * Z);
  setUnion : BV -> BV -> result (BV * bool);
  setIntersection : BV -> BV -> result (BV * bool);
  setDifference : BV -> BV -> result (BV * bool);
  copyFrom : BV -> BV -> result BV;
  intersectsWith : BV -> BV -> result bool;
}.

(** An operation that replaces [b] by a vector of the set [S], and returns
    whether anything changed. *)
Definition updates {BV} (bits : BV -> gset Z) (wf : BV -> Prop) (b : BV) (r : result (BV * bool)) (S : gset Z) : Prop :=
  exists b', r = Ok (b', bool_decide (S <> bits b)) /\ wf b' /\ bits b' = S.

Definition range_set (n : Z) : gset Z := list_to_set (seqZ 0 n).

Lemma elem_of_range_set (n i : Z) : i ∈ range_set n <-> 0 <= i < n.
Proof. unfold range_set. rewrite elem_of_list_to_set, elem_of_seqZ. lia. Qed.

Class BitVectorSpec (BV : Type) `{BitVector BV} : Type := {
  bits : BV -> gset Z;
  wf : BV -> Prop;
  kSize_pos : 0 < kSize;
  bits_range b i : wf b -> i ∈ bits b -> 0 <= i < kSize;
  clear_spec b : wf (clear b) /\ bits (clear b) = ∅;
  setAll_spec b : wf (setAll b) /\ bits (setAll b) = range_set kSize;
  empty_spec b : wf b -> empty b = bool_decide (bits b = ∅);
  setBit_spec b i : wf b -> 0 <= i < kSize -> updates bits wf b (setBit b i) ({[i]} ∪ bits b);
  clearBit_spec b i : wf b -> 0 <= i < kSize -> updates bits wf b (clearBit b i) (bits b ∖ {[i]});
  getBit_spec b i : wf b -> 0 <= i < kSize -> getBit b i = Ok (bool_decide (i ∈ bits b));
  setBit_range b i : kSize <= i -> setBit b i = Die CheckFailed;
  clearBit_range b i : kSize <= i -> clearBit b i = Die CheckFailed;
  getBit_range b i : kSize <= i -> getBit b i = Die CheckFailed;
  first_empty b : wf b -> bits b = ∅ -> getAndClearFirstOne b = Die CheckFailed;
  first_spec b : wf b -> bits b <> ∅ ->
    exists b' i, getAndClearFirstOne b = Ok (b', i) /\ wf b' /\ bits b' = bits b ∖ {[i]} /\
      i ∈ bits b /\ forall j, j ∈ bits b -> i <= j;
  setUnion_spec b v : wf b -> wf v -> updates bits wf b (setUnion b v) (bits b ∪ bits v);
  setIntersection_spec b v : wf b -> wf v -> updates bits wf b (setIntersection b v) (bits b ∩ bits v);
  setDifference_spec b v : wf b -> wf v -> updates bits wf b (setDifference b v) (bits b ∖ bits v);
  copyFrom_spec b v : wf v -> exists b', copyFrom b v = Ok b' /\ wf b' /\ bits b' = bits v;
  intersectsWith_spec b v : wf b -> wf v -> intersectsWith b v = Ok (bool_decide (bits b ∩ bits v <> ∅));
}.

(** The iterators, with the [clear] that only the basic one has. *)
Class BVIterator (BV : Type) : Type := {
  Iterator : Type;
  iter_begin : BV -> Iterator;
  hasNext : Iterator -> bool;
  next : Iterator -> result (Iterator * Z);
}.

Class BVIteratorSpec (BV : Type) `{BitVectorSpec BV} `{!BVIterator BV} : Type := {
  remaining : Iterator -> gset Z;
  iter_wf : Iterator -> Prop;
  begin_spec b : wf b -> iter_wf (iter_begin b) /\ remaining (iter_begin b) = bits b;
  hasNext_spec it : iter_wf it -> hasNext it = bool_decide (remaining it <> ∅);
  next_spec it : iter_wf it -> remaining it <> ∅ ->
    exists it' i, next it = Ok (it', i) /\ iter_wf it' /\ i ∈ remaining it /\
      remaining it' = remaining it ∖ {[i]};
}.

(** [while (!t.empty()) { i = t.getAndClearFirstOne(); s = body(s, i); }] *)
Fixpoint drain_keep {BV S} `{BitVector BV} (body : S -> Z -> result S) (t : BV) (s : S) (fuel : nat) : result (BV * S) :=
  match fuel with
  | O => Die OutOfFuel
  | S fuel' =>
      if empty t then Ok (t, s)
      else
        '(t, i) ← getAndClearFirstOne t;
        s ← body s i;
        drain_keep body t s fuel'
  end.
(** The same when [t] is a local variable. *)
Definition drain {BV S} `{BitVector BV} (body : S -> Z -> result S) (t : BV) (s : S) (fuel : nat) : result S :=
  '(_, s) ← drain_keep body t s fuel;
  Ok s.

(** The loop takes at most [kSize] turns. *)
Definition drain_fuel {BV} `{BitVector BV} : nat := Datatypes.S (Z.to_nat kSize).

Section drain.
Context {BV : Type} `{BitVectorSpec BV}.

Lemma bits_size (b : BV) : wf b -> (base.size (bits b) <= Z.to_nat kSize)%nat.
Proof.
  intros Hb. transitivity (base.size (range_set kSize)).
  - apply subseteq_size. intros i Hi. by apply elem_of_range_set, (bits_range b).
  - unfold range_set. rewrite size_list_to_set by apply NoDup_seqZ. by rewrite length_seqZ.
Qed.

(** The loop rule: an invariant on the set of the indices done so far. *)
Lemma drain_keep_spec {S} (body : S -> Z -> result S) (P : gset Z -> S -> Prop) (t : BV) (s : S) :
  wf t -> P ∅ s ->
  (forall D i s, i ∈ bits t -> i ∉ D -> P D s -> exists s', body s i = Ok s' /\ P ({[i]} ∪ D) s') ->
  exists t' s', drain_keep body t s drain_fuel = Ok (t', s') /\ wf t' /\ bits t' = ∅ /\ P (bits t) s'.
Proof.
  intros Ht Hinit Hbody.
  assert (Hgen : forall fuel u D s, wf u -> D ∪ bits u = bits t -> D ## bits u ->
    (base.size (bits u) < fuel)%nat -> P D s ->
    exists t' s', drain_keep body u s fuel = Ok (t', s') /\ wf t' /\ bits t' = ∅ /\ P (bits t) s').
  { induction fuel as [| fuel IH]; intros u D s0 Hu HD Hdis Hf HP; [lia |]. cbn [drain_keep].
    rewrite empty_spec by done. case_bool_decide as He.
    - exists u, s0. assert (D = bits t) as <- by set_solver. done.
    - destruct (first_spec u Hu He) as (u' & i & -> & Hu' & Hb & Hi & _). step.
      destruct (Hbody D i s0) as (s1 & -> & H1); [set_solver | set_solver | done |]. step.
      apply (IH u' ({[i]} ∪ D)); [done | rewrite Hb; rewrite <- HD; apply set_eq; intros x; destruct (decide (x = i)); set_solver
        | set_solver | | done].
      rewrite Hb, size_difference, size_singleton by set_solver.
      assert (base.size (bits u) <> 0%nat); [| lia].
      intros Hz. apply He. by apply leibniz_equiv, size_empty_iff. }
  apply (Hgen drain_fuel t ∅); [done | set_solver | set_solver | | done].
  pose proof (bits_size t Ht). unfold drain_fuel. lia.
Qed.

Lemma drain_spec {S} (body : S -> Z -> result S) (P : gset Z -> S -> Prop) (t : BV) (s : S) :
  wf t -> P ∅ s ->
  (forall D i s, i ∈ bits t -> i ∉ D -> P D s -> exists s', body s i = Ok s' /\ P ({[i]} ∪ D) s') ->
  exists s', drain body t s drain_fuel = Ok s' /\ P (bits t) s'.
Proof.
  intros Ht Hinit Hbody. destruct (drain_keep_spec body P t s Ht Hinit Hbody) as (t' & s' & Hrun & _ & _ & HP).
  exists s'. unfold drain. by rewrite Hrun.
Qed.
End drain.

(** ** Vectors as sets

    A client keeps several vectors; each command names the vectors it works
    on, and answers with a flag or an index. *)
Inductive command : Type :=
| Clear (a : nat) | SetAll (a : nat) | IsEmpty (a : nat)
| SetBit (a : nat) (i : Z) | ClearBit (a : nat) (i : Z) | GetBit (a : nat) (i : Z) | FirstOne (a : nat)
| Union (a v : nat) | Intersection (a v : nat) | Difference (a v : nat) | Copy (a v : nat) | Intersects (a v : nat).
Inductive answer : Type := Done | Flag (b : bool) | Index (i : Z).

Definition put_at {A} (m : nat -> A) (a : nat) (x : A) : nat -> A := fun n => if decide (n = a) then x else m n.
Definition flagged {A} (m : nat -> A) (a : nat) (r : result (A * bool)) : result ((nat -> A) * answer) :=
  '(b, f) ← r; Ok (put_at m a b, Flag f).

Definition run_command {BV} `{BitVector BV} (m : nat -> BV) (c : command) : result ((nat -> BV) * answer) :=
  match c with
  | Clear a => Ok (put_at m a (clear (m a)), Done)
  | SetAll a => Ok (put_at m a (setAll (m a)), Done)
  | IsEmpty a => Ok (m, Flag (empty (m a)))
  | SetBit a i => flagged m a (setBit (m a) i)
  | ClearBit a i => flagged m a (clearBit (m a) i)
  | GetBit a i => f ← getBit (m a) i; Ok (m, Flag f)
  | FirstOne a => '(b, i) ← getAndClearFirstOne (m a); Ok (put_at m a b, Index i)
  | Union a v => flagged m a (setUnion (m a) (m v))
  | Intersection a v => flagged m a (setIntersection (m a) (m v))
  | Difference a v => flagged m a (setDifference (m a) (m v))
  | Copy a v => b ← copyFrom (m a) (m v); Ok (put_at m a b, Done)
  | Intersects a v => f ← intersectsWith (m a) (m v); Ok (m, Flag f)
  end.

(** The same commands on finite sets of numbers below [n]. *)
Definition set_min (S : gset Z) : option Z :=
  foldr (fun i o => match o with Some j => Some (Z.min i j) | None => Some i end) None (elements S).
Definition set_to (m : nat -> gset Z) (a : nat) (S : gset Z) : result ((nat -> gset Z) * answer) :=
  Ok (put_at m a S, Flag (bool_decide (S <> m a))).
Definition in_bounds {A} (n i : Z) (r : result A) : result A := if i <? n then r else Die CheckFailed.

Definition run_set (n : Z) (m : nat -> gset Z) (c : command) : result ((nat -> gset Z) * answer) :=
  match c with
  | Clear a => Ok (put_at m a ∅, Done)
  | SetAll a => Ok (put_at m a (range_set n), Done)
  | IsEmpty a => Ok (m, Flag (bool_decide (m a = ∅)))
  | SetBit a i => in_bounds n i (set_to m a ({[i]} ∪ m a))
  | ClearBit a i => in_bounds n i (set_to m a (m a ∖ {[i]}))
  | GetBit a i => in_bounds n i (Ok (m, Flag (bool_decide (i ∈ m a))))
  | FirstOne a =>
      match set_min (m a) with
      | Some i => Ok (put_at m a (m a ∖ {[i]}), Index i)
      | None => Die CheckFailed
      end
  | Union a v => set_to m a (m a ∪ m v)
  | Intersection a v => set_to m a (m a ∩ m v)
  | Difference a v => set_to m a (m a ∖ m v)
  | Copy a v => Ok (put_at m a (m v), Done)
  | Intersects a v => Ok (m, Flag (bool_decide (m a ∩ m v <> ∅)))
  end.

(** The answers of a run of commands. *)
Fixpoint run_all {M} (run : M -> command -> result (M * answer)) (m : M) (cs : list command) : result (list answer) :=
  match cs with
  | [] => Ok []
  | c :: cs' => '(m, a) ← run m c; rest ← run_all run m cs'; Ok (a :: rest)
  end.

(** Indices are machine words. *)
Definition command_ok (c : command) : Prop :=
  match c with SetBit _ i | ClearBit _ i | GetBit _ i => 0 <= i | _ => True end.

Lemma set_min_spec (S : gset Z) :
  match set_min S with
  | Some i => i ∈ S /\ forall j, j ∈ S -> i <= j
  | None => S = ∅
  end.
Proof.
  unfold set_min. assert (Hgen : forall l : list Z,
    match foldr (fun i o => match o with Some j => Some (Z.min i j) | None => Some i end) None l with
    | Some i => i ∈ l /\ forall j, j ∈ l -> i <= j
    | None => l = []
    end).
  { induction l as [| x l IH]; [done |]. cbn [foldr]. destruct (foldr _ None l) as [k |].
    - destruct IH as [Hin Hmin]. split.
      + destruct (Z.min_spec x k) as [[_ ->] | [_ ->]]; [by left | by right].
      + intros j [-> | Hj]%elem_of_cons; [lia |]. specialize (Hmin j Hj). lia.
    - subst l. split; [by left |]. intros j Hj%list_elem_of_singleton. lia. }
  specialize (Hgen (elements S)). destruct (foldr _ _ _) as [i |].
  - destruct Hgen as [Hin Hmin]. split; [by apply elem_of_elements |].
    intros j Hj. by apply Hmin, elem_of_elements.
  - by apply elements_empty_iff, leibniz_equiv in Hgen.
Qed.

Section sets.
Context {BV : Type} `{BitVectorSpec BV}.

Definition stands_for (m : nat -> BV) (S : nat -> gset Z) : Prop := forall n, wf (m n) /\ bits (m n) = S n.

Lemma put_at_stands (m : nat -> BV) (S : nat -> gset Z) (a : nat) (b : BV) (T : gset Z) :
  stands_for m S -> wf b -> bits b = T -> stands_for (put_at m a b) (put_at S a T).
Proof. intros Hm Hb HT n. unfold put_at. by destruct (decide (n = a)). Qed.

(** One command: both sides end alike, or go on with equal answers. *)
Definition agree (r : result ((nat -> BV) * answer)) (r' : result ((nat -> gset Z) * answer)) : Prop :=
  match r, r' with
  | Ok (m, x), Ok (M, y) => x = y /\ stands_for m M
  | Die d, Die d' => d = d'
  | _, _ => False
  end.

Lemma flagged_agree (m : nat -> BV) (S : nat -> gset Z) (a : nat) (r : result (BV * bool)) (T : gset Z) :
  stands_for m S -> updates bits wf (m a) r T -> agree (flagged m a r) (set_to S a T).
Proof.
  intros Hm (b & -> & Hb & HT). unfold flagged, set_to. step. destruct (Hm a) as [_ <-].
  split; [done |]. by apply put_at_stands.
Qed.

Lemma run_command_agree (m : nat -> BV) (S : nat -> gset Z) (c : command) :
  stands_for m S -> command_ok c -> agree (run_command m c) (run_set (kSize (BV := BV)) S c).
Proof.
  intros Hm Hc. pose proof (fun n => proj1 (Hm n)) as Hw. pose proof (fun n => proj2 (Hm n)) as HS.
  destruct c as [a | a | a | a i | a i | a i | a | a v | a v | a v | a v | a v]; cbn [run_command run_set command_ok] in *;
    rewrite <- ?(HS a), <- ?(HS v); unfold in_bounds; try (destruct (Z.ltb_spec i (kSize (BV := BV)))).
  - destruct (clear_spec (m a)). split; [done |]. by apply put_at_stands.
  - destruct (setAll_spec (m a)). split; [done |]. by apply put_at_stands.
  - rewrite empty_spec by done. done.
  - apply flagged_agree; [done |]. by apply setBit_spec.
  - by rewrite setBit_range.
  - apply flagged_agree; [done |]. by apply clearBit_spec.
  - by rewrite clearBit_range.
  - by rewrite getBit_spec.
  - by rewrite getBit_range.
  - pose proof (set_min_spec (bits (m a))) as Hmin. destruct (set_min (bits (m a))) as [i |].
    + destruct (first_spec (m a) (Hw a)) as (b & k & -> & Hb & Hbits & Hk & Hlow); [set_solver |]. step.
      assert (k = i) as -> by (destruct Hmin as [H1 H2]; specialize (H2 k Hk); specialize (Hlow i H1); lia).
      split; [done |]. by apply put_at_stands.
    + by rewrite first_empty.
  - apply flagged_agree; [done |]. by apply setUnion_spec.
  - apply flagged_agree; [done |]. by apply setIntersection_spec.
  - apply flagged_agree; [done |]. by apply setDifference_spec.
  - destruct (copyFrom_spec (m a) (m v) (Hw v)) as (b & -> & Hb & Hbits). step. split; [done |]. by apply put_at_stands.
  - by rewrite intersectsWith_spec.
Qed.

Lemma run_all_agree (cs : list command) (m : nat -> BV) (S : nat -> gset Z) :
  stands_for m S -> Forall command_ok cs ->
  run_all run_command m cs = run_all (run_set (kSize (BV := BV))) S cs.
Proof.
  revert m S. induction cs as [| c cs IH]; intros m S Hm Hc; [done |]. apply Forall_cons in Hc as [Hc Hcs].
  cbn [run_all]. pose proof (run_command_agree m S c Hm Hc) as Ha.
  destruct (run_command m c) as [[m' x] | d], (run_set _ S c) as [[S' y] | d']; try done; cbn in Ha.
  - destruct Ha as [-> Hm']. step. by rewrite (IH m' S' Hm' Hcs).
  - by subst.
Qed.
End sets.

(** ** BasicBitVector *)

Section basic.
(** [basic_int_t] has [w] bits. *)
Context (w : Z).

Definition BasicBitVector : Type := Z.

Definition basic_mask (idx : Z) : result Z :=
  _ ← check (idx <? w);
  Ok (Z.shiftl 1 idx).
Definition basic_not (x : Z) : Z := 2 ^ w - 1 - x.

Definition basic_clear (b : BasicBitVector) : BasicBitVector := 0.
Definition basic_setAll (b : BasicBitVector) : BasicBitVector := basic_not 0.
Definition basic_empty (b : BasicBitVector) : bool := b =? 0.
(** Each operation stores the new bits and returns [bits_ != old]. *)
Definition basic_update (old bits_ : BasicBitVector) : BasicBitVector * bool := (bits_, negb (bits_ =? old)).
Definition basic_setBit (b : BasicBitVector) (idx : Z) : result (BasicBitVector * bool) :=
  m ← basic_mask idx; Ok (basic_update b (Z.lor b m)).
Definition basic_clearBit (b : BasicBitVector) (idx : Z) : result (BasicBitVector * bool) :=
  m ← basic_mask idx; Ok (basic_update b (Z.land b (basic_not m))).
Definition basic_getBit (b : BasicBitVector) (idx : Z) : result bool :=
  m ← basic_mask idx; Ok (negb (Z.land b m =? 0)).
Definition basic_getAndClearFirstOne (b : BasicBitVector) : result (BasicBitVector * Z) :=
  _ ← check (negb (basic_empty b));
  idx ← LeastSignificantSetBitIndex b;
  '(b, _) ← basic_clearBit b idx;
  Ok (b, idx).
Definition basic_setUnion (b v : BasicBitVector) : BasicBitVector * bool := basic_update b (Z.lor b v).
Definition basic_setIntersection (b v : BasicBitVector) : BasicBitVector * bool := basic_update b (Z.land b v).
Definition basic_setDifference (b v : BasicBitVector) : BasicBitVector * bool :=
  basic_update b (Z.land b (basic_not v)).
Definition basic_copyFrom (b v : BasicBitVector) : BasicBitVector := v.
Definition basic_intersectsWith (b v : BasicBitVector) : bool := negb (Z.land b v =? 0).

Instance basic_bit_vector : BitVector BasicBitVector := {|
  kSize := w; clear := basic_clear; setAll := basic_setAll; empty := basic_empty;
  setBit := basic_setBit; clearBit := basic_clearBit; getBit := basic_getBit;
  getAndClearFirstOne := basic_getAndClearFirstOne;
  setUnion b v := Ok (basic_setUnion b v); setIntersection b v := Ok (basic_setIntersection b v);
  setDifference b v := Ok (basic_setDifference b v); copyFrom b v := Ok (basic_copyFrom b v);
  intersectsWith b v := Ok (basic_intersectsWith b v) |}.

(** [BasicBitVector::Iterator] empties a copy of the vector. *)
Instance basic_iterator : BVIterator BasicBitVector := {|
  Iterator := BasicBitVector;
  iter_begin b := b;
  hasNext b := negb (basic_empty b);
  next := basic_getAndClearFirstOne |}.

Context (Hw : 0 < w <= 64).

Definition basic_wf (b : BasicBitVector) : Prop := 0 <= b < 2 ^ w.
Definition basic_bits (b : BasicBitVector) : gset Z :=
  list_to_set (base.filter (fun i => Z.testbit b i = true) (seqZ 0 w)).

Lemma elem_of_basic_bits (b i : Z) : i ∈ basic_bits b <-> 0 <= i < w /\ Z.testbit b i = true.
Proof. unfold basic_bits. rewrite elem_of_list_to_set, list_elem_of_filter, elem_of_seqZ. intuition lia. Qed.

Lemma basic_wf_bits (b : Z) : 0 <= b -> (forall i, w <= i -> Z.testbit b i = false) -> basic_wf b.
Proof.
  intros Hb Hi. split; [done |]. destruct (decide (b = 0)) as [-> |]; [lia |].
  apply Z.log2_lt_pow2; [lia |]. destruct (Z.lt_ge_cases (Z.log2 b) w) as [| Hge]; [done |].
  specialize (Hi (Z.log2 b) Hge). rewrite Z.bit_log2 in Hi by lia. done.
Qed.

Lemma basic_high (b i : Z) : basic_wf b -> w <= i -> Z.testbit b i = false.
Proof. intros Hb Hi. by apply (testbit_high b i w). Qed.

Lemma basic_bits_inj (a b : Z) : basic_wf a -> basic_wf b -> basic_bits a = basic_bits b -> a = b.
Proof.
  intros Ha Hb He. apply Z.bits_inj'. intros i Hi. destruct (decide (i < w)).
  - pose proof (elem_of_basic_bits a i) as Ea. pose proof (elem_of_basic_bits b i) as Eb. rewrite He in Ea.
    destruct (Z.testbit a i), (Z.testbit b i); intuition congruence.
  - by rewrite !basic_high by (done || lia).
Qed.

Lemma basic_zero (b : Z) : basic_wf b -> b = 0 <-> basic_bits b = ∅.
Proof.
  intros Hb. split.
  - intros ->. apply set_eq. intros i. rewrite elem_of_basic_bits, Z.bits_0. set_solver.
  - intros He. apply basic_bits_inj; [done | split; lia |]. rewrite He. symmetry. apply set_eq.
    intros i. rewrite elem_of_basic_bits, Z.bits_0. set_solver.
Qed.

(** The returned flag is right when the new word stands for the new set. *)
Lemma basic_update_spec (old b : Z) (S : gset Z) :
  basic_wf old -> basic_wf b -> basic_bits b = S ->
  updates basic_bits basic_wf old (Ok (basic_update old b)) S.
Proof.
  intros Ho Hb <-. exists b. split; [| done]. unfold basic_update. do 2 f_equal.
  case_bool_decide as Hd; destruct (Z.eqb_spec b old) as [-> | Hne]; cbn; try done.
  by destruct Hne; apply basic_bits_inj.
Qed.

Lemma basic_mask_spec (i : Z) : 0 <= i < w ->
  basic_mask i = Ok (2 ^ i) /\ forall j, 0 <= j -> Z.testbit (2 ^ i) j = bool_decide (j = i).
Proof.
  intros Hi. unfold basic_mask. rewrite check_true by (apply Z.ltb_lt; lia). step.
  rewrite Z.shiftl_1_l. split; [done |]. intros j Hj. case_bool_decide as Hd.
  - subst. apply Z.pow2_bits_true. lia.
  - apply Z.pow2_bits_false. lia.
Qed.

Lemma testbit_basic_not (x j : Z) : basic_wf x -> 0 <= j -> Z.testbit (basic_not x) j = (j <? w) && negb (Z.testbit x j).
Proof.
  intros Hx Hj. unfold basic_not.
  assert (He : 2 ^ w - 1 - x = Z.ldiff (Z.ones w) x).
  { rewrite <- Z.sub_nocarry_ldiff; [rewrite Z.ones_equiv; lia |].
    apply Z.bits_inj'. intros i Hi. rewrite Z.ldiff_spec, Z.bits_0, Z.testbit_ones by lia.
    rewrite (proj2 (Z.leb_le 0 i)) by done.
    destruct (Z.ltb_spec i w); [by destruct (Z.testbit x i) |].
    by rewrite basic_high by (done || lia). }
  rewrite He, Z.ldiff_spec, Z.testbit_ones by lia. by rewrite (proj2 (Z.leb_le 0 j)) by done.
Qed.

Lemma basic_not_nonneg (x : Z) : basic_wf x -> 0 <= basic_not x.
Proof. unfold basic_wf, basic_not. lia. Qed.

(** The bits of the result decide both well-formedness and the set. *)
Lemma basic_result (b : Z) (S : gset Z) (P : Z -> bool) : 0 <= b ->
  (forall j, 0 <= j -> Z.testbit b j = P j) -> (forall j, w <= j -> P j = false) ->
  (forall j, j ∈ S <-> 0 <= j < w /\ P j = true) -> basic_wf b /\ basic_bits b = S.
Proof.
  intros Hb Ht Hh HS. split.
  - apply basic_wf_bits; [done |]. intros j Hj. rewrite Ht by lia. by apply Hh.
  - apply set_eq. intros j. rewrite elem_of_basic_bits, HS. split; intros [H1 H2]; (split; [done |]);
      [by rewrite <- Ht by lia | by rewrite Ht by lia].
Qed.

Ltac basic_bits_tac :=
  intros j; rewrite ?elem_of_union, ?elem_of_intersection, ?elem_of_difference, ?elem_of_singleton,
    ?elem_of_basic_bits, ?orb_true_iff, ?andb_true_iff, ?negb_true_iff, ?bool_decide_eq_true, ?bool_decide_eq_false;
  repeat match goal with |- context [Z.testbit ?x ?y] => destruct (Z.testbit x y) end;
  try (intuition (congruence || lia)).

Lemma basic_lor (b v : Z) : basic_wf b -> basic_wf v ->
  basic_wf (Z.lor b v) /\ basic_bits (Z.lor b v) = basic_bits b ∪ basic_bits v.
Proof.
  intros Hb Hv. apply (basic_result _ _ (fun j => Z.testbit b j || Z.testbit v j)).
  - apply Z.lor_nonneg. split; [apply Hb | apply Hv].
  - intros j Hj. apply Z.lor_spec.
  - intros j Hj. by rewrite !basic_high.
  - basic_bits_tac.
Qed.

Lemma basic_land (b v : Z) : basic_wf b -> basic_wf v ->
  basic_wf (Z.land b v) /\ basic_bits (Z.land b v) = basic_bits b ∩ basic_bits v.
Proof.
  intros Hb Hv. apply (basic_result _ _ (fun j => Z.testbit b j && Z.testbit v j)).
  - apply Z.land_nonneg. left. apply Hb.
  - intros j Hj. apply Z.land_spec.
  - intros j Hj. by rewrite !basic_high.
  - basic_bits_tac.
Qed.

Lemma basic_andnot (b v : Z) : basic_wf b -> basic_wf v ->
  basic_wf (Z.land b (basic_not v)) /\ basic_bits (Z.land b (basic_not v)) = basic_bits b ∖ basic_bits v.
Proof.
  intros Hb Hv. apply (basic_result _ _ (fun j => Z.testbit b j && ((j <? w) && negb (Z.testbit v j)))).
  - apply Z.land_nonneg. left. apply Hb.
  - intros j Hj. by rewrite Z.land_spec, testbit_basic_not.
  - intros j Hj. by rewrite basic_high.
  - intros j. rewrite elem_of_difference, !elem_of_basic_bits.
    destruct (Z.ltb_spec j w), (Z.testbit b j), (Z.testbit v j); cbn; intuition (congruence || lia).
Qed.

Lemma basic_singleton (i : Z) : 0 <= i < w -> basic_wf (2 ^ i) /\ basic_bits (2 ^ i) = {[i]}.
Proof.
  intros Hi. destruct (basic_mask_spec i Hi) as [_ Hm].
  apply (basic_result _ _ (fun j => bool_decide (j = i))).
  - lia.
  - apply Hm.
  - intros j Hj. apply bool_decide_eq_false. lia.
  - intros j. rewrite elem_of_singleton, bool_decide_eq_true. lia.
Qed.

Lemma basic_full : basic_wf (basic_not 0) /\ basic_bits (basic_not 0) = range_set w.
Proof.
  apply (basic_result _ _ (fun j => j <? w)).
  - unfold basic_not. lia.
  - intros j Hj. rewrite testbit_basic_not by (done || (split; lia)). by rewrite Z.bits_0, andb_true_r.
  - intros j Hj. apply Z.ltb_ge. lia.
  - intros j. rewrite elem_of_range_set, Z.ltb_lt. lia.
Qed.

Lemma basic_first (b : Z) : basic_wf b -> basic_bits b <> ∅ ->
  exists b' i, basic_getAndClearFirstOne b = Ok (b', i) /\ basic_wf b' /\
    basic_bits b' = basic_bits b ∖ {[i]} /\ i ∈ basic_bits b /\ forall j, j ∈ basic_bits b -> i <= j.
Proof.
  intros Hb He. assert (Hnz : b <> 0) by (by rewrite basic_zero).
  assert (Hu : is_uptr b).
  { split; [apply Hb |]. rewrite word_modulus_pow. apply (Z.lt_le_trans _ (2 ^ w)); [apply Hb |].
    apply Z.pow_le_mono_r; lia. }
  unfold basic_getAndClearFirstOne, basic_empty. rewrite (proj2 (Z.eqb_neq _ _)) by done. cbn [negb]. step.
  destruct (LeastSignificantSetBitIndex b) as [i | d] eqn:Hl.
  2: { unfold LeastSignificantSetBitIndex in Hl. rewrite (proj2 (Z.eqb_neq _ _)) in Hl by done. done. }
  apply LeastSignificantSetBitIndex_spec in Hl as (Hi & Ht & Hlow); [| done].
  assert (Hin : i ∈ basic_bits b).
  { apply elem_of_basic_bits. split; [| done]. destruct (decide (i < w)); [lia |].
    rewrite basic_high in Ht by (done || lia). done. }
  pose proof (proj1 (elem_of_basic_bits b i) Hin) as [Hiw _].
  destruct (basic_mask_spec i Hiw) as [Hm _]. destruct (basic_singleton i Hiw) as [Hs1 Hs2].
  destruct (basic_andnot b (2 ^ i) Hb Hs1) as [Ha1 Ha2].
  step. unfold basic_clearBit. rewrite Hm. step. unfold basic_update.
  exists (Z.land b (basic_not (2 ^ i))), i. split_and!; [done | done | by rewrite Ha2, Hs2 | done |].
  intros j [Hj Hjt]%elem_of_basic_bits. destruct (decide (i <= j)); [done |].
  rewrite Hlow in Hjt by lia. done.
Qed.

#[export] Instance basic_spec : BitVectorSpec BasicBitVector.
Proof.
  refine {| bits := basic_bits; wf := basic_wf |}; cbn [kSize clear setAll empty setBit clearBit getBit
    getAndClearFirstOne setUnion setIntersection setDifference copyFrom intersectsWith basic_bit_vector].
  - lia.
  - intros b i _ Hi. apply elem_of_basic_bits in Hi. tauto.
  - intros b0. unfold basic_clear. assert (Hz : basic_wf 0) by (split; lia). split; [done |]. by apply basic_zero.
  - intros b0. apply basic_full.
  - intros b Hb. unfold basic_empty. case_bool_decide as He; [| apply Z.eqb_neq]; [apply Z.eqb_eq |]; by rewrite basic_zero.
  - intros b i Hb Hi. unfold basic_setBit. destruct (basic_mask_spec i Hi) as [-> _]. step.
    destruct (basic_singleton i Hi) as [H1 H2]. destruct (basic_lor b (2 ^ i) Hb H1) as [L1 L2].
    apply basic_update_spec; [done | done |]. rewrite L2, H2. set_solver.
  - intros b i Hb Hi. unfold basic_clearBit. destruct (basic_mask_spec i Hi) as [-> _]. step.
    destruct (basic_singleton i Hi) as [H1 H2]. destruct (basic_andnot b (2 ^ i) Hb H1) as [L1 L2].
    apply basic_update_spec; [done | done |]. by rewrite L2, H2.
  - intros b i Hb Hi. unfold basic_getBit. destruct (basic_mask_spec i Hi) as [-> _]. step. f_equal.
    destruct (basic_singleton i Hi) as [H1 H2]. destruct (basic_land b (2 ^ i) Hb H1) as [L1 L2].
    case_bool_decide as Hd.
    + apply negb_true_iff, Z.eqb_neq. rewrite basic_zero, L2, H2 by done. set_solver.
    + apply negb_false_iff, Z.eqb_eq. rewrite basic_zero, L2, H2 by done. set_solver.
  - intros b i Hi. unfold basic_setBit, basic_mask. rewrite (proj2 (Z.ltb_ge _ _)) by lia. done.
  - intros b i Hi. unfold basic_clearBit, basic_mask. rewrite (proj2 (Z.ltb_ge _ _)) by lia. done.
  - intros b i Hi. unfold basic_getBit, basic_mask. rewrite (proj2 (Z.ltb_ge _ _)) by lia. done.
  - intros b Hb He. unfold basic_getAndClearFirstOne, basic_empty.
    by rewrite (proj2 (Z.eqb_eq _ _)) by (by apply basic_zero).
  - apply basic_first.
  - intros b v Hb Hv. destruct (basic_lor b v Hb Hv). by apply basic_update_spec.
  - intros b v Hb Hv. destruct (basic_land b v Hb Hv). by apply basic_update_spec.
  - intros b v Hb Hv. destruct (basic_andnot b v Hb Hv). by apply basic_update_spec.
  - intros b v Hv. by exists v.
  - intros b v Hb Hv. unfold basic_intersectsWith. f_equal. destruct (basic_land b v Hb Hv) as [L1 L2].
    case_bool_decide as Hd; [apply negb_true_iff, Z.eqb_neq | apply negb_false_iff, Z.eqb_eq];
      by rewrite basic_zero, L2 by done.
Defined.

#[export] Instance basic_iterator_spec : BVIteratorSpec BasicBitVector.
Proof.
  refine {| remaining := (basic_bits : Iterator -> gset Z); iter_wf := (basic_wf : Iterator -> Prop) |};
    cbn [hasNext next iter_begin basic_iterator].
  - intros b Hb. done.
  - intros it Hit. unfold basic_empty. case_bool_decide as He;
      [apply negb_true_iff, Z.eqb_neq | apply negb_false_iff, Z.eqb_eq]; by rewrite basic_zero by done.
  - intros it Hit He. destruct (basic_first it Hit He) as (b' & i & H1 & H2 & H3 & H4 & _). by exists b', i.
Defined.
End basic.
