(* ===== verification/TwoLevel.v ===== *)
(** * Two-level bit vectors: TwoLevelBitVector of sanitizer_bitvector.h

    A first level of [kLevel1Size] vectors says which vectors of the second
    level are in use; the others hold garbage.  The vectors of both levels are
    any implementation of [BitVector] that meets its contract, and the two
    levels together are shown to meet it again. *)

From S2P Require Import Prelude Words BitVector.

Section two_level.
Context {BV : Type} `{HBV : BitVector BV} (kLevel1Size : Z).

(** The arrays [l1_] and [l2_]: indices outside them are excluded by the
    checks of [idx0] and [idx1]. *)
Record TwoLevelBitVector : Type := TwoLevel { l1_ : Z -> BV; l2_ : Z -> Z -> BV }.

Definition set_l1 (s : TwoLevelBitVector) (i0 : Z) (b : BV) : TwoLevelBitVector :=
  TwoLevel (fun j => if j =? i0 then b else l1_ s j) (l2_ s).
Definition set_l2 (s : TwoLevelBitVector) (i0 i1 : Z) (b : BV) : TwoLevelBitVector :=
  TwoLevel (l1_ s) (fun j0 j1 => if (j0 =? i0) && (j1 =? i1) then b else l2_ s j0 j1).

Abbreviation K := (kSize (BV := BV)).
Definition rows : list Z := seqZ 0 kLevel1Size.

Definition two_size : Z := K * K * kLevel1Size.
Definition two_check (idx : Z) : result unit := check (idx <? two_size).
Definition idx0 (idx : Z) : result Z :=
  let res := idx / (K * K) in
  _ ← check (res <? kLevel1Size);
  Ok res.
Definition idx1 (idx : Z) : result Z :=
  let res := (idx / K) mod K in
  _ ← check (res <? K);
  Ok res.
Definition idx2 (idx : Z) : result Z :=
  let res := idx mod K in
  _ ← check (res <? K);
  Ok res.

Definition two_clear (s : TwoLevelBitVector) : TwoLevelBitVector :=
  foldl (fun s i => set_l1 s i (clear (l1_ s i))) s rows.

Definition two_setAll (s : TwoLevelBitVector) : TwoLevelBitVector :=
  foldl (fun s i0 =>
    foldl (fun s i1 => set_l2 s i0 i1 (setAll (l2_ s i0 i1)))
      (set_l1 s i0 (setAll (l1_ s i0))) (seqZ 0 K)) s rows.

Definition two_empty (s : TwoLevelBitVector) : bool :=
  forallb (fun i => empty (l1_ s i)) rows.

Definition two_setBit (s : TwoLevelBitVector) (idx : Z) : result (TwoLevelBitVector * bool) :=
  _ ← two_check idx;
  i0 ← idx0 idx;
  i1 ← idx1 idx;
  i2 ← idx2 idx;
  g ← getBit (l1_ s i0) i1;
  s ← (if negb g then
         '(b, _) ← setBit (l1_ s i0) i1;
         Ok (set_l2 (set_l1 s i0 b) i0 i1 (clear (l2_ s i0 i1)))
       else Ok s);
  '(b, res) ← setBit (l2_ s i0 i1) i2;
  Ok (set_l2 s i0 i1 b, res).

(** [if (l2_[i0][i1].empty()) l1_[i0].clearBit(i1);] *)
Definition drop_if_empty (s : TwoLevelBitVector) (i0 i1 : Z) : result TwoLevelBitVector :=
  if empty (l2_ s i0 i1) then '(b, _) ← clearBit (l1_ s i0) i1; Ok (set_l1 s i0 b) else Ok s.

Definition two_clearBit (s : TwoLevelBitVector) (idx : Z) : result (TwoLevelBitVector * bool) :=
  _ ← two_check idx;
  i0 ← idx0 idx;
  i1 ← idx1 idx;
  i2 ← idx2 idx;
  g ← getBit (l1_ s i0) i1;
  if g : bool then
    '(b, res) ← clearBit (l2_ s i0 i1) i2;
    s ← drop_if_empty (set_l2 s i0 i1 b) i0 i1;
    Ok (s, res)
  else Ok (s, false).

Definition two_getBit (s : TwoLevelBitVector) (idx : Z) : result bool :=
  _ ← two_check idx;
  i0 ← idx0 idx;
  i1 ← idx1 idx;
  i2 ← idx2 idx;
  g ← getBit (l1_ s i0) i1;
  if g : bool then getBit (l2_ s i0 i1) i2 else Ok false.

Fixpoint two_first_loop (s : TwoLevelBitVector) (is0 : list Z) : result (TwoLevelBitVector * Z) :=
  match is0 with
  | [] => Die CheckFailed
  | i0 :: is0' =>
      if empty (l1_ s i0) then two_first_loop s is0'
      else
        '(b1, i1) ← getAndClearFirstOne (l1_ s i0);
        let s := set_l1 s i0 b1 in
        '(b2, i2) ← getAndClearFirstOne (l2_ s i0 i1);
        let s := set_l2 s i0 i1 b2 in
        s ← (if negb (empty (l2_ s i0 i1)) then
               '(b, _) ← setBit (l1_ s i0) i1; Ok (set_l1 s i0 b)
             else Ok s);
        Ok (s, i0 * K * K + i1 * K + i2)
  end.
Definition two_getAndClearFirstOne (s : TwoLevelBitVector) : result (TwoLevelBitVector * Z) :=
  two_first_loop s rows.

(** The loops of the set operations carry the vector and [res]. *)
Definition union_cell (v : TwoLevelBitVector) (i0 : Z) (st : TwoLevelBitVector * bool) (i1 : Z)
  : result (TwoLevelBitVector * bool) :=
  let '(s, res) := st in
  '(b, added) ← setBit (l1_ s i0) i1;
  let s := set_l1 s i0 b in
  let s := if added : bool then set_l2 s i0 i1 (clear (l2_ s i0 i1)) else s in
  '(b, changed) ← setUnion (l2_ s i0 i1) (l2_ v i0 i1);
  Ok (set_l2 s i0 i1 b, res || changed).
Definition union_row (v : TwoLevelBitVector) (st : TwoLevelBitVector * bool) (i0 : Z)
  : result (TwoLevelBitVector * bool) :=
  drain (union_cell v i0) (l1_ v i0) st drain_fuel.
Definition two_setUnion (s v : TwoLevelBitVector) : result (TwoLevelBitVector * bool) :=
  for_each (union_row v) (s, false) rows.

Definition intersection_cell (v : TwoLevelBitVector) (i0 : Z) (st : TwoLevelBitVector * bool) (i1 : Z)
  : result (TwoLevelBitVector * bool) :=
  let '(s, res) := st in
  '(b, changed) ← setIntersection (l2_ s i0 i1) (l2_ v i0 i1);
  s ← drop_if_empty (set_l2 s i0 i1 b) i0 i1;
  Ok (s, res || changed).
Definition intersection_row (v : TwoLevelBitVector) (st : TwoLevelBitVector * bool) (i0 : Z)
  : result (TwoLevelBitVector * bool) :=
  let '(s, res) := st in
  '(b, changed) ← setIntersection (l1_ s i0) (l1_ v i0);
  let s := set_l1 s i0 b in
  let res := res || changed in
  if negb (empty (l1_ s i0)) then drain (intersection_cell v i0) (l1_ s i0) (s, res) drain_fuel
  else Ok (s, res).
Definition two_setIntersection (s v : TwoLevelBitVector) : result (TwoLevelBitVector * bool) :=
  for_each (intersection_row v) (s, false) rows.

Definition difference_cell (v : TwoLevelBitVector) (i0 : Z) (st : TwoLevelBitVector * bool) (i1 : Z)
  : result (TwoLevelBitVector * bool) :=
  let '(s, res) := st in
  '(b, changed) ← setDifference (l2_ s i0 i1) (l2_ v i0 i1);
  s ← drop_if_empty (set_l2 s i0 i1 b) i0 i1;
  Ok (s, res || changed).
Definition difference_row (v : TwoLevelBitVector) (st : TwoLevelBitVector * bool) (i0 : Z)
  : result (TwoLevelBitVector * bool) :=
  let '(s, res) := st in
  '(t, _) ← setIntersection (l1_ s i0) (l1_ v i0);
  drain (difference_cell v i0) t (s, res) drain_fuel.
Definition two_setDifference (s v : TwoLevelBitVector) : result (TwoLevelBitVector * bool) :=
  for_each (difference_row v) (s, false) rows.

Definition two_copyFrom (s v : TwoLevelBitVector) : result TwoLevelBitVector :=
  '(s, _) ← two_setUnion (two_clear s) v;
  Ok s.

Fixpoint intersects_loop (s v : TwoLevelBitVector) (i0 : Z) (t : BV) (fuel : nat) : result bool :=
  match fuel with
  | O => Die OutOfFuel
  | S fuel' =>
      if empty t then Ok false
      else
        '(t, i1) ← getAndClearFirstOne t;
        g ← getBit (l1_ v i0) i1;
        if negb g then intersects_loop s v i0 t fuel'
        else
          r ← intersectsWith (l2_ s i0 i1) (l2_ v i0 i1);
          if r : bool then Ok true else intersects_loop s v i0 t fuel'
  end.
Fixpoint intersects_rows (s v : TwoLevelBitVector) (is0 : list Z) : result bool :=
  match is0 with
  | [] => Ok false
  | i0 :: is0' =>
      '(t, _) ← setIntersection (l1_ s i0) (l1_ v i0);
      r ← intersects_loop s v i0 t drain_fuel;
      if r : bool then Ok true else intersects_rows s v is0'
  end.
Definition two_intersectsWith (s v : TwoLevelBitVector) : result bool := intersects_rows s v rows.

#[export] Instance two_level : BitVector TwoLevelBitVector := {|
  kSize := two_size; clear := two_clear; setAll := two_setAll; empty := two_empty;
  setBit := two_setBit; clearBit := two_clearBit; getBit := two_getBit;
  getAndClearFirstOne := two_getAndClearFirstOne; setUnion := two_setUnion;
  setIntersection := two_setIntersection; setDifference := two_setDifference;
  copyFrom := two_copyFrom; intersectsWith := two_intersectsWith |}.

(** ** The iterator *)
Context `{HIT : !BVIterator BV}.

Record TwoLevelIterator : Type := TwoIter {
  bv_ : TwoLevelBitVector; i0_ : Z; i1_ : Z; it1_ : Iterator; it2_ : Iterator
}.

(** [it1_.clear()] and [it2_.clear()] leave iterators with nothing to yield;
    [i0_] and [i1_] are zero. *)
Definition two_begin (cleared : Iterator) (bv : TwoLevelBitVector) : TwoLevelIterator :=
  TwoIter bv 0 0 cleared cleared.

Definition two_hasNext (it : TwoLevelIterator) : bool :=
  if hasNext (it1_ it) then true
  else existsb (fun i => negb (empty (l1_ (bv_ it) i))) (seqZ (i0_ it) (kLevel1Size - i0_ it)).

(** [for (; i0_ < kLevel1Size; i0_++) { ... break; }] *)
Fixpoint find_row (it : TwoLevelIterator) (k : nat) : TwoLevelIterator :=
  match k with
  | O => it
  | S k' =>
      if i0_ it <? kLevel1Size then
        if empty (l1_ (bv_ it) (i0_ it)) then
          find_row (TwoIter (bv_ it) (i0_ it + 1) (i1_ it) (it1_ it) (it2_ it)) k'
        else TwoIter (bv_ it) (i0_ it) (i1_ it) (iter_begin (l1_ (bv_ it) (i0_ it))) (it2_ it)
      else it
  end.

Definition two_next (it : TwoLevelIterator) : result (TwoLevelIterator * Z) :=
  let it := if negb (hasNext (it1_ it)) && negb (hasNext (it2_ it))
            then find_row it (Z.to_nat (kLevel1Size - i0_ it)) else it in
  it ← (if negb (hasNext (it2_ it)) then
          _ ← check (hasNext (it1_ it));
          '(it1, i1) ← next (it1_ it);
          Ok (TwoIter (bv_ it) (i0_ it) i1 it1 (iter_begin (l2_ (bv_ it) (i0_ it) i1)))
        else Ok it);
  _ ← check (hasNext (it2_ it));
  '(it2, i2) ← next (it2_ it);
  let it := TwoIter (bv_ it) (i0_ it) (i1_ it) (it1_ it) it2 in
  let res := i0_ it * K * K + i1_ it * K + i2 in
  Ok (if negb (hasNext (it1_ it)) && negb (hasNext (it2_ it))
      then TwoIter (bv_ it) (i0_ it + 1) (i1_ it) (it1_ it) (it2_ it) else it, res).
End two_level.
