(* ===== verification/TwoLevelSpecs.v ===== *)
(** * The two-level bit vector meets the contract

    Everything is stated on cells: the set that the second level holds at
    [(i0, i1)] when the first level says so, the empty set otherwise. *)

From S2P Require Import Prelude Words BitVector TwoLevel.

Section specs.
Context {BV : Type} `{HB : BitVectorSpec BV} (L : Z) (HL : 0 < L).

Abbreviation K := (kSize (BV := BV)).
Abbreviation TLV := (TwoLevelBitVector (BV := BV)).

Definition cell (s : TLV) (i0 i1 : Z) : gset Z :=
  if decide (i1 ∈ bits (l1_ s i0)) then bits (l2_ s i0 i1) else ∅.

(** The first level is exact: its bits are the non-empty cells. *)
Definition row_wf (s : TLV) (i0 : Z) : Prop :=
  wf (l1_ s i0) /\ forall i1, i1 ∈ bits (l1_ s i0) -> wf (l2_ s i0 i1) /\ bits (l2_ s i0 i1) <> ∅.
Definition two_wf (s : TLV) : Prop := forall i0, 0 <= i0 < L -> row_wf s i0.

Definition two_bits (s : TLV) : gset Z :=
  list_to_set (base.filter (fun idx => idx mod K ∈ cell s (idx / (K * K)) ((idx / K) mod K))
    (seqZ 0 (two_size (BV := BV) L))).

(** ** Coordinates *)

Lemma K_pos : 0 < K.
Proof. apply kSize_pos. Qed.

Definition join (i0 i1 i2 : Z) : Z := i0 * K * K + i1 * K + i2.

Lemma join_split (i0 i1 i2 : Z) : 0 <= i1 < K -> 0 <= i2 < K ->
  join i0 i1 i2 / (K * K) = i0 /\ (join i0 i1 i2 / K) mod K = i1 /\ join i0 i1 i2 mod K = i2.
Proof.
  pose proof K_pos as HK. intros H1 H2. unfold join. split_and!.
  - symmetry. apply (Z.div_unique _ _ _ (i1 * K + i2)); [left; nia | lia].
  - replace (i0 * K * K + i1 * K + i2) with (i2 + (i0 * K + i1) * K) by lia.
    rewrite Z.div_add, (Z.div_small i2), Z.add_0_l by lia.
    replace (i0 * K + i1) with (i1 + i0 * K) by lia. rewrite Z.mod_add by lia. by apply Z.mod_small.
  - replace (i0 * K * K + i1 * K + i2) with (i2 + (i0 * K + i1) * K) by lia.
    rewrite Z.mod_add by lia. by apply Z.mod_small.
Qed.

Lemma split_join (idx : Z) : idx = join (idx / (K * K)) ((idx / K) mod K) (idx mod K).
Proof.
  pose proof K_pos as HK. unfold join. rewrite <- Z.div_div by lia.
  pose proof (Z.div_mod idx K). pose proof (Z.div_mod (idx / K) K). nia.
Qed.

Lemma split_range (idx : Z) : 0 <= idx < two_size (BV := BV) L ->
  0 <= idx / (K * K) < L /\ 0 <= (idx / K) mod K < K /\ 0 <= idx mod K < K.
Proof.
  pose proof K_pos as HK. unfold two_size. intros Hi.
  split_and!; try (apply Z.mod_pos_bound; lia).
  - apply Z.div_pos; nia.
  - apply Z.div_lt_upper_bound; nia.
Qed.

Lemma join_range (i0 i1 i2 : Z) : 0 <= i0 < L -> 0 <= i1 < K -> 0 <= i2 < K ->
  0 <= join i0 i1 i2 < two_size (BV := BV) L.
Proof.
  unfold join, two_size. intros H0 H1 H2. split; [nia |].
  assert (i1 * K + i2 < K * K) by nia. assert ((i0 + 1) * (K * K) <= L * (K * K)) by nia. nia.
Qed.

Lemma cell_range (s : TLV) (i0 i1 i2 : Z) : two_wf s -> 0 <= i0 < L -> i2 ∈ cell s i0 i1 ->
  0 <= i1 < K /\ 0 <= i2 < K.
Proof.
  intros Hs H0. unfold cell. destruct (decide _) as [H1 | H1]; [| set_solver]. intros H2.
  destruct (Hs i0 H0) as [Hr Hc]. split; [by apply (bits_range (l1_ s i0)) |].
  apply (bits_range (l2_ s i0 i1)); [by apply Hc | done].
Qed.

Lemma elem_of_two_bits (s : TLV) (idx : Z) : idx ∈ two_bits s <->
  0 <= idx < two_size (BV := BV) L /\ idx mod K ∈ cell s (idx / (K * K)) ((idx / K) mod K).
Proof.
  unfold two_bits. rewrite elem_of_list_to_set, list_elem_of_filter, elem_of_seqZ. intuition lia.
Qed.

Lemma elem_of_join (s : TLV) (i0 i1 i2 : Z) : 0 <= i0 < L -> 0 <= i1 < K -> 0 <= i2 < K ->
  join i0 i1 i2 ∈ two_bits s <-> i2 ∈ cell s i0 i1.
Proof.
  intros H0 H1 H2. rewrite elem_of_two_bits. destruct (join_split i0 i1 i2 H1 H2) as (-> & -> & ->).
  pose proof (join_range i0 i1 i2 H0 H1 H2). tauto.
Qed.

(** A vector is known by its cells. *)
Lemma two_bits_cells (s : TLV) (S : gset Z) : two_wf s ->
  (forall idx, idx ∈ S -> 0 <= idx < two_size (BV := BV) L) ->
  (forall i0 i1 i2, 0 <= i0 < L -> 0 <= i1 < K -> 0 <= i2 < K -> i2 ∈ cell s i0 i1 <-> join i0 i1 i2 ∈ S) ->
  two_bits s = S.
Proof.
  intros Hs HS Hc. apply set_eq. intros idx. split.
  - intros [Hr Hi]%elem_of_two_bits. destruct (split_range idx Hr) as (H0 & H1 & H2).
    rewrite (split_join idx). by apply Hc.
  - intros Hi. pose proof (HS idx Hi) as Hr. destruct (split_range idx Hr) as (H0 & H1 & H2).
    apply elem_of_two_bits. split; [done |]. apply Hc; try done. by rewrite <- split_join.
Qed.

Lemma two_bits_eq (s v : TLV) : two_wf s -> two_wf v ->
  two_bits s = two_bits v <-> forall i0 i1, 0 <= i0 < L -> cell s i0 i1 = cell v i0 i1.
Proof.
  intros Hs Hv. split.
  - intros He i0 i1 H0. apply set_eq. intros i2. split; intros Hi.
    + destruct (cell_range s i0 i1 i2 Hs H0 Hi) as [H1 H2]. apply (elem_of_join v); try done.
      rewrite <- He. by apply elem_of_join.
    + destruct (cell_range v i0 i1 i2 Hv H0 Hi) as [H1 H2]. apply (elem_of_join s); try done.
      rewrite He. by apply elem_of_join.
  - intros He. apply two_bits_cells; [done | intros idx Hi; apply elem_of_two_bits in Hi; tauto |].
    intros i0 i1 i2 H0 H1 H2. by rewrite elem_of_join, He.
Qed.

(** The first level's bits are the non-empty cells. *)
Lemma first_level (s : TLV) (i0 i1 : Z) : row_wf s i0 -> i1 ∈ bits (l1_ s i0) <-> cell s i0 i1 <> ∅.
Proof.
  clear HL.
  intros [_ Hc]. unfold cell. destruct (decide _) as [H1 | H1]; [| set_solver].
  split; [intros _; by apply Hc | done].
Qed.

(** ** Replacing one cell *)

Record cell_set (s s' : TLV) (i0 i1 : Z) (S : gset Z) : Prop := {
  set_row : row_wf s' i0;
  set_cell : cell s' i0 i1 = S;
  set_l1_others : forall j0, j0 <> i0 -> l1_ s' j0 = l1_ s j0;
  set_l2_others : forall j0 j1, (j0, j1) <> (i0, i1) -> l2_ s' j0 j1 = l2_ s j0 j1;
  set_others : forall j0 j1, (j0, j1) <> (i0, i1) -> cell s' j0 j1 = cell s j0 j1;
}.

Lemma cell_replace (s s' : TLV) (i0 i1 : Z) (S : gset Z) : row_wf s i0 ->
  (forall j0, j0 <> i0 -> l1_ s' j0 = l1_ s j0) ->
  (forall j0 j1, (j0, j1) <> (i0, i1) -> l2_ s' j0 j1 = l2_ s j0 j1) ->
  wf (l1_ s' i0) ->
  bits (l1_ s' i0) = (if decide (S = ∅) then bits (l1_ s i0) ∖ {[i1]} else {[i1]} ∪ bits (l1_ s i0)) ->
  (S <> ∅ -> wf (l2_ s' i0 i1) /\ bits (l2_ s' i0 i1) = S) -> cell_set s s' i0 i1 S.
Proof.
  clear HL.
  intros [Hw Hc] Ho1 Ho2 Hw' Hb HS.
  assert (Hmem : forall j, j <> i1 -> j ∈ bits (l1_ s' i0) <-> j ∈ bits (l1_ s i0)).
  { intros j Hj. rewrite Hb. destruct (decide (S = ∅)); set_solver. }
  assert (Hi1 : i1 ∈ bits (l1_ s' i0) <-> S <> ∅).
  { rewrite Hb. destruct (decide (S = ∅)); set_solver. }
  split; [split; [done |] | | done | done |].
  - intros j Hj. destruct (decide (j = i1)) as [-> | Hne].
    + apply Hi1 in Hj. destruct (HS Hj) as [H1 H2]. by rewrite H2.
    + rewrite Ho2 by congruence. apply Hc. by apply Hmem.
  - unfold cell. destruct (decide (i1 ∈ bits (l1_ s' i0))) as [Hj | Hj].
    + by apply HS, Hi1.
    + rewrite Hi1 in Hj. symmetry. by apply dec_stable.
  - intros j0 j1 Hne. unfold cell. rewrite (Ho2 j0 j1 Hne). destruct (decide (j0 = i0)) as [-> |].
    + assert (j1 <> i1) as Hj by congruence. pose proof (Hmem j1 Hj).
      destruct (decide (j1 ∈ bits (l1_ s' i0))), (decide (j1 ∈ bits (l1_ s i0))); tauto || done.
    + by rewrite Ho1.
Qed.

Lemma cell_set_wf (s s' : TLV) (i0 i1 : Z) (S : gset Z) :
  two_wf s -> cell_set s s' i0 i1 S -> two_wf s'.
Proof.
  intros Hs [Hr Hc H1 H2 Ho] j0 Hj0. destruct (decide (j0 = i0)) as [-> |]; [done |].
  destruct (Hs j0 Hj0) as [Hw Hcs]. split; [by rewrite H1 |]. intros j1. rewrite H1 by done.
  rewrite H2 by congruence. apply Hcs.
Qed.

(** The set and the flag of an operation that changed one cell. *)
Lemma cell_set_updates (s s' : TLV) (i0 i1 : Z) (S T : gset Z) (res : bool) :
  two_wf s -> 0 <= i0 < L -> cell_set s s' i0 i1 S -> res = bool_decide (S <> cell s i0 i1) ->
  (forall idx, idx ∈ T -> 0 <= idx < two_size (BV := BV) L) ->
  (forall j0 j1 j2, 0 <= j0 < L -> 0 <= j1 < K -> 0 <= j2 < K ->
    join j0 j1 j2 ∈ T <-> j2 ∈ if decide ((j0, j1) = (i0, i1)) then S else cell s j0 j1) ->
  updates two_bits two_wf s (Ok (s', res)) T.
Proof.
  intros Hs Hi0 Hset Hres HT Hmem. pose proof (cell_set_wf _ _ _ _ _ Hs Hset) as Hs'.
  assert (Hbits : two_bits s' = T).
  { apply two_bits_cells; [done | done |]. intros j0 j1 j2 H0 H1 H2. rewrite Hmem by done.
    destruct (decide _) as [[= -> ->] | Hne]; [by rewrite (set_cell _ _ _ _ _ Hset) |].
    by rewrite (set_others _ _ _ _ _ Hset). }
  exists s'. split_and!; [| done | done]. do 2 f_equal. rewrite Hres. apply bool_decide_ext.
  rewrite <- Hbits. rewrite (two_bits_eq s' s) by done. split.
  - intros Hne Heq. apply Hne. rewrite <- (Heq i0 i1 Hi0). by rewrite (set_cell _ _ _ _ _ Hset).
  - intros Hne ->. apply Hne. intros j0 j1 _. destruct (decide ((j0, j1) = (i0, i1))) as [[= -> ->] | Hd].
    + by rewrite (set_cell _ _ _ _ _ Hset).
    + by rewrite (set_others _ _ _ _ _ Hset).
Qed.

(** ** Single bits *)

Lemma indices (idx : Z) : 0 <= idx < two_size (BV := BV) L ->
  two_check (BV := BV) L idx = Ok tt /\ idx0 (BV := BV) L idx = Ok (idx / (K * K)) /\
  idx1 (BV := BV) idx = Ok ((idx / K) mod K) /\ idx2 (BV := BV) idx = Ok (idx mod K).
Proof.
  intros Hi. destruct (split_range idx Hi) as (H0 & H1 & H2). unfold two_check, idx0, idx1, idx2.
  rewrite !check_true by (apply Z.ltb_lt; lia). done.
Qed.

Lemma in_join (idx j0 j1 j2 : Z) : 0 <= j1 < K -> 0 <= j2 < K ->
  idx = join j0 j1 j2 <-> (j0, j1) = (idx / (K * K), (idx / K) mod K) /\ j2 = idx mod K.
Proof.
  intros H1 H2. split.
  - intros ->. destruct (join_split j0 j1 j2 H1 H2) as (-> & -> & ->). done.
  - intros [[= -> ->] ->]. apply split_join.
Qed.

Lemma getBit_l1 (s : TLV) (i0 i1 : Z) : row_wf s i0 -> 0 <= i1 < K ->
  getBit (l1_ s i0) i1 = Ok (bool_decide (cell s i0 i1 <> ∅)).
Proof.
  intros Hr Hi. rewrite getBit_spec by (apply Hr || done). f_equal. apply bool_decide_ext. by apply first_level.
Qed.

Lemma cell_in (s : TLV) (i0 i1 : Z) : i1 ∈ bits (l1_ s i0) -> cell s i0 i1 = bits (l2_ s i0 i1).
Proof. intros Hi. unfold cell. by rewrite decide_True. Qed.

Lemma cell_out (s : TLV) (i0 i1 : Z) : i1 ∉ bits (l1_ s i0) -> cell s i0 i1 = ∅.
Proof. intros Hi. unfold cell. by rewrite decide_False. Qed.

(** Reads of the arrays after a write. *)
Lemma l1_set (s : TLV) (i0 : Z) (b : BV) : l1_ (set_l1 s i0 b) i0 = b.
Proof. cbn. by rewrite Z.eqb_refl. Qed.
Lemma l1_set_ne (s : TLV) (i0 j0 : Z) (b : BV) : j0 <> i0 -> l1_ (set_l1 s i0 b) j0 = l1_ s j0.
Proof. intros Hj. cbn. by rewrite (proj2 (Z.eqb_neq _ _)). Qed.
Lemma l2_set (s : TLV) (i0 i1 : Z) (b : BV) : l2_ (set_l2 s i0 i1 b) i0 i1 = b.
Proof. cbn. by rewrite !Z.eqb_refl. Qed.
Lemma l2_set_ne (s : TLV) (i0 i1 j0 j1 : Z) (b : BV) : (j0, j1) <> (i0, i1) -> l2_ (set_l2 s i0 i1 b) j0 j1 = l2_ s j0 j1.
Proof.
  intros Hj. cbn. destruct (Z.eqb_spec j0 i0) as [-> |], (Z.eqb_spec j1 i1) as [-> |]; cbn; done || congruence.
Qed.

Ltac arrays := rewrite ?l1_set, ?l2_set; cbn [set_l1 set_l2 l1_ l2_]; rewrite ?Z.eqb_refl; cbn [andb].

(** Storing a set into a cell and dropping the cell when it is empty. *)
Lemma drop_spec (s : TLV) (i0 i1 : Z) (b : BV) : row_wf s i0 -> i1 ∈ bits (l1_ s i0) -> wf b ->
  exists s', drop_if_empty (set_l2 s i0 i1 b) i0 i1 = Ok s' /\ cell_set s s' i0 i1 (bits b).
Proof.
  clear HL.
  intros Hr Hi Hb. pose proof (bits_range (l1_ s i0) i1 (proj1 Hr) Hi) as Hir.
  unfold drop_if_empty. rewrite l2_set, empty_spec by done. case_bool_decide as He.
  - destruct (clearBit_spec (l1_ s i0) i1 (proj1 Hr) Hir) as (b1 & Hcl & Hw & Hb1).
    cbn [set_l2 l1_]. rewrite Hcl. step. eexists. split; [done |]. apply cell_replace; try done.
    + intros j0 Hj. by rewrite l1_set_ne.
    + intros j0 j1 Hj. cbn [set_l1 l2_]. by apply l2_set_ne.
    + by rewrite l1_set.
    + rewrite l1_set, Hb1, decide_True by done. done.
  - eexists. split; [done |]. apply cell_replace; try done.
    + intros j0 j1 Hj. by apply l2_set_ne.
    + apply Hr.
    + cbn. rewrite decide_False by done. set_solver.
    + intros _. by rewrite l2_set.
Qed.

Lemma two_setBit_spec (s : TLV) (idx : Z) : two_wf s -> 0 <= idx < two_size (BV := BV) L ->
  updates two_bits two_wf s (two_setBit L s idx) ({[idx]} ∪ two_bits s).
Proof.
  intros Hs Hi. destruct (indices idx Hi) as (E & E0 & E1 & E2).
  destruct (split_range idx Hi) as (H0 & H1 & H2).
  unfold two_setBit. rewrite E, E0, E1, E2. step.
  set (i0 := idx / (K * K)) in *. set (i1 := (idx / K) mod K) in *. set (i2 := idx mod K) in *.
  pose proof (Hs i0 H0) as Hr. rewrite getBit_l1 by done. step.
  assert (Hset : exists s' res, (s ← (if negb (bool_decide (cell s i0 i1 <> ∅)) then
         '(b, _) ← setBit (l1_ s i0) i1;
         Ok (set_l2 (set_l1 s i0 b) i0 i1 (clear (l2_ s i0 i1)))
       else Ok s);
    '(b, res) ← setBit (l2_ s i0 i1) i2;
    Ok (set_l2 s i0 i1 b, res)) = Ok (s', res) /\ cell_set s s' i0 i1 ({[i2]} ∪ cell s i0 i1) /\
    res = bool_decide ({[i2]} ∪ cell s i0 i1 <> cell s i0 i1)).
  { case_bool_decide as Hc; cbn [negb]; step.
    - pose proof (proj2 (first_level s i0 i1 Hr) Hc) as Hin. destruct (proj2 Hr i1 Hin) as [Hw2 _].
      destruct (setBit_spec (l2_ s i0 i1) i2 Hw2 H2) as (b & -> & Hwb & Hb). step.
      eexists _, _. split; [done |]. rewrite (cell_in s i0 i1 Hin). split; [| done].
      apply cell_replace; try done.
      + intros j0 j1 Hj. by apply l2_set_ne.
      + apply Hr.
      + cbn. rewrite decide_False by set_solver. set_solver.
      + intros _. by rewrite l2_set.
    - rename Hc into Hce. destruct (setBit_spec (l1_ s i0) i1 (proj1 Hr) H1) as (b1 & -> & Hwb1 & Hb1). step.
      rewrite l2_set. destruct (clear_spec (l2_ s i0 i1)) as [Hwc Hbc].
      destruct (setBit_spec (clear (l2_ s i0 i1)) i2 Hwc H2) as (b & -> & Hwb & Hb). step.
      rewrite Hbc in Hb |- *. eexists _, _. split; [done |]. rewrite Hce. split; [| done].
      apply cell_replace; try done.
      + intros j0 Hj. cbn [set_l2 l1_]. by rewrite l1_set_ne.
      + intros j0 j1 Hj. rewrite !l2_set_ne by done. done.
      + cbn [set_l2 l1_]. by rewrite l1_set.
      + cbn [set_l2 l1_]. rewrite l1_set, Hb1. by rewrite decide_False by set_solver.
      + intros _. by rewrite l2_set. }
  destruct Hset as (s' & res & -> & Hset & Hres).
  apply (cell_set_updates s s' i0 i1 ({[i2]} ∪ cell s i0 i1)); try done.
  - intros j [->%elem_of_singleton | Hj%elem_of_two_bits]%elem_of_union; [done | tauto].
  - intros j0 j1 j2 Hj0 Hj1 Hj2. rewrite elem_of_union, elem_of_singleton, elem_of_join by done.
    rewrite (eq_comm _ idx), in_join by done. fold i0 i1 i2.
    destruct (decide _) as [[= -> ->] | Hne]; set_solver.
Qed.

Lemma two_clearBit_spec (s : TLV) (idx : Z) : two_wf s -> 0 <= idx < two_size (BV := BV) L ->
  updates two_bits two_wf s (two_clearBit L s idx) (two_bits s ∖ {[idx]}).
Proof.
  intros Hs Hi. destruct (indices idx Hi) as (E & E0 & E1 & E2).
  destruct (split_range idx Hi) as (H0 & H1 & H2).
  assert (Hin : idx ∈ two_bits s <-> idx mod K ∈ cell s (idx / (K * K)) ((idx / K) mod K))
    by (rewrite elem_of_two_bits; tauto).
  unfold two_clearBit. rewrite E, E0, E1, E2. step.
  set (i0 := idx / (K * K)) in *. set (i1 := (idx / K) mod K) in *. set (i2 := idx mod K) in *.
  pose proof (Hs i0 H0) as Hr. rewrite getBit_l1 by done. step. case_bool_decide as Hc.
  - pose proof (proj2 (first_level s i0 i1 Hr) Hc) as Hin1. destruct (proj2 Hr i1 Hin1) as [Hw2 _].
    destruct (clearBit_spec (l2_ s i0 i1) i2 Hw2 H2) as (b & -> & Hwb & Hb). step.
    destruct (drop_spec s i0 i1 b Hr Hin1 Hwb) as (s' & -> & Hset). step. rewrite Hb in Hset.
    apply (cell_set_updates s s' i0 i1 (bits (l2_ s i0 i1) ∖ {[i2]})); try done.
    + by rewrite (cell_in s i0 i1 Hin1).
    + intros j [Hj%elem_of_two_bits _]%elem_of_difference. tauto.
    + intros j0 j1 j2 Hj0 Hj1 Hj2. rewrite elem_of_difference, elem_of_singleton, elem_of_join by done.
      rewrite (eq_comm _ idx), in_join by done. fold i0 i1 i2.
      destruct (decide ((j0, j1) = (i0, i1))) as [[= -> ->] | Hne]; [rewrite (cell_in s i0 i1 Hin1) |]; set_solver.
  - rewrite Hc in Hin. exists s.
    assert (two_bits s ∖ {[idx]} = two_bits s) as -> by set_solver.
    split_and!; [| done | done]. by rewrite bool_decide_false by tauto.
Qed.

Lemma two_getBit_spec (s : TLV) (idx : Z) : two_wf s -> 0 <= idx < two_size (BV := BV) L ->
  two_getBit L s idx = Ok (bool_decide (idx ∈ two_bits s)).
Proof.
  intros Hs Hi. destruct (indices idx Hi) as (E & E0 & E1 & E2).
  destruct (split_range idx Hi) as (H0 & H1 & H2).
  assert (Hin : idx ∈ two_bits s <-> idx mod K ∈ cell s (idx / (K * K)) ((idx / K) mod K))
    by (rewrite elem_of_two_bits; tauto).
  unfold two_getBit. rewrite E, E0, E1, E2. step.
  set (i0 := idx / (K * K)) in *. set (i1 := (idx / K) mod K) in *. set (i2 := idx mod K) in *.
  pose proof (Hs i0 H0) as Hr. rewrite getBit_l1 by done. step. case_bool_decide as Hc.
  - pose proof (proj2 (first_level s i0 i1 Hr) Hc) as Hin1. destruct (proj2 Hr i1 Hin1) as [Hw2 _].
    rewrite getBit_spec by done. f_equal. apply bool_decide_ext. by rewrite Hin, (cell_in s i0 i1 Hin1).
  - f_equal. symmetry. apply bool_decide_eq_false. rewrite Hin, Hc. set_solver.
Qed.

(** ** Rows *)

Lemma rows_in (i : Z) : i ∈ rows L <-> 0 <= i < L.
Proof. unfold rows. rewrite elem_of_seqZ. lia. Qed.

Lemma row_empty (s : TLV) (i0 : Z) : row_wf s i0 ->
  if empty (l1_ s i0) then forall i1, cell s i0 i1 = ∅ else bits (l1_ s i0) <> ∅.
Proof.
  clear HL.
  intros Hr. rewrite empty_spec by apply Hr. case_bool_decide as He; [| done].
  intros i1. apply cell_out. rewrite He. set_solver.
Qed.

(** [empty] looks at the first level only. *)
Lemma two_empty_spec (s : TLV) : two_wf s -> two_empty L s = bool_decide (two_bits s = ∅).
Proof.
  intros Hs. symmetry. unfold two_empty. destruct (forallb _ _) eqn:Hall.
  - apply bool_decide_eq_true. rewrite forallb_forall in Hall. apply set_eq. intros idx.
    rewrite elem_of_two_bits. split; [| set_solver]. intros [Hi Hc].
    destruct (split_range idx Hi) as (H0 & H1 & H2). pose proof (row_empty s _ (Hs _ H0)) as Hre.
    rewrite (Hall (idx / (K * K))) in Hre by (by apply list_elem_of_In, rows_in). rewrite Hre in Hc. set_solver.
  - apply bool_decide_eq_false. intros He.
    assert (forallb (fun i => empty (l1_ s i)) (rows L) = true); [| congruence].
    apply forallb_forall. intros i0 Hi0%list_elem_of_In%rows_in. pose proof (row_empty s i0 (Hs i0 Hi0)) as Hre.
    destruct (empty (l1_ s i0)); [done |]. exfalso.
    apply set_choose_L in Hre as [i1 Hi1]. pose proof (proj1 (first_level s i0 i1 (Hs i0 Hi0)) Hi1) as Hc.
    apply set_choose_L in Hc as [i2 Hi2]. destruct (cell_range s i0 i1 i2 Hs Hi0 Hi2).
    assert (join i0 i1 i2 ∈ two_bits s) by (by apply elem_of_join). set_solver.
Qed.

Lemma first_row_spec (s : TLV) (i0 : Z) : row_wf s i0 -> bits (l1_ s i0) <> ∅ ->
  exists s' i1 i2,
    ('(b1, i1) ← getAndClearFirstOne (l1_ s i0);
     let s := set_l1 s i0 b1 in
     '(b2, i2) ← getAndClearFirstOne (l2_ s i0 i1);
     let s := set_l2 s i0 i1 b2 in
     s ← (if negb (empty (l2_ s i0 i1)) then
            '(b, _) ← setBit (l1_ s i0) i1; Ok (set_l1 s i0 b)
          else Ok s);
     Ok (s, i0 * K * K + i1 * K + i2)) = Ok (s', join i0 i1 i2) /\
    cell_set s s' i0 i1 (cell s i0 i1 ∖ {[i2]}) /\ i2 ∈ cell s i0 i1 /\
    (forall j1 j2, j2 ∈ cell s i0 j1 -> i1 <= j1 /\ (j1 = i1 -> i2 <= j2)).
Proof.
  clear HL.
  intros Hr Hne. destruct (first_spec (l1_ s i0) (proj1 Hr) Hne) as (b1 & i1 & -> & Hw1 & Hb1 & Hi1 & Hmin1).
  destruct (proj2 Hr i1 Hi1) as [Hw2 Hne2]. pose proof (bits_range _ i1 (proj1 Hr) Hi1) as Hr1. step.
  cbn [set_l1 l2_]. destruct (first_spec (l2_ s i0 i1) Hw2 Hne2) as (b2 & i2 & -> & Hwb2 & Hb2 & Hi2 & Hmin2). step.
  assert (Hmin : forall j1 j2, j2 ∈ cell s i0 j1 -> i1 <= j1 /\ (j1 = i1 -> i2 <= j2)).
  { intros j1 j2 Hj. split.
    - apply Hmin1. apply first_level; [done | set_solver].
    - intros ->. rewrite (cell_in s i0 i1 Hi1) in Hj. by apply Hmin2. }
  rewrite l2_set. pose proof (empty_spec b2 Hwb2) as He. case_bool_decide as Hb; rewrite He; cbn [negb].
  - step. eexists _, i1, i2. rewrite (cell_in s i0 i1 Hi1). split; [done |]. split_and!; [| done | done]. apply cell_replace; try done.
    + intros j0 Hj. cbn [set_l2 l1_]. by apply (l1_set_ne s).
    + intros j0 j1 Hj. rewrite l2_set_ne by done. done.
    + cbn. by rewrite Z.eqb_refl.
    + cbn. rewrite Z.eqb_refl, Hb1, <- Hb2. by rewrite decide_True.
    + rewrite <- Hb2. done.
  - arrays. destruct (setBit_spec b1 i1 Hw1 Hr1) as (b3 & -> & Hw3 & Hb3). step.
    eexists _, i1, i2. rewrite (cell_in s i0 i1 Hi1). split; [done |]. split_and!; [| done | done]. apply cell_replace; try done.
    + intros j0 Hj. cbn. by rewrite (proj2 (Z.eqb_neq _ _)).
    + intros j0 j1 Hj. pose proof (l2_set_ne s i0 i1 j0 j1 b2 Hj) as Hl. by cbn in *.
    + cbn. by rewrite Z.eqb_refl.
    + cbn. rewrite Z.eqb_refl, Hb3, Hb1. rewrite decide_False by (by rewrite <- Hb2).
      apply set_eq. intros x. destruct (decide (x = i1)); set_solver.
    + intros _. cbn. by rewrite !Z.eqb_refl.
Qed.

Lemma first_loop_spec (s : TLV) (l : list Z) : two_wf s -> (forall i, i ∈ l -> 0 <= i < L) ->
  (exists i, i ∈ l /\ bits (l1_ s i) <> ∅) ->
  exists pre i0 post s' i1 i2, l = pre ++ i0 :: post /\ (forall j, j ∈ pre -> forall i1, cell s j i1 = ∅) /\
    two_first_loop s l = Ok (s', join i0 i1 i2) /\
    cell_set s s' i0 i1 (cell s i0 i1 ∖ {[i2]}) /\ i2 ∈ cell s i0 i1 /\
    (forall j1 j2, j2 ∈ cell s i0 j1 -> i1 <= j1 /\ (j1 = i1 -> i2 <= j2)).
Proof.
  intros Hs. induction l as [| i l IH]; intros Hl (k & Hk & Hne); [by apply not_elem_of_nil in Hk |].
  cbn [two_first_loop]. pose proof (Hs i ltac:(apply Hl; by left)) as Hr. pose proof (row_empty s i Hr) as Hre.
  destruct (empty (l1_ s i)).
  - destruct IH as (pre & i0 & post & s' & i1 & i2 & -> & Hpre & Hrest).
    + intros j Hj. apply Hl. by right.
    + exists k. split; [| done]. apply elem_of_cons in Hk as [-> | Hk]; [| done]. exfalso.
      apply set_choose_L in Hne as [i1 Hi1]. apply first_level in Hi1; [| done].
      by rewrite Hre in Hi1.
    + exists (i :: pre), i0, post, s', i1, i2. split_and!; [done | | apply Hrest ..].
      intros j [-> | Hj]%elem_of_cons; [done | by apply Hpre].
  - destruct (first_row_spec s i Hr Hre) as (s' & i1 & i2 & Hrun & Hrest).
    exists [], i, l, s', i1, i2. split_and!; try done; try apply Hrest.
    intros j Hj. by apply not_elem_of_nil in Hj.
Qed.

Lemma two_first_spec (s : TLV) : two_wf s -> two_bits s <> ∅ ->
  exists s' idx, two_getAndClearFirstOne L s = Ok (s', idx) /\ two_wf s' /\ two_bits s' = two_bits s ∖ {[idx]} /\
    idx ∈ two_bits s /\ forall j, j ∈ two_bits s -> idx <= j.
Proof.
  intros Hs Hne. apply set_choose_L in Hne as [x Hx]. apply elem_of_two_bits in Hx as [Hxr Hx].
  destruct (split_range x Hxr) as (X0 & X1 & X2).
  destruct (first_loop_spec s (rows L) Hs) as (pre & i0 & post & s' & i1 & i2 & Hl & Hpre & Hrun & Hset & Hi2 & Hmin).
  { intros i. apply rows_in. }
  { exists (x / (K * K)). split; [by apply rows_in |]. intros He.
    rewrite cell_out in Hx; [set_solver |]. rewrite He. set_solver. }
  assert (Hi0 : 0 <= i0 < L) by (apply rows_in; rewrite Hl; set_solver).
  destruct (cell_range s i0 i1 i2 Hs Hi0 Hi2) as [Hi1r Hi2r].
  exists s', (join i0 i1 i2). split; [done |].
  destruct (cell_set_updates s s' i0 i1 (cell s i0 i1 ∖ {[i2]}) (two_bits s ∖ {[join i0 i1 i2]})
    (bool_decide (cell s i0 i1 ∖ {[i2]} <> cell s i0 i1))) as (s2 & [= <- _] & Hw & Hb); try done.
  { intros j [Hj%elem_of_two_bits _]%elem_of_difference. tauto. }
  { intros j0 j1 j2 Hj0 Hj1 Hj2. rewrite elem_of_difference, elem_of_singleton, elem_of_join by done.
    rewrite in_join by done. destruct (join_split j0 j1 j2 Hj1 Hj2) as (-> & -> & ->).
    destruct (decide ((j0, j1) = (i0, i1))) as [[= -> ->] | Hd]; set_solver. }
  split_and!; try done; [by apply elem_of_join |].
  intros j [Hjr Hj]%elem_of_two_bits. destruct (split_range j Hjr) as (J0 & J1 & J2).
  rewrite (split_join j). set (j0 := j / (K * K)) in *. set (j1 := (j / K) mod K) in *. set (j2 := j mod K) in *.
  assert (Hle0 : i0 <= j0).
  { destruct (Z.lt_ge_cases j0 i0) as [Hlt |]; [| done]. exfalso.
    assert (Hin : j0 ∈ pre).
    { assert (Hjr0 : j0 ∈ rows L) by (by apply rows_in). rewrite Hl in Hjr0.
      apply elem_of_app in Hjr0 as [| Hjp]; [done |]. exfalso.
      assert (Hsort : forall k, k ∈ i0 :: post -> i0 <= k).
      { intros k Hk. apply list_elem_of_lookup in Hk as [n Hn].
        assert (Hrow0 : rows L !! length pre = Some i0) by (rewrite Hl; by apply list_lookup_middle).
        assert (Hrow : rows L !! (length pre + n)%nat = Some k).
        { rewrite Hl, lookup_app_r by lia. by replace (length pre + n - length pre)%nat with n by lia. }
        unfold rows in *. apply lookup_seqZ in Hrow0, Hrow. lia. }
      specialize (Hsort j0 Hjp). lia. }
    rewrite (Hpre j0 Hin) in Hj. set_solver. }
  pose proof K_pos. destruct (decide (i0 = j0)) as [<- |].
  - destruct (Hmin j1 j2 Hj) as [Hle1 Hle2]. unfold join.
    destruct (decide (i1 = j1)) as [<- |]; [specialize (Hle2 eq_refl); lia |]. nia.
  - unfold join. assert ((i0 + 1) * (K * K) <= j0 * (K * K)) by nia.
    assert (i1 * K + i2 < K * K) by nia. nia.
Qed.

(** ** Set operations

    A row operation turns the cells of one row by [f] and reports whether one
    of them changed. *)
Record row_set (s s' : TLV) (i0 : Z) (f : Z -> gset Z -> gset Z) (ch : bool) : Prop := {
  rset_wf : row_wf s' i0;
  rset_cells : forall j1, cell s' i0 j1 = f j1 (cell s i0 j1);
  rset_l1 : forall j0, j0 <> i0 -> l1_ s' j0 = l1_ s j0;
  rset_l2 : forall j0 j1, j0 <> i0 -> l2_ s' j0 j1 = l2_ s j0 j1;
  rset_flag : ch = true <-> exists j1, f j1 (cell s i0 j1) <> cell s i0 j1;
}.

Lemma same_row (s s' : TLV) (j0 : Z) : l1_ s' j0 = l1_ s j0 -> (forall j1, l2_ s' j0 j1 = l2_ s j0 j1) ->
  (forall j1, cell s' j0 j1 = cell s j0 j1) /\ (row_wf s j0 -> row_wf s' j0).
Proof.
  intros H1 H2. split.
  - intros j1. unfold cell. by rewrite H1, H2.
  - intros [Hw Hc]. split; [by rewrite H1 |]. intros j1. rewrite H1, H2. apply Hc.
Qed.

(** The loop over the second level of a row: [f] must leave the cells outside
    [t] alone. *)
Lemma cells_loop_spec (s : TLV) (res : bool) (i0 : Z) (t : BV) (f : Z -> gset Z -> gset Z)
  (body : TLV * bool -> Z -> result (TLV * bool)) :
  row_wf s i0 -> wf t -> (forall j1, j1 ∉ bits t -> f j1 (cell s i0 j1) = cell s i0 j1) ->
  (forall u r i1, row_wf u i0 -> i1 ∈ bits t -> cell u i0 i1 = cell s i0 i1 ->
    exists u' ch, body (u, r) i1 = Ok (u', r || ch) /\
      cell_set u u' i0 i1 (f i1 (cell u i0 i1)) /\ ch = bool_decide (f i1 (cell u i0 i1) <> cell u i0 i1)) ->
  exists s' ch, drain body t (s, res) drain_fuel = Ok (s', res || ch) /\ row_set s s' i0 f ch.
Proof.
  clear HL.
  intros Hr Ht Hid Hbody.
  destruct (drain_spec body (fun D st => row_wf (fst st) i0 /\
    (forall j1, cell (fst st) i0 j1 = if decide (j1 ∈ D) then f j1 (cell s i0 j1) else cell s i0 j1) /\
    (forall j0, j0 <> i0 -> l1_ (fst st) j0 = l1_ s j0) /\
    (forall j0 j1, j0 <> i0 -> l2_ (fst st) j0 j1 = l2_ s j0 j1) /\
    exists ch, snd st = res || ch /\ (ch = true <-> exists j1, j1 ∈ D /\ f j1 (cell s i0 j1) <> cell s i0 j1))
    t (s, res) Ht) as ([s' r'] & Hrun & Hw & Hcells & H1 & H2 & ch & Hch & Hflag).
  - cbn. split_and!; try done. exists false. split; [by rewrite orb_false_r |]. split; [done |].
    intros (j1 & Hj & _). set_solver.
  - intros D i1 [u r] Hi1 HiD (Hw & Hcells & H1 & H2 & ch & Hch & Hflag). cbn [fst snd] in *.
    assert (Hcu : cell u i0 i1 = cell s i0 i1) by (by rewrite Hcells, decide_False).
    destruct (Hbody u r i1 Hw Hi1 Hcu) as (u' & ch1 & -> & Hset & Hch1). rewrite Hcu in Hset, Hch1.
    eexists. split; [done |]. cbn [fst snd]. split_and!.
    + apply Hset.
    + intros j1. destruct (decide (j1 = i1)) as [-> |].
      * rewrite decide_True by set_solver. apply Hset.
      * rewrite (set_others _ _ _ _ _ Hset) by congruence. rewrite Hcells.
        destruct (decide (j1 ∈ D)), (decide (j1 ∈ {[i1]} ∪ D)); done || set_solver.
    + intros j0 Hj. rewrite (set_l1_others _ _ _ _ _ Hset) by done. by apply H1.
    + intros j0 j1 Hj. rewrite (set_l2_others _ _ _ _ _ Hset) by congruence. by apply H2.
    + exists (ch || ch1). split; [by rewrite Hch, orb_assoc |]. rewrite orb_true_iff, Hflag, Hch1, bool_decide_eq_true.
      split.
      * intros [(j1 & Hj & Hne) | Hne].
        -- exists j1. split; [by apply elem_of_union_r | done].
        -- exists i1. split; [by apply elem_of_union_l, elem_of_singleton | done].
      * intros (j1 & [->%elem_of_singleton | Hj]%elem_of_union & Hne); [by right | left; by exists j1].
  - cbn [fst snd] in *. exists s', ch. split; [by rewrite Hrun, Hch |]. split; try done.
    + intros j1. rewrite Hcells. destruct (decide (j1 ∈ bits t)) as [| Hj]; [done |]. by rewrite Hid.
    + rewrite Hflag. split; intros (j1 & Hj).
      * exists j1. apply Hj.
      * exists j1. split; [| done]. destruct (decide (j1 ∈ bits t)) as [| Hn]; [done |]. by rewrite Hid in Hj.
Qed.

(** All the rows, one after the other. *)
Lemma rows_loop_spec (s : TLV) (f : Z -> Z -> gset Z -> gset Z) (T : gset Z)
  (row : TLV * bool -> Z -> result (TLV * bool)) : two_wf s ->
  (forall u r i0, 0 <= i0 < L -> row_wf u i0 -> (forall j1, cell u i0 j1 = cell s i0 j1) ->
    exists u' ch, row (u, r) i0 = Ok (u', r || ch) /\ row_set u u' i0 (f i0) ch) ->
  (forall idx, idx ∈ T -> 0 <= idx < two_size (BV := BV) L) ->
  (forall i0 i1 i2, 0 <= i0 < L -> 0 <= i1 < K -> 0 <= i2 < K ->
    join i0 i1 i2 ∈ T <-> i2 ∈ f i0 i1 (cell s i0 i1)) ->
  updates two_bits two_wf s (for_each row (s, false) (rows L)) T.
Proof.
  intros Hs Hrow HT Hmem.
  destruct (for_each_spec row (fun dn st =>
    (forall i0, 0 <= i0 < L -> row_wf (fst st) i0) /\
    (forall i0 j1, 0 <= i0 < L -> cell (fst st) i0 j1 = if decide (i0 ∈ dn) then f i0 j1 (cell s i0 j1) else cell s i0 j1) /\
    (snd st = true <-> exists i0 j1, i0 ∈ dn /\ f i0 j1 (cell s i0 j1) <> cell s i0 j1))
    (rows L) (s, false)) as ([s' r] & -> & Hw & Hcells & Hflag).
  - cbn. split_and!; [done | |].
    + intros i0 j1 _. rewrite decide_False by apply not_elem_of_nil. done.
    + split; [done |]. intros (i0 & j1 & Hi & _). by apply not_elem_of_nil in Hi.
  - intros dn i0 rest [u r] Hl (Hw & Hcells & Hflag). cbn [fst snd] in *.
    assert (Hi0 : 0 <= i0 < L) by (apply rows_in; rewrite Hl; set_solver).
    assert (Hnd : i0 ∉ dn).
    { pose proof (NoDup_seqZ 0 L) as Hnd. unfold rows in Hl. rewrite Hl in Hnd.
      apply NoDup_app in Hnd as (_ & Hnd & _). intros Hin. apply (Hnd i0 Hin). by left. }
    destruct (Hrow u r i0 Hi0 (Hw i0 Hi0)) as (u' & ch & -> & [R1 R2 R3 R4 R5]).
    { intros j1. by rewrite Hcells, decide_False. }
    assert (Hc0 : forall j1, cell u i0 j1 = cell s i0 j1) by (intros j1; by rewrite Hcells, decide_False).
    assert (Hoth : forall j0, j0 <> i0 -> (forall j1, cell u' j0 j1 = cell u j0 j1) /\ (row_wf u j0 -> row_wf u' j0)).
    { intros j0 Hj. apply same_row; [by apply R3 | intros j1; by apply R4]. }
    eexists. split; [done |]. cbn [fst snd]. split_and!.
    + intros j0 Hj0. destruct (decide (j0 = i0)) as [-> |]; [done |]. by apply Hoth, Hw.
    + intros j0 j1 Hj0. destruct (decide (j0 = i0)) as [-> |].
      * rewrite decide_True by set_solver. by rewrite R2, Hc0.
      * rewrite (proj1 (Hoth j0 ltac:(done))), Hcells by done.
        assert (Hj : j0 ∈ dn <-> j0 ∈ dn ++ [i0]) by (rewrite elem_of_app, list_elem_of_singleton; tauto).
        destruct (decide (j0 ∈ dn)), (decide (j0 ∈ dn ++ [i0])); tauto || done.
    + rewrite orb_true_iff, Hflag, R5. split.
      * intros [(j0 & j1 & Hj & Hne) | (j1 & Hne)].
        -- exists j0, j1. split; [apply elem_of_app; by left | done].
        -- exists i0, j1. rewrite Hc0 in Hne. split; [apply elem_of_app; right; by left | done].
      * intros (j0 & j1 & [Hj | ->%list_elem_of_singleton]%elem_of_app & Hne); [left; by exists j0, j1 |].
        right. exists j1. by rewrite Hc0.
  - cbn [fst snd] in *.
    assert (Hcells' : forall i0 j1, 0 <= i0 < L -> cell s' i0 j1 = f i0 j1 (cell s i0 j1)).
    { intros i0 j1 Hi0. rewrite Hcells by done. rewrite decide_True; [done | by apply rows_in]. }
    assert (Hbits : two_bits s' = T).
    { apply two_bits_cells; [done | done |]. intros i0 i1 i2 H0 H1 H2. by rewrite Hmem, Hcells' by done. }
    exists s'. split_and!; [| done | done]. do 2 f_equal.
    destruct r.
    + symmetry. apply bool_decide_eq_true. rewrite <- Hbits, two_bits_eq by done.
      destruct (proj1 Hflag eq_refl) as (i0 & j1 & Hi & Hne). intros He. apply Hne.
      rewrite <- Hcells' by (by apply rows_in). apply He. by apply rows_in.
    + symmetry. apply bool_decide_eq_false. rewrite <- Hbits, two_bits_eq by done. intros Hne. apply Hne.
      intros i0 i1 H0. rewrite Hcells' by done.
      destruct (decide (f i0 i1 (cell s i0 i1) = cell s i0 i1)) as [| Hd]; [done |].
      assert (false = true); [| done]. apply Hflag. exists i0, i1. split; [by apply rows_in | done].
Qed.

Lemma two_setUnion_spec (s v : TLV) : two_wf s -> two_wf v ->
  updates two_bits two_wf s (two_setUnion L s v) (two_bits s ∪ two_bits v).
Proof.
  intros Hs Hv. apply (rows_loop_spec s (fun i0 j1 c => c ∪ cell v i0 j1)); [done | | |].
  - intros u r i0 Hi0 Hu Hsame. unfold union_row. apply cells_loop_spec; [done | apply Hv; done | |].
    + intros j1 Hj. rewrite (cell_out v) by done. set_solver.
    + intros x r1 i1 Hx Hi1 Hcx. pose proof (Hv i0 Hi0) as Hvr.
      pose proof (bits_range _ i1 (proj1 Hvr) Hi1) as Hr1. destruct (proj2 Hvr i1 Hi1) as [Hwv Hnv].
      rewrite (cell_in v i0 i1 Hi1). unfold union_cell.
      destruct (setBit_spec (l1_ x i0) i1 (proj1 Hx) Hr1) as (b & -> & Hwb & Hb). step.
      set (added := bool_decide ({[i1]} ∪ bits (l1_ x i0) <> bits (l1_ x i0))).
      assert (Hadd : added = bool_decide (i1 ∉ bits (l1_ x i0))) by (unfold added; apply bool_decide_ext; set_solver).
      clearbody added.
      assert (Hl2 : l2_ (if added then set_l2 (set_l1 x i0 b) i0 i1 (clear (l2_ (set_l1 x i0 b) i0 i1))
        else set_l1 x i0 b) i0 i1 = if added then clear (l2_ x i0 i1) else l2_ x i0 i1).
      { destruct added; [by rewrite l2_set | done]. }
      rewrite Hl2.
      assert (Hcell : wf (if added then clear (l2_ x i0 i1) else l2_ x i0 i1) /\
        bits (if added then clear (l2_ x i0 i1) else l2_ x i0 i1) = cell x i0 i1).
      { rewrite Hadd. case_bool_decide as Hd.
        - destruct (clear_spec (l2_ x i0 i1)) as [C1 C2]. by rewrite (cell_out x).
        - rewrite (cell_in x) by done. split; [by apply Hx | done]. }
      destruct Hcell as [Hwc Hbc].
      destruct (setUnion_spec _ (l2_ v i0 i1) Hwc Hwv) as (c & -> & Hwc2 & Hbc2). step. rewrite Hbc in *.
      eexists _, _. split; [done |]. split; [| done]. apply cell_replace; [done | | | | |].
      * intros j0 Hj. cbn [set_l2 l1_]. destruct added; cbn [set_l2 l1_]; by apply l1_set_ne.
      * intros j0 j1 Hj. rewrite l2_set_ne by done. destruct added; [by rewrite l2_set_ne |]; done.
      * cbn [set_l2 l1_]. destruct added; cbn [set_l2 l1_]; by rewrite l1_set.
      * rewrite decide_False by set_solver. cbn [set_l2 l1_]. destruct added; cbn [set_l2 l1_]; by rewrite l1_set.
      * intros _. by rewrite l2_set.
  - intros idx [Hi%elem_of_two_bits | Hi%elem_of_two_bits]%elem_of_union; tauto.
  - intros i0 i1 i2 H0 H1 H2. by rewrite !elem_of_union, !elem_of_join.
Qed.
End specs.
