(* ===== verification/TwoLevelContract.v ===== *)
(** * The two-level bit vector meets the contract: sets, copies, iteration

    The rest of the operations of TwoLevelBitVector, the instance of
    [BitVectorSpec] they add up to, and the iterator. *)

From S2P Require Import Prelude Words BitVector TwoLevel TwoLevelSpecs.

Section contract.
Context {BV : Type} `{HB : BitVectorSpec BV} (L : Z) (HL : 0 < L).

Abbreviation K := (kSize (BV := BV)).
Abbreviation TLV := (TwoLevelBitVector (BV := BV)).
Abbreviation size2 := (two_size (BV := BV) L).

(** ** Intersection and difference *)

(** The body shared by the loops of both: combine two cells with [op], drop
    the cell when nothing is left. *)
Lemma combine_cell (op : BV -> BV -> result (BV * bool)) (g : gset Z -> gset Z -> gset Z) (x v : TLV) (r : bool) (i0 i1 : Z) :
  (forall b c, wf b -> wf c -> updates bits wf b (op b c) (g (bits b) (bits c))) ->
  row_wf x i0 -> row_wf v i0 -> i1 ∈ bits (l1_ x i0) -> i1 ∈ bits (l1_ v i0) ->
  exists u' ch, ('(b, changed) ← op (l2_ x i0 i1) (l2_ v i0 i1);
      s ← drop_if_empty (set_l2 x i0 i1 b) i0 i1;
      Ok (s, r || changed)) = Ok (u', r || ch) /\
    cell_set x u' i0 i1 (g (cell x i0 i1) (cell v i0 i1)) /\
    ch = bool_decide (g (cell x i0 i1) (cell v i0 i1) <> cell x i0 i1).
Proof.
  intros Hop Hx Hv Hi Hj. rewrite (cell_in x i0 i1 Hi), (cell_in v i0 i1 Hj).
  destruct (Hop (l2_ x i0 i1) (l2_ v i0 i1)) as (b & -> & Hw & Hb); [by apply Hx | by apply Hv |]. step.
  destruct (drop_spec x i0 i1 b Hx Hi Hw) as (u' & -> & Hset). step. rewrite Hb in Hset. by eexists _, _.
Qed.

Lemma two_setDifference_spec (s v : TLV) : two_wf L s -> two_wf L v ->
  updates (two_bits L) (two_wf L) s (two_setDifference L s v) (two_bits L s ∖ two_bits L v).
Proof.
  intros Hs Hv. apply (rows_loop_spec L HL s (fun i0 j1 c => c ∖ cell v i0 j1)); [done | | |].
  - intros u r i0 Hi0 Hu Hsame. pose proof (Hv i0 Hi0) as Hvr. unfold difference_row.
    destruct (setIntersection_spec (l1_ u i0) (l1_ v i0) (proj1 Hu) (proj1 Hvr)) as (t & -> & Hwt & Ht). step.
    apply cells_loop_spec; [done | done | |].
    + intros j1 Hj. rewrite Ht in Hj. destruct (decide (j1 ∈ bits (l1_ u i0))).
      * rewrite (cell_out v) by set_solver. set_solver.
      * rewrite (cell_out u) by done. set_solver.
    + intros x r1 i1 Hx Hi1 Hcx. rewrite Ht in Hi1. apply elem_of_intersection in Hi1 as [Hi1 Hj1].
      apply combine_cell; [apply setDifference_spec | done | done | | done].
      apply (first_level x); [done |]. rewrite Hcx. by apply first_level.
  - intros idx [Hi%elem_of_two_bits _]%elem_of_difference; tauto.
  - intros i0 i1 i2 H0 H1 H2. by rewrite !elem_of_difference, !elem_of_join.
Qed.

(** A loop over an empty vector does nothing. *)
Lemma drain_empty {S} (body : S -> Z -> result S) (t : BV) (s : S) :
  (if negb (empty t) then drain body t s drain_fuel else Ok s) = drain body t s drain_fuel.
Proof. unfold drain, drain_fuel. cbn [drain_keep]. by destruct (empty t). Qed.

Lemma intersection_row_spec (u v : TLV) (r : bool) (i0 : Z) : row_wf u i0 -> row_wf v i0 ->
  exists u' ch, intersection_row v (u, r) i0 = Ok (u', r || ch) /\
    row_set u u' i0 (fun j1 c => c ∩ cell v i0 j1) ch.
Proof.
  intros Hu Hv. unfold intersection_row.
  destruct (setIntersection_spec (l1_ u i0) (l1_ v i0) (proj1 Hu) (proj1 Hv)) as (t & -> & Hwt & Ht). step.
  rewrite l1_set, drain_empty.
  assert (Hcell : forall j1, cell (set_l1 u i0 t) i0 j1 = if decide (j1 ∈ bits (l1_ v i0)) then cell u i0 j1 else ∅).
  { intros j1. unfold cell. rewrite l1_set, Ht. cbn [set_l1 l2_].
    destruct (decide (j1 ∈ bits (l1_ v i0))), (decide (j1 ∈ bits (l1_ u i0)));
      destruct (decide (j1 ∈ bits (l1_ u i0) ∩ bits (l1_ v i0))); done || set_solver. }
  assert (Hrow : row_wf (set_l1 u i0 t) i0).
  { split; rewrite l1_set; [done |]. intros j1. rewrite Ht. intros [Hj _]%elem_of_intersection. by apply Hu. }
  set (c1 := bool_decide (bits (l1_ u i0) ∩ bits (l1_ v i0) <> bits (l1_ u i0))).
  destruct (cells_loop_spec (set_l1 u i0 t) (r || c1) i0 t (fun j1 c => c ∩ cell v i0 j1) (intersection_cell v i0))
    as (s' & ch & -> & [R1 R2 R3 R4 R5]); [done | done | | |].
  - intros j1 Hj. rewrite (cell_out (set_l1 u i0 t)) by (by rewrite l1_set). set_solver.
  - intros x r1 i1 Hx Hi1 Hcx. pose proof Hi1 as Hi. rewrite Ht in Hi. apply elem_of_intersection in Hi as [Hiu Hiv].
    apply combine_cell; [apply setIntersection_spec | done | done | | done].
    apply (first_level x); [done |]. rewrite Hcx. apply first_level; [done | by rewrite l1_set].
  - exists s', (c1 || ch). split; [by rewrite orb_assoc |]. split; [done | | | done |].
    + intros j1. rewrite R2, Hcell. destruct (decide _); [done |]. rewrite (cell_out v) by done. set_solver.
    + intros j0 Hj. rewrite R3 by done. by apply l1_set_ne.
    + rewrite orb_true_iff, R5. unfold c1. rewrite bool_decide_eq_true. split.
      * intros [Hne | (j1 & Hne)].
        -- destruct (decide (bits (l1_ u i0) ∖ bits (l1_ v i0) = ∅)) as [Hn | Hn].
           ++ destruct Hne. apply set_eq. intros j. destruct (decide (j ∈ bits (l1_ v i0))); set_solver.
           ++ apply set_choose_L in Hn as [j [Hju Hjv]%elem_of_difference]. exists j. rewrite (cell_out v) by done.
              apply (first_level u i0 j Hu) in Hju. intros He. apply Hju. rewrite <- He. set_solver.
        -- exists j1. rewrite Hcell in Hne. destruct (decide _); [done | set_solver].
      * intros (j1 & Hne). destruct (decide (j1 ∈ bits (l1_ v i0))) as [Hj | Hj].
        -- right. exists j1. rewrite Hcell. by rewrite decide_True.
        -- left. rewrite (cell_out v) in Hne by done. intros He.
           assert (j1 ∈ bits (l1_ u i0)) by (apply first_level; [done | set_solver]). set_solver.
Qed.

Lemma two_setIntersection_spec (s v : TLV) : two_wf L s -> two_wf L v ->
  updates (two_bits L) (two_wf L) s (two_setIntersection L s v) (two_bits L s ∩ two_bits L v).
Proof.
  intros Hs Hv. apply (rows_loop_spec L HL s (fun i0 j1 c => c ∩ cell v i0 j1)); [done | | |].
  - intros u r i0 Hi0 Hu _. apply intersection_row_spec; [done | by apply Hv].
  - intros idx [Hi%elem_of_two_bits _]%elem_of_intersection; tauto.
  - intros i0 i1 i2 H0 H1 H2. by rewrite !elem_of_intersection, !elem_of_join.
Qed.

(** ** Clearing, filling, copying *)

Definition cleared_row (s : TLV) (i : Z) : Prop := wf (l1_ s i) /\ bits (l1_ s i) = ∅.

Lemma clear_rows (l : list Z) (s : TLV) (i : Z) : i ∈ l \/ cleared_row s i ->
  cleared_row (foldl (fun s i => set_l1 s i (clear (l1_ s i))) s l) i.
Proof.
  revert s. induction l as [| j l IH]; intros s Hi; cbn [foldl].
  - destruct Hi as [Hi |]; [by apply not_elem_of_nil in Hi | done].
  - apply IH. destruct (decide (i = j)) as [-> |].
    + right. unfold cleared_row. rewrite l1_set. apply clear_spec.
    + destruct Hi as [[-> | Hi]%elem_of_cons | Hi]; [done | by left |]. right. unfold cleared_row. by rewrite l1_set_ne.
Qed.

Lemma cleared_cells (s : TLV) (i0 i1 : Z) : cleared_row s i0 -> cell s i0 i1 = ∅.
Proof. intros [_ He]. apply cell_out. rewrite He. set_solver. Qed.

Lemma two_clear_spec (s : TLV) : two_wf L (two_clear L s) /\ two_bits L (two_clear L s) = ∅.
Proof.
  assert (Hc : forall i, 0 <= i < L -> cleared_row (two_clear L s) i).
  { intros i Hi. apply clear_rows. left. by apply rows_in. }
  assert (Hw : two_wf L (two_clear L s)).
  { intros i Hi. destruct (Hc i Hi) as [H1 H2]. split; [done |]. rewrite H2. set_solver. }
  split; [done |]. apply two_bits_cells; [done | set_solver |].
  intros i0 i1 i2 H0 H1 H2. rewrite cleared_cells by auto. set_solver.
Qed.

Definition full_row (s : TLV) (i0 : Z) : Prop :=
  (wf (l1_ s i0) /\ bits (l1_ s i0) = range_set K) /\
  forall i1, 0 <= i1 < K -> wf (l2_ s i0 i1) /\ bits (l2_ s i0 i1) = range_set K.

Lemma fill_cells (l : list Z) (s : TLV) (i0 : Z) (done : Z -> Prop) :
  (forall i1, done i1 -> wf (l2_ s i0 i1) /\ bits (l2_ s i0 i1) = range_set K) ->
  let s' := foldl (fun s i1 => set_l2 s i0 i1 (setAll (l2_ s i0 i1))) s l in
  (forall i1, i1 ∈ l \/ done i1 -> wf (l2_ s' i0 i1) /\ bits (l2_ s' i0 i1) = range_set K) /\
  l1_ s' = l1_ s /\ (forall j0 j1, j0 <> i0 -> l2_ s' j0 j1 = l2_ s j0 j1).
Proof.
  revert s done. induction l as [| i l IH]; intros s dn Hdn; cbn [foldl].
  - split_and!; try done. intros i1 [Hi | Hi]; [by apply not_elem_of_nil in Hi | by apply Hdn].
  - destruct (IH (set_l2 s i0 i (setAll (l2_ s i0 i))) (fun j => j = i \/ dn j)) as (H1 & H2 & H3).
    + intros i1 Hi1. destruct (decide (i1 = i)) as [-> | Hne].
      * rewrite l2_set. apply setAll_spec.
      * rewrite l2_set_ne by congruence. apply Hdn. by destruct Hi1.
    + split_and!.
      * intros i1 [Hi%elem_of_cons | Hi]; apply H1; tauto.
      * rewrite H2. done.
      * intros j0 j1 Hj. rewrite H3 by done. apply l2_set_ne. congruence.
Qed.

Lemma fill_row (s : TLV) (i0 : Z) :
  let s' := foldl (fun s i1 => set_l2 s i0 i1 (setAll (l2_ s i0 i1))) (set_l1 s i0 (setAll (l1_ s i0))) (seqZ 0 K) in
  full_row s' i0 /\ forall j0, j0 <> i0 -> full_row s j0 -> full_row s' j0.
Proof.
  destruct (fill_cells (seqZ 0 K) (set_l1 s i0 (setAll (l1_ s i0))) i0 (fun _ => False)) as (H1 & H2 & H3); [done |].
  split.
  - split; [rewrite H2, l1_set; apply setAll_spec |]. intros i1 Hi. apply H1. left. apply elem_of_seqZ. lia.
  - intros j0 Hj [F1 F2]. split; [by rewrite H2, l1_set_ne |]. intros j1 Hj1. rewrite H3 by done. by apply F2.
Qed.

Lemma fill_rows (l : list Z) (s : TLV) (i : Z) : i ∈ l \/ full_row s i ->
  full_row (foldl (fun s i0 =>
    foldl (fun s i1 => set_l2 s i0 i1 (setAll (l2_ s i0 i1)))
      (set_l1 s i0 (setAll (l1_ s i0))) (seqZ 0 K)) s l) i.
Proof.
  revert s. induction l as [| j l IH]; intros s Hi; cbn [foldl].
  - destruct Hi as [Hi |]; [by apply not_elem_of_nil in Hi | done].
  - apply IH. destruct (fill_row s j) as [F1 F2]. destruct (decide (i = j)) as [-> | Hne]; [by right |].
    destruct Hi as [[-> | Hi]%elem_of_cons | Hi]; [done | by left |]. right. by apply F2.
Qed.

Lemma two_setAll_spec (s : TLV) : two_wf L (two_setAll L s) /\ two_bits L (two_setAll L s) = range_set size2.
Proof.
  pose proof (K_pos (BV := BV)) as HK.
  assert (Hf : forall i, 0 <= i < L -> full_row (two_setAll L s) i).
  { intros i Hi. apply fill_rows. left. by apply rows_in. }
  assert (Hw : two_wf L (two_setAll L s)).
  { intros i Hi. destruct (Hf i Hi) as [[H1 H2] H3]. split; [done |]. intros i1. rewrite H2, elem_of_range_set.
    intros Hi1. destruct (H3 i1 Hi1) as [H4 H5]. split; [done |]. rewrite H5. intros He.
    assert (0 ∈ range_set K) by (apply elem_of_range_set; lia). set_solver. }
  split; [done |]. apply two_bits_cells; [done | |].
  - intros idx. by rewrite elem_of_range_set.
  - intros i0 i1 i2 H0 H1 H2. destruct (Hf i0 H0) as [[F1 F2] F3].
    rewrite cell_in by (by rewrite F2, elem_of_range_set). rewrite (proj2 (F3 i1 H1)), !elem_of_range_set.
    pose proof (join_range L i0 i1 i2 H0 H1 H2). tauto.
Qed.

Lemma two_copyFrom_spec (s v : TLV) : two_wf L v ->
  exists s', two_copyFrom L s v = Ok s' /\ two_wf L s' /\ two_bits L s' = two_bits L v.
Proof.
  intros Hv. destruct (two_clear_spec s) as [Hw Hb]. unfold two_copyFrom.
  destruct (two_setUnion_spec L HL (two_clear L s) v Hw Hv) as (s' & -> & Hw' & Hb'). step.
  exists s'. split_and!; [done | done |]. rewrite Hb', Hb. set_solver.
Qed.

(** ** Intersection test *)

Lemma intersects_loop_spec (s v : TLV) (i0 : Z) (t : BV) (fuel : nat) : row_wf s i0 -> row_wf v i0 -> wf t ->
  (base.size (bits t) < fuel)%nat -> (forall i1, i1 ∈ bits t -> i1 ∈ bits (l1_ s i0) /\ i1 ∈ bits (l1_ v i0)) ->
  exists b, intersects_loop s v i0 t fuel = Ok b /\
    (b = true <-> exists i1, i1 ∈ bits t /\ cell s i0 i1 ∩ cell v i0 i1 <> ∅).
Proof.
  intros Hs Hv. revert t. induction fuel as [| fuel IH]; intros t Ht Hf Hin; [lia |]. cbn [intersects_loop].
  rewrite empty_spec by done. case_bool_decide as He.
  - exists false. split; [done |]. split; [done |]. intros (i1 & Hi & _). set_solver.
  - destruct (first_spec t Ht He) as (t' & i1 & -> & Ht' & Hb & Hi1 & _). step.
    destruct (Hin i1 Hi1) as [Hi1s Hi1v].
    rewrite getBit_spec by (apply Hv || by apply (bits_range (l1_ v i0)), Hi1v; apply Hv). step.
    rewrite bool_decide_true by done. cbn [negb].
    rewrite intersectsWith_spec by (by apply Hs || by apply Hv). step.
    rewrite <- (cell_in s i0 i1 Hi1s), <- (cell_in v i0 i1 Hi1v).
    case_bool_decide as Hc; [exists true; split; [done |]; split; [by exists i1 | done] |].
    destruct (IH t' Ht') as (b & -> & Hflag).
    + assert (base.size (bits t) <> 0%nat) by (intros Hz; by apply He, leibniz_equiv, size_empty_iff).
      rewrite Hb, size_difference, size_singleton by set_solver. lia.
    + intros j Hj. apply Hin. set_solver.
    + exists b. split; [done |]. rewrite Hflag. split; intros (j & Hj & Hne); exists j; (split; [| done]).
      * set_solver.
      * rewrite Hb. apply elem_of_difference. split; [done |]. intros ->%elem_of_singleton. done.
Qed.

Lemma intersects_rows_spec (s v : TLV) (l : list Z) : two_wf L s -> two_wf L v -> (forall i, i ∈ l -> 0 <= i < L) ->
  exists b, intersects_rows s v l = Ok b /\
    (b = true <-> exists i0 i1, i0 ∈ l /\ cell s i0 i1 ∩ cell v i0 i1 <> ∅).
Proof.
  intros Hs Hv. induction l as [| i0 l IH]; intros Hl; cbn [intersects_rows].
  - exists false. split; [done |]. split; [done |]. intros (i0 & i1 & Hi & _). by apply not_elem_of_nil in Hi.
  - assert (Hi0 : 0 <= i0 < L) by (apply Hl; by left). pose proof (Hs i0 Hi0) as Hsr. pose proof (Hv i0 Hi0) as Hvr.
    destruct (setIntersection_spec (l1_ s i0) (l1_ v i0) (proj1 Hsr) (proj1 Hvr)) as (t & -> & Hwt & Ht). step.
    destruct (intersects_loop_spec s v i0 t drain_fuel Hsr Hvr Hwt) as (b & -> & Hb).
    { pose proof (bits_size t Hwt). unfold drain_fuel. lia. }
    { intros i1. rewrite Ht, elem_of_intersection. done. }
    step. destruct b.
    + exists true. split; [done |]. split; [intros _ | done]. destruct (proj1 Hb eq_refl) as (i1 & _ & Hne).
      exists i0, i1. split; [by left | done].
    + destruct IH as (b & -> & Hb'); [intros i Hi; apply Hl; by right |]. exists b. split; [done |]. rewrite Hb'. split.
      * intros (j0 & j1 & Hj & Hne). exists j0, j1. split; [by right | done].
      * intros (j0 & j1 & [-> | Hj]%elem_of_cons & Hne); [| by exists j0, j1].
        assert (false = true); [| done]. apply Hb. exists j1. split; [| done].
        rewrite Ht. apply elem_of_intersection. split; apply first_level; try done; set_solver.
Qed.

Lemma two_intersectsWith_spec (s v : TLV) : two_wf L s -> two_wf L v ->
  two_intersectsWith L s v = Ok (bool_decide (two_bits L s ∩ two_bits L v <> ∅)).
Proof.
  intros Hs Hv. unfold two_intersectsWith.
  destruct (intersects_rows_spec s v (rows L) Hs Hv (fun i => proj1 (rows_in L i))) as (b & -> & Hb).
  f_equal. apply eq_true_iff_eq. rewrite Hb, bool_decide_eq_true. split.
  - intros (i0 & i1 & Hi0%rows_in & Hne) He. apply set_choose_L in Hne as [i2 [Hi Hj]%elem_of_intersection].
    destruct (cell_range L HL s i0 i1 i2 Hs Hi0 Hi) as [H1 H2].
    assert (join i0 i1 i2 ∈ two_bits L s ∩ two_bits L v); [| set_solver].
    apply elem_of_intersection. by rewrite !elem_of_join.
  - intros Hne. apply set_choose_L in Hne as [idx [[Hr Hi]%elem_of_two_bits [_ Hj]%elem_of_two_bits]%elem_of_intersection].
    exists (idx / (K * K)), ((idx / K) mod K). split; [by apply rows_in, split_range | set_solver].
Qed.

(** ** The instance *)

Lemma check_out (i : Z) : size2 <= i -> two_check (BV := BV) L i = Die CheckFailed.
Proof. intros Hi. unfold two_check. by rewrite (proj2 (Z.ltb_ge _ _)). Qed.

Lemma two_first_empty (s : TLV) : two_wf L s -> two_bits L s = ∅ -> two_getAndClearFirstOne L s = Die CheckFailed.
Proof.
  intros Hs He. pose proof (two_empty_spec L HL s Hs) as Hb. rewrite bool_decide_true in Hb by done.
  unfold two_empty in Hb. unfold two_getAndClearFirstOne. induction (rows L) as [| i l IH]; [done |].
  cbn [forallb two_first_loop] in *. apply andb_true_iff in Hb as [-> Hb]. by apply IH.
Qed.

#[export] Instance two_level_spec : BitVectorSpec TLV (H := two_level L).
Proof.
  refine {| bits := two_bits L; wf := two_wf L |}; cbn [kSize clear setAll empty setBit clearBit getBit
    getAndClearFirstOne setUnion setIntersection setDifference copyFrom intersectsWith two_level].
  - pose proof (K_pos (BV := BV)). unfold two_size. nia.
  - intros b i _ Hi. apply elem_of_two_bits in Hi. tauto.
  - apply two_clear_spec.
  - apply two_setAll_spec.
  - by apply two_empty_spec.
  - by apply two_setBit_spec.
  - by apply two_clearBit_spec.
  - by apply two_getBit_spec.
  - intros b i Hi. unfold two_setBit. by rewrite check_out.
  - intros b i Hi. unfold two_clearBit. by rewrite check_out.
  - intros b i Hi. unfold two_getBit. by rewrite check_out.
  - apply two_first_empty.
  - by apply two_first_spec.
  - by apply two_setUnion_spec.
  - apply two_setIntersection_spec.
  - apply two_setDifference_spec.
  - apply two_copyFrom_spec.
  - apply two_intersectsWith_spec.
Defined.

(** ** The iterator *)

Context `{HIT : !BVIterator BV} {HITS : BVIteratorSpec BV} (cleared : Iterator (BV := BV)).
Context (Hcleared : iter_wf cleared /\ remaining cleared = ∅).

Abbreviation TLI := (TwoLevelIterator (BV := BV)).

(** Rows from [start] on are untouched; in row [i0_], [it1_] holds the cells
    to come and [it2_] what is left of cell [i1_]. *)
Definition start (it : TLI) : Z :=
  if decide (remaining (it1_ it) = ∅ /\ remaining (it2_ it) = ∅) then i0_ it else i0_ it + 1.
Definition left_in (it : TLI) (i0 i1 i2 : Z) : Prop :=
  (start it <= i0 /\ i2 ∈ cell (bv_ it) i0 i1) \/
  (i0 = i0_ it /\ i1 ∈ remaining (it1_ it) /\ i2 ∈ cell (bv_ it) i0 i1) \/
  (i0 = i0_ it /\ i1 = i1_ it /\ i2 ∈ remaining (it2_ it)).
#[local] Instance left_in_dec it i0 i1 i2 : Decision (left_in it i0 i1 i2).
Proof. unfold left_in. apply _. Defined.

Definition two_remaining (it : TLI) : gset Z :=
  list_to_set (base.filter (fun idx => left_in it (idx / (K * K)) ((idx / K) mod K) (idx mod K)) (seqZ 0 size2)).

Record two_iter_wf (it : TLI) : Prop := {
  it_bv : two_wf L (bv_ it);
  it_row : 0 <= i0_ it;
  it_1 : iter_wf (it1_ it);
  it_2 : iter_wf (it2_ it);
  it_rem1 : forall i1, i1 ∈ remaining (it1_ it) -> i0_ it < L /\ i1 ∈ bits (l1_ (bv_ it) (i0_ it));
  it_rem2 : forall i2, i2 ∈ remaining (it2_ it) ->
    i0_ it < L /\ i1_ it ∉ remaining (it1_ it) /\ i2 ∈ cell (bv_ it) (i0_ it) (i1_ it);
}.

Lemma left_cell (it : TLI) (i0 i1 i2 : Z) : two_iter_wf it -> left_in it i0 i1 i2 ->
  i0_ it <= i0 /\ i2 ∈ cell (bv_ it) i0 i1.
Proof.
  intros Hit [[Hs Hc] | [(-> & _ & Hc) | (-> & -> & Hi)]].
  - unfold start in Hs. destruct (decide _); split; done || lia.
  - split; [lia | done].
  - split; [lia |]. by apply (it_rem2 it Hit).
Qed.

Lemma elem_of_two_remaining (it : TLI) (i0 i1 i2 : Z) : 0 <= i0 < L -> 0 <= i1 < K -> 0 <= i2 < K ->
  join i0 i1 i2 ∈ two_remaining it <-> left_in it i0 i1 i2.
Proof.
  intros H0 H1 H2. unfold two_remaining. rewrite elem_of_list_to_set, list_elem_of_filter, elem_of_seqZ.
  destruct (join_split i0 i1 i2 H1 H2) as (-> & -> & ->). pose proof (join_range L i0 i1 i2 H0 H1 H2). intuition lia.
Qed.

Lemma two_remaining_split (it : TLI) (idx : Z) : idx ∈ two_remaining it ->
  exists i0 i1 i2, idx = join (BV := BV) i0 i1 i2 /\ (0 <= i0 < L /\ 0 <= i1 < K /\ 0 <= i2 < K) /\ left_in it i0 i1 i2.
Proof.
  unfold two_remaining. rewrite elem_of_list_to_set, list_elem_of_filter, elem_of_seqZ. intros [Hl Hi].
  eexists _, _, _. split; [apply split_join |]. split; [apply split_range; lia | done].
Qed.

Lemma two_remaining_ne (it : TLI) : two_iter_wf it ->
  two_remaining it <> ∅ <-> exists i0 i1 i2, 0 <= i0 < L /\ left_in it i0 i1 i2.
Proof.
  intros Hit. split.
  - intros Hne. apply set_choose_L in Hne as [idx Hi].
    destruct (two_remaining_split it idx Hi) as (i0 & i1 & i2 & _ & (H0 & _) & Hl). by exists i0, i1, i2.
  - intros (i0 & i1 & i2 & H0 & Hl). destruct (left_cell it i0 i1 i2 Hit Hl) as [_ Hc].
    destruct (cell_range L HL _ i0 i1 i2 (it_bv it Hit) H0 Hc).
    assert (join i0 i1 i2 ∈ two_remaining it) by (by apply elem_of_two_remaining). set_solver.
Qed.

Lemma two_begin_spec (b : TLV) : two_wf L b ->
  two_iter_wf (two_begin cleared b) /\ two_remaining (two_begin cleared b) = two_bits L b.
Proof.
  destruct Hcleared as [Hc1 Hc2]. intros Hb. split.
  - split; cbn; try done; rewrite Hc2; set_solver.
  - symmetry. apply two_bits_cells; [done | |].
    + intros idx Hi. destruct (two_remaining_split _ idx Hi) as (i0 & i1 & i2 & -> & (H0 & H1 & H2) & _).
      by apply join_range.
    + intros i0 i1 i2 H0 H1 H2. rewrite elem_of_two_remaining by done. unfold left_in, start. cbn.
      rewrite Hc2, decide_True by done. set_solver by lia.
Qed.

(** [find_row] stops at the first row in use. *)
Definition same_left (it it' : TLI) : Prop :=
  forall i0 i1 i2, 0 <= i0 < L -> left_in it i0 i1 i2 <-> left_in it' i0 i1 i2.

Lemma start_empty (it : TLI) : remaining (it1_ it) = ∅ -> remaining (it2_ it) = ∅ -> start it = i0_ it.
Proof. intros H1 H2. unfold start. by rewrite decide_True. Qed.

Lemma start_busy (it : TLI) : remaining (it1_ it) <> ∅ \/ remaining (it2_ it) <> ∅ -> start it = i0_ it + 1.
Proof. intros Hne. unfold start. rewrite decide_False; [done | tauto]. Qed.

Lemma find_row_spec (k : nat) (it : TLI) : two_iter_wf it -> remaining (it1_ it) = ∅ -> remaining (it2_ it) = ∅ ->
  (exists i0 i1 i2, 0 <= i0 < L /\ left_in it i0 i1 i2) -> L - i0_ it <= Z.of_nat k ->
  let it' := find_row L it k in
  two_iter_wf it' /\ same_left it it' /\ remaining (it1_ it') <> ∅ /\ remaining (it2_ it') = ∅.
Proof.
  revert it. induction k as [| k IH]; intros it Hit H1 H2 (i0 & i1 & i2 & H0 & Hl) Hk;
    destruct (left_cell it i0 i1 i2 Hit Hl) as [Hle Hc]; cbn [find_row]; [lia |].
  pose proof (it_row it Hit) as Hrow. assert (Hr : 0 <= i0_ it < L) by lia.
  rewrite (proj2 (Z.ltb_lt _ _)) by lia. pose proof (it_bv it Hit (i0_ it) Hr) as Hrw.
  pose proof (row_empty (bv_ it) (i0_ it) Hrw) as Hre. destruct (empty (l1_ (bv_ it) (i0_ it))).
  - set (it1 := TwoIter (bv_ it) (i0_ it + 1) (i1_ it) (it1_ it) (it2_ it)).
    assert (Hsame : same_left it it1).
    { intros j0 j1 j2 Hj0. unfold left_in. rewrite !start_empty by done. cbn. rewrite H1, H2. split.
      - intros [[Hj Hx] | [(_ & Hx & _) | (_ & _ & Hx)]]; [| set_solver ..]. left. split; [| done].
        destruct (decide (j0 = i0_ it)) as [-> |]; [rewrite Hre in Hx; set_solver | lia].
      - intros [[Hj Hx] | [(_ & Hx & _) | (_ & _ & Hx)]]; [| set_solver ..]. left. split; [lia | done]. }
    destruct (IH it1) as (W & S & R1 & R2); [| done | done | | cbn; lia |].
    + destruct Hit. split; cbn; try done; [lia | rewrite H1; set_solver | rewrite H2; set_solver].
    + exists i0, i1, i2. split; [done |]. by apply Hsame.
    + split_and!; try done. intros j0 j1 j2 Hj. etransitivity; [by apply Hsame | by apply S].
  - destruct (begin_spec (l1_ (bv_ it) (i0_ it)) (proj1 Hrw)) as [B1 B2]. split_and!.
    + destruct Hit. split; cbn; try done; [| rewrite H2; set_solver].
      intros j. rewrite B2. intros Hj. split; [lia | done].
    + intros j0 j1 j2 Hj0. unfold left_in. rewrite start_empty, start_busy by (done || cbn; left; by rewrite B2).
      cbn. rewrite H1, H2, B2. split.
      * intros [[Hj Hx] | [(_ & Hx & _) | (_ & _ & Hx)]]; [| set_solver ..].
        destruct (decide (j0 = i0_ it)) as [-> |]; [right; left | left; split; [lia | done]].
        split_and!; [done | | done]. apply first_level; [done | set_solver].
      * intros [[Hj Hx] | [(-> & Hx & Hy) | (_ & _ & Hx)]]; [left; split; [lia | done] | left; split; [lia | done] | set_solver].
    + cbn. by rewrite B2.
    + done.
Qed.

(** [next] loads a cell when the last one is used up, ... *)
Lemma load_spec (it : TLI) : two_iter_wf it -> remaining (it1_ it) <> ∅ -> remaining (it2_ it) = ∅ ->
  exists it', (_ ← check (hasNext (it1_ it));
      '(it1, i1) ← next (it1_ it);
      Ok (TwoIter (bv_ it) (i0_ it) i1 it1 (iter_begin (l2_ (bv_ it) (i0_ it) i1)))) = Ok it' /\
    two_iter_wf it' /\ same_left it it' /\ remaining (it2_ it') <> ∅.
Proof.
  intros Hit H1 H2. destruct Hit as [B Hr W1 W2 R1 R2]. rewrite hasNext_spec, bool_decide_true by done. step.
  destruct (next_spec (it1_ it) W1 H1) as (it1 & i1 & -> & W1' & Hi1 & Hrem). step.
  destruct (R1 i1 Hi1) as [Hlt Hb]. pose proof (B (i0_ it) ltac:(lia)) as [Hw1 Hrow].
  destruct (Hrow i1 Hb) as [Hw2 Hne]. destruct (begin_spec (l2_ (bv_ it) (i0_ it) i1) Hw2) as [S1 S2].
  pose proof (cell_in (bv_ it) (i0_ it) i1 Hb) as Hcell.
  eexists. split; [done |]. split_and!.
  - split; cbn; try done.
    + intros j Hj. apply R1. rewrite Hrem in Hj. set_solver.
    + intros j. rewrite S2, <- Hcell, Hrem. intros Hj. split_and!; [done | set_solver | done].
  - intros j0 j1 j2 Hj0. unfold left_in. rewrite (start_busy it), start_busy by first [by left | right; cbn; by rewrite S2]. cbn.
    rewrite S2, <- Hcell, Hrem, H2, elem_of_difference, elem_of_singleton.
    split.
    + intros [? | [(-> & Hj & Hx) | (_ & _ & Hx)]]; [by left | | set_solver]. right.
      destruct (decide (j1 = i1)) as [-> |]; [by right | by left].
    + intros [? | [(-> & [Hj _] & Hx) | (-> & -> & Hx)]]; [by left | by right; left | by right; left].
  - cbn. by rewrite S2.
Qed.

(** ... takes an index from it, and moves to the next row when both levels
    of this one are used up. *)
Lemma take_spec (it : TLI) : two_iter_wf it -> remaining (it2_ it) <> ∅ ->
  exists it' i2, (_ ← check (hasNext (it2_ it));
      '(it2, i2) ← next (it2_ it);
      let it := TwoIter (bv_ it) (i0_ it) (i1_ it) (it1_ it) it2 in
      let res := i0_ it * K * K + i1_ it * K + i2 in
      Ok (if negb (hasNext (it1_ it)) && negb (hasNext (it2_ it))
          then TwoIter (bv_ it) (i0_ it + 1) (i1_ it) (it1_ it) (it2_ it) else it, res))
    = Ok (it', join (i0_ it) (i1_ it) i2) /\
    two_iter_wf it' /\ 0 <= i0_ it < L /\ left_in it (i0_ it) (i1_ it) i2 /\
    (forall j0 j1 j2, left_in it' j0 j1 j2 <-> left_in it j0 j1 j2 /\ (j0, j1, j2) <> (i0_ it, i1_ it, i2)).
Proof.
  intros Hit H2. destruct Hit as [B Hr W1 W2 R1 R2]. rewrite hasNext_spec, bool_decide_true by done. step.
  destruct (next_spec (it2_ it) W2 H2) as (it2 & i2 & -> & W2' & Hi2 & Hrem). step. cbn [i0_ i1_ it1_ it2_ bv_].
  destruct (R2 i2 Hi2) as (Hlt & Hn1 & Hc). rewrite !hasNext_spec by done.
  set (done_row := negb (bool_decide (remaining (it1_ it) <> ∅)) && negb (bool_decide (remaining it2 <> ∅))).
  assert (Hdone : if done_row then remaining (it1_ it) = ∅ /\ remaining it2 = ∅
                  else remaining (it1_ it) <> ∅ \/ remaining it2 <> ∅).
  { unfold done_row. case_bool_decide; case_bool_decide; cbn; tauto. }
  clearbody done_row. eexists _, i2. split; [done |]. split_and!; [| done | done | by right; right |].
  - destruct done_row; split; cbn; try done.
    + lia.
    + rewrite (proj1 Hdone). set_solver.
    + rewrite (proj2 Hdone). set_solver.
    + intros j. rewrite Hrem. intros [Hj _]%elem_of_difference. by apply R2.
  - intros j0 j1 j2. rewrite !pair_eq. unfold left_in at 2. rewrite (start_busy it) by by right.
    destruct done_row.
    + unfold left_in. rewrite start_empty by apply Hdone. cbn. destruct Hdone as [-> Hd2].
      rewrite Hd2 in Hrem |- *. split.
      * intros [? | [(_ & Hx & _) | (_ & _ & Hx)]]; [split; [by left | lia] | by apply not_elem_of_empty in Hx ..].
      * intros [[? | [(_ & Hx & _) | (-> & -> & Hj)]] Hne]; [by left | by apply not_elem_of_empty in Hx |].
        destruct Hne. split_and!; [done | done |]. destruct (decide (j2 = i2)) as [| Hd]; [done |].
        exfalso. apply (not_elem_of_empty (C := gset Z) j2). rewrite Hrem. apply elem_of_difference.
        by rewrite elem_of_singleton.
    + unfold left_in. rewrite start_busy by done. cbn. rewrite Hrem, elem_of_difference, elem_of_singleton. split.
      * intros [? | [(-> & Hj & ?) | (-> & -> & ? & ?)]]; (split; [tauto |]); [lia | | tauto].
        intros [[_ ->] _]. done.
      * intros [[? | [? | (-> & -> & Hj)]] Hne]; [by left | by right; left |]. right; right. tauto.
Qed.

Lemma two_next_spec (it : TLI) : two_iter_wf it -> two_remaining it <> ∅ ->
  exists it' idx, two_next L it = Ok (it', idx) /\ two_iter_wf it' /\ idx ∈ two_remaining it /\
    two_remaining it' = two_remaining it ∖ {[idx]}.
Proof.
  intros Hit Hne. unfold two_next. rewrite (hasNext_spec (it1_ it)), (hasNext_spec (it2_ it)) by apply Hit.
  set (it1 := if negb (bool_decide (remaining (it1_ it) <> ∅)) && negb (bool_decide (remaining (it2_ it) <> ∅))
              then find_row L it (Z.to_nat (L - i0_ it)) else it).
  assert (H1 : two_iter_wf it1 /\ same_left it it1 /\ (remaining (it1_ it1) <> ∅ \/ remaining (it2_ it1) <> ∅)).
  { unfold it1. repeat case_bool_decide; cbn; [split_and!; [done | done | tauto] .. |].
    destruct (find_row_spec (Z.to_nat (L - i0_ it)) it) as (W & S & R & _); try done; try by apply dec_stable.
    - by apply two_remaining_ne.
    - lia.
    - split_and!; [done | done | by left]. }
  clearbody it1. destruct H1 as (Hit1 & S1 & R1).
  rewrite (hasNext_spec (it2_ it1)) by apply Hit1.
  assert (H2 : exists it2, (if negb (bool_decide (remaining (it2_ it1) <> ∅)) then
      _ ← check (hasNext (it1_ it1));
      '(it3, i1) ← next (it1_ it1);
      Ok (TwoIter (bv_ it1) (i0_ it1) i1 it3 (iter_begin (l2_ (bv_ it1) (i0_ it1) i1))) else Ok it1) = Ok it2 /\
    two_iter_wf it2 /\ same_left it it2 /\ remaining (it2_ it2) <> ∅).
  { case_bool_decide as Hb; cbn [negb].
    - by exists it1.
    - destruct (load_spec it1 Hit1) as (it2 & -> & W & S & R); [tauto | done |]. exists it2.
      split_and!; try done. intros j0 j1 j2 Hj. etransitivity; [by apply S1 | by apply S]. }
  destruct H2 as (it2 & -> & Hit2 & S2 & R2). rewrite Ok_bind.
  destruct (take_spec it2 Hit2 R2) as (it3 & i2 & Hrun & Hit3 & Hr & Hl & S3).
  assert (Hl' : left_in it (i0_ it2) (i1_ it2) i2) by by apply S2.
  destruct (left_cell it _ _ _ Hit Hl') as [_ Hc].
  destruct (cell_range L HL _ _ _ _ (it_bv it Hit) Hr Hc) as [Hr1 Hr2].
  exists it3, (join (i0_ it2) (i1_ it2) i2). split_and!; [exact Hrun | done | by apply elem_of_two_remaining |].
  apply set_eq. intros idx. rewrite elem_of_difference, elem_of_singleton.
  assert (Hmem : forall j0 j1 j2, 0 <= j0 < L -> 0 <= j1 < K -> 0 <= j2 < K ->
    join j0 j1 j2 ∈ two_remaining it3 <->
    join j0 j1 j2 ∈ two_remaining it /\ join (BV := BV) j0 j1 j2 <> join (i0_ it2) (i1_ it2) i2).
  { intros j0 j1 j2 H0 H1 H2. rewrite !elem_of_two_remaining, S3 by done. rewrite (in_join _ (i0_ it2)) by done.
    destruct (join_split j0 j1 j2 H1 H2) as (-> & -> & ->). rewrite (S2 j0 j1 j2 H0), !pair_eq.
    split; intros [Hin Hd]; (split; [done |]); intros [[E1 E2] E3]; apply Hd;
      rewrite E1, E2, E3; split_and!; reflexivity. }
  split.
  - intros Hi. destruct (two_remaining_split _ _ Hi) as (j0 & j1 & j2 & -> & (H0 & H1 & H2) & _). by apply Hmem.
  - intros [Hi Hd]. destruct (two_remaining_split _ _ Hi) as (j0 & j1 & j2 & -> & (H0 & H1 & H2) & _). by apply Hmem.
Qed.

Lemma two_hasNext_spec (it : TLI) : two_iter_wf it -> two_hasNext L it = bool_decide (two_remaining it <> ∅).
Proof.
  intros Hit. apply eq_true_iff_eq. rewrite bool_decide_eq_true, two_remaining_ne by done.
  pose proof Hit as [B Hr W1 W2 R1 R2]. unfold two_hasNext. rewrite hasNext_spec by done.
  case_bool_decide as H1.
  - split; [intros _ | done]. apply set_choose_L in H1 as [i1 Hi1]. destruct (R1 i1 Hi1) as [Hlt Hb].
    assert (Hc : cell (bv_ it) (i0_ it) i1 <> ∅) by (apply first_level; [by apply B | done]).
    apply set_choose_L in Hc as [i2 Hi2]. exists (i0_ it), i1, i2. split; [done |]. by right; left.
  - rewrite existsb_exists. split.
    + intros (i & Hi%list_elem_of_In & Hne). apply elem_of_seqZ in Hi. pose proof (B i ltac:(lia)) as Hrw.
      pose proof (row_empty (bv_ it) i Hrw) as Hre. destruct (empty _); [done |].
      destruct (decide (remaining (it2_ it) = ∅)) as [H2 | H2].
      * apply set_choose_L in Hre as [i1 Hi1]. apply first_level, set_choose_L in Hi1 as [i2 Hi2]; [| done].
        exists i, i1, i2. split; [lia |]. left. rewrite start_empty by done. split; [lia | done].
      * apply set_choose_L in H2 as [i2 Hi2]. destruct (R2 i2 Hi2) as (Hlt & _ & Hc).
        exists (i0_ it), (i1_ it), i2. split; [done |]. by right; right.
    + intros (i0 & i1 & i2 & H0 & Hl). destruct (left_cell it i0 i1 i2 Hit Hl) as [Hle Hc]. exists i0.
      split; [apply list_elem_of_In, elem_of_seqZ; lia |]. pose proof (row_empty (bv_ it) i0 (B i0 H0)) as Hre.
      destruct (empty _); [| done]. rewrite Hre in Hc. set_solver.
Qed.

#[export] Instance two_iterator : BVIterator TLV := {|
  Iterator := TLI; iter_begin := two_begin cleared; hasNext := two_hasNext L; next := two_next L |}.

#[export] Instance two_iterator_spec : BVIteratorSpec TLV (H := two_level L) (BVIterator0 := two_iterator).
Proof.
  unshelve econstructor; [exact two_remaining | exact two_iter_wf | ..].
  - apply two_begin_spec.
  - apply two_hasNext_spec.
  - apply two_next_spec.
Defined.
End contract.

(** ** The vectors of the deadlock detector *)

Definition TwoLevelOfBasic : Type := TwoLevelBitVector (BV := BasicBitVector).

Definition run_two_level (w L : Z) : (nat -> TwoLevelOfBasic) -> command -> result ((nat -> TwoLevelOfBasic) * answer) :=
  run_command (H := two_level (HBV := basic_bit_vector w) L).
Definition cleared_two_level (w L : Z) (m : nat -> TwoLevelOfBasic) : nat -> TwoLevelOfBasic :=
  fun n => two_clear (HBV := basic_bit_vector w) L (m n).


