(* ===== verification/BVGraph.v ===== *)
(** * Graphs of bit vectors: sanitizer_bvgraph.h

    [BVGraph] is an adjacency matrix, one bit vector per node, with two
    scratch vectors.  [edge g x y] is the relation it stands for. *)

From S2P Require Import Prelude Words BitVector.

(** ** Definitions *)

Section graph.
Context {BV : Type} `{HBV : BitVector BV} `{HIT : !BVIterator BV}.

Abbreviation N := (kSize (BV := BV)).

Record BVGraph : Type := Graph { v : Z -> BV; t1 : BV; t2 : BV }.

Definition set_v (g : BVGraph) (i : Z) (b : BV) : BVGraph :=
  Graph (fun j => if j =? i then b else v g j) (t1 g) (t2 g).
(** [v[i]]: outside of the array there is nothing the program may touch. *)
Definition node (g : BVGraph) (i : Z) : result BV :=
  if (0 <=? i) && (i <? N) then Ok (v g i) else Die BadAccess.
Definition nodes : list Z := seqZ 0 N.

Definition graph_clear (g : BVGraph) : BVGraph :=
  foldl (fun g i => set_v g i (clear (v g i))) g nodes.
Definition graph_empty (g : BVGraph) : bool := forallb (fun i => empty (v g i)) nodes.

Definition check_edge (idx1 idx2 : Z) : result unit :=
  _ ← check (idx1 <? N);
  check (idx2 <? N).

Definition addEdge (g : BVGraph) (from to : Z) : result (BVGraph * bool) :=
  _ ← check_edge from to;
  b ← node g from;
  '(b, res) ← setBit b to;
  Ok (set_v g from b, res).

(** The state of the loop: the graph and [added_edges[0 .. res)]. *)
Definition add_edge_from (to : Z) (max_added_edges : Z) (st : BVGraph * list Z) (nd : Z) : result (BVGraph * list Z) :=
  let '(g, added_edges) := st in
  b ← node g nd;
  '(b, added) ← setBit b to;
  let g := set_v g nd b in
  Ok (g, if (added : bool) && (Z.of_nat (length added_edges) <? max_added_edges) then added_edges ++ [nd] else added_edges).
Definition addEdges (g : BVGraph) (from : BV) (to max_added_edges : Z) : result (BVGraph * list Z) :=
  t ← copyFrom (t1 g) from;
  '(t, (g, added_edges)) ← drain_keep (add_edge_from to max_added_edges) t (g, []) drain_fuel;
  Ok (Graph (v g) t (t2 g), added_edges).

(** The racy overload, without a check. *)
Definition hasEdge (g : BVGraph) (from to : Z) : result bool :=
  b ← node g from;
  getBit b to.
Definition hasEdge_const (g : BVGraph) (from to : Z) : result bool :=
  _ ← check_edge from to;
  b ← node g from;
  getBit b to.

Definition removeEdge (g : BVGraph) (from to : Z) : result (BVGraph * bool) :=
  b ← node g from;
  '(b, res) ← clearBit b to;
  Ok (set_v g from b, res).

Definition remove_to (to : BV) (st : BVGraph * bool) (from : Z) : result (BVGraph * bool) :=
  let '(g, res) := st in
  b ← node g from;
  '(b, changed) ← setDifference b to;
  Ok (set_v g from b, if changed : bool then true else res).
Definition removeEdgesTo (g : BVGraph) (to : BV) : result (BVGraph * bool) :=
  for_each (remove_to to) (g, false) nodes.

Definition remove_from (st : BVGraph * bool) (idx : Z) : result (BVGraph * bool) :=
  let '(g, res) := st in
  b ← node g idx;
  Ok (if negb (empty b) then (set_v g idx (clear b), true) else (g, res)).
Definition removeEdgesFrom (g : BVGraph) (from : BV) : result (BVGraph * bool) :=
  t ← copyFrom (t1 g) from;
  '(t, (g, res)) ← drain_keep remove_from t (g, false) drain_fuel;
  Ok (Graph (v g) t (t2 g), res).
(** [removeEdgesFrom(uptr from)] *)
Definition removeEdgesFromNode (g : BVGraph) (from : Z) : result BVGraph :=
  b ← node g from;
  Ok (set_v g from (clear b)).

Fixpoint reach_loop (g : BVGraph) (to_visit visited : BV) (fuel : nat) : result (BV * BV) :=
  match fuel with
  | O => Die OutOfFuel
  | S fuel' =>
      if empty to_visit then Ok (to_visit, visited)
      else
        '(to_visit, idx) ← getAndClearFirstOne to_visit;
        '(visited, fresh) ← setBit visited idx;
        to_visit ← (if fresh : bool then
                      b ← node g idx;
                      '(to_visit, _) ← setUnion to_visit b;
                      Ok to_visit
                    else Ok to_visit);
        reach_loop g to_visit visited fuel'
  end.
(** Every turn either visits a node or drops one of at most [N] from
    [to_visit]. *)
Definition reach_fuel : nat := Z.to_nat ((N + 1) * (N + 1)).

Definition isReachable (g : BVGraph) (from : Z) (targets : BV) : result (BVGraph * bool) :=
  b ← node g from;
  to_visit ← copyFrom (t1 g) b;
  let visited := clear (t2 g) in
  '(visited, _) ← setBit visited from;
  '(to_visit, visited) ← reach_loop g to_visit visited reach_fuel;
  res ← intersectsWith targets visited;
  Ok (Graph (v g) to_visit visited, res).

(** [for (BV::Iterator it(b); it.hasNext();) { idx = it.next(); if (res = rec(idx)) return res + 1; } return 0;] *)
Fixpoint path_loop (rec : Z -> list Z -> result (list Z * Z)) (it : Iterator) (path : list Z) (fuel : nat)
  : result (list Z * Z) :=
  match fuel with
  | O => Die OutOfFuel
  | S fuel' =>
      if hasNext it then
        '(it, idx) ← next it;
        '(path, res) ← rec idx path;
        if negb (res =? 0) then Ok (path, res + 1) else path_loop rec it path fuel'
      else Ok (path, 0)
  end.

(** [path] is the rest of the caller's array; its cells keep what failed
    attempts wrote into them. *)
Fixpoint findPath (g : BVGraph) (from : Z) (targets : BV) (path : list Z) (path_size : nat) : result (list Z * Z) :=
  match path_size with
  | O => Ok (path, 0)
  | S path_size' =>
      match path with
      | [] => Die BadAccess
      | _ :: rest =>
          found ← getBit targets from;
          if found : bool then Ok (from :: rest, 1)
          else
            b ← node g from;
            '(rest, res) ← path_loop (fun idx path => findPath g idx targets path path_size') (iter_begin b) rest drain_fuel;
            Ok (from :: rest, res)
      end
  end.

Fixpoint shortest_loop (g : BVGraph) (from : Z) (targets : BV) (path : list Z) (ps : list nat) : result (list Z * Z) :=
  match ps with
  | [] => Ok (path, 0)
  | p :: ps' =>
      '(path, res) ← findPath g from targets path p;
      if res =? Z.of_nat p then Ok (path, res) else shortest_loop g from targets path ps'
  end.
Definition findShortestPath (g : BVGraph) (from : Z) (targets : BV) (path : list Z) (path_size : nat)
  : result (list Z * Z) :=
  shortest_loop g from targets path (seq 1 path_size).
End graph.
