(* ===== verification/BVGraphSpecs.v ===== *)
(** * The graph operations as relations

    Everything is stated on [edge], the adjacency relation, for any bit vector
    that meets its contract. *)

From S2P Require Import Prelude Words BitVector BVGraph.

Section specs.
Context {BV : Type} `{HB : BitVectorSpec BV} `{HIT : !BVIterator BV} {HITS : BVIteratorSpec BV}.

Abbreviation N := (kSize (BV := BV)).
Abbreviation graph := (BVGraph (BV := BV)).

Definition graph_wf (g : graph) : Prop := forall x, 0 <= x < N -> wf (v g x).
Definition edge (g : graph) (x y : Z) : Prop := 0 <= x < N /\ y ∈ bits (v g x).

#[export] Instance edge_dec (g : graph) (x y : Z) : Decision (edge g x y).
Proof. unfold edge. apply _. Defined.

Lemma edge_range (g : graph) (x y : Z) : graph_wf g -> edge g x y -> 0 <= x < N /\ 0 <= y < N.
Proof. intros Hg [Hx Hy]. split; [done |]. by apply (bits_range (v g x)); [apply Hg |]. Qed.

Lemma node_spec (g : graph) (x : Z) : 0 <= x < N -> node g x = Ok (v g x).
Proof. intros Hx. unfold node. by rewrite (proj2 (Z.leb_le _ _)), (proj2 (Z.ltb_lt _ _)) by lia. Qed.

Lemma check_edge_spec (x y : Z) : 0 <= x < N -> 0 <= y < N -> check_edge (BV := BV) x y = Ok tt.
Proof. intros Hx Hy. unfold check_edge. by rewrite !check_true by (apply Z.ltb_lt; lia). Qed.

(** Replacing one adjacency vector. *)
Lemma set_v_wf (g : graph) (x : Z) (b : BV) : graph_wf g -> wf b -> graph_wf (set_v g x b).
Proof. intros Hg Hb y Hy. cbn. destruct (Z.eqb_spec y x); [done | by apply Hg]. Qed.

Lemma edge_set_v (g : graph) (x : Z) (b : BV) (y z : Z) : 0 <= x < N ->
  edge (set_v g x b) y z <-> if decide (y = x) then z ∈ bits b else edge g y z.
Proof.
  intros Hx. unfold edge. cbn. destruct (Z.eqb_spec y x) as [-> |]; [rewrite decide_True by done | rewrite decide_False by done];
    tauto.
Qed.

Lemma edge_row (g : graph) (x y : Z) : 0 <= x < N -> edge g x y <-> y ∈ bits (v g x).
Proof. unfold edge. tauto. Qed.

Lemma nodes_in (x : Z) : x ∈ nodes (BV := BV) <-> 0 <= x < N.
Proof. unfold nodes. rewrite elem_of_seqZ. lia. Qed.

(** ** Edges *)

Lemma union_changes (S : gset Z) (x : Z) : {[x]} ∪ S <> S <-> x ∉ S.
Proof. set_solver. Qed.

Lemma intersects_iff (S T : gset Z) : S ∩ T <> ∅ <-> exists y, y ∈ S /\ y ∈ T.
Proof.
  split.
  - intros [y Hy%elem_of_intersection]%set_choose_L. by exists y.
  - intros (y & H1 & H2) He. apply (not_elem_of_empty (C := gset Z) y). rewrite <- He. by apply elem_of_intersection.
Qed.

Lemma difference_changes (S T : gset Z) : S ∖ T <> S <-> S ∩ T <> ∅.
Proof.
  split.
  - intros Hne He. apply Hne. set_solver.
  - rewrite intersects_iff. intros (y & Hy & Ht) He. rewrite <- He in Hy. by apply elem_of_difference in Hy as [_ ?].
Qed.

Lemma addEdge_spec (g : graph) (from to : Z) : graph_wf g -> 0 <= from < N -> 0 <= to < N ->
  exists g', addEdge g from to = Ok (g', bool_decide (~ edge g from to)) /\ graph_wf g' /\
    forall x y, edge g' x y <-> edge g x y \/ (x = from /\ y = to).
Proof.
  intros Hg Hf Ht. unfold addEdge. rewrite check_edge_spec, node_spec by done. step.
  destruct (setBit_spec (v g from) to (Hg from Hf) Ht) as (b & -> & Hb & Hbits). step.
  eexists. split_and!; [do 2 f_equal | by apply set_v_wf |].
  - apply bool_decide_ext. by rewrite edge_row, union_changes.
  - intros x y. rewrite edge_set_v by done. destruct (decide (x = from)) as [-> |]; [| tauto].
    rewrite Hbits, edge_row by done. set_solver.
Qed.

Lemma addEdge_range (g : graph) (from to : Z) : ~ (from < N /\ to < N) -> addEdge g from to = Die CheckFailed.
Proof.
  intros Hn. unfold addEdge, check_edge. destruct (Z.ltb_spec from N); [| done]. step.
  rewrite (proj2 (Z.ltb_ge _ _)) by lia. done.
Qed.

Lemma hasEdge_spec (g : graph) (from to : Z) : graph_wf g -> 0 <= from < N -> 0 <= to < N ->
  hasEdge g from to = Ok (bool_decide (edge g from to)) /\ hasEdge_const g from to = Ok (bool_decide (edge g from to)).
Proof.
  intros Hg Hf Ht. unfold hasEdge, hasEdge_const. rewrite check_edge_spec, node_spec by done. step.
  rewrite getBit_spec by (by apply Hg || done). by rewrite (bool_decide_ext _ _ (edge_row g from to Hf)).
Qed.

Lemma removeEdge_spec (g : graph) (from to : Z) : graph_wf g -> 0 <= from < N -> 0 <= to < N ->
  exists g', removeEdge g from to = Ok (g', bool_decide (edge g from to)) /\ graph_wf g' /\
    forall x y, edge g' x y <-> edge g x y /\ ~ (x = from /\ y = to).
Proof.
  intros Hg Hf Ht. unfold removeEdge. rewrite node_spec by done. step.
  destruct (clearBit_spec (v g from) to (Hg from Hf) Ht) as (b & -> & Hb & Hbits). step.
  eexists. split_and!; [do 2 f_equal | by apply set_v_wf |].
  - apply bool_decide_ext. rewrite edge_row, difference_changes, intersects_iff by done.
    split; [by intros (y & Hy & ->%elem_of_singleton) | intros Hy; exists to; by rewrite elem_of_singleton].
  - intros x y. rewrite edge_set_v by done. destruct (decide (x = from)) as [-> |]; [| tauto].
    rewrite Hbits, edge_row by done. set_solver.
Qed.

Lemma removeEdgesFromNode_spec (g : graph) (from : Z) : graph_wf g -> 0 <= from < N ->
  exists g', removeEdgesFromNode g from = Ok g' /\ graph_wf g' /\ forall x y, edge g' x y <-> edge g x y /\ x <> from.
Proof.
  intros Hg Hf. unfold removeEdgesFromNode. rewrite node_spec by done. step.
  destruct (clear_spec (v g from)) as [Hb Hbits]. eexists. split_and!; [done | by apply set_v_wf |].
  intros x y. rewrite edge_set_v by done. destruct (decide (x = from)) as [-> |]; [| tauto]. rewrite Hbits.
  split; [by intros ?%not_elem_of_empty | tauto].
Qed.

(** The loops over many nodes: the rows done so far are changed. *)
Lemma addEdges_spec (g : graph) (from : BV) (to max : Z) : graph_wf g -> wf from -> 0 <= to < N -> 0 <= max ->
  exists g' added, addEdges g from to max = Ok (g', added) /\ graph_wf g' /\
    (forall x y, edge g' x y <-> edge g x y \/ (x ∈ bits from /\ y = to)) /\
    NoDup added /\ (forall x, x ∈ added -> x ∈ bits from /\ ~ edge g x to) /\
    (Z.of_nat (length added) = max \/ forall x, x ∈ bits from -> ~ edge g x to -> x ∈ added).
Proof.
  intros Hg Hfrom Hto Hmax. unfold addEdges.
  destruct (copyFrom_spec (t1 g) from Hfrom) as (t & -> & Ht & Hbt). rewrite Ok_bind.
  destruct (drain_keep_spec (add_edge_from to max) (fun D st => graph_wf (fst st) /\
    (forall x y, edge (fst st) x y <-> edge g x y \/ (x ∈ D /\ y = to)) /\
    NoDup (snd st) /\ (forall x, x ∈ snd st -> x ∈ D /\ x ∈ bits from /\ ~ edge g x to) /\
    Z.of_nat (length (snd st)) <= max /\
    (Z.of_nat (length (snd st)) = max \/ forall x, x ∈ D -> ~ edge g x to -> x ∈ snd st)) t (g, []) Ht)
    as (t' & [g' added] & -> & Ht' & _ & Hw & He & Hnd & Hin & _ & Hall).
  - cbn. split_and!; [done | set_solver | constructor | intros x Hx; by apply not_elem_of_nil in Hx | done |].
    right. set_solver.
  - intros D i [u l] Hi HiD (Hw & He & Hnd & Hin & Hlen & Hall). cbn [fst snd] in *. rewrite Hbt in Hi.
    pose proof (bits_range from i Hfrom Hi) as Hr. unfold add_edge_from. rewrite node_spec by done. step.
    destruct (setBit_spec (v u i) to (Hw i Hr) Hto) as (b & -> & Hb & Hbits). step.
    assert (Hnew : {[to]} ∪ bits (v u i) <> bits (v u i) <-> ~ edge g i to).
    { rewrite union_changes, <- edge_row, He by done. tauto. }
    eexists. split; [done |]. cbn [fst snd]. rewrite (bool_decide_ext _ _ Hnew).
    split; [by apply set_v_wf |]. split.
    { intros x y. rewrite edge_set_v, elem_of_union, elem_of_singleton by done.
      destruct (decide (x = i)) as [-> |]; [| rewrite He; tauto]. rewrite Hbits, elem_of_union, elem_of_singleton.
      rewrite <- edge_row, He by done. tauto. }
    case_bool_decide as Hd; cbn [andb]; [destruct (Z.ltb_spec (Z.of_nat (length l)) max) |].
    + split_and!.
      * apply NoDup_app. split_and!; [done | | apply NoDup_singleton].
        intros x Hx ->%list_elem_of_singleton. apply HiD. by apply Hin.
      * intros x [Hx | ->%list_elem_of_singleton]%elem_of_app; [| set_solver]. destruct (Hin x Hx). set_solver.
      * rewrite length_app. cbn. lia.
      * rewrite length_app. cbn. destruct Hall as [| Hall]; [lia |]. right.
        intros x [->%elem_of_singleton | Hx]%elem_of_union Hne; apply elem_of_app; [right; by left | left; by apply Hall].
    + split_and!; [done | | done | left; lia]. intros x Hx. destruct (Hin x Hx). set_solver.
    + split_and!; [done | | done |]. { intros x Hx. destruct (Hin x Hx). set_solver. }
      destruct Hall as [| Hall]; [by left | right]. intros x [->%elem_of_singleton | Hx]%elem_of_union Hne; [done | by apply Hall].
  - rewrite Ok_bind. cbn [fst snd] in *. rewrite Hbt in *. eexists _, added. split; [done |]. split_and!; try done.
    intros x Hx. by apply Hin.
Qed.

Lemma removeEdgesTo_spec (g : graph) (to : BV) : graph_wf g -> wf to ->
  exists g' res, removeEdgesTo g to = Ok (g', res) /\ graph_wf g' /\
    (forall x y, edge g' x y <-> edge g x y /\ y ∉ bits to) /\
    (res = true <-> exists x y, edge g x y /\ y ∈ bits to).
Proof.
  intros Hg Hto. unfold removeEdgesTo.
  destruct (for_each_spec (remove_to to) (fun dn st => graph_wf (fst st) /\
    (forall x y, edge (fst st) x y <-> edge g x y /\ (x ∈ dn -> y ∉ bits to)) /\
    (snd st = true <-> exists x y, x ∈ dn /\ edge g x y /\ y ∈ bits to)) nodes (g, false))
    as ([g' res] & -> & Hw & He & Hflag).
  - cbn. split_and!; [done | |].
    + intros x y. split; [| tauto]. intros H1. split; [done |]. intros Hx. by apply not_elem_of_nil in Hx.
    + split; [done |]. intros (x & y & Hx & _). by apply not_elem_of_nil in Hx.
  - intros dn i rest [u r] Hl (Hw & He & Hflag). cbn [fst snd] in *.
    assert (Hr : 0 <= i < N) by (apply nodes_in; rewrite Hl; set_solver).
    assert (Hnd : i ∉ dn).
    { pose proof (NoDup_seqZ 0 N) as Hnd. unfold nodes in Hl. rewrite Hl in Hnd.
      apply NoDup_app in Hnd as (_ & Hnd & _). intros Hin. apply (Hnd i Hin). by left. }
    unfold remove_to. rewrite node_spec by done. step.
    destruct (setDifference_spec (v u i) to (Hw i Hr) Hto) as (b & -> & Hb & Hbits). step.
    eexists. split; [done |]. cbn [fst snd]. split; [by apply set_v_wf |].
    assert (Hrow : forall y, y ∈ bits (v u i) <-> edge g i y).
    { intros y. rewrite <- edge_row, He by done. tauto. }
    split.
    + intros x y. rewrite edge_set_v, elem_of_app, list_elem_of_singleton by done.
      destruct (decide (x = i)) as [-> |]; [| rewrite He; tauto]. rewrite Hbits, elem_of_difference, Hrow. tauto.
    + transitivity (r = true \/ bits (v u i) ∖ bits to <> bits (v u i)).
      { case_bool_decide; intuition. }
      rewrite Hflag. split.
      * intros [(x & y & Hx & Hxy) | Hne]; [exists x, y; split; [apply elem_of_app; by left | done] |].
        apply difference_changes, intersects_iff in Hne as (y & Hy1 & Hy2). exists i, y.
        split; [apply elem_of_app; right; by left |]. by rewrite <- Hrow.
      * intros (x & y & [Hx | ->%list_elem_of_singleton]%elem_of_app & Hxy & Hy); [left; by exists x, y |].
        right. rewrite <- Hrow in Hxy. apply difference_changes, intersects_iff. by exists y.
  - cbn [fst snd] in *. exists g', res. split; [done |]. split_and!; [done | |].
    + intros x y. rewrite He. split; intros [H1 H2]; (split; [done |]); [apply H2, nodes_in, H1 | done].
    + rewrite Hflag. split; intros (x & y & Hx); exists x, y; [tauto |]. split; [apply nodes_in, Hx | done].
Qed.

Lemma removeEdgesFrom_spec (g : graph) (from : BV) : graph_wf g -> wf from ->
  exists g' res, removeEdgesFrom g from = Ok (g', res) /\ graph_wf g' /\
    (forall x y, edge g' x y <-> edge g x y /\ x ∉ bits from) /\
    (res = true <-> exists x y, edge g x y /\ x ∈ bits from).
Proof.
  intros Hg Hfrom. unfold removeEdgesFrom.
  destruct (copyFrom_spec (t1 g) from Hfrom) as (t & -> & Ht & Hbt). rewrite Ok_bind.
  destruct (drain_keep_spec remove_from (fun D st => graph_wf (fst st) /\
    (forall x y, edge (fst st) x y <-> edge g x y /\ x ∉ D) /\
    (snd st = true <-> exists x y, edge g x y /\ x ∈ D)) t (g, false) Ht)
    as (t' & [g' res] & -> & _ & _ & Hw & He & Hflag).
  - cbn. split_and!; [done | set_solver |]. split; [done |]. intros (x & y & _ & Hx). by apply not_elem_of_empty in Hx.
  - intros D i [u r] Hi HiD (Hw & He & Hflag). cbn [fst snd] in *. rewrite Hbt in Hi.
    pose proof (bits_range from i Hfrom Hi) as Hr. unfold remove_from. rewrite node_spec by done. step.
    assert (Hrow : forall y, y ∈ bits (v u i) <-> edge g i y) by (intros y; rewrite <- edge_row, He by done; tauto).
    rewrite empty_spec by by apply Hw. case_bool_decide as Hemp; cbn [negb]; eexists; (split; [done |]); cbn [fst snd].
    + split_and!; [done | |].
      * intros x y. rewrite He, elem_of_union, elem_of_singleton. split; [| tauto]. intros [Hxy HD]. split; [done |].
        intros [-> | Hx]; [| done]. apply Hrow in Hxy. rewrite Hemp in Hxy. by apply not_elem_of_empty in Hxy.
      * rewrite Hflag. split; intros (x & y & Hxy & Hx); exists x, y; (split; [done |]); [by apply elem_of_union_r |].
        apply elem_of_union in Hx as [->%elem_of_singleton | Hx]; [| done].
        apply Hrow in Hxy. rewrite Hemp in Hxy. by apply not_elem_of_empty in Hxy.
    + destruct (clear_spec (v u i)) as [Hcw Hcb]. split_and!; [by apply set_v_wf | |].
      * intros x y. rewrite edge_set_v, elem_of_union, elem_of_singleton by done.
        destruct (decide (x = i)) as [-> |]; [| rewrite He; tauto]. rewrite Hcb.
        split; [by intros ?%not_elem_of_empty | tauto].
      * split; [intros _ | done]. apply set_choose_L in Hemp as [y Hy]. exists i, y.
        split; [by apply Hrow | by apply elem_of_union_l, elem_of_singleton].
  - rewrite Ok_bind. cbn [fst snd] in *. rewrite Hbt in *. by eexists _, res.
Qed.

(** ** Reachability *)

Lemma bits_Zsize (b : BV) : wf b -> 0 <= Z.of_nat (base.size (bits b)) <= N.
Proof. intros Hb. pose proof (bits_size b Hb). pose proof kSize_pos. lia. Qed.

Lemma reach_loop_spec (g : graph) (from : Z) (fuel : nat) (to_visit visited : BV) : graph_wf g ->
  wf to_visit -> wf visited -> from ∈ bits visited ->
  (forall x, x ∈ bits visited \/ x ∈ bits to_visit -> rtc (edge g) from x) ->
  (forall x y, x ∈ bits visited -> edge g x y -> y ∈ bits visited \/ y ∈ bits to_visit) ->
  (N - Z.of_nat (base.size (bits visited))) * (N + 1) + Z.of_nat (base.size (bits to_visit)) < Z.of_nat fuel ->
  exists tv vis, reach_loop g to_visit visited fuel = Ok (tv, vis) /\ wf tv /\ wf vis /\
    forall x, x ∈ bits vis <-> rtc (edge g) from x.
Proof.
  intros Hg. revert to_visit visited. induction fuel as [| fuel IH]; intros tv vis Htv Hvis Hfrom Hreach Hclosed Hf.
  { pose proof (bits_Zsize vis Hvis). pose proof (bits_Zsize tv Htv). nia. }
  cbn [reach_loop]. rewrite empty_spec by done. case_bool_decide as He.
  - exists tv, vis. split_and!; try done. intros x. split; [intros Hx; apply Hreach; by left |].
    revert x. apply (rtc_ind_r (fun x => x ∈ bits vis)); [done |]. intros x y _ Hxy IHx.
    destruct (Hclosed x y IHx Hxy) as [| Hy]; [done |]. rewrite He in Hy. by apply not_elem_of_empty in Hy.
  - destruct (first_spec tv Htv He) as (tv1 & i & -> & Htv1 & Hb1 & Hi & _). step.
    pose proof (bits_range tv i Htv Hi) as Hr.
    destruct (setBit_spec vis i Hvis Hr) as (vis1 & -> & Hvis1 & Hbv). step.
    assert (Hsz : Z.of_nat (base.size (bits tv1)) = Z.of_nat (base.size (bits tv)) - 1).
    { assert (base.size (bits tv) <> 0%nat) by (intros Hz; by apply He, leibniz_equiv, size_empty_iff).
      rewrite Hb1, size_difference, size_singleton by set_solver. lia. }
    rewrite (bool_decide_ext _ _ (union_changes _ _)). case_bool_decide as Hd.
    + rewrite node_spec by done. step. destruct (setUnion_spec tv1 (v g i) Htv1 (Hg i Hr)) as (tv2 & -> & Htv2 & Hb2). step.
      apply IH; try done.
      * rewrite Hbv. by apply elem_of_union_r.
      * intros x. rewrite Hbv, Hb2, Hb1, !elem_of_union, elem_of_singleton, elem_of_difference.
        intros [[-> | Hx] | [[Hx _] | Hx]]; [apply Hreach; by right | apply Hreach; by left | apply Hreach; by right |].
        eapply rtc_r; [apply Hreach; by right | by split].
      * intros x y. rewrite Hbv, Hb2, Hb1, !elem_of_union, elem_of_singleton, elem_of_difference, elem_of_singleton.
        intros [-> | Hx] Hxy; [right; right; apply Hxy |]. destruct (decide (y = i)); [tauto |].
        destruct (Hclosed x y Hx Hxy); tauto.
      * assert (Hs1 : Z.of_nat (base.size (bits vis1)) = Z.of_nat (base.size (bits vis)) + 1).
        { rewrite Hbv, size_union, size_singleton by set_solver. lia. }
        pose proof (bits_Zsize vis1 Hvis1). pose proof (bits_Zsize tv2 Htv2). pose proof (bits_Zsize tv Htv). nia.
    + assert (Hv : bits vis1 = bits vis) by (rewrite Hbv; set_solver). step. apply IH; try done; rewrite ?Hv; try done.
      * intros x [Hx | Hx]; apply Hreach; [by left | right; rewrite Hb1 in Hx; set_solver].
      * intros x y Hx Hxy. destruct (decide (y = i)) as [-> |]; [left; tauto |].
        destruct (Hclosed x y Hx Hxy); [by left | right; rewrite Hb1; set_solver].
      * lia.
Qed.

Lemma isReachable_spec (g : graph) (from : Z) (targets : BV) : graph_wf g -> wf targets -> 0 <= from < N ->
  exists g' b, isReachable g from targets = Ok (g', b) /\ v g' = v g /\
    (b = true <-> exists x, x ∈ bits targets /\ rtc (edge g) from x).
Proof.
  intros Hg Ht Hf. unfold isReachable. rewrite node_spec by done. step.
  destruct (copyFrom_spec (t1 g) (v g from) (Hg from Hf)) as (tv & -> & Htv & Hbt). step.
  destruct (clear_spec (t2 g)) as [Hcw Hcb]. destruct (setBit_spec _ from Hcw Hf) as (vis & -> & Hvis & Hbv). step.
  rewrite Hcb, union_empty_r_L in Hbv.
  destruct (reach_loop_spec g from reach_fuel tv vis Hg Htv Hvis) as (tv' & vis' & -> & _ & Hvis' & Hiff).
  - rewrite Hbv. by apply elem_of_singleton.
  - intros x. rewrite Hbv, Hbt, elem_of_singleton. intros [-> | Hx]; [done |]. apply rtc_once. by split.
  - intros x y. rewrite Hbv, Hbt, !elem_of_singleton. intros -> [_ Hy]. by right.
  - pose proof (bits_Zsize vis Hvis). pose proof (bits_Zsize tv Htv). unfold reach_fuel.
    assert (Hs : Z.of_nat (base.size (bits vis)) = 1) by (rewrite Hbv, size_singleton; done). nia.
  - step. rewrite intersectsWith_spec by done. step. eexists _, _. split; [done |]. split; [done |].
    rewrite bool_decide_eq_true, intersects_iff. by setoid_rewrite Hiff.
Qed.

(** ** Paths *)

(** The nodes of a path, at least one. *)
Fixpoint walk (g : graph) (l : list Z) : Prop :=
  match l with
  | [] => False
  | x :: l' => match l' with [] => True | y :: _ => edge g x y /\ walk g l' end
  end.
Definition path_to (g : graph) (from : Z) (targets : gset Z) (l : list Z) : Prop :=
  head l = Some from /\ walk g l /\ exists z, last l = Some z /\ z ∈ targets.

Lemma path_to_one (g : graph) (from : Z) (targets : gset Z) : from ∈ targets -> path_to g from targets [from].
Proof. intros Hf. split; [done |]. split; [done |]. by exists from. Qed.

Lemma path_to_cons (g : graph) (from idx : Z) (targets : gset Z) (l : list Z) :
  edge g from idx -> path_to g idx targets l -> path_to g from targets (from :: l).
Proof.
  intros He (Hh & Hw & z & Hl & Hz). destruct l as [| y l]; [done |]. injection Hh as ->.
  split; [done |]. split; [done |]. exists z. by rewrite last_cons_cons.
Qed.

Lemma path_to_inv (g : graph) (from : Z) (targets : gset Z) (l : list Z) : path_to g from targets l ->
  (l = [from] /\ from ∈ targets) \/ exists idx l', l = from :: l' /\ edge g from idx /\ path_to g idx targets l'.
Proof.
  intros (Hh & Hw & z & Hl & Hz). destruct l as [| x [| y l]]; [done | |]; injection Hh as ->.
  - left. cbn in Hl. by injection Hl as ->.
  - right. destruct Hw as [He Hw]. exists y, (y :: l). split_and!; [done | done |]. rewrite last_cons_cons in Hl.
    split; [done |]. split; [done |]. by exists z.
Qed.

(** The loop over the successors: the first success ends it. *)
Lemma path_loop_spec (rec : Z -> list Z -> result (list Z * Z)) (none : Z -> Prop) (found : Z -> list Z -> nat -> Prop)
  (m : nat) (fuel : nat) (it : Iterator) (path : list Z) :
  (forall idx path, idx ∈ remaining it -> length path = m -> exists path' k, rec idx path = Ok (path', Z.of_nat k) /\
    length path' = m /\ ((k = 0%nat /\ none idx) \/ ((0 < k)%nat /\ found idx path' k))) ->
  iter_wf it -> (base.size (remaining it) < fuel)%nat -> length path = m ->
  exists path' k, path_loop rec it path fuel = Ok (path', Z.of_nat k) /\ length path' = m /\
    ((k = 0%nat /\ forall idx, idx ∈ remaining it -> none idx) \/
     exists idx j, idx ∈ remaining it /\ k = S j /\ (0 < j)%nat /\ found idx path' j).
Proof.
  revert it path. induction fuel as [| fuel IH]; intros it path Hrec Hit Hf Hlen; [lia |]. cbn [path_loop].
  rewrite hasNext_spec by done. case_bool_decide as He.
  - destruct (next_spec it Hit He) as (it' & idx & -> & Hit' & Hi & Hrem). step.
    destruct (Hrec idx path Hi Hlen) as (path1 & k & -> & Hlen1 & Hk). step.
    destruct Hk as [[-> Hnone] | [Hk Hfound]].
    + cbn [Z.of_nat Z.eqb negb]. destruct (IH it' path1) as (path2 & k & -> & Hlen2 & Hk); try done.
      * intros i p Hi' Hp. apply Hrec; [| done]. rewrite Hrem in Hi'. by apply elem_of_difference in Hi' as [? _].
      * assert (base.size (remaining it) <> 0%nat) by (intros Hz; by apply He, leibniz_equiv, size_empty_iff).
        rewrite Hrem, size_difference, size_singleton by set_solver. lia.
      * exists path2, k. split_and!; [done | done |]. destruct Hk as [[-> Hk] | (i & j & Hij & Hk)].
        -- left. split; [done |]. intros i Hi'. destruct (decide (i = idx)) as [-> |]; [done |].
           apply Hk. rewrite Hrem. apply elem_of_difference. by rewrite elem_of_singleton.
        -- right. exists i, j. split; [| done]. rewrite Hrem in Hij. by apply elem_of_difference in Hij as [? _].
    + rewrite (proj2 (Z.eqb_neq _ _)) by lia. cbn [negb]. exists path1, (S k).
      split_and!; [do 2 f_equal; lia | done |]. right. by exists idx, k.
  - exists path, 0%nat. split_and!; [done | done |]. left. split; [done |]. intros idx Hi. rewrite He in Hi.
    by apply not_elem_of_empty in Hi.
Qed.

Lemma findPath_spec (g : graph) (targets : BV) (n : nat) (from : Z) (path : list Z) :
  graph_wf g -> wf targets -> 0 <= from < N -> (n <= length path)%nat ->
  exists path' k, findPath g from targets path n = Ok (path', Z.of_nat k) /\ length path' = length path /\
    ((k = 0%nat /\ forall l, path_to g from (bits targets) l -> (n < length l)%nat) \/
     ((0 < k <= n)%nat /\ path_to g from (bits targets) (take k path'))).
Proof.
  intros Hg Ht. revert from path. induction n as [| n IH]; intros from path Hf Hlen; cbn [findPath].
  - exists path, 0%nat. split_and!; [done | done |]. left. split; [done |]. intros l (Hh & _). destruct l; [done |]. cbn. lia.
  - destruct path as [| p rest]; [cbn in Hlen; lia |]. rewrite getBit_spec by done. step. case_bool_decide as Hin.
    { exists (from :: rest), 1%nat. split_and!; [done | done |]. right. split; [lia |]. rewrite firstn_cons, take_0. by apply path_to_one. }
    rewrite node_spec by done. step. destruct (begin_spec (v g from) (Hg from Hf)) as [Hiw Hir].
    destruct (path_loop_spec (fun idx path => findPath g idx targets path n)
      (fun idx => forall l, path_to g idx (bits targets) l -> (n < length l)%nat)
      (fun idx path' k => (k <= n)%nat /\ path_to g idx (bits targets) (take k path'))
      (length rest) drain_fuel (iter_begin (v g from)) rest) as (rest' & k & -> & Hl' & Hk); try done.
    + intros idx pth Hi Hpl. rewrite Hir in Hi. cbn in Hlen.
      destruct (IH idx pth) as (p' & k & -> & Hpl' & Hk); [by apply (bits_range (v g from)); [apply Hg |] | lia |].
      exists p', k. split_and!; [done | by rewrite Hpl', Hpl |]. intuition lia.
    + rewrite Hir. pose proof (bits_size (v g from) (Hg from Hf)). unfold drain_fuel. lia.
    + step. exists (from :: rest'), k. split_and!; [done | cbn; by rewrite Hl' |].
      rewrite Hir in Hk. destruct Hk as [[-> Hnone] | (idx & j & Hi & -> & Hj & Hjn & Hp)].
      * left. split; [done |]. intros l [[-> Hin'] | (idx & l' & -> & He & Hl2)]%path_to_inv; [done |].
        cbn. specialize (Hnone idx (proj2 He) l' Hl2). lia.
      * right. split; [lia |]. rewrite firstn_cons. by apply (path_to_cons g from idx).
Qed.

Lemma shortest_loop_spec (g : graph) (from : Z) (targets : BV) (cnt n : nat) (path : list Z) :
  graph_wf g -> wf targets -> 0 <= from < N -> (0 < n)%nat -> (n + cnt <= S (length path))%nat ->
  (forall l, path_to g from (bits targets) l -> (n <= length l)%nat) ->
  exists path' k, shortest_loop g from targets path (seq n cnt) = Ok (path', Z.of_nat k) /\ length path' = length path /\
    ((k = 0%nat /\ forall l, path_to g from (bits targets) l -> (n + cnt <= length l)%nat) \/
     ((k < n + cnt)%nat /\ path_to g from (bits targets) (take k path') /\
      forall l, path_to g from (bits targets) l -> (k <= length l)%nat)).
Proof.
  intros Hg Ht Hf. revert n path. induction cnt as [| cnt IH]; intros n path Hn Hlen Hmin; cbn [seq shortest_loop].
  - exists path, 0%nat. split_and!; [done | done |]. left. split; [done |]. intros l Hl. specialize (Hmin l Hl). lia.
  - destruct (findPath_spec g targets n from path Hg Ht Hf) as (path1 & k & -> & Hl1 & Hk); [lia |]. step.
    destruct (Z.eqb_spec (Z.of_nat k) (Z.of_nat n)) as [E | E].
    + apply Nat2Z.inj in E. subst k. exists path1, n. split_and!; [done | done |].
      destruct Hk as [[-> _] | [Hk Hp]]; [lia |]. right. split_and!; [lia | done | done].
    + destruct (IH (S n) path1) as (path2 & j & -> & Hl2 & Hj); [lia | lia | |].
      * intros l Hl. destruct Hk as [[-> Hk] | [Hk Hp]]; [by apply Hk |].
        specialize (Hmin _ Hp). rewrite length_take in Hmin. lia.
      * exists path2, j. split_and!; [done | by rewrite Hl2 |]. destruct Hj as [[-> Hj] | Hj]; [left | right].
        -- split; [done |]. intros l Hl. specialize (Hj l Hl). lia.
        -- split; [lia |]. apply Hj.
Qed.

(** ** Sequences of edits *)

Lemma graph_clear_spec (g : graph) : graph_wf (graph_clear g) /\ forall x y, ~ edge (graph_clear g) x y.
Proof.
  assert (Hgen : forall l g, (forall x, x ∈ l \/ (wf (v g x) /\ bits (v g x) = ∅) ->
    let g' := foldl (fun g i => set_v g i (clear (v g i))) g l in wf (v g' x) /\ bits (v g' x) = ∅)).
  { induction l as [| i l IH]; intros g0 x Hx; cbn [foldl].
    - destruct Hx as [Hx |]; [by apply not_elem_of_nil in Hx | done].
    - apply IH. cbn. destruct (Z.eqb_spec x i) as [-> | Hne]; [right; apply clear_spec |].
      destruct Hx as [[-> | Hx]%elem_of_cons | Hx]; [done | by left | by right]. }
  assert (Hc : forall x, 0 <= x < N -> wf (v (graph_clear g) x) /\ bits (v (graph_clear g) x) = ∅).
  { intros x Hx. apply Hgen. left. by apply nodes_in. }
  split.
  - intros x Hx. by apply Hc.
  - intros x y [Hx Hy]. rewrite (proj2 (Hc x Hx)) in Hy. by apply not_elem_of_empty in Hy.
Qed.

Lemma graph_empty_spec (g : graph) : graph_wf g -> graph_empty g = true <-> forall x y, ~ edge g x y.
Proof.
  intros Hg. unfold graph_empty. rewrite forallb_forall. split.
  - intros Hall x y [Hx Hy]. assert (He : empty (v g x) = true) by (by apply Hall, list_elem_of_In, nodes_in).
    rewrite empty_spec in He by by apply Hg. apply bool_decide_eq_true in He. rewrite He in Hy.
    by apply not_elem_of_empty in Hy.
  - intros Hn x Hx%list_elem_of_In%nodes_in. rewrite empty_spec by by apply Hg. apply bool_decide_eq_true.
    apply set_eq. intros y. split; [| by intros ?%not_elem_of_empty]. intros Hy. by destruct (Hn x y).
Qed.

Inductive edit : Type :=
| AddEdge (from to : Z) | AddEdges (from : BV) (to : Z) (max : Z) | RemoveEdge (from to : Z)
| RemoveEdgesTo (to : BV) | RemoveEdgesFrom (from : BV) | RemoveEdgesFromNode (from : Z) | ClearGraph.

Definition run_edit (g : graph) (e : edit) : result graph :=
  match e with
  | AddEdge from to => fst <$> addEdge g from to
  | AddEdges from to max => fst <$> addEdges g from to max
  | RemoveEdge from to => fst <$> removeEdge g from to
  | RemoveEdgesTo to => fst <$> removeEdgesTo g to
  | RemoveEdgesFrom from => fst <$> removeEdgesFrom g from
  | RemoveEdgesFromNode from => removeEdgesFromNode g from
  | ClearGraph => Ok (graph_clear g)
  end.

(** What an edit does to a relation. *)
Definition edit_relation (R : Z -> Z -> Prop) (e : edit) (x y : Z) : Prop :=
  match e with
  | AddEdge from to => R x y \/ (x = from /\ y = to)
  | AddEdges from to _ => R x y \/ (x ∈ bits from /\ y = to)
  | RemoveEdge from to => R x y /\ ~ (x = from /\ y = to)
  | RemoveEdgesTo to => R x y /\ y ∉ bits to
  | RemoveEdgesFrom from => R x y /\ x ∉ bits from
  | RemoveEdgesFromNode from => R x y /\ x <> from
  | ClearGraph => False
  end.

Definition in_graph (x : Z) : Prop := 0 <= x < N.
Definition edit_ok (e : edit) : Prop :=
  match e with
  | AddEdge from to | RemoveEdge from to => in_graph from /\ in_graph to
  | AddEdges from to max => wf from /\ in_graph to /\ 0 <= max
  | RemoveEdgesTo b | RemoveEdgesFrom b => wf b
  | RemoveEdgesFromNode from => in_graph from
  | ClearGraph => True
  end.

Lemma run_edit_spec (g : graph) (R : Z -> Z -> Prop) (e : edit) : graph_wf g -> edit_ok e ->
  (forall x y, edge g x y <-> R x y) ->
  exists g', run_edit g e = Ok g' /\ graph_wf g' /\ forall x y, edge g' x y <-> edit_relation R e x y.
Proof.
  intros Hg He HR. destruct e as [f t | f t m | f t | b | b | f |]; cbn [run_edit edit_relation edit_ok] in *.
  - destruct (addEdge_spec g f t Hg (proj1 He) (proj2 He)) as (g' & -> & Hw & Hx). exists g'.
    split_and!; [done | done |]. intros x y. by rewrite Hx, HR.
  - destruct He as (Hf & Ht & Hm). destruct (addEdges_spec g f t m Hg Hf Ht Hm) as (g' & l & -> & Hw & Hx & _). exists g'.
    split_and!; [done | done |]. intros x y. by rewrite Hx, HR.
  - destruct (removeEdge_spec g f t Hg (proj1 He) (proj2 He)) as (g' & -> & Hw & Hx). exists g'.
    split_and!; [done | done |]. intros x y. by rewrite Hx, HR.
  - destruct (removeEdgesTo_spec g b Hg He) as (g' & r & -> & Hw & Hx & _). exists g'.
    split_and!; [done | done |]. intros x y. by rewrite Hx, HR.
  - destruct (removeEdgesFrom_spec g b Hg He) as (g' & r & -> & Hw & Hx & _). exists g'.
    split_and!; [done | done |]. intros x y. by rewrite Hx, HR.
  - destruct (removeEdgesFromNode_spec g f Hg He) as (g' & -> & Hw & Hx). exists g'.
    split_and!; [done | done |]. intros x y. by rewrite Hx, HR.
  - destruct (graph_clear_spec g) as [Hw Hx]. exists (graph_clear g). split_and!; [done | done |].
    intros x y. specialize (Hx x y). tauto.
Qed.

Lemma run_edits_spec (es : list edit) (g : graph) (R : Z -> Z -> Prop) : graph_wf g -> Forall edit_ok es ->
  (forall x y, edge g x y <-> R x y) ->
  exists g', for_each run_edit g es = Ok g' /\ graph_wf g' /\ forall x y, edge g' x y <-> foldl edit_relation R es x y.
Proof.
  revert g R. induction es as [| e es IH]; intros g R Hg Hes HR; cbn [for_each foldl]; [by exists g |].
  apply Forall_cons in Hes as [He Hes]. destruct (run_edit_spec g R e Hg He HR) as (g1 & -> & Hw & Hx). step.
  by apply IH.
Qed.

(** C22. BVGraph refines a binary relation, and isReachable decides
    reachability in it.  Over any bit vector that meets its contract, start
    from a cleared graph and apply any sequence of edits with indices in range
    (addEdge, addEdges, removeEdge, removeEdgesTo, both removeEdgesFrom,
    clear): no CHECK fails, empty() says whether the edited relation is empty,
    hasEdge tests it, and isReachable(from, targets) terminates within its
    fuel, leaves the edges alone and answers whether some target is reached
    from [from] by zero or more edges of the edited relation. *)
Theorem graph_refines_relation (g : graph) (es : list edit) : Forall edit_ok es ->
  let R := foldl edit_relation (fun _ _ => False) es in
  exists g', for_each run_edit (graph_clear g) es = Ok g' /\
    (graph_empty g' = true <-> forall x y, ~ R x y) /\
    (forall x y, in_graph x -> in_graph y -> exists b, hasEdge_const g' x y = Ok b /\ (b = true <-> R x y)) /\
    (forall from targets, in_graph from -> wf targets ->
      exists g2 b, isReachable g' from targets = Ok (g2, b) /\ v g2 = v g' /\
        (b = true <-> exists z, z ∈ bits targets /\ rtc R from z)).
Proof.
  intros Hes R. destruct (graph_clear_spec g) as [Hw Hne].
  destruct (run_edits_spec es (graph_clear g) (fun _ _ => False) Hw Hes) as (g' & Hrun & Hw' & HR).
  { intros x y. specialize (Hne x y). tauto. }
  exists g'. split; [done |]. split_and!.
  - rewrite graph_empty_spec by done. by setoid_rewrite HR.
  - intros x y Hx Hy. destruct (hasEdge_spec g' x y Hw' Hx Hy) as [_ ->]. eexists. split; [done |].
    by rewrite bool_decide_eq_true, HR.
  - intros from targets Hf Ht. destruct (isReachable_spec g' from targets Hw' Ht Hf) as (g2 & b & -> & Hv & Hb).
    exists g2, b. split_and!; [done | done |]. rewrite Hb. split; intros (z & Hz & Hr); exists z; (split; [done |]).
    + apply (rtc_subrel (edge g')); [| done]. intros x y. apply HR.
    + apply (rtc_subrel R); [| done]. intros x y. apply HR.
Qed.

Lemma findShortestPath_spec (g : graph) (from : Z) (targets : BV) (path : list Z) (path_size : nat) :
  graph_wf g -> wf targets -> in_graph from -> (path_size <= length path)%nat ->
  exists path' k, findShortestPath g from targets path path_size = Ok (path', Z.of_nat k) /\ length path' = length path /\
    (k = 0%nat -> forall l, path_to g from (bits targets) l -> (path_size < length l)%nat) /\
    ((0 < k)%nat -> (k <= path_size)%nat /\ path_to g from (bits targets) (take k path') /\
      forall l, path_to g from (bits targets) l -> (k <= length l)%nat).
Proof.
  intros Hg Ht Hf Hp. destruct (shortest_loop_spec g from targets path_size 1 path Hg Ht Hf) as (p' & k & Hrun & Hl & Hk).
  - lia.
  - lia.
  - intros [| x l] (Hh & _); [done | cbn; lia].
  - exists p', k. split_and!; [done | done | |].
    + intros ->. destruct Hk as [[_ Hk] | (_ & (Hh & _) & _)]; [intros l Hl'; specialize (Hk l Hl'); lia | done].
    + intros Hk0. destruct Hk as [[-> _] | (H1 & H2 & H3)]; [lia |]. split_and!; [lia | done | done].
Qed.

(** C31. findShortestPath finds a shortest path.  With an array of at least
    [path_size] cells it terminates without a failed CHECK or an access
    outside the array, and returns 0 exactly when no path of at most
    [path_size] nodes leads from [from] to a target; otherwise it returns the
    number of nodes of a path that starts with [from], follows edges, ends in
    a target and is stored at the start of the array, and no path to a target
    is shorter. *)
Theorem findShortestPath_shortest (g : graph) (from : Z) (targets : BV) (path : list Z) (path_size : nat) :
  graph_wf g -> wf targets -> in_graph from -> (path_size <= length path)%nat ->
  exists path' k, findShortestPath g from targets path path_size = Ok (path', Z.of_nat k) /\ length path' = length path /\
    (k = 0%nat -> forall l, path_to g from (bits targets) l -> (path_size < length l)%nat) /\
    ((0 < k)%nat -> (k <= path_size)%nat /\ path_to g from (bits targets) (take k path') /\
      forall l, path_to g from (bits targets) l -> (k <= length l)%nat).
Proof. apply findShortestPath_spec. Qed.
End specs.

(** ** An instance: graphs of eight nodes *)

Lemma w8_ok : 0 < 8 <= 64.
Proof. lia. Qed.

Definition graph8 : BVGraph (BV := BasicBitVector) := Graph (fun x => if x =? 0 then 6 else if x =? 1 then 8 else if x =? 2 then 16 else if x =? 3 then 16 else 0) 0 0.
Definition edits8 : list (edit (BV := BasicBitVector)) :=
  [AddEdge 0 1; AddEdge 1 2; AddEdges 7 4 10; RemoveEdge 0 4; AddEdge 4 5; RemoveEdgesTo 32; RemoveEdgesFromNode 2].

Lemma graph_refines_relation_witness :
  (let R := foldl (edit_relation (HB := basic_spec 8 w8_ok)) (fun _ _ => False) edits8 in
   exists g', for_each (run_edit (H := basic_bit_vector 8)) (graph_clear (HBV := basic_bit_vector 8) graph8) edits8 = Ok g' /\
    (graph_empty (HBV := basic_bit_vector 8) g' = true <-> forall x y, ~ R x y)) /\
  match for_each (run_edit (H := basic_bit_vector 8)) (graph_clear (HBV := basic_bit_vector 8) graph8) edits8 with
  | Ok g => snd <$> isReachable (HBV := basic_bit_vector 8) g 0 16 = Ok true
  | Die _ => False
  end.
Proof.
  split; [| vm_compute; reflexivity].
  destruct (graph_refines_relation (HB := basic_spec 8 w8_ok) graph8 edits8)
    as (g' & H1 & H2 & _).
  - repeat constructor; cbn; unfold in_graph, basic_wf; cbn; lia.
  - exists g'. split; [exact H1 | exact H2].
Defined.

Lemma findShortestPath_shortest_witness :
  (exists path' k, findShortestPath (HBV := basic_bit_vector 8) (HIT := basic_iterator 8) graph8 0 16 [9; 9; 9; 9] 4 = Ok (path', Z.of_nat k) /\
    length path' = 4%nat) /\
  findShortestPath (HBV := basic_bit_vector 8) (HIT := basic_iterator 8) graph8 0 16 [9; 9; 9; 9] 4 = Ok ([0; 2; 4; 9], 3).
Proof.
  split; [| vm_compute; reflexivity].
  destruct (findShortestPath_shortest (HB := basic_spec 8 w8_ok) (HITS := basic_iterator_spec 8 w8_ok) graph8 0 16 [9; 9; 9; 9] 4)
    as (p & k & H1 & H2 & _).
  - intros x Hx. cbn. unfold basic_wf, graph8. cbn. repeat case_match; lia.
  - cbn. unfold basic_wf. lia.
  - unfold in_graph. cbn. lia.
  - cbn. lia.
  - exists p, k. split; [exact H1 | exact H2].
Defined.
