(* ===== verification/DeadlockDetector.v ===== *)
(** * The deadlock detector: sanitizer_deadlock_detector.h

    [DeadlockDetectorTLS] holds the locks of a thread, [DeadlockDetector] the
    lock graph.  An array with its counter is the list of the cells in use:
    [recursive_locks[0 .. n_recursive_locks)],
    [all_locks_with_contexts_[0 .. n_all_locks_)], [edges_[0 .. n_edges_)]. *)

From S2P Require Import Prelude Words BitVector BVGraph.

(** [Swap(l[i], l[n - 1]); n--;] *)
Definition swap_remove {A} (i : nat) (l : list A) : list A :=
  match last l with
  | Some z => take (length l - 1) (<[i := z]> l)
  | None => l
  end.

(** [for (sptr i = n - 1; i >= 0; i--) if (p(l[i])) ...] *)
Fixpoint find_down {A} (p : A -> bool) (l : list A) (n : nat) : option nat :=
  match n with
  | O => None
  | S i => match l !! i with
           | Some x => if p x then Some i else find_down p l i
           | None => find_down p l i
           end
  end.

Section detector.
Context {BV : Type} `{HBV : BitVector BV} `{HIT : !BVIterator BV}.

Abbreviation N := (kSize (BV := BV)).

(** ** DeadlockDetectorTLS *)

Record LockWithContext : Type := Lock { lock : Z; lock_stk : Z }.
Record DeadlockDetectorTLS : Type := TLS {
  bv_ : BV;
  epoch_ : Z;
  recursive_locks : list Z;
  all_locks_with_contexts_ : list LockWithContext;
}.
Definition kMaxRecursiveLocks : Z := 64.
Definition kMaxLocks : Z := 128.

Definition tls_clear (t : DeadlockDetectorTLS) : DeadlockDetectorTLS := TLS (clear (bv_ t)) 0 [] [].
Definition tls_empty (t : DeadlockDetectorTLS) : bool := empty (bv_ t).
Definition tls_ensureCurrentEpoch (t : DeadlockDetectorTLS) (current_epoch : Z) : DeadlockDetectorTLS :=
  if epoch_ t =? current_epoch then t else TLS (clear (bv_ t)) current_epoch [] [].

Definition addLock (t : DeadlockDetectorTLS) (lock_id current_epoch stk : Z) : result (DeadlockDetectorTLS * bool) :=
  _ ← check (epoch_ t =? current_epoch);
  '(b, first) ← setBit (bv_ t) lock_id;
  if negb first then
    _ ← check (Z.of_nat (length (recursive_locks t)) <? kMaxRecursiveLocks);
    Ok (TLS b (epoch_ t) (recursive_locks t ++ [lock_id]) (all_locks_with_contexts_ t), false)
  else
    _ ← check (Z.of_nat (length (all_locks_with_contexts_ t)) <? kMaxLocks);
    Ok (TLS b (epoch_ t) (recursive_locks t) (all_locks_with_contexts_ t ++ [Lock (to_u32 lock_id) stk]), true).

Definition removeLock (t : DeadlockDetectorTLS) (lock_id : Z) : result DeadlockDetectorTLS :=
  match find_down (fun r => r =? lock_id) (recursive_locks t) (length (recursive_locks t)) with
  | Some i => Ok (TLS (bv_ t) (epoch_ t) (swap_remove i (recursive_locks t)) (all_locks_with_contexts_ t))
  | None =>
      '(b, cleared) ← clearBit (bv_ t) lock_id;
      let t := TLS b (epoch_ t) (recursive_locks t) (all_locks_with_contexts_ t) in
      if negb cleared then Ok t
      else
        match find_down (fun l => lock l =? to_u32 lock_id) (all_locks_with_contexts_ t)
                (length (all_locks_with_contexts_ t)) with
        | Some i => Ok (TLS (bv_ t) (epoch_ t) (recursive_locks t) (swap_remove i (all_locks_with_contexts_ t)))
        | None => Ok t
        end
  end.

Fixpoint find_context (l : list LockWithContext) (lock_id : Z) : Z :=
  match l with
  | [] => 0
  | c :: l' => if lock c =? to_u32 lock_id then lock_stk c else find_context l' lock_id
  end.
Definition tls_findLockContext (t : DeadlockDetectorTLS) (lock_id : Z) : Z :=
  find_context (all_locks_with_contexts_ t) lock_id.

Definition getLocks (t : DeadlockDetectorTLS) (current_epoch : Z) : result BV :=
  _ ← check (epoch_ t =? current_epoch);
  Ok (bv_ t).

(** ** DeadlockDetector *)

Record Edge : Type := MkEdge { from : Z; to : Z; stk_from : Z; stk_to : Z; unique_tid : Z }.
Record DeadlockDetector : Type := Detector {
  current_epoch_ : Z;
  available_nodes_ : BV;
  recycled_nodes_ : BV;
  tmp_bv_ : BV;
  g_ : BVGraph (BV := BV);
  data_ : Z -> Z;
  edges_ : list Edge;
}.
Definition kMaxEdges : Z := N * 32.

Definition set_g (d : DeadlockDetector) (g : BVGraph) : DeadlockDetector :=
  Detector (current_epoch_ d) (available_nodes_ d) (recycled_nodes_ d) (tmp_bv_ d) g (data_ d) (edges_ d).

Definition dd_clear (d : DeadlockDetector) : DeadlockDetector :=
  Detector 0 (clear (available_nodes_ d)) (clear (recycled_nodes_ d)) (tmp_bv_ d) (graph_clear (g_ d)) (data_ d) [].

Definition check_idx (idx : Z) : result unit := check (idx <? N).
Definition nodeToEpoch (node : Z) : Z := node / N * N.
Definition check_node (d : DeadlockDetector) (node : Z) : result unit :=
  _ ← check (N <=? node);
  check (current_epoch_ d =? nodeToEpoch node).
Definition indexToNode (d : DeadlockDetector) (idx : Z) : result Z :=
  _ ← check_idx idx;
  Ok (idx +w current_epoch_ d).
Definition nodeToIndexUnchecked (node : Z) : Z := node mod N.
Definition nodeToIndex (d : DeadlockDetector) (node : Z) : result Z :=
  _ ← check_node d node;
  Ok (nodeToIndexUnchecked node).

Definition getAvailableNode (d : DeadlockDetector) (data : Z) : result (DeadlockDetector * Z) :=
  '(available, idx) ← getAndClearFirstOne (available_nodes_ d);
  let d := Detector (current_epoch_ d) available (recycled_nodes_ d) (tmp_bv_ d) (g_ d)
             (fun i => if i =? idx then data else data_ d i) (edges_ d) in
  node ← indexToNode d idx;
  Ok (d, node).

Fixpoint drop_edges (recycled : BV) (es : list Edge) (n : nat) : result (list Edge) :=
  match n with
  | O => Ok es
  | S i =>
      e ← get_or_die (es !! i);
      f ← getBit recycled (from e);
      t ← (if f : bool then Ok true else getBit recycled (to e));
      drop_edges recycled (if t : bool then swap_remove i es else es) i
  end.

Definition newNode (d : DeadlockDetector) (data : Z) : result (DeadlockDetector * Z) :=
  if negb (empty (available_nodes_ d)) then getAvailableNode d data
  else if negb (empty (recycled_nodes_ d)) then
    es ← drop_edges (recycled_nodes_ d) (edges_ d) (length (edges_ d));
    _ ← check (empty (available_nodes_ d));
    '(g, _) ← removeEdgesTo (g_ d) (recycled_nodes_ d);
    '(available, _) ← setUnion (available_nodes_ d) (recycled_nodes_ d);
    getAvailableNode (Detector (current_epoch_ d) available (clear (recycled_nodes_ d)) (tmp_bv_ d) g (data_ d) es) data
  else
    getAvailableNode (Detector (current_epoch_ d +w N) (setAll (available_nodes_ d)) (clear (recycled_nodes_ d))
                        (tmp_bv_ d) (graph_clear (g_ d)) (data_ d) []) data.

Definition getData (d : DeadlockDetector) (node : Z) : result Z :=
  idx ← nodeToIndex d node;
  Ok (data_ d idx).

Definition nodeBelongsToCurrentEpoch (d : DeadlockDetector) (node : Z) : bool :=
  negb (node =? 0) && (node / N * N =? current_epoch_ d).

Definition removeNode (d : DeadlockDetector) (node : Z) : result DeadlockDetector :=
  idx ← nodeToIndex d node;
  a ← getBit (available_nodes_ d) idx;
  _ ← check (negb a);
  '(recycled, added) ← setBit (recycled_nodes_ d) idx;
  _ ← check added;
  g ← removeEdgesFromNode (g_ d) idx;
  Ok (Detector (current_epoch_ d) (available_nodes_ d) recycled (tmp_bv_ d) g (data_ d) (edges_ d)).

Definition ensureCurrentEpoch (d : DeadlockDetector) (dtls : DeadlockDetectorTLS) : DeadlockDetectorTLS :=
  tls_ensureCurrentEpoch dtls (current_epoch_ d).

Definition onLockBefore (d : DeadlockDetector) (dtls : DeadlockDetectorTLS) (cur_node : Z)
  : result (DeadlockDetector * DeadlockDetectorTLS * bool) :=
  let dtls := ensureCurrentEpoch d dtls in
  cur_idx ← nodeToIndex d cur_node;
  locks ← getLocks dtls (current_epoch_ d);
  '(g, res) ← isReachable (g_ d) cur_idx locks;
  Ok (set_g d g, dtls, res).

Definition findLockContext (d : DeadlockDetector) (dtls : DeadlockDetectorTLS) (node : Z) : result Z :=
  idx ← nodeToIndex d node;
  Ok (tls_findLockContext dtls idx).

Definition onLockAfter (d : DeadlockDetector) (dtls : DeadlockDetectorTLS) (cur_node stk : Z)
  : result DeadlockDetectorTLS :=
  let dtls := ensureCurrentEpoch d dtls in
  cur_idx ← nodeToIndex d cur_node;
  '(dtls, _) ← addLock dtls cur_idx (current_epoch_ d) stk;
  Ok dtls.

Fixpoint all_edges (d : DeadlockDetector) (locks : list LockWithContext) (cur_idx : Z) : result bool :=
  match locks with
  | [] => Ok true
  | l :: locks' =>
      e ← hasEdge (g_ d) (lock l) cur_idx;
      if negb e then Ok false else all_edges d locks' cur_idx
  end.
Definition hasAllEdges (d : DeadlockDetector) (dtls : DeadlockDetectorTLS) (cur_node : Z) : result bool :=
  let local_epoch := epoch_ dtls in
  if negb (cur_node =? 0) && (local_epoch =? current_epoch_ d) && (local_epoch =? nodeToEpoch cur_node) then
    all_edges d (all_locks_with_contexts_ dtls) (nodeToIndexUnchecked cur_node)
  else Ok false.

(** The body of the loop over [added_edges]. *)
Definition record_edge (dtls : DeadlockDetectorTLS) (cur_idx stk tid : Z) (es : list Edge) (added : Z) : list Edge :=
  if Z.of_nat (length es) <? kMaxEdges then
    es ++ [MkEdge (to_u16 added) (to_u16 cur_idx) (tls_findLockContext dtls added) stk tid]
  else es.
Definition kMaxAddedEdges : Z := 40.
Definition dd_addEdges (d : DeadlockDetector) (dtls : DeadlockDetectorTLS) (cur_node stk unique_tid : Z)
  : result (DeadlockDetector * DeadlockDetectorTLS * Z) :=
  let dtls := ensureCurrentEpoch d dtls in
  cur_idx ← nodeToIndex d cur_node;
  locks ← getLocks dtls (current_epoch_ d);
  '(g, added_edges) ← addEdges (g_ d) locks cur_idx kMaxAddedEdges;
  Ok (Detector (current_epoch_ d) (available_nodes_ d) (recycled_nodes_ d) (tmp_bv_ d) g (data_ d)
        (foldl (record_edge dtls cur_idx stk unique_tid) (edges_ d) added_edges), dtls,
      Z.of_nat (length added_edges)).

Fixpoint find_edge (es : list Edge) (from_idx to_idx : Z) : option Edge :=
  match es with
  | [] => None
  | e :: es' => if (from e =? from_idx) && (to e =? to_idx) then Some e else find_edge es' from_idx to_idx
  end.
(** [stk_from], [stk_to] and [unique_tid] of the edge that was found. *)
Definition findEdge (d : DeadlockDetector) (from_node to_node : Z) : result (option (Z * Z * Z)) :=
  from_idx ← nodeToIndex d from_node;
  to_idx ← nodeToIndex d to_node;
  Ok ((fun e => (stk_from e, stk_to e, unique_tid e)) <$> find_edge (edges_ d) from_idx to_idx).

Definition isHeld (d : DeadlockDetector) (dtls : DeadlockDetectorTLS) (node : Z) : result bool :=
  locks ← getLocks dtls (current_epoch_ d);
  idx ← nodeToIndex d node;
  getBit locks idx.

Definition onLock (d : DeadlockDetector) (dtls : DeadlockDetectorTLS) (cur_node stk : Z)
  : result (DeadlockDetector * DeadlockDetectorTLS * bool) :=
  let dtls := ensureCurrentEpoch d dtls in
  held ← isHeld d dtls cur_node;
  '(d, dtls, is_reachable) ← (if negb held then onLockBefore d dtls cur_node else Ok (d, dtls, false));
  '(d, dtls, _) ← dd_addEdges d dtls cur_node stk 0;
  dtls ← onLockAfter d dtls cur_node stk;
  Ok (d, dtls, is_reachable).

Definition onTryLock (d : DeadlockDetector) (dtls : DeadlockDetectorTLS) (cur_node stk : Z)
  : result (DeadlockDetectorTLS * bool) :=
  let dtls := ensureCurrentEpoch d dtls in
  cur_idx ← nodeToIndex d cur_node;
  '(dtls, _) ← addLock dtls cur_idx (current_epoch_ d) stk;
  Ok (dtls, false).

Definition onFirstLock (dtls : DeadlockDetectorTLS) (node stk : Z) : result (DeadlockDetectorTLS * bool) :=
  if negb (tls_empty dtls) then Ok (dtls, false)
  else if negb (epoch_ dtls =? 0) && (epoch_ dtls =? nodeToEpoch node) then
    '(dtls, _) ← addLock dtls (nodeToIndexUnchecked node) (nodeToEpoch node) stk;
    Ok (dtls, true)
  else Ok (dtls, false).

(** [path[i] = indexToNode(path[i])] for [i < res]. *)
Fixpoint nodes_of (d : DeadlockDetector) (path : list Z) (res : nat) : result (list Z) :=
  match res with
  | O => Ok path
  | S res' =>
      match path with
      | [] => Die BadAccess
      | idx :: path' => n ← indexToNode d idx; rest ← nodes_of d path' res'; Ok (n :: rest)
      end
  end.
Definition findPathToLock (d : DeadlockDetector) (dtls : DeadlockDetectorTLS) (cur_node : Z) (path : list Z) (path_size : nat)
  : result (DeadlockDetector * list Z * Z) :=
  locks ← getLocks dtls (current_epoch_ d);
  tmp ← copyFrom (tmp_bv_ d) locks;
  let d := Detector (current_epoch_ d) (available_nodes_ d) (recycled_nodes_ d) tmp (g_ d) (data_ d) (edges_ d) in
  idx ← nodeToIndex d cur_node;
  h ← getBit tmp idx;
  _ ← check (negb h);
  '(path, res) ← findShortestPath (g_ d) idx tmp path path_size;
  path ← nodes_of d path (Z.to_nat res);
  _ ← (if negb (res =? 0) then p0 ← get_or_die (head path); check (p0 =? cur_node) else Ok tt);
  Ok (d, path, res).

Definition onUnlock (dtls : DeadlockDetectorTLS) (node : Z) : result DeadlockDetectorTLS :=
  if epoch_ dtls =? nodeToEpoch node then removeLock dtls (nodeToIndexUnchecked node) else Ok dtls.

Definition onLockFast (d : DeadlockDetector) (dtls : DeadlockDetectorTLS) (node stk : Z)
  : result (DeadlockDetectorTLS * bool) :=
  all ← hasAllEdges d dtls node;
  if all : bool then
    '(dtls, _) ← addLock dtls (nodeToIndexUnchecked node) (nodeToEpoch node) stk;
    Ok (dtls, true)
  else Ok (dtls, false).
End detector.
