(* ===== verification/DeadlockSpecs.v ===== *)
(** * What the detector's operations do to locks and graph

    The invariants of the detector and of a thread's locks, and the effect of
    every operation on them, for any bit vector that meets its contract. *)

From S2P Require Import Prelude Words BitVector BVGraph BVGraphSpecs DeadlockDetector.

(** ** The arrays *)

Lemma swap_remove_perm {A} (i : nat) (l : list A) (x : A) : l !! i = Some x -> l ≡ₚ x :: swap_remove i l.
Proof.
  intros Hi. destruct l as [| z l _] using rev_ind; [done |]. unfold swap_remove. rewrite last_snoc, length_app. cbn [length].
  replace (length l + 1 - 1)%nat with (length l) by lia. destruct (decide (i < length l)%nat) as [Hlt | Hge].
  - rewrite lookup_app_l in Hi by done. destruct (list_elem_of_split_length l i x Hi) as (a & b & -> & ->).
    rewrite <- app_assoc. cbn [app]. rewrite insert_app_r_alt by lia. replace (length a - length a)%nat with 0%nat by lia. cbn [insert list_insert].
    change (z :: b ++ [z]) with ((z :: b) ++ [z]).
    rewrite (app_assoc a (z :: b)), take_app_length' by (rewrite !length_app; cbn; lia). solve_Permutation.
  - assert (i = length l) as ->.
    { apply lookup_lt_Some in Hi. rewrite length_app in Hi. cbn in Hi. lia. }
    rewrite list_lookup_middle in Hi by done. injection Hi as ->.
    rewrite insert_app_r_alt, Nat.sub_diag by lia. cbn. rewrite take_app_length. solve_Permutation.
Qed.

(** Where the elements of a shortened array come from. *)
Lemma swap_remove_lookup {A} (i j : nat) (l : list A) (x : A) : swap_remove i l !! j = Some x -> (i < length l)%nat ->
  (j = i /\ l !! (length l - 1)%nat = Some x /\ (i < length l - 1)%nat) \/ (j <> i /\ l !! j = Some x).
Proof.
  intros Hj Hi. destruct l as [| z l _] using rev_ind; [cbn in Hi; lia |]. unfold swap_remove in Hj.
  rewrite last_snoc, length_app in Hj. cbn [length] in Hj. replace (length l + 1 - 1)%nat with (length l) in Hj by lia.
  rewrite length_app. cbn [length]. replace (length l + 1 - 1)%nat with (length l) by lia.
  apply lookup_take_Some in Hj as [Hj Hlt]. destruct (decide (j = i)) as [-> | Hne].
  - left. rewrite list_lookup_insert_eq in Hj by (rewrite length_app; cbn; lia). rewrite list_lookup_middle by done. done.
  - right. by rewrite list_lookup_insert_ne in Hj.
Qed.

Lemma find_down_Some {A} (p : A -> bool) (l : list A) (n i : nat) : find_down p l n = Some i ->
  exists x, l !! i = Some x /\ p x = true.
Proof.
  induction n as [| n IH]; cbn; [done |]. destruct (l !! n) as [x |] eqn:Hn; [| done].
  destruct (p x) eqn:Hp; [intros [= ->]; by exists x | done].
Qed.

Lemma find_down_None {A} (p : A -> bool) (l : list A) (n : nat) : find_down p l n = None ->
  forall i x, (i < n)%nat -> l !! i = Some x -> p x = false.
Proof.
  induction n as [| n IH]; cbn; intros Hf i x Hi Hx; [lia |]. destruct (decide (i = n)) as [-> |].
  - rewrite Hx in Hf. by destruct (p x).
  - apply (IH ltac:(destruct (l !! n) as [y |]; [by destruct (p y) | done]) i x); [lia | done].
Qed.

Section specs.
Context {BV : Type} `{HB : BitVectorSpec BV} `{HIT : !BVIterator BV} {HITS : BVIteratorSpec BV}.

Abbreviation N := (kSize (BV := BV)).
Abbreviation detector := (DeadlockDetector (BV := BV)).
Abbreviation tls := (DeadlockDetectorTLS (BV := BV)).

(** Lock ids fit the 16-bit fields of [Edge]. *)
Context (HN : N <= 65536).

(** ** Invariants *)

Definition allocated (d : detector) (x : Z) : Prop :=
  in_graph (BV := BV) x /\ x ∉ bits (available_nodes_ d) /\ x ∉ bits (recycled_nodes_ d).

Record dd_wf (d : detector) : Prop := {
  d_graph : graph_wf (g_ d);
  d_available : wf (available_nodes_ d);
  d_recycled : wf (recycled_nodes_ d);
  d_disjoint : bits (available_nodes_ d) ## bits (recycled_nodes_ d);
  d_epoch : 0 <= current_epoch_ d;
  d_epoch_max : current_epoch_ d + N <= word_modulus;
  d_epoch_mod : current_epoch_ d mod N = 0;
  d_edge : forall x y, edge (g_ d) x y ->
    allocated d x /\ y ∉ bits (available_nodes_ d);
  d_list : Forall (fun e => in_graph (BV := BV) (from e) /\ in_graph (BV := BV) (to e)) (edges_ d);
}.

(** A node id the program may use now. *)
Definition node_ok (d : detector) (node : Z) : Prop :=
  N <= node /\ nodeToEpoch (BV := BV) node = current_epoch_ d /\ allocated d (nodeToIndexUnchecked (BV := BV) node).

Record tls_wf (t : tls) : Prop := {
  t_bits : wf (bv_ t);
  t_locks : (lock <$> all_locks_with_contexts_ t) ≡ₚ elements (bits (bv_ t));
  t_recursive : forall x, x ∈ recursive_locks t -> x ∈ bits (bv_ t);
}.
(** The locks of a thread that is in the current epoch are in use. *)
Definition tls_current (d : detector) (t : tls) : Prop :=
  epoch_ t = current_epoch_ d -> forall x, x ∈ bits (bv_ t) -> allocated d x.

Lemma N_pos : 0 < N.
Proof. apply kSize_pos. Qed.

Lemma index_range (node : Z) : in_graph (BV := BV) (nodeToIndexUnchecked (BV := BV) node).
Proof. pose proof N_pos. unfold in_graph, nodeToIndexUnchecked. apply Z.mod_pos_bound. lia. Qed.

Lemma node_split (node : Z) : node = nodeToIndexUnchecked (BV := BV) node + nodeToEpoch (BV := BV) node.
Proof. pose proof N_pos. unfold nodeToIndexUnchecked, nodeToEpoch. pose proof (Z.div_mod node N). lia. Qed.

Lemma node_join (e i : Z) : e mod N = 0 -> 0 <= i < N ->
  nodeToEpoch (BV := BV) (i + e) = e /\ nodeToIndexUnchecked (BV := BV) (i + e) = i.
Proof.
  pose proof N_pos as HNp. intros He Hi. unfold nodeToEpoch, nodeToIndexUnchecked.
  apply Z.mod_divide in He as [k ->]; [| lia]. rewrite Z.div_add, Z.mod_add by lia.
  rewrite Z.div_small, Z.mod_small by lia. lia.
Qed.

Lemma nodeToIndex_spec (d : detector) (node : Z) : node_ok d node ->
  nodeToIndex d node = Ok (nodeToIndexUnchecked (BV := BV) node).
Proof.
  intros (H1 & H2 & _). unfold nodeToIndex, check_node.
  rewrite (check_true (N <=? node)), check_true by (by apply Z.leb_le || by apply Z.eqb_eq). done.
Qed.

Lemma nodeBelongs_spec (d : detector) (node : Z) : 0 <= node -> current_epoch_ d <> 0 ->
  nodeBelongsToCurrentEpoch d node = true <-> N <= node /\ nodeToEpoch (BV := BV) node = current_epoch_ d.
Proof.
  pose proof N_pos. intros Hn He. unfold nodeBelongsToCurrentEpoch. fold (nodeToEpoch (BV := BV) node).
  rewrite andb_true_iff, negb_true_iff, Z.eqb_neq, Z.eqb_eq. split; [| intros [? ?]; split; [lia | done]].
  intros [_ Hep]. split; [| done]. rewrite <- Hep in He. unfold nodeToEpoch in He.
  destruct (Z.lt_ge_cases node N); [| done]. rewrite Z.div_small in He by lia. lia.
Qed.

Lemma epoch_multiple (d : detector) : dd_wf d -> current_epoch_ d <> 0 -> N <= current_epoch_ d.
Proof.
  clear HN. intros Hd Hne. pose proof N_pos. pose proof (d_epoch_mod d Hd) as [k Hk]%Z.mod_divide; [| lia].
  pose proof (d_epoch d Hd) as Hpos. rewrite Hk in Hne, Hpos |- *. assert (k <> 0) by (intros ->; lia). assert (~ k < 0) by nia. nia.
Qed.

Lemma edge_allocated (d : detector) (x y : Z) : dd_wf d -> edge (g_ d) x y -> allocated d x.
Proof. intros Hd He. by apply (d_edge d Hd x y). Qed.

(** ** Nodes *)

Lemma getAvailableNode_spec (d : detector) (data : Z) : dd_wf d -> N <= current_epoch_ d -> bits (available_nodes_ d) <> ∅ ->
  exists d' idx, getAvailableNode d data = Ok (d', idx + current_epoch_ d) /\ dd_wf d' /\
    current_epoch_ d' = current_epoch_ d /\ idx ∈ bits (available_nodes_ d) /\ node_ok d' (idx + current_epoch_ d) /\
    nodeToIndexUnchecked (BV := BV) (idx + current_epoch_ d) = idx /\
    (forall x, allocated d' x <-> allocated d x \/ x = idx) /\ g_ d' = g_ d /\ edges_ d' = edges_ d /\
    (forall x, data_ d' x = if decide (x = idx) then data else data_ d x).
Proof.
  intros Hd He Hne. pose proof Hd as [G A R Dis E1 E2 E3 Ed El]. unfold getAvailableNode.
  destruct (first_spec _ A Hne) as (b & i & -> & Hb & Hbits & Hi & _). rewrite Ok_bind.
  pose proof (bits_range _ i A Hi) as Hr. unfold indexToNode, check_idx. cbn [current_epoch_].
  rewrite check_true by (apply Z.ltb_lt; lia). rewrite !Ok_bind.
  rewrite wrap_small by (split; lia). destruct (node_join (current_epoch_ d) i E3 Hr) as [J1 J2].
  assert (Hal : forall x, allocated (Detector (current_epoch_ d) b (recycled_nodes_ d) (tmp_bv_ d) (g_ d)
      (fun j => if j =? i then data else data_ d j) (edges_ d)) x <-> allocated d x \/ x = i).
  { intros x. unfold allocated. cbn. rewrite Hbits, elem_of_difference, elem_of_singleton. split.
    - intros (H1 & H2 & H3). destruct (decide (x = i)) as [-> |]; [by right |]. left. tauto.
    - intros [(H1 & H2 & H3) | ->]; [tauto |]. split_and!; [done | tauto |]. set_solver. }
  eexists _, i. split; [done |]. split_and!; try done.
  - split; cbn; try done.
    + rewrite Hbits. set_solver.
    + intros x y Hxy. destruct (Ed x y Hxy) as [H1 H2]. split; [apply Hal; by left |]. rewrite Hbits. set_solver.
  - split; [lia |]. rewrite J1, J2. split; [done |]. apply Hal. by right.
  - intros x. cbn. destruct (Z.eqb_spec x i); [by rewrite decide_True | by rewrite decide_False].
Qed.

Lemma drop_edges_spec (rec : BV) (k : nat) (es : list Edge) : wf rec ->
  Forall (fun e => in_graph (BV := BV) (from e) /\ in_graph (BV := BV) (to e)) es -> (k <= length es)%nat ->
  (forall i e, (k <= i)%nat -> es !! i = Some e -> from e ∉ bits rec /\ to e ∉ bits rec) ->
  exists es', drop_edges rec es k = Ok es' /\ (forall e, e ∈ es' -> e ∈ es /\ from e ∉ bits rec /\ to e ∉ bits rec) /\
    (forall e, e ∈ es -> from e ∉ bits rec -> to e ∉ bits rec -> e ∈ es').
Proof.
  intros Hrec. revert es. induction k as [| k IH]; intros es Hes Hk Hclean; cbn [drop_edges].
  - exists es. split_and!; [done | | done]. intros e He. split; [done |].
    apply list_elem_of_lookup in He as [i Hi]. apply (Hclean i); [lia | done].
  - destruct (lookup_lt_is_Some_2 es k ltac:(lia)) as [e He]. rewrite He. cbn [get_or_die]. rewrite Ok_bind.
    destruct (proj1 (Forall_lookup _ _) Hes k e He) as [Hf Ht].
    rewrite (getBit_spec rec (from e)) by done. rewrite Ok_bind.
    assert (Hdirty : exists b, (if bool_decide (from e ∈ bits rec) then Ok true else getBit rec (to e)) = Ok b /\
      (b = true <-> from e ∈ bits rec \/ to e ∈ bits rec)).
    { case_bool_decide; [exists true; tauto |]. rewrite getBit_spec by done. eexists. split; [done |].
      rewrite bool_decide_eq_true. tauto. }
    destruct Hdirty as (b & -> & Hb). rewrite Ok_bind. destruct b.
    + pose proof (swap_remove_perm k es e He) as Hp. pose proof (lookup_lt_Some _ _ _ He) as Hlt.
      destruct (IH (swap_remove k es)) as (es' & -> & H1 & H2).
      * rewrite Hp in Hes. by apply Forall_cons in Hes as [_ ?].
      * apply Permutation_length in Hp. cbn in Hp. lia.
      * intros i e' Hi He'. destruct (swap_remove_lookup k i es e' He' Hlt) as [(-> & Hl & Hlast) | (Hne & Hl)].
        -- apply (Hclean (length es - 1)%nat); [lia | done].
        -- apply (Hclean i); [lia | done].
      * exists es'. split_and!; [done | |].
        -- intros e' He'. destruct (H1 e' He') as [Hin Hc]. split; [| done]. rewrite Hp. by right.
        -- intros e' He' Hf' Ht'. apply H2; [| done | done]. rewrite Hp in He'. apply elem_of_cons in He' as [-> |]; [| done].
           destruct (proj1 Hb eq_refl); done.
    + apply IH; [done | lia |]. intros i e' Hi He'. destruct (decide (i = k)) as [-> |]; [| apply (Hclean i); [lia | done]].
      rewrite He in He'. injection He' as <-. destruct (decide (from e ∈ bits rec)), (decide (to e ∈ bits rec)); try tauto;
        assert (false = true) by (apply Hb; tauto); done.
Qed.

(** A new node is fresh and isolated: either the epoch goes on, the nodes in
    use keep their edges, or everything was in use and the epoch changes. *)
Lemma newNode_spec (d : detector) (data : Z) : dd_wf d -> (current_epoch_ d = 0 -> bits (available_nodes_ d) = ∅ /\ bits (recycled_nodes_ d) = ∅) ->
  current_epoch_ d + N + N <= word_modulus ->
  exists d' idx, newNode d data = Ok (d', idx + current_epoch_ d') /\ dd_wf d' /\ N <= current_epoch_ d' /\
    node_ok d' (idx + current_epoch_ d') /\ nodeToIndexUnchecked (BV := BV) (idx + current_epoch_ d') = idx /\
    data_ d' idx = data /\ ~ (allocated d idx /\ current_epoch_ d' = current_epoch_ d) /\
    (forall x y, edge (g_ d') x y -> edge (g_ d) x y /\ x <> idx /\ y <> idx) /\
    ((current_epoch_ d' = current_epoch_ d /\ (forall x, allocated d' x <-> allocated d x \/ x = idx) /\
        (forall x y, allocated d x -> allocated d y -> edge (g_ d) x y -> edge (g_ d') x y) /\
        (forall x, x <> idx -> data_ d' x = data_ d x)) \/
     (current_epoch_ d' = current_epoch_ d + N /\ (forall x, in_graph (BV := BV) x -> allocated d x) /\
        (forall x, allocated d' x <-> x = idx))).
Proof.
  intros Hd H0 Hmax. pose proof N_pos as HNp. pose proof Hd as [G A R Dis E1 E2 E3 Ed El]. unfold newNode.
  pose proof (epoch_multiple d Hd) as Hep.
  rewrite empty_spec by done. case_bool_decide as Ha; cbn [negb].
  2: { (* a vacant node *)
    destruct (getAvailableNode_spec d data Hd) as (d' & i & -> & Hw & He & Hi & Hok & Hidx & Hal & Hg & _ & Hdata); [| done |].
    { apply Hep. intros Hz. by destruct (H0 Hz). }
    exists d', i. rewrite He. split_and!; try done.
    - apply Hep. intros Hz. by destruct (H0 Hz).
    - by rewrite Hdata, decide_True.
    - intros [(_ & Hn & _) _]. done.
    - rewrite Hg. intros x y Hxy. destruct (Ed x y Hxy) as [(_ & Hx & _) Hy]. split_and!; [done | |]; intros ->; done.
    - left. split_and!; [done | done | by rewrite Hg |]. intros x Hx. by rewrite Hdata, decide_False. }
  rewrite empty_spec by done. case_bool_decide as Hr; cbn [negb].
  - (* flush *)
    rewrite wrap_small by (split; lia). destruct (graph_clear_spec (g_ d)) as [Gw Gn].
    destruct (setAll_spec (available_nodes_ d)) as [Sw Sb]. destruct (clear_spec (recycled_nodes_ d)) as [Cw Cb].
    set (d1 := Detector (current_epoch_ d + N) _ _ _ _ _ _).
    assert (Hd1 : dd_wf d1).
    { split; cbn; try done; try lia.
      - rewrite Cb. set_solver.
      - replace (current_epoch_ d + N) with (current_epoch_ d + 1 * N) by lia. by rewrite Z.mod_add by lia.
      - intros x y Hxy. by destruct (Gn x y). }
    destruct (getAvailableNode_spec d1 data Hd1) as (d' & i & -> & Hw & He & Hi & Hok & Hidx & Hal & Hg & _ & Hdata).
    { cbn. lia. }
    { cbn. rewrite Sb. intros Hz. assert (0 ∈ range_set N) by (apply elem_of_range_set; lia). set_solver. }
    exists d', i. rewrite He. cbn [current_epoch_ d1]. split_and!; try done.
    + cbn. lia.
    + by rewrite Hdata, decide_True.
    + intros [_ Hbad]. lia.
    + rewrite Hg. intros x y Hxy. by destruct (Gn x y).
    + right. split_and!; [done | |].
      * intros x Hx. split; [done |]. rewrite Ha, Hr. split; apply not_elem_of_empty.
      * intros x. rewrite Hal. split; [| by right]. intros [(Hx & Hn & _) | ->]; [| done].
        destruct Hn. cbn. rewrite Sb. by apply elem_of_range_set.
  - (* recycle *)
    destruct (drop_edges_spec (recycled_nodes_ d) (length (edges_ d)) (edges_ d) R El) as (es & -> & Hes1 & Hes2); [lia | |].
    { intros j e Hj He. apply lookup_lt_Some in He. lia. }
    rewrite Ok_bind. step.
    destruct (removeEdgesTo_spec (g_ d) (recycled_nodes_ d) G R) as (g' & r & -> & Gw & Ge & _). rewrite Ok_bind.
    destruct (setUnion_spec _ _ A R) as (b & -> & Bw & Bb). rewrite Ok_bind. rewrite Ha, union_empty_l_L in Bb.
    destruct (clear_spec (recycled_nodes_ d)) as [Cw Cb]. set (d1 := Detector (current_epoch_ d) b _ _ _ _ _).
    assert (Hal1 : forall x, allocated d1 x <-> allocated d x).
    { intros x. unfold allocated. cbn. rewrite Bb, Cb, Ha. pose proof (not_elem_of_empty (C := gset Z) x). tauto. }
    assert (Hd1 : dd_wf d1).
    { split; cbn; try done.
      - rewrite Cb. set_solver.
      - intros x y. rewrite Ge. intros [Hxy Hy]. destruct (Ed x y Hxy) as [Hx _]. split; [by apply Hal1 | by rewrite Bb].
      - apply Forall_forall. intros e He. destruct (Hes1 e He) as [Hin _]. by apply (proj1 (Forall_forall _ _) El). }
    assert (He0 : N <= current_epoch_ d).
    { apply Hep. intros Hz. by destruct (H0 Hz). }
    destruct (getAvailableNode_spec d1 data Hd1) as (d' & i & -> & Hw & He & Hi & Hok & Hidx & Hal & Hg & _ & Hdata);
      [done | by cbn; rewrite Bb |].
    cbn in Hi. rewrite Bb in Hi. exists d', i. rewrite He. cbn [current_epoch_ d1]. split_and!; try done.
    + by rewrite Hdata, decide_True.
    + intros [(_ & _ & Hn) _]. done.
    + rewrite Hg. cbn. intros x y. rewrite Ge. intros [Hxy Hy]. destruct (Ed x y Hxy) as [(_ & _ & Hx) _].
      split_and!; [done | |]; intros ->; done.
    + left. split_and!; [done | | |].
      * intros x. by rewrite Hal, Hal1.
      * intros x y _ (_ & _ & Hy) Hxy. rewrite Hg. cbn. by apply Ge.
      * intros x Hx. by rewrite Hdata, decide_False.
Qed.

Lemma removeNode_spec (d : detector) (node : Z) : dd_wf d -> node_ok d node ->
  exists d', removeNode d node = Ok d' /\ dd_wf d' /\ current_epoch_ d' = current_epoch_ d /\ data_ d' = data_ d /\
    bits (available_nodes_ d') = bits (available_nodes_ d) /\
    (forall x, allocated d' x <-> allocated d x /\ x <> nodeToIndexUnchecked (BV := BV) node) /\
    (forall x y, edge (g_ d') x y <-> edge (g_ d) x y /\ x <> nodeToIndexUnchecked (BV := BV) node).
Proof.
  intros Hd Hn. pose proof Hd as [G A R Dis E1 E2 E3 Ed El]. unfold removeNode. rewrite (nodeToIndex_spec d node Hn).
  destruct Hn as (_ & _ & Hi & Ha & Hr). set (i := nodeToIndexUnchecked (BV := BV) node) in *. rewrite Ok_bind.
  rewrite getBit_spec, bool_decide_false by done. cbn [negb]. step.
  destruct (setBit_spec (recycled_nodes_ d) i R Hi) as (b & -> & Hb & Hbits). step.
  rewrite bool_decide_true by (by apply union_changes). step.
  destruct (removeEdgesFromNode_spec (g_ d) i G Hi) as (g' & -> & Gw & Ge). step.
  set (d' := Detector _ _ _ _ _ _ _). exists d'.
  assert (Hal : forall x, allocated d' x <-> allocated d x /\ x <> i).
  { intros x. unfold allocated. cbn. rewrite Hbits, elem_of_union, elem_of_singleton. tauto. }
  split_and!; try done. split; cbn; try done.
  - rewrite Hbits. intros x Hx [->%elem_of_singleton | Hx']%elem_of_union; [done |]. by apply (Dis x).
  - intros x y [Hxy Hne]%Ge. destruct (Ed x y Hxy) as [Hx Hy]. split; [by apply Hal | done].
Qed.

(** ** The locks of a thread *)

Lemma ensure_spec (d : detector) (t : tls) : tls_wf t -> tls_current d t ->
  let t' := ensureCurrentEpoch d t in
  tls_wf t' /\ epoch_ t' = current_epoch_ d /\ (forall x, x ∈ bits (bv_ t') -> allocated d x) /\
  bits (bv_ t') = (if decide (epoch_ t = current_epoch_ d) then bits (bv_ t) else ∅).
Proof.
  intros Ht Hc. unfold ensureCurrentEpoch, tls_ensureCurrentEpoch.
  destruct (Z.eqb_spec (epoch_ t) (current_epoch_ d)) as [He | He].
  - rewrite decide_True by done. split_and!; try done. by apply Hc.
  - rewrite decide_False by done. destruct (clear_spec (bv_ t)) as [Hw Hb]. cbn. rewrite Hb. split_and!; try done.
    split; cbn; [done | by rewrite Hb, elements_empty | intros x Hx; by apply not_elem_of_nil in Hx].
Qed.

Lemma to_u32_small (x : Z) : in_graph (BV := BV) x -> to_u32 x = x.
Proof. intros Hx. unfold to_u32. apply Z.mod_small. unfold in_graph in Hx. lia. Qed.

(** The first acquisition of a lock. *)
Lemma addLock_new (t : tls) (x e stk : Z) : tls_wf t -> epoch_ t = e -> in_graph (BV := BV) x -> x ∉ bits (bv_ t) ->
  Z.of_nat (base.size (bits (bv_ t))) < kMaxLocks ->
  exists t', addLock t x e stk = Ok (t', true) /\ tls_wf t' /\ epoch_ t' = e /\ bits (bv_ t') = {[x]} ∪ bits (bv_ t).
Proof.
  intros Ht He Hx Hn Hmax. destruct Ht as [B L R]. unfold addLock. rewrite (check_true (epoch_ t =? e)) by (by apply Z.eqb_eq). rewrite Ok_bind.
  destruct (setBit_spec (bv_ t) x B Hx) as (b & -> & Hb & Hbits). rewrite Ok_bind.
  rewrite bool_decide_true by (by apply union_changes). cbn [negb].
  assert (Hlen : length (all_locks_with_contexts_ t) = base.size (bits (bv_ t))).
  { apply Permutation_length in L. rewrite length_fmap in L. by rewrite L. }
  rewrite check_true by (apply Z.ltb_lt; lia). step. eexists. split; [done |]. split_and!; [| done | done].
  split; cbn; [done | | intros y Hy; rewrite Hbits; apply elem_of_union_r; by apply R].
  rewrite fmap_app, L, Hbits, elements_union_singleton by done. cbn. rewrite to_u32_small by done. solve_Permutation.
Qed.

(** A recursive one. *)
Lemma addLock_again (t : tls) (x e stk : Z) : tls_wf t -> epoch_ t = e -> x ∈ bits (bv_ t) ->
  Z.of_nat (length (recursive_locks t)) < kMaxRecursiveLocks ->
  exists t', addLock t x e stk = Ok (t', false) /\ tls_wf t' /\ epoch_ t' = e /\ bits (bv_ t') = bits (bv_ t) /\
    recursive_locks t' = recursive_locks t ++ [x].
Proof.
  intros Ht He Hx Hmax. destruct Ht as [B L R]. unfold addLock. rewrite (check_true (epoch_ t =? e)) by (by apply Z.eqb_eq). rewrite Ok_bind.
  destruct (setBit_spec (bv_ t) x B (bits_range _ x B Hx)) as (b & -> & Hb & Hbits). rewrite Ok_bind.
  rewrite bool_decide_false by (rewrite union_changes; tauto). cbn [negb].
  rewrite check_true by (by apply Z.ltb_lt). step. assert (Hsame : bits b = bits (bv_ t)) by set_solver.
  eexists. split; [done |]. split_and!; try done. split; cbn; rewrite ?Hsame; try done.
  intros y [Hy | ->%list_elem_of_singleton]%elem_of_app; [by apply R | done].
Qed.

(** A lock held once is released; one held again keeps its bit. *)
Lemma removeLock_spec (t : tls) (x : Z) : tls_wf t -> in_graph (BV := BV) x ->
  exists t', removeLock t x = Ok t' /\ tls_wf t' /\ epoch_ t' = epoch_ t /\
    bits (bv_ t') = (if decide (x ∈ recursive_locks t) then bits (bv_ t) else bits (bv_ t) ∖ {[x]}).
Proof.
  intros Ht Hx. destruct Ht as [B L R]. unfold removeLock.
  destruct (find_down _ (recursive_locks t) _) as [i |] eqn:Hf.
  - apply find_down_Some in Hf as (r & Hi & ->%Z.eqb_eq). pose proof (swap_remove_perm i _ _ Hi) as Hp.
    rewrite decide_True by (by apply list_elem_of_lookup_2 in Hi). eexists. split; [done |]. split_and!; try done.
    split; cbn; try done. intros y Hy. apply R. rewrite Hp. by right.
  - assert (Hn : x ∉ recursive_locks t).
    { intros [i Hi]%list_elem_of_lookup. pose proof (lookup_lt_Some _ _ _ Hi) as Hlt.
      pose proof (find_down_None _ _ _ Hf i x Hlt Hi) as Hb. by apply Z.eqb_neq in Hb. }
    rewrite decide_False by done. destruct (clearBit_spec (bv_ t) x B Hx) as (b & -> & Hb & Hbits). rewrite Ok_bind.
    assert (HR : forall y, y ∈ recursive_locks t -> y ∈ bits b).
    { intros y Hy. rewrite Hbits. apply elem_of_difference. split; [by apply R |].
      intros ->%elem_of_singleton. done. }
    case_bool_decide as Hd; cbn [negb].
    + assert (Hin : x ∈ bits (bv_ t)).
      { apply difference_changes, intersects_iff in Hd as (y & Hy & ->%elem_of_singleton). done. }
      assert (Hl : (lock <$> all_locks_with_contexts_ t) ≡ₚ x :: elements (bits b)).
      { rewrite L, Hbits. rewrite <- elements_union_singleton by set_solver. apply elements_proper.
        apply set_equiv. intros y. destruct (decide (y = x)); set_solver. }
      cbn [all_locks_with_contexts_ bv_ epoch_ recursive_locks]. rewrite to_u32_small by done.
      destruct (find_down _ (all_locks_with_contexts_ t) _) as [i |] eqn:Hg.
      * apply find_down_Some in Hg as (l & Hi & Hlx%Z.eqb_eq). pose proof (swap_remove_perm i _ _ Hi) as Hp.
        eexists. split; [done |]. split_and!; try done. split; cbn; try done.
        rewrite Hp in Hl. cbn in Hl. rewrite Hlx in Hl. by apply Permutation_cons_inv in Hl.
      * exfalso. assert (Hm : x ∈ lock <$> all_locks_with_contexts_ t) by (rewrite Hl; by left).
        apply list_elem_of_fmap in Hm as (l & -> & [i Hi]%list_elem_of_lookup).
        pose proof (find_down_None _ _ _ Hg i l (lookup_lt_Some _ _ _ Hi) Hi) as Hb'.
        by apply Z.eqb_neq in Hb'.
    + assert (Hsame : bits b = bits (bv_ t)) by (rewrite Hbits; destruct (decide (bits (bv_ t) ∖ {[x]} = bits (bv_ t))); done).
      eexists. split; [done |]. split_and!; try done. split; cbn; rewrite ?Hsame; try done.
Qed.

Lemma onUnlock_spec (t : tls) (node : Z) : tls_wf t ->
  exists t', onUnlock t node = Ok t' /\ tls_wf t' /\ epoch_ t' = epoch_ t /\ bits (bv_ t') ⊆ bits (bv_ t).
Proof.
  intros Ht. unfold onUnlock. destruct (_ =? _); [| by exists t].
  destruct (removeLock_spec t (nodeToIndexUnchecked (BV := BV) node) Ht (index_range node)) as (t' & -> & H1 & H2 & H3).
  exists t'. split_and!; [done | done | done |]. rewrite H3. destruct (decide _); [done |]. set_solver.
Qed.

(** ** Lock events *)

(** Two detectors that differ in their scratch vectors only. *)
Record same_detector (d d' : detector) : Prop := {
  same_epoch : current_epoch_ d' = current_epoch_ d;
  same_available : available_nodes_ d' = available_nodes_ d;
  same_recycled : recycled_nodes_ d' = recycled_nodes_ d;
  same_rows : v (g_ d') = v (g_ d);
  same_data : data_ d' = data_ d;
  same_list : edges_ d' = edges_ d;
}.

Lemma same_allocated (d d' : detector) (x : Z) : same_detector d d' -> allocated d' x <-> allocated d x.
Proof. intros [E A R V D L]. unfold allocated. by rewrite A, R. Qed.

Lemma same_edge (d d' : detector) (x y : Z) : same_detector d d' -> edge (g_ d') x y <-> edge (g_ d) x y.
Proof. intros [E A R V D L]. unfold edge. by rewrite V. Qed.

Lemma same_wf (d d' : detector) : same_detector d d' -> dd_wf d -> dd_wf d'.
Proof.
  intros Hs [G A R Dis E1 E2 E3 Ed El]. pose proof (fun x => same_allocated d d' x Hs) as Hal.
  pose proof (fun x y => same_edge d d' x y Hs) as Hed. destruct Hs as [E Av Rc V D L].
  split; rewrite ?E, ?Av, ?Rc, ?L; try done.
  - intros x Hx. rewrite V. by apply G.
  - intros x y Hxy. rewrite Hal. by apply Ed, Hed.
Qed.

Lemma getLocks_spec (d : detector) (t : tls) : epoch_ t = current_epoch_ d -> getLocks t (current_epoch_ d) = Ok (bv_ t).
Proof. intros He. unfold getLocks. by rewrite check_true by (by apply Z.eqb_eq). Qed.

Lemma isHeld_spec (d : detector) (t : tls) (node : Z) : tls_wf t -> epoch_ t = current_epoch_ d -> node_ok d node ->
  isHeld d t node = Ok (bool_decide (nodeToIndexUnchecked (BV := BV) node ∈ bits (bv_ t))).
Proof.
  intros Ht He Hn. unfold isHeld. rewrite getLocks_spec by done. rewrite Ok_bind.
  rewrite (nodeToIndex_spec d node Hn). rewrite Ok_bind. apply getBit_spec; [apply Ht | apply index_range].
Qed.

(** What [onLockBefore] looks for: a path from the node to a lock held. *)
Definition leads_to_held (g : BVGraph) (idx : Z) (held : gset Z) : Prop :=
  exists h, h ∈ held /\ rtc (edge g) idx h.

Lemma onLockBefore_spec (d : detector) (t : tls) (node : Z) : dd_wf d -> tls_wf t -> tls_current d t -> node_ok d node ->
  let t' := ensureCurrentEpoch d t in
  exists d' b, onLockBefore d t node = Ok (d', t', b) /\ same_detector d d' /\
    (b = true <-> leads_to_held (g_ d) (nodeToIndexUnchecked (BV := BV) node) (bits (bv_ t'))).
Proof.
  intros Hd Ht Hc Hn t'. destruct (ensure_spec d t Ht Hc) as (Hw & He & _ & _). fold t' in Hw, He.
  unfold onLockBefore. fold t'. rewrite (nodeToIndex_spec d node Hn). rewrite Ok_bind.
  rewrite getLocks_spec by done. rewrite Ok_bind.
  destruct (isReachable_spec (g_ d) (nodeToIndexUnchecked (BV := BV) node) (bv_ t')) as (g' & b & -> & Hv & Hb);
    [apply Hd | apply Hw | apply index_range |].
  rewrite Ok_bind. by eexists _, b.
Qed.

Lemma record_edges_spec (t : tls) (idx stk tid : Z) (added : list Z) (es : list Edge) : in_graph (BV := BV) idx ->
  Forall (in_graph (BV := BV)) added ->
  Forall (fun e => in_graph (BV := BV) (from e) /\ in_graph (BV := BV) (to e)) es ->
  Forall (fun e => in_graph (BV := BV) (from e) /\ in_graph (BV := BV) (to e)) (foldl (record_edge t idx stk tid) es added).
Proof.
  intros Hi. revert es. induction added as [| a added IH]; intros es Ha Hes; cbn [foldl]; [done |].
  apply Forall_cons in Ha as [Ha Hadded]. apply IH; [done |]. unfold record_edge. destruct (_ <? _); [| done].
  apply Forall_app. split; [done |]. apply Forall_singleton. cbn.
  unfold to_u16, in_graph in *. by rewrite !Z.mod_small by lia.
Qed.

Lemma dd_addEdges_spec (d : detector) (t : tls) (node stk tid : Z) : dd_wf d -> tls_wf t -> tls_current d t -> node_ok d node ->
  let t' := ensureCurrentEpoch d t in
  let idx := nodeToIndexUnchecked (BV := BV) node in
  exists d' added, dd_addEdges d t node stk tid = Ok (d', t', Z.of_nat (length added)) /\ dd_wf d' /\
    current_epoch_ d' = current_epoch_ d /\ available_nodes_ d' = available_nodes_ d /\
    recycled_nodes_ d' = recycled_nodes_ d /\ data_ d' = data_ d /\
    (forall x y, edge (g_ d') x y <-> edge (g_ d) x y \/ (x ∈ bits (bv_ t') /\ y = idx)) /\
    NoDup added /\ (forall x, x ∈ added -> x ∈ bits (bv_ t') /\ ~ edge (g_ d) x idx) /\
    (Z.of_nat (length added) = kMaxAddedEdges \/ forall x, x ∈ bits (bv_ t') -> ~ edge (g_ d) x idx -> x ∈ added).
Proof.
  intros Hd Ht Hc Hn t' idx. destruct (ensure_spec d t Ht Hc) as (Hw & He & Hal & _). fold t' in Hw, He, Hal.
  pose proof Hd as [G A R Dis E1 E2 E3 Ed El]. unfold dd_addEdges. fold t'. rewrite (nodeToIndex_spec d node Hn).
  fold idx. rewrite Ok_bind. rewrite getLocks_spec by done. rewrite Ok_bind.
  destruct (addEdges_spec (g_ d) (bv_ t') idx kMaxAddedEdges G (t_bits t' Hw) (index_range node)) as
    (g' & added & -> & Gw & Ge & Hnd & Hin & Hall); [done |].
  rewrite Ok_bind. eexists _, added. split; [done |]. split_and!; try done. split; cbn; try done.
  - intros x y Hxy. apply Ge in Hxy as [Hxy | [Hx ->]]; [by apply (Ed x y) |].
    split; [by apply (Hal x) |]. by apply Hn.
  - apply record_edges_spec; [apply index_range | | done]. apply Forall_forall. intros x Hx.
    apply (bits_range (bv_ t')); [apply Hw | by apply Hin].
Qed.

(** [onLockAfter], [onTryLock], [onFirstLock] and [onLockFast] end with this. *)
Lemma acquire_spec (t : tls) (idx e stk : Z) : tls_wf t -> epoch_ t = e -> in_graph (BV := BV) idx ->
  (if decide (idx ∈ bits (bv_ t)) then Z.of_nat (length (recursive_locks t)) < kMaxRecursiveLocks
   else Z.of_nat (base.size (bits (bv_ t))) < kMaxLocks) ->
  exists t' b, addLock t idx e stk = Ok (t', b) /\ tls_wf t' /\ epoch_ t' = e /\ bits (bv_ t') = {[idx]} ∪ bits (bv_ t).
Proof.
  intros Ht He Hi Hmax. destruct (decide (idx ∈ bits (bv_ t))) as [Hin | Hout].
  - destruct (addLock_again t idx e stk Ht He Hin Hmax) as (t' & -> & H1 & H2 & H3 & _). exists t', false.
    split_and!; try done. rewrite H3. set_solver.
  - destruct (addLock_new t idx e stk Ht He Hi Hout Hmax) as (t' & -> & H1 & H2 & H3). by exists t', true.
Qed.

(** There is room for one more acquisition. *)
Definition room_for (t : tls) (idx : Z) : Prop :=
  if decide (idx ∈ bits (bv_ t)) then Z.of_nat (length (recursive_locks t)) < kMaxRecursiveLocks
  else Z.of_nat (base.size (bits (bv_ t))) < kMaxLocks.

Lemma ensure_idem (d d' : detector) (t : tls) : current_epoch_ d' = current_epoch_ d ->
  ensureCurrentEpoch d' (ensureCurrentEpoch d t) = ensureCurrentEpoch d t.
Proof.
  intros He. unfold ensureCurrentEpoch, tls_ensureCurrentEpoch. rewrite He.
  destruct (Z.eqb_spec (epoch_ t) (current_epoch_ d)) as [E | E]; cbn [epoch_]; [by rewrite (proj2 (Z.eqb_eq _ _)) |].
  by rewrite Z.eqb_refl.
Qed.

Lemma onLockAfter_spec (d : detector) (t : tls) (node stk : Z) : dd_wf d -> tls_wf t -> tls_current d t -> node_ok d node ->
  let t' := ensureCurrentEpoch d t in
  let idx := nodeToIndexUnchecked (BV := BV) node in
  room_for t' idx ->
  exists t2, onLockAfter d t node stk = Ok t2 /\ tls_wf t2 /\ epoch_ t2 = current_epoch_ d /\
    bits (bv_ t2) = {[idx]} ∪ bits (bv_ t').
Proof.
  intros Hd Ht Hc Hn t' idx Hroom. destruct (ensure_spec d t Ht Hc) as (Hw & He & _ & _). fold t' in Hw, He.
  unfold onLockAfter. fold t'. rewrite (nodeToIndex_spec d node Hn). fold idx. rewrite Ok_bind.
  destruct (acquire_spec t' idx (current_epoch_ d) stk Hw He (index_range node) Hroom) as (t2 & b & -> & H1 & H2 & H3).
  rewrite Ok_bind. by exists t2.
Qed.

Lemma all_edges_spec (d : detector) (locks : list LockWithContext) (idx : Z) : dd_wf d -> in_graph (BV := BV) idx ->
  Forall (fun l => in_graph (BV := BV) (lock l)) locks ->
  exists b, all_edges d locks idx = Ok b /\ (b = true <-> forall l, l ∈ locks -> edge (g_ d) (lock l) idx).
Proof.
  intros Hd Hi. induction locks as [| l locks IH]; intros Hl; cbn [all_edges].
  - exists true. split; [done |]. split; [| done]. intros _ l Hl'. by apply not_elem_of_nil in Hl'.
  - apply Forall_cons in Hl as [Hl Hls]. destruct (hasEdge_spec (g_ d) (lock l) idx (d_graph d Hd) Hl Hi) as [-> _]. step.
    case_bool_decide as He; cbn [negb].
    2: { exists false. split; [done |]. split; [done |]. intros Hall. destruct He. apply Hall. left. }
    destruct (IH Hls) as (b & -> & Hb). exists b. split; [done |]. rewrite Hb. split.
    + intros Hbt l' [-> | Hl']%elem_of_cons; [done | by apply Hbt].
    + intros Hall l' Hl'. apply Hall. by right.
Qed.

Lemma hasAllEdges_spec (d : detector) (t : tls) (nd : Z) : dd_wf d -> tls_wf t ->
  exists b, hasAllEdges d t nd = Ok b /\ (b = true <-> nd <> 0 /\ epoch_ t = current_epoch_ d /\
    nodeToEpoch (BV := BV) nd = current_epoch_ d /\ forall h, h ∈ bits (bv_ t) -> edge (g_ d) h (nodeToIndexUnchecked (BV := BV) nd)).
Proof.
  intros Hd Ht. unfold hasAllEdges. destruct (_ && _) eqn:Hc.
  2: { exists false. split; [done |]. split; [done |]. intros (H1 & H2 & H3 & _). rewrite H2, <- H3, !Z.eqb_refl in Hc.
    by destruct (Z.eqb_spec nd 0). }
  apply andb_true_iff in Hc as [[E0%negb_true_iff%Z.eqb_neq E1%Z.eqb_eq]%andb_true_iff E2%Z.eqb_eq].
  assert (Hmem : forall h, h ∈ lock <$> all_locks_with_contexts_ t <-> h ∈ bits (bv_ t)).
  { intros h. rewrite (t_locks t Ht). apply elem_of_elements. }
  destruct (all_edges_spec d (all_locks_with_contexts_ t) (nodeToIndexUnchecked (BV := BV) nd) Hd (index_range nd)) as (b & -> & Hb).
  - apply Forall_forall. intros l Hl. apply (bits_range (bv_ t)); [apply Ht |]. apply Hmem. by apply list_elem_of_fmap_2.
  - exists b. split; [done |]. rewrite Hb. split.
    + intros Hbt. split_and!; [done | done | congruence |]. intros h Hh.
      apply Hmem, list_elem_of_fmap in Hh as (l & -> & Hl). by apply Hbt.
    + intros (_ & _ & _ & Hall) l Hl. apply Hall, Hmem. by apply list_elem_of_fmap_2.
Qed.

Lemma onFirstLock_spec (t : tls) (nd stk : Z) : tls_wf t ->
  exists x b, onFirstLock t nd stk = Ok (x, b) /\ tls_wf x /\ epoch_ x = epoch_ t /\
    if b : bool then bits (bv_ t) = ∅ /\ epoch_ t <> 0 /\ epoch_ t = nodeToEpoch (BV := BV) nd /\ bits (bv_ x) = {[nodeToIndexUnchecked (BV := BV) nd]}
    else x = t.
Proof.
  intros Ht. unfold onFirstLock, tls_empty. rewrite empty_spec by apply Ht. case_bool_decide as Hemp; cbn [negb]; [| by exists t, false].
  destruct (_ && _) eqn:Hc; [| by exists t, false]. apply andb_true_iff in Hc as [Hne%negb_true_iff%Z.eqb_neq Hep%Z.eqb_eq].
  assert (Hroom : room_for t (nodeToIndexUnchecked (BV := BV) nd)).
  { unfold room_for. rewrite Hemp, decide_False by apply not_elem_of_empty. by rewrite size_empty. }
  destruct (acquire_spec t _ (nodeToEpoch (BV := BV) nd) stk Ht Hep (index_range nd) Hroom) as (x & b & -> & X1 & X2 & X3).
  rewrite Ok_bind. rewrite Hemp, union_empty_r_L in X3. exists x, true. by rewrite X2.
Qed.

Lemma onLockFast_spec (d : detector) (t : tls) (nd stk : Z) : dd_wf d -> tls_wf t -> room_for t (nodeToIndexUnchecked (BV := BV) nd) ->
  exists x b, onLockFast d t nd stk = Ok (x, b) /\ tls_wf x /\ epoch_ x = epoch_ t /\
    if b : bool then nd <> 0 /\ epoch_ t = current_epoch_ d /\ nodeToEpoch (BV := BV) nd = current_epoch_ d /\
      bits (bv_ x) = {[nodeToIndexUnchecked (BV := BV) nd]} ∪ bits (bv_ t) /\
      forall h, h ∈ bits (bv_ t) -> edge (g_ d) h (nodeToIndexUnchecked (BV := BV) nd)
    else x = t.
Proof.
  intros Hd Ht Hroom. unfold onLockFast. destruct (hasAllEdges_spec d t nd Hd Ht) as (b & -> & Hb). rewrite Ok_bind.
  destruct b; [| by exists t, false]. destruct (proj1 Hb eq_refl) as (H0 & He & Hn & Hed).
  destruct (acquire_spec t _ (nodeToEpoch (BV := BV) nd) stk Ht (eq_trans He (eq_sym Hn)) (index_range nd) Hroom) as (x & b & -> & X1 & X2 & X3).
  rewrite Ok_bind. exists x, true. split_and!; try done. congruence.
Qed.

Lemma onLock_spec (d : detector) (t : tls) (node stk : Z) : dd_wf d -> tls_wf t -> tls_current d t -> node_ok d node ->
  let t' := ensureCurrentEpoch d t in
  let idx := nodeToIndexUnchecked (BV := BV) node in
  room_for t' idx ->
  exists d' t2 b, onLock d t node stk = Ok (d', t2, b) /\ dd_wf d' /\ tls_wf t2 /\
    current_epoch_ d' = current_epoch_ d /\ available_nodes_ d' = available_nodes_ d /\
    recycled_nodes_ d' = recycled_nodes_ d /\ data_ d' = data_ d /\
    epoch_ t2 = current_epoch_ d /\ bits (bv_ t2) = {[idx]} ∪ bits (bv_ t') /\
    (forall x y, edge (g_ d') x y <-> edge (g_ d) x y \/ (x ∈ bits (bv_ t') /\ y = idx)) /\
    (b = true <-> idx ∉ bits (bv_ t') /\ leads_to_held (g_ d) idx (bits (bv_ t'))).
Proof.
  intros Hd Ht Hc Hn t' idx Hroom. destruct (ensure_spec d t Ht Hc) as (Hw & He & Hal & _). fold t' in Hw, He, Hal.
  unfold onLock. fold t'. rewrite isHeld_spec by done. fold idx. rewrite Ok_bind.
  assert (Hidem : forall d', current_epoch_ d' = current_epoch_ d -> ensureCurrentEpoch d' t' = t').
  { intros d' Hd'. by apply ensure_idem. }
  assert (Hcur : tls_current d t') by (intros _; done).
  assert (Hbefore : exists d1 b, (if negb (bool_decide (idx ∈ bits (bv_ t'))) then onLockBefore d t' node else Ok (d, t', false))
      = Ok (d1, t', b) /\ same_detector d d1 /\ (b = true <-> idx ∉ bits (bv_ t') /\ leads_to_held (g_ d) idx (bits (bv_ t')))).
  { case_bool_decide as Hb; cbn [negb].
    - exists d, false. split_and!; [done | done |]. split; [done | tauto].
    - destruct (onLockBefore_spec d t' node Hd Hw Hcur Hn) as (d1 & b & -> & Hs & Hiff). rewrite Hidem in * by done.
      exists d1, b. split_and!; [done | done |]. fold idx in Hiff. tauto. }
  destruct Hbefore as (d1 & b & -> & Hs & Hb). rewrite Ok_bind. pose proof (same_wf d d1 Hs Hd) as Hd1.
  assert (Hn1 : node_ok d1 node).
  { destruct Hn as (N1 & N2 & N3). split; [done |]. rewrite (same_epoch d d1 Hs). split; [done |]. by apply (same_allocated d d1). }
  assert (Hcur1 : tls_current d1 t') by (intros _ x Hx; apply (same_allocated d d1 x Hs), Hal, Hx).
  destruct (dd_addEdges_spec d1 t' node stk 0 Hd1 Hw Hcur1 Hn1) as (d2 & added & -> & Hd2 & Ep & Av & Rc & Da & Ge & _).
  rewrite (Hidem d1) in * by apply Hs. rewrite Ok_bind. fold idx in Ge.
  assert (Hn2 : node_ok d2 node).
  { destruct Hn1 as (N1 & N2 & N3). split; [done |]. rewrite Ep. split; [done |]. unfold allocated. by rewrite Av, Rc. }
  assert (Hcur2 : tls_current d2 t').
  { intros _ x Hx. unfold allocated. rewrite Av, Rc. by apply Hcur1; [rewrite (same_epoch d d1 Hs) |]. }
  destruct (onLockAfter_spec d2 t' node stk Hd2 Hw Hcur2 Hn2) as (t2 & -> & T1 & T2 & T3).
  { rewrite Hidem by (rewrite Ep; apply Hs). done. }
  rewrite Hidem in T3 by (rewrite Ep; apply Hs). rewrite Ok_bind. destruct Hs as [S1 S2 S3 S4 S5 S6].
  exists d2, t2, b. split_and!; try done; try congruence.
  intros x y. rewrite Ge. unfold edge. by rewrite S4.
Qed.
End specs.
