(* ===== verification/DeadlockSystem.v ===== *)
(** * Threads, locks and the lock graph

    A detector with the locks of every thread, as a transition system over
    the public operations of DeadlockDetector.  An event is legal when the
    program keeps the rules the detector relies on: it uses nodes it was
    given and has not removed, does not remove a node somebody holds, and
    stays below the array limits. *)

From S2P Require Import Prelude Words BitVector BVGraph BVGraphSpecs DeadlockDetector DeadlockSpecs.

Inductive dd_event : Type :=
| NewNode (data : Z)
| RemoveNode (nd : Z)
| OnLock (t : nat) (nd stk : Z)
| OnTryLock (t : nat) (nd stk : Z)
| OnFirstLock (t : nat) (nd stk : Z)
| OnLockFast (t : nat) (nd stk : Z)
| OnUnlock (t : nat) (nd : Z).

Lemma put_at_eq {A} (m : nat -> A) (a : nat) (x : A) : put_at m a x a = x.
Proof. unfold put_at. by rewrite decide_True. Qed.

Section system.
Context {BV : Type} `{HB : BitVectorSpec BV} `{HIT : !BVIterator BV} {HITS : BVIteratorSpec BV}.

Abbreviation N := (kSize (BV := BV)).
Abbreviation detector := (DeadlockDetector (BV := BV)).
Abbreviation tls := (DeadlockDetectorTLS (BV := BV)).
Abbreviation index := (nodeToIndexUnchecked (BV := BV)).

Context (HN : N <= 65536).

Record sys : Type := Sys { det : detector; thr : nat -> tls }.

Definition set_thr (s : sys) (t : nat) (x : tls) : sys := Sys (det s) (put_at (thr s) t x).

Definition run_event (s : sys) (e : dd_event) : result (sys * answer) :=
  match e with
  | NewNode data => '(d, nd) ← newNode (det s) data; Ok (Sys d (thr s), Index nd)
  | RemoveNode nd => d ← removeNode (det s) nd; Ok (Sys d (thr s), Done)
  | OnLock t nd stk => '(d, x, b) ← onLock (det s) (thr s t) nd stk; Ok (set_thr (Sys d (thr s)) t x, Flag b)
  | OnTryLock t nd stk => '(x, b) ← onTryLock (det s) (thr s t) nd stk; Ok (set_thr s t x, Flag b)
  | OnFirstLock t nd stk => '(x, b) ← onFirstLock (thr s t) nd stk; Ok (set_thr s t x, Flag b)
  | OnLockFast t nd stk => '(x, b) ← onLockFast (det s) (thr s t) nd stk; Ok (set_thr s t x, Flag b)
  | OnUnlock t nd => x ← onUnlock (thr s t) nd; Ok (set_thr s t x, Done)
  end.

(** The locks thread [t] holds in the current epoch. *)
Definition held (s : sys) (t : nat) : gset Z :=
  if decide (epoch_ (thr s t) = current_epoch_ (det s)) then bits (bv_ (thr s t)) else ∅.

Definition legal (s : sys) (e : dd_event) : Prop :=
  match e with
  | NewNode _ => current_epoch_ (det s) + N + N <= word_modulus
  | RemoveNode nd => node_ok (det s) nd /\ forall t, index nd ∉ held s t
  | OnLock t nd _ | OnTryLock t nd _ =>
      node_ok (det s) nd /\ room_for (ensureCurrentEpoch (det s) (thr s t)) (index nd)
  | OnFirstLock _ nd _ => nodeToEpoch (BV := BV) nd = current_epoch_ (det s) -> allocated (det s) (index nd)
  | OnLockFast t nd _ =>
      (nodeToEpoch (BV := BV) nd = current_epoch_ (det s) -> allocated (det s) (index nd)) /\ room_for (thr s t) (index nd)
  | OnUnlock _ _ => True
  end.

(** Freshly cleared objects, whatever memory held before. *)
Definition initial (s : sys) : Prop :=
  exists d x, s = Sys (dd_clear d) (fun t => tls_clear (x t)).

Record sys_wf (s : sys) : Prop := {
  s_det : dd_wf (det s);
  s_tls : forall t, tls_wf (thr s t);
  s_cur : forall t, tls_current (det s) (thr s t);
  s_epoch : forall t, epoch_ (thr s t) <= current_epoch_ (det s);
  s_start : current_epoch_ (det s) = 0 ->
    bits (available_nodes_ (det s)) = ∅ /\ bits (recycled_nodes_ (det s)) = ∅;
}.

Lemma initial_wf (s : sys) : initial s -> sys_wf s.
Proof.
  pose proof (N_pos (BV := BV)) as HNp. intros (d & x & ->).
  destruct (graph_clear_spec (g_ d)) as [Gw Gn]. destruct (clear_spec (available_nodes_ d)) as [Aw Ab].
  destruct (clear_spec (recycled_nodes_ d)) as [Rw Rb].
  assert (Hx : forall t, wf (clear (bv_ (x t))) /\ bits (clear (bv_ (x t))) = ∅) by (intros t; apply clear_spec).
  split; cbn; try done.
  - split; cbn; try done.
    + rewrite Ab. set_solver.
    + rewrite word_modulus_pow. lia.
    + intros y z Hyz. by destruct (Gn y z).
  - intros t. destruct (Hx t) as [Hw Hb]. split; cbn; [done | by rewrite Hb, elements_empty |].
    intros y Hy. by apply not_elem_of_nil in Hy.
  - intros t _ y Hy. cbn in Hy. rewrite (proj2 (Hx t)) in Hy. by apply not_elem_of_empty in Hy.
Qed.

(** Only one thread's locks change; the detector keeps its epoch and nodes. *)
Lemma set_thr_wf (s : sys) (d : detector) (t : nat) (x : tls) : sys_wf s -> dd_wf d ->
  current_epoch_ d = current_epoch_ (det s) -> available_nodes_ d = available_nodes_ (det s) ->
  recycled_nodes_ d = recycled_nodes_ (det s) -> tls_wf x -> tls_current d x -> epoch_ x <= current_epoch_ d ->
  sys_wf (set_thr (Sys d (thr s)) t x).
Proof.
  intros [D T C E S0] Hd He Ha Hr Hx Hc Hep. split; cbn; try done; unfold put_at.
  - intros u. destruct (decide (u = t)); done.
  - intros u. destruct (decide (u = t)); [done |]. unfold tls_current, allocated. rewrite He, Ha, Hr. apply C.
  - intros u. destruct (decide (u = t)); [done |]. by rewrite He.
  - by rewrite He, Ha, Hr.
Qed.

Lemma set_thr_wf' (s : sys) (t : nat) (x : tls) : sys_wf s -> tls_wf x -> tls_current (det s) x ->
  epoch_ x <= current_epoch_ (det s) -> sys_wf (set_thr s t x).
Proof. intros Hs Hx Hc He. destruct s as [d th]. by apply (set_thr_wf (Sys d th) d t x); try apply Hs. Qed.

Lemma held_ensure (s : sys) (t : nat) : sys_wf s -> bits (bv_ (ensureCurrentEpoch (det s) (thr s t))) = held s t.
Proof. intros Hs. apply (ensure_spec (det s) (thr s t)); apply Hs. Qed.

Lemma held_allocated (s : sys) (t : nat) (x : Z) : sys_wf s -> x ∈ held s t -> allocated (det s) x.
Proof.
  intros Hs. unfold held. destruct (decide _) as [He |]; [| by intros ?%not_elem_of_empty]. by apply (s_cur s Hs).
Qed.

(** ** One event *)

(** The locks an event puts into the graph. *)
Definition new_edge (s : sys) (e : dd_event) (x y : Z) : Prop :=
  match e with
  | OnLock t nd _ => x ∈ held s t /\ y = index nd
  | _ => False
  end.

(** What the event answers, and what it leaves behind. *)
Definition event_ok (s : sys) (e : dd_event) (s' : sys) (a : answer) : Prop :=
  match e with
  | NewNode data =>
      exists nd, a = Index nd /\ node_ok (det s') nd /\ data_ (det s') (index nd) = data /\
        (forall t, index nd ∉ held s' t) /\ (forall x, ~ edge (g_ (det s')) (index nd) x /\ ~ edge (g_ (det s')) x (index nd)) /\
        ((forall t, held s' t = held s t) /\ (forall x, allocated (det s') x <-> allocated (det s) x \/ x = index nd) \/
         (forall x, in_graph (BV := BV) x -> allocated (det s) x) /\ (forall t, held s' t = ∅))
  | RemoveNode nd => (forall t, held s' t = held s t) /\ (forall x, allocated (det s') x <-> allocated (det s) x /\ x <> index nd)
  | OnLock t nd _ =>
      exists b, a = Flag b /\ (b = true <-> index nd ∉ held s t /\ leads_to_held (g_ (det s)) (index nd) (held s t)) /\
        held s' t = {[index nd]} ∪ held s t
  | OnTryLock t nd _ => held s' t = {[index nd]} ∪ held s t
  | OnFirstLock t nd _ => exists b, a = Flag b /\ (b = true -> held s t = ∅ /\ held s' t ⊆ {[index nd]})
  | OnLockFast t nd _ =>
      exists b, a = Flag b /\ (b = true -> held s' t = {[index nd]} ∪ held s t /\ forall h, h ∈ held s t -> edge (g_ (det s)) h (index nd))
  | OnUnlock t _ => held s' t ⊆ held s t
  end.

(** ** Preservation, event by event *)

Lemma held_set_thr (s : sys) (d : detector) (t : nat) (x : tls) : current_epoch_ d = current_epoch_ (det s) ->
  epoch_ x = current_epoch_ d -> held (set_thr (Sys d (thr s)) t x) t = bits (bv_ x).
Proof. intros He Hx. unfold held. cbn. rewrite put_at_eq. by rewrite decide_True. Qed.

Lemma new_node_ok (s : sys) (data : Z) : sys_wf s -> legal s (NewNode data) ->
  exists s' a, run_event s (NewNode data) = Ok (s', a) /\ sys_wf s' /\ event_ok s (NewNode data) s' a /\
    (forall x y, edge (g_ (det s')) x y -> edge (g_ (det s)) x y).
Proof.
  intros Hs Hmax. pose proof Hs as [D T C E S0]. pose proof (N_pos (BV := BV)) as HNp. cbn [run_event legal] in *.
  destruct (newNode_spec HN (det s) data D S0 Hmax) as (d & i & -> & Hd & Hpos & Hok & Hi & Hdata & Hfresh & Hedge & Hcase).
  rewrite Ok_bind. eexists _, _. split; [done |].
  assert (Hheld : (current_epoch_ d = current_epoch_ (det s) -> forall t, held (Sys d (thr s)) t = held s t) /\
    (current_epoch_ d = current_epoch_ (det s) + N -> forall t, held (Sys d (thr s)) t = ∅)).
  { unfold held. cbn. split; intros He t; rewrite He; [done |]. apply decide_False. specialize (E t). lia. }
  destruct Hheld as [Hsame Hflush]. split; [| split].
  - split; cbn; try done.
    + intros t He x Hx. destruct Hcase as [(He' & Hal & _) | (He' & _)].
      * apply Hal. left. apply (C t); [congruence | done].
      * specialize (E t). lia.
    + intros t. specialize (E t). destruct Hcase as [(He' & _) | (He' & _)]; lia.
    + intros Hz. lia.
  - cbn. exists (i + current_epoch_ d). rewrite Hi. split_and!; try done.
    + intros t Hin. destruct Hcase as [(He' & Hal & _) | (He' & _)].
      * rewrite Hsame in Hin by done. apply Hfresh. split; [by apply (held_allocated s t) | done].
      * rewrite Hflush in Hin by done. by apply not_elem_of_empty in Hin.
    + intros x. split; intros Hxy; destruct (Hedge _ _ Hxy) as (_ & H1 & H2); congruence.
    + destruct Hcase as [(He' & Hal & _) | (He' & Hall & _)]; [left | right].
      * split; [by apply Hsame | done].
      * split; [done | by apply Hflush].
  - cbn. intros x y Hxy. by apply Hedge.
Qed.

Lemma remove_node_ok (s : sys) (nd : Z) : sys_wf s -> legal s (RemoveNode nd) ->
  exists s' a, run_event s (RemoveNode nd) = Ok (s', a) /\ sys_wf s' /\ event_ok s (RemoveNode nd) s' a /\
    (forall x y, edge (g_ (det s')) x y -> edge (g_ (det s)) x y).
Proof.
  intros Hs [Hn Hfree]. pose proof Hs as [D T C E S0]. cbn [run_event].
  destruct (removeNode_spec (det s) nd D Hn) as (d & -> & Hd & He & Hdata & Hav & Hal & Hed). rewrite Ok_bind.
  eexists _, _. split; [done |]. split_and!.
  - pose proof (N_pos (BV := BV)). split; cbn; try done.
    + intros t Het x Hx. apply Hal. split; [apply (C t); [congruence | done] |]. intros ->. apply (Hfree t).
      unfold held. by rewrite decide_True by congruence.
    + intros t. by rewrite He.
    + rewrite He. intros Hz. destruct Hn as (Hge & Hep & _). unfold nodeToEpoch in Hep. rewrite Hz in Hep.
      assert (1 <= nd / N) by (apply Z.div_le_lower_bound; lia). nia.
  - cbn. split; [| done]. intros t. unfold held. cbn. by rewrite He.
  - cbn. intros x y [? _]%Hed. done.
Qed.

Lemma on_lock_ok (s : sys) (t : nat) (nd stk : Z) : sys_wf s -> legal s (OnLock t nd stk) ->
  exists s' a, run_event s (OnLock t nd stk) = Ok (s', a) /\ sys_wf s' /\ event_ok s (OnLock t nd stk) s' a /\
    (forall x y, edge (g_ (det s')) x y <-> edge (g_ (det s)) x y \/ new_edge s (OnLock t nd stk) x y).
Proof.
  intros Hs [Hn Hroom]. pose proof Hs as [D T C E S0]. cbn [run_event new_edge].
  destruct (onLock_spec HN (det s) (thr s t) nd stk D (T t) (C t) Hn Hroom) as
    (d & x & b & -> & Hd & Hx & He & Hav & Hrc & Hda & Hex & Hbits & Hed & Hb).
  rewrite Ok_bind. rewrite held_ensure in Hbits, Hed, Hb by done. eexists _, _. split; [done |].
  assert (Hcur : tls_current d x).
  { intros _ y. rewrite Hbits. unfold allocated. rewrite Hav, Hrc.
    intros [->%elem_of_singleton | Hy]%elem_of_union; [apply Hn | by apply (held_allocated s t)]. }
  split_and!.
  - apply set_thr_wf; try done. rewrite Hex. lia.
  - exists b. split_and!; [done | done |]. rewrite held_set_thr; [done | done | congruence].
  - exact Hed.
Qed.

Lemma acquire_held (s : sys) (t : nat) (x : tls) (nd : Z) : sys_wf s -> tls_wf x -> epoch_ x = current_epoch_ (det s) ->
  allocated (det s) (index nd) -> bits (bv_ x) = {[index nd]} ∪ held s t ->
  sys_wf (set_thr s t x) /\ held (set_thr s t x) t = {[index nd]} ∪ held s t.
Proof.
  intros Hs Hx He Ha Hb. split.
  - apply set_thr_wf'; [done | done | | lia]. intros _ y. rewrite Hb.
    intros [->%elem_of_singleton | Hy]%elem_of_union; [done | by apply (held_allocated s t)].
  - destruct s as [d th]. rewrite <- Hb. by apply (held_set_thr (Sys d th)).
Qed.

Lemma on_try_lock_ok (s : sys) (t : nat) (nd stk : Z) : sys_wf s -> legal s (OnTryLock t nd stk) ->
  exists s' a, run_event s (OnTryLock t nd stk) = Ok (s', a) /\ sys_wf s' /\ event_ok s (OnTryLock t nd stk) s' a /\
    det s' = det s.
Proof.
  intros Hs [Hn Hroom]. pose proof Hs as [D T C E S0]. cbn [run_event event_ok].
  destruct (ensure_spec (det s) (thr s t) (T t) (C t)) as (Hw & He & _ & _).
  unfold onTryLock. rewrite (nodeToIndex_spec (det s) nd Hn). rewrite Ok_bind.
  destruct (acquire_spec HN _ (index nd) (current_epoch_ (det s)) stk Hw He (index_range nd) Hroom) as (x & b & -> & X1 & X2 & X3).
  rewrite !Ok_bind. rewrite held_ensure in X3 by done. eexists _, _. split; [done |].
  destruct (acquire_held s t x nd Hs X1 X2) as [H1 H2]; [apply Hn | done |]. done.
Qed.

Lemma on_first_lock_ok (s : sys) (t : nat) (nd stk : Z) : sys_wf s -> legal s (OnFirstLock t nd stk) ->
  exists s' a, run_event s (OnFirstLock t nd stk) = Ok (s', a) /\ sys_wf s' /\ event_ok s (OnFirstLock t nd stk) s' a /\
    det s' = det s.
Proof.
  intros Hs Hleg. pose proof Hs as [D T C E S0]. cbn [run_event event_ok legal] in *.
  destruct (onFirstLock_spec HN (thr s t) nd stk (T t)) as (x & b & -> & X1 & X2 & X3). rewrite Ok_bind.
  eexists _, _. split; [done |]. assert (Hc : tls_current (det s) x).
  { destruct b; [| by subst x]. destruct X3 as (_ & _ & X4 & X5). intros Hx y. rewrite X5. intros ->%elem_of_singleton.
    apply Hleg. congruence. }
  split_and!; [apply set_thr_wf'; [done | done | done | by rewrite X2] | | done].
  exists b. split; [done |]. intros ->. destruct X3 as (X3 & _ & _ & X4). unfold held. cbn. rewrite put_at_eq, X3, X4.
  split; destruct (decide _); set_solver.
Qed.

Lemma on_lock_fast_ok (s : sys) (t : nat) (nd stk : Z) : sys_wf s -> legal s (OnLockFast t nd stk) ->
  exists s' a, run_event s (OnLockFast t nd stk) = Ok (s', a) /\ sys_wf s' /\ event_ok s (OnLockFast t nd stk) s' a /\
    det s' = det s.
Proof.
  intros Hs [Hal Hroom]. pose proof Hs as [D T C E S0]. cbn [run_event event_ok].
  destruct (onLockFast_spec HN (det s) (thr s t) nd stk D (T t) Hroom) as (x & b & -> & X1 & X2 & X3). rewrite Ok_bind.
  eexists _, _. split; [done |]. destruct b.
  - destruct X3 as (_ & He & Hn & Hb & Hed). assert (Hh : bits (bv_ (thr s t)) = held s t) by (unfold held; by rewrite decide_True).
    rewrite Hh in Hb, Hed. destruct (acquire_held s t x nd Hs X1) as [H1 H2]; [congruence | by apply Hal | done |].
    split_and!; [done | by exists true | done].
  - subst x. split; [by apply set_thr_wf' |]. split; [by exists false | done].
Qed.

Lemma on_unlock_ok (s : sys) (t : nat) (nd : Z) : sys_wf s ->
  exists s' a, run_event s (OnUnlock t nd) = Ok (s', a) /\ sys_wf s' /\ event_ok s (OnUnlock t nd) s' a /\ det s' = det s.
Proof.
  intros Hs. pose proof Hs as [D T C E S0]. cbn [run_event event_ok].
  destruct (onUnlock_spec HN (thr s t) nd (T t)) as (x & -> & X1 & X2 & X3). rewrite Ok_bind.
  eexists _, _. split; [done |]. split_and!; [| | done].
  - apply set_thr_wf'; [done | done | | by rewrite X2]. intros Hx y Hy. apply (C t); [congruence | by apply X3].
  - unfold held. cbn. rewrite put_at_eq, X2. by destruct (decide _).
Qed.

(** ** Runs *)

(** [reachable P s]: from a cleared state by legal events whose answers
    satisfy [P]. *)
Inductive reachable (P : sys -> dd_event -> answer -> Prop) : sys -> Prop :=
| reachable_init s : initial s -> reachable P s
| reachable_step s e s' a : reachable P s -> legal s e -> run_event s e = Ok (s', a) -> P s e a -> reachable P s'.

Lemma event_step (s : sys) (e : dd_event) : sys_wf s -> legal s e ->
  exists s' a, run_event s e = Ok (s', a) /\ sys_wf s' /\ event_ok s e s' a /\
    (forall x y, edge (g_ (det s')) x y -> edge (g_ (det s)) x y \/ new_edge s e x y).
Proof.
  intros Hs He. destruct e as [data | nd | t nd stk | t nd stk | t nd stk | t nd stk | t nd].
  - destruct (new_node_ok s data Hs He) as (s' & a & H1 & H2 & H3 & H4). exists s', a. split_and!; try done. eauto.
  - destruct (remove_node_ok s nd Hs He) as (s' & a & H1 & H2 & H3 & H4). exists s', a. split_and!; try done. eauto.
  - destruct (on_lock_ok s t nd stk Hs He) as (s' & a & H1 & H2 & H3 & H4). exists s', a. split_and!; try done. apply H4.
  - destruct (on_try_lock_ok s t nd stk Hs He) as (s' & a & H1 & H2 & H3 & H4). exists s', a. rewrite H4. eauto.
  - destruct (on_first_lock_ok s t nd stk Hs He) as (s' & a & H1 & H2 & H3 & H4). exists s', a. rewrite H4. eauto.
  - destruct (on_lock_fast_ok s t nd stk Hs He) as (s' & a & H1 & H2 & H3 & H4). exists s', a. rewrite H4. eauto.
  - destruct (on_unlock_ok s t nd Hs) as (s' & a & H1 & H2 & H3 & H4). exists s', a. rewrite H4. eauto.
Qed.

Lemma reachable_wf (P : sys -> dd_event -> answer -> Prop) (s : sys) : reachable P s -> sys_wf s.
Proof.
  induction 1 as [s Hi | s e s' a _ IH He Hrun _]; [by apply initial_wf |].
  destruct (event_step s e IH He) as (s2 & b & Hr & Hw & _). congruence.
Qed.

(** ** Cycles *)

Definition acyclic (g : BVGraph (BV := BV)) : Prop := forall x, ~ tc (edge g) x x.

Lemma acyclic_subrel (g g' : BVGraph (BV := BV)) : (forall x y, edge g' x y -> edge g x y) -> acyclic g -> acyclic g'.
Proof.
  intros Hsub Hg. enough (Htc : forall x y, tc (edge g') x y -> tc (edge g) x y) by (intros x Hx; apply (Hg x), Htc, Hx).
  induction 1 as [x y Hxy | x y z Hxy _ IH]; [by apply tc_once, Hsub | by eapply tc_l; [apply Hsub |]].
Qed.

Lemma rtc_new_edges (g g' : BVGraph (BV := BV)) (H' : gset Z) (cur y : Z) :
  (forall x y, edge g' x y -> edge g x y \/ (x ∈ H' /\ y = cur)) -> ~ leads_to_held g cur H' ->
  rtc (edge g') cur y -> rtc (edge g) cur y.
Proof.
  intros Hed Hno. revert y. apply (rtc_ind_r (fun y => rtc (edge g) cur y)); [done |].
  intros y z _ Hyz IH. destruct (Hed y z Hyz) as [Hg | [Hh ->]]; [by eapply rtc_r |].
  destruct Hno. by exists y.
Qed.

Lemma tc_new_edges (g g' : BVGraph (BV := BV)) (H' : gset Z) (cur x y : Z) :
  (forall x y, edge g' x y -> edge g x y \/ (x ∈ H' /\ y = cur)) -> tc (edge g') x y ->
  tc (edge g) x y \/ exists h, h ∈ H' /\ rtc (edge g') x h /\ rtc (edge g') cur y.
Proof.
  intros Hed Hxy. induction Hxy as [x y Hxy | x y z Hxy Hyz IH].
  - destruct (Hed x y Hxy) as [Hg | [Hh ->]]; [left; by apply tc_once | right; by exists x].
  - destruct (Hed x y Hxy) as [Hg | [Hh ->]].
    + destruct IH as [IH | (h & Hh & H1 & H2)]; [left; by eapply tc_l | right]. exists h. split_and!; try done. by eapply rtc_l.
    + right. exists x. split_and!; [done | done |]. by apply tc_rtc.
Qed.

(** Adding the edges of an acquisition closes a cycle exactly when the node
    led to a held lock before. *)
Lemma new_edges_acyclic (g g' : BVGraph (BV := BV)) (H' : gset Z) (cur : Z) : acyclic g ->
  (forall x y, edge g' x y <-> edge g x y \/ (x ∈ H' /\ y = cur)) ->
  acyclic g' <-> ~ leads_to_held g cur H'.
Proof.
  intros Hg Hed. split.
  - intros Hac (h & Hh & Hp). apply (Hac cur). apply (tc_rtc_l cur h cur).
    + revert Hp. apply rtc_subrel. intros x y Hxy. apply Hed. by left.
    + apply tc_once, Hed. by right.
  - intros Hno x Hx. pose proof (fun x y => proj1 (Hed x y)) as Hed1.
    destruct (tc_new_edges g g' H' cur x x Hed1 Hx) as [Htc | (h & Hh & H1 & H2)]; [by apply (Hg x) |].
    apply Hno. exists h. split; [done |]. apply (rtc_new_edges g g' H' cur h Hed1 Hno). by etransitivity.
Qed.


(** No thread locked recursively, and no onLock answered true. *)
Definition quiet (s : sys) (e : dd_event) (a : answer) : Prop :=
  match e with OnLock t nd _ => index nd ∉ held s t /\ a = Flag false | _ => True end.

(** C9. onLock reports exactly the lock order inversions.  In every state
    reached by legal events among which no lock was taken recursively and no
    onLock answered true, the lock graph has no cycle; and for the next
    onLock of a lock the thread does not hold, the answer is true exactly when
    the graph has a cycle afterwards: as long as the detector is silent there
    is none, and what it reports is one. *)
Theorem lock_reports_exact (s : sys) : reachable quiet s ->
  acyclic (g_ (det s)) /\
  forall t nd stk, legal s (OnLock t nd stk) -> index nd ∉ held s t ->
    exists s' b, run_event s (OnLock t nd stk) = Ok (s', Flag b) /\ (b = true <-> ~ acyclic (g_ (det s'))).
Proof.
  intros Hr.
  assert (Hlock : forall s t nd stk s' b, sys_wf s -> acyclic (g_ (det s)) -> legal s (OnLock t nd stk) ->
    index nd ∉ held s t -> run_event s (OnLock t nd stk) = Ok (s', Flag b) -> (b = true <-> ~ acyclic (g_ (det s'))) /\
    (b = false -> acyclic (g_ (det s')))).
  { clear s Hr. intros s t nd stk s' b Hs Hac He Hn Hrun.
    destruct (on_lock_ok s t nd stk Hs He) as (s2 & a2 & Hr2 & _ & (b2 & -> & Hb & _) & Hed).
    rewrite Hr2 in Hrun. injection Hrun as -> ->.
    pose proof (new_edges_acyclic (g_ (det s)) (g_ (det s')) (held s t) (index nd) Hac Hed) as Hiff.
    destruct b; split; try done.
    - split; [intros _ Hc | done]. by apply Hiff; [| apply Hb].
    - split; [done |]. intros Hc. destruct Hc. apply Hiff. intros Hl. assert (false = true) by (apply Hb; done). done.
    - intros _. apply Hiff. intros Hl. assert (false = true) by (apply Hb; done). done. }
  assert (Hac : acyclic (g_ (det s))).
  { induction Hr as [s (d & x & ->) | s e s' a Hr IH He Hrun Hq].
    - intros x0 Hx. destruct (graph_clear_spec (g_ d)) as [_ Gn]. cbn in Hx.
      assert (Htc : forall u w, ~ tc (edge (graph_clear (g_ d))) u w) by (intros u w Ht; destruct Ht as [u w Hu | u w z Hu _]; by apply Gn in Hu).
      by apply Htc in Hx.
    - pose proof (reachable_wf _ s Hr) as Hs.
      destruct e as [data | nd | t nd stk | t nd stk | t nd stk | t nd stk | t nd].
      3: { destruct Hq as [Hn ->]. by apply (Hlock s t nd stk s' false). }
      all: match goal with Hrun : run_event ?st ?ev = _, Hw : sys_wf ?st, Hl : legal ?st _, Hac : acyclic _ |- _ =>
        destruct (event_step st ev Hw Hl) as (s2 & a2 & Hr2 & _ & _ & Hed); rewrite Hr2 in Hrun; injection Hrun as -> ->;
        apply (acyclic_subrel (g_ (det st))); [| exact Hac] end; intros x y Hxy; by destruct (Hed x y Hxy). }
  split; [done |]. intros t nd stk He Hn. pose proof (reachable_wf _ s Hr) as Hs.
  destruct (on_lock_ok s t nd stk Hs He) as (s' & a & Hrun & _ & (b & -> & _) & _). exists s', b.
  split; [done |]. by apply (Hlock s t nd stk s' b).
Qed.

(** ** Running concrete events *)

Definition next_state (s : sys) (e : dd_event) : sys := match run_event s e with Ok (s', _) => s' | Die _ => s end.
Definition answer_to (s : sys) (e : dd_event) : option answer := match run_event s e with Ok (_, a) => Some a | Die _ => None end.

Lemma reachable_next (P : sys -> dd_event -> answer -> Prop) (s : sys) (e : dd_event) (a : answer) :
  reachable P s -> legal s e -> answer_to s e = Some a -> P s e a -> reachable P (next_state s e).
Proof.
  intros Hr He Ha HP. unfold answer_to in Ha. unfold next_state.
  destruct (run_event s e) as [[s' a'] |] eqn:Hrun; [| done]. injection Ha as ->. by apply (reachable_step P s e s' a).
Qed.
End system.

(** ** An instance: eight nodes, two threads, locks 8 and 9 *)

Abbreviation sys8 := (sys (BV := BasicBitVector)).
Abbreviation run8 := (next_state (H := basic_bit_vector 8)).
Abbreviation reachable8 := (reachable (HB := basic_spec 8 w8_ok)).
Abbreviation legal8 := (legal (HB := basic_spec 8 w8_ok)).

Definition start8 : sys8 :=
  Sys (dd_clear (HBV := basic_bit_vector 8) (Detector 5 1 2 3 graph8 (fun _ => 0) []))
      (fun _ => tls_clear (HBV := basic_bit_vector 8) (TLS 7 9 [1] [])).
(** Thread 0 locks 8 then 9 and unlocks both; thread 1 locks 9. *)
Definition events8 : list dd_event :=
  [NewNode 100; NewNode 200; OnLock 0 8 1; OnLock 0 9 2; OnUnlock 0 9; OnUnlock 0 8; OnLock 1 9 3].
Definition state8 (n : nat) : sys8 := foldl run8 start8 (take n events8).

Ltac decide_now := apply (bool_decide_unpack _); vm_compute; exact I.
Ltac legal_lock := split; [split; [vm_compute; discriminate | split; [vm_compute; reflexivity |]] | vm_compute; reflexivity];
  split; [split; [vm_compute; discriminate | vm_compute; reflexivity] | split; decide_now].

Lemma state8_quiet : reachable8 (quiet (HB := basic_spec 8 w8_ok)) (state8 7).
Proof.
  unfold state8, events8. cbn [take foldl].
  eapply (reachable_next _ _ _ (Flag false)); [| legal_lock | vm_compute; reflexivity | split; [decide_now | done]].
  eapply (reachable_next _ _ _ Done); [| exact I | vm_compute; reflexivity | exact I].
  eapply (reachable_next _ _ _ Done); [| exact I | vm_compute; reflexivity | exact I].
  eapply (reachable_next _ _ _ (Flag false)); [| legal_lock | vm_compute; reflexivity | split; [decide_now | done]].
  eapply (reachable_next _ _ _ (Flag false)); [| legal_lock | vm_compute; reflexivity | split; [decide_now | done]].
  eapply (reachable_next _ _ _ (Index 9)); [| vm_compute; discriminate | vm_compute; reflexivity | exact I].
  eapply (reachable_next _ _ _ (Index 8)); [| vm_compute; discriminate | vm_compute; reflexivity | exact I].
  apply reachable_init. by eexists _, _.
Qed.

Lemma reachable_any {BV} `{HB : BitVectorSpec BV} (P : sys -> dd_event -> answer -> Prop) (s : sys) :
  reachable P s -> reachable (fun _ _ _ => True) s.
Proof. induction 1; [by apply reachable_init | by eapply reachable_step]. Qed.

(** Thread 1 goes on to lock 8: thread 0 took them in the other order. *)
Lemma lock_legal8 : legal8 (state8 7) (OnLock 1 8 4).
Proof. legal_lock. Qed.


Lemma lock_reports_exact_witness :
  acyclic (HB := basic_spec 8 w8_ok) (g_ (det (state8 7))) /\
  answer_to (H := basic_bit_vector 8) (state8 7) (OnLock 1 8 4) = Some (Flag true) /\
  (exists s' b, run_event (H := basic_bit_vector 8) (state8 7) (OnLock 1 8 4) = Ok (s', Flag b) /\
    (b = true <-> ~ acyclic (HB := basic_spec 8 w8_ok) (g_ (det s')))).
Proof.
  destruct (lock_reports_exact (HB := basic_spec 8 w8_ok) ltac:(vm_compute; discriminate) (state8 7) state8_quiet) as [H1 H2].
  split; [exact H1 |]. split; [vm_compute; reflexivity |]. apply H2; [exact lock_legal8 | decide_now].
Defined.
