(* ===== verification/DeadlockRuntime.v ===== *)
(** * The mutex hooks: sanitizer_deadlock_detector1.cpp

    [DD] ties the lock graph to the user's mutexes and threads, which the
    caller passes by address.  [mutexes] and [threads] are the [DDMutex] and
    [DDLogicalThread] objects at those addresses; what the caller's
    [DDCallback] returns ([Unwind], [UniqueTid]) is an argument of each hook.
    Hooks are atomic: they are the critical sections of [mtx] together with
    the lock-free prefixes that only read the calling thread's state. *)

From S2P Require Import Prelude Words BitVector BVGraph DeadlockDetector.

Section runtime.
Context {BV : Type} `{HBV : BitVector BV} `{HIT : !BVIterator BV}.

Record DDMutex : Type := Mutex { id : Z; stk : Z; ctx : Z }.
Record ReportEdge : Type := MkReportEdge { thr_ctx : Z; mtx_ctx0 : Z; mtx_ctx1 : Z; stk0 : Z; stk1 : Z }.
Record DDReport : Type := Report { n : Z; loop : list ReportEdge }.
Definition kMaxLoopSize : nat := 20.

Record DDLogicalThread : Type := LogicalThread {
  lt_ctx : Z;
  lt_dd : DeadlockDetectorTLS (BV := BV);
  rep : DDReport;
  report_pending : bool;
}.
Record DD : Type := MkDD {
  dd : DeadlockDetector (BV := BV);
  second_deadlock_stack : bool;
  mutexes : gmap Z DDMutex;
  threads : gmap Z DDLogicalThread;
}.
(** [cb->lt], [cb->Unwind()], [cb->UniqueTid()] *)
Record DDCallback : Type := Callback { lt : Z; Unwind : Z; UniqueTid : Z }.

Definition set_dd (s : DD) (d : DeadlockDetector) : DD := MkDD d (second_deadlock_stack s) (mutexes s) (threads s).
Definition set_mutex (s : DD) (m : Z) (x : DDMutex) : DD :=
  MkDD (dd s) (second_deadlock_stack s) (<[m := x]> (mutexes s)) (threads s).
Definition set_thread (s : DD) (t : Z) (x : DDLogicalThread) : DD :=
  MkDD (dd s) (second_deadlock_stack s) (mutexes s) (<[t := x]> (threads s)).
Definition set_tls (s : DD) (t : Z) (d : DeadlockDetectorTLS) : result DD :=
  x ← get_or_die (threads s !! t);
  Ok (set_thread s t (LogicalThread (lt_ctx x) d (rep x) (report_pending x))).

Definition the_mutex (s : DD) (m : Z) : result DDMutex := get_or_die (mutexes s !! m).
Definition the_thread (s : DD) (t : Z) : result DDLogicalThread := get_or_die (threads s !! t).

(** [DD::DD]: the detector comes from fresh memory. *)
Definition Create (mem : DeadlockDetector) (flag : bool) : DD := MkDD (dd_clear mem) flag ∅ ∅.

(** [p] is what InternalAlloc returns, [mem] what it holds. *)
Definition CreateLogicalThread (s : DD) (p : Z) (mem : DDLogicalThread) (c : Z) : DD :=
  set_thread s p (LogicalThread c (tls_clear (lt_dd mem)) (rep mem) false).
Definition DestroyLogicalThread (s : DD) (t : Z) : DD :=
  MkDD (dd s) (second_deadlock_stack s) (mutexes s) (delete t (threads s)).

(** [mem] is what the caller's memory at [m] holds. *)
Definition MutexInit (s : DD) (cb : DDCallback) (m : Z) (mem : DDMutex) : DD :=
  set_mutex s m (Mutex 0 (Unwind cb) (ctx mem)).

Definition MutexEnsureID (s : DD) (t m : Z) : result DD :=
  x ← the_mutex s m;
  s ← (if negb (nodeBelongsToCurrentEpoch (dd s) (id x)) then
         '(d, node) ← newNode (dd s) m;
         Ok (set_mutex (set_dd s d) m (Mutex node (stk x) (ctx x)))
       else Ok s);
  y ← the_thread s t;
  set_tls s t (ensureCurrentEpoch (dd s) (lt_dd y)).

(** One turn of the loop over the path: the edge [path[i] => path[(i+1) % len]]. *)
Definition report_edge (s : DD) (path : list Z) (len i : nat) : result ReportEdge :=
  f ← get_or_die (path !! i);
  t ← get_or_die (path !! ((i + 1) mod len)%nat);
  p0 ← getData (dd s) f;
  p1 ← getData (dd s) t;
  e ← findEdge (dd s) f t;
  m0 ← the_mutex s p0;
  m1 ← the_mutex s p1;
  let '(sf, st, tid) := default (0, 0, 0) e in
  Ok (MkReportEdge (wrap tid) (ctx m0) (ctx m1) st sf).
Fixpoint report_edges (s : DD) (path : list Z) (len : nat) (turns : list nat) : result (list ReportEdge) :=
  match turns with
  | [] => Ok []
  | i :: turns' => e ← report_edge s path len i; rest ← report_edges s path len turns'; Ok (e :: rest)
  end.

(** [uptr path[20]] holds whatever was on the stack. *)
Definition ReportDeadlock (s : DD) (cb : DDCallback) (m : Z) (stack : list Z) : result DD :=
  y ← the_thread s (lt cb);
  x ← the_mutex s m;
  '(d, path, len) ← findPathToLock (dd s) (lt_dd y) (id x) stack kMaxLoopSize;
  let s := set_dd s d in
  if len =? 0 then Ok s
  else
    p0 ← get_or_die (head path);
    _ ← check (id x =? p0);
    let len := Nat.min (Z.to_nat len) kMaxLoopSize in
    es ← report_edges s path len (seq 0 len);
    Ok (set_thread s (lt cb) (LogicalThread (lt_ctx y) (lt_dd y)
          (Report (Z.of_nat len) (es ++ drop len (loop (rep y)))) true)).

Definition MutexBeforeLock (s : DD) (cb : DDCallback) (m : Z) (wlock : bool) (stack : list Z) : result DD :=
  y ← the_thread s (lt cb);
  if tls_empty (lt_dd y) then Ok s
  else
    x ← the_mutex s m;
    all ← hasAllEdges (dd s) (lt_dd y) (id x);
    if all : bool then Ok s
    else
      s ← MutexEnsureID s (lt cb) m;
      y ← the_thread s (lt cb);
      x ← the_mutex s m;
      held ← isHeld (dd s) (lt_dd y) (id x);
      if held : bool then Ok s
      else
        '(d, t, found) ← onLockBefore (dd s) (lt_dd y) (id x);
        s ← set_tls (set_dd s d) (lt cb) t;
        if found : bool then
          '(d, t, _) ← dd_addEdges d t (id x) (Unwind cb) (UniqueTid cb);
          s ← set_tls (set_dd s d) (lt cb) t;
          ReportDeadlock s cb m stack
        else Ok s.

Definition MutexAfterLock (s : DD) (cb : DDCallback) (m : Z) (wlock trylock : bool) : result DD :=
  y ← the_thread s (lt cb);
  x ← the_mutex s m;
  let stk := if second_deadlock_stack s then Unwind cb else 0 in
  '(t, first) ← onFirstLock (lt_dd y) (id x) stk;
  if first : bool then set_tls s (lt cb) t
  else
    '(t, fast) ← onLockFast (dd s) t (id x) stk;
    if fast : bool then set_tls s (lt cb) t
    else
      s ← MutexEnsureID s (lt cb) m;
      y ← the_thread s (lt cb);
      x ← the_mutex s m;
      _ ← (if wlock then held ← isHeld (dd s) (lt_dd y) (id x); check (negb held) else Ok tt);
      '(d, t) ← (if negb trylock then
                   '(d, t, _) ← dd_addEdges (dd s) (lt_dd y) (id x)
                                  (if negb (stk =? 0) then stk else Unwind cb) (UniqueTid cb);
                   Ok (d, t)
                 else Ok (dd s, lt_dd y));
      t ← onLockAfter d t (id x) stk;
      set_tls (set_dd s d) (lt cb) t.

Definition MutexBeforeUnlock (s : DD) (cb : DDCallback) (m : Z) (wlock : bool) : result DD :=
  y ← the_thread s (lt cb);
  x ← the_mutex s m;
  t ← onUnlock (lt_dd y) (id x);
  set_tls s (lt cb) t.

Definition MutexDestroy (s : DD) (cb : DDCallback) (m : Z) : result DD :=
  x ← the_mutex s m;
  if id x =? 0 then Ok s
  else
    d ← (if nodeBelongsToCurrentEpoch (dd s) (id x) then removeNode (dd s) (id x) else Ok (dd s));
    Ok (set_mutex (set_dd s d) m (Mutex 0 (stk x) (ctx x))).

Definition GetReport (s : DD) (cb : DDCallback) : result (DD * option DDReport) :=
  y ← the_thread s (lt cb);
  if negb (report_pending y) then Ok (s, None)
  else Ok (set_thread s (lt cb) (LogicalThread (lt_ctx y) (lt_dd y) (rep y) false), Some (rep y)).
End runtime.
