(* ===== verification/DeadlockRuntimeSpecs.v ===== *)
(** * What the mutex hooks promise

    The invariant that ties the nodes of the lock graph to the user's mutexes,
    its preservation by every hook, and what MutexBeforeLock reports. *)

From S2P Require Import Prelude Words BitVector BVGraph BVGraphSpecs DeadlockDetector DeadlockSpecs DeadlockSystem DeadlockRuntime.

Section specs.
Context {BV : Type} `{HB : BitVectorSpec BV} `{HIT : !BVIterator BV} {HITS : BVIteratorSpec BV}.

Abbreviation N := (kSize (BV := BV)).
Abbreviation detector := (DeadlockDetector (BV := BV)).
Abbreviation tls := (DeadlockDetectorTLS (BV := BV)).
Abbreviation index := (nodeToIndexUnchecked (BV := BV)).
Abbreviation dd_state := (DD (BV := BV)).
Abbreviation logical_thread := (DDLogicalThread (BV := BV)).

Context (HN : N <= 65536).

(** The locks of a thread in the lock graph [d]. *)
Record thread_ok (d : detector) (t : tls) : Prop := {
  to_wf : tls_wf t;
  to_cur : tls_current d t;
  to_epoch : epoch_ t <= current_epoch_ d;
}.

(** A mutex has either no node, a node of an old epoch, or a node in use whose
    data is its address. *)
Record mutex_ok (d : detector) (m nd : Z) : Prop := {
  mo_id : nd = 0 \/ N <= nd;
  mo_epoch : nodeToEpoch (BV := BV) nd <= current_epoch_ d;
  mo_node : N <= nd -> nodeToEpoch (BV := BV) nd = current_epoch_ d -> allocated d (index nd) /\ data_ d (index nd) = m;
}.

Record rt_wf (s : dd_state) : Prop := {
  r_dd : dd_wf (dd s);
  r_start : current_epoch_ (dd s) = 0 -> bits (available_nodes_ (dd s)) = ∅ /\ bits (recycled_nodes_ (dd s)) = ∅;
  r_thread : forall t y, threads s !! t = Some y -> thread_ok (dd s) (lt_dd y);
  r_mutex : forall m x, mutexes s !! m = Some x -> mutex_ok (dd s) m (id x);
  r_own : forall i, current_epoch_ (dd s) <> 0 -> allocated (dd s) i ->
    exists x, mutexes s !! data_ (dd s) i = Some x /\ id x = i + current_epoch_ (dd s);
}.

(** ** Mutexes, locks and order *)

(** Mutex [m] has the node of index [i]. *)
Definition on_node (s : dd_state) (m i : Z) : Prop :=
  exists x, mutexes s !! m = Some x /\ N <= id x /\ nodeToEpoch (BV := BV) (id x) = current_epoch_ (dd s) /\ index (id x) = i.

(** A lock of [b] while [a] was held has been recorded. *)
Definition order (s : dd_state) (a b : Z) : Prop := exists i j, on_node s a i /\ on_node s b j /\ edge (g_ (dd s)) i j.

Definition holds (s : dd_state) (t m : Z) : Prop :=
  exists i y, on_node s m i /\ threads s !! t = Some y /\ epoch_ (lt_dd y) = current_epoch_ (dd s) /\ i ∈ bits (bv_ (lt_dd y)).

Lemma on_node_ok (s : dd_state) (m i : Z) : rt_wf s -> on_node s m i ->
  allocated (dd s) i /\ data_ (dd s) i = m /\ exists x, mutexes s !! m = Some x /\ node_ok (dd s) (id x) /\ index (id x) = i.
Proof.
  intros Hs (x & Hx & H1 & H2 & <-). destruct (mo_node _ _ _ (r_mutex s Hs m x Hx) H1 H2) as [Ha Hd].
  split_and!; [done | done |]. by exists x.
Qed.

Lemma on_node_inj (s : dd_state) (m i j : Z) : on_node s m i -> on_node s m j -> i = j.
Proof. intros (x & Hx & _ & _ & <-) (y & Hy & _ & _ & <-). congruence. Qed.

Lemma node_epoch_pos (nd : Z) : N <= nd -> N <= nodeToEpoch (BV := BV) nd.
Proof.
  clear HN. pose proof (N_pos (BV := BV)). intros Hn. unfold nodeToEpoch. assert (1 <= nd / N) by (apply Z.div_le_lower_bound; lia). nia.
Qed.

(** Every node in use is some mutex's. *)
Lemma on_node_data (s : dd_state) (i : Z) : rt_wf s -> current_epoch_ (dd s) <> 0 -> allocated (dd s) i -> on_node s (data_ (dd s) i) i.
Proof.
  intros Hs Hne Ha. destruct (r_own s Hs i Hne Ha) as (x & Hx & Hid). exists x. rewrite Hid.
  pose proof (epoch_multiple (dd s) (r_dd s Hs) Hne). destruct Ha as [Hi _].
  destruct (node_join (current_epoch_ (dd s)) i (d_epoch_mod _ (r_dd s Hs)) Hi) as [H1 H2]. unfold in_graph in Hi.
  split_and!; [done | lia | done | done].
Qed.

Lemma belongs_spec (s : dd_state) (m : Z) (x : DDMutex) : rt_wf s -> mutexes s !! m = Some x ->
  nodeBelongsToCurrentEpoch (dd s) (id x) = true <-> on_node s m (index (id x)).
Proof.
  intros Hs Hx. pose proof (N_pos (BV := BV)). unfold nodeBelongsToCurrentEpoch. fold (nodeToEpoch (BV := BV) (id x)).
  destruct (r_mutex s Hs m x Hx) as [Hid _ _]. rewrite andb_true_iff, negb_true_iff, Z.eqb_neq, Z.eqb_eq. split.
  - intros [Hne He]. exists x. split_and!; [done | lia | done | done].
  - intros (y & Hy & H1 & H2 & _). replace y with x in * by congruence. split; [lia | done].
Qed.

(** ** Changing one part of the state *)

Lemma thread_ok_same (d d' : detector) (t : tls) : current_epoch_ d' = current_epoch_ d ->
  (forall i, allocated d i -> allocated d' i) -> thread_ok d t -> thread_ok d' t.
Proof.
  intros He Ha [W C E]. split; [done | | by rewrite He]. intros Ht i Hi. apply Ha, C; [congruence | done].
Qed.

Lemma set_dd_wf (s : dd_state) (d : detector) : rt_wf s -> dd_wf d -> current_epoch_ d = current_epoch_ (dd s) ->
  available_nodes_ d = available_nodes_ (dd s) -> recycled_nodes_ d = recycled_nodes_ (dd s) ->
  data_ d = data_ (dd s) -> rt_wf (set_dd s d).
Proof.
  intros [D S0 T M O] Hd He Ha Hr Hdata.
  assert (Hal : forall i, allocated d i <-> allocated (dd s) i) by (intros i; unfold allocated; by rewrite Ha, Hr).
  split; cbn; try done.
  - by rewrite He, Ha, Hr.
  - intros t y Hy. apply (thread_ok_same (dd s)); [done | intros i; by rewrite Hal | by apply (T t)].
  - intros m x Hx. destruct (M m x Hx) as [M1 M2 M3]. split; [done | by rewrite He |].
    intros H1 H2. rewrite Hal, Hdata. apply M3; congruence.
  - intros i Hne Hi. rewrite Hdata, He. apply O; [congruence | by apply Hal].
Qed.

Lemma set_thread_wf (s : dd_state) (t : Z) (y : logical_thread) : rt_wf s -> thread_ok (dd s) (lt_dd y) -> rt_wf (set_thread s t y).
Proof.
  intros [D S0 T M O] Hy. split; cbn; try done. intros u z Hz.
  destruct (decide (u = t)) as [-> | Hne]; [rewrite lookup_insert_eq in Hz; by injection Hz as <- |].
  rewrite lookup_insert_ne in Hz by done. by apply (T u).
Qed.

Lemma the_thread_Ok (s : dd_state) (t : Z) (y : logical_thread) : threads s !! t = Some y -> the_thread s t = Ok y.
Proof. intros Hy. unfold the_thread. by rewrite Hy. Qed.

Lemma the_mutex_Ok (s : dd_state) (m : Z) (x : DDMutex) : mutexes s !! m = Some x -> the_mutex s m = Ok x.
Proof. intros Hx. unfold the_mutex. by rewrite Hx. Qed.

Lemma set_tls_Ok (s : dd_state) (t : Z) (y : logical_thread) (d : tls) : threads s !! t = Some y ->
  set_tls s t d = Ok (set_thread s t (LogicalThread (lt_ctx y) d (rep y) (report_pending y))).
Proof. intros Hy. unfold set_tls. by rewrite Hy. Qed.

(** ** Giving a mutex its node *)

Lemma on_node_of_own (s : dd_state) (i : Z) (x : DDMutex) (m : Z) : rt_wf s -> current_epoch_ (dd s) <> 0 -> in_graph (BV := BV) i ->
  mutexes s !! m = Some x -> id x = i + current_epoch_ (dd s) -> on_node s m (index (id x)).
Proof.
  intros Hs Hne Hi Hx Hid. destruct (node_join (current_epoch_ (dd s)) i (d_epoch_mod _ (r_dd s Hs)) Hi) as [H1 H2].
  pose proof (epoch_multiple (dd s) (r_dd s Hs) Hne). unfold in_graph in Hi. exists x. rewrite Hid. split_and!; [done | lia | done | done].
Qed.

Definition with_node (s : dd_state) (d : detector) (m nd : Z) (x : DDMutex) : dd_state := set_mutex (set_dd s d) m (Mutex nd (stk x) (ctx x)).

Lemma new_node_wf (s : dd_state) (m : Z) (x : DDMutex) : rt_wf s -> mutexes s !! m = Some x -> ~ on_node s m (index (id x)) ->
  current_epoch_ (dd s) + N + N <= word_modulus ->
  exists d nd, newNode (dd s) m = Ok (d, nd) /\ rt_wf (with_node s d m nd x) /\ node_ok d nd /\
    (forall j, ~ edge (g_ d) (index nd) j) /\ (forall t y, threads s !! t = Some y -> epoch_ (lt_dd y) = current_epoch_ d -> index nd ∉ bits (bv_ (lt_dd y))).
Proof.
  intros Hs Hx Hno Hmax. pose proof Hs as [D S0 T M O]. pose proof (N_pos (BV := BV)) as HNp.
  destruct (newNode_spec HN (dd s) m D S0 Hmax) as (d & i & -> & Hd & Hpos & Hok & Hi & Hdata & Hfresh & Hedge & Hcase).
  exists d, (i + current_epoch_ d). rewrite Hi.
  assert (Hthread : forall t y, threads s !! t = Some y -> thread_ok d (lt_dd y)).
  { intros t y Hy. destruct (T t y Hy) as [W C E]. destruct Hcase as [(He & Hal & _) | (He & _)].
    - apply (thread_ok_same (dd s)); [done | | done]. intros j Hj. apply Hal. by left.
    - split; [done | | lia]. intros Ht. lia. }
  split; [done |]. split_and!; [| done | |].
  - split; cbn; [done | lia | done | |].
    + intros m' x' Hx'. destruct (decide (m' = m)) as [-> | Hne].
      * rewrite lookup_insert_eq in Hx'. injection Hx' as <-. cbn. destruct Hok as (K1 & K2 & K3).
        split; [by right | lia |]. rewrite Hi in *. done.
      * rewrite lookup_insert_ne in Hx' by done. destruct (M m' x' Hx') as [M1 M2 M3]. split; [done | |].
        { destruct Hcase as [(He & _) | (He & _)]; lia. }
        intros H1 H2. destruct Hcase as [(He & Hal & _ & Hda) | (He & _)]; [| lia].
        destruct (M3 H1 ltac:(congruence)) as [Ha Hdm]. split; [apply Hal; by left |]. rewrite Hda; [done |].
        intros Heq. apply Hfresh. split; [congruence | done].
    + intros j _ Hj. destruct (decide (j = i)) as [-> | Hne].
      * rewrite Hdata, lookup_insert_eq. by eexists.
      * destruct Hcase as [(He & Hal & _ & Hda) | (_ & _ & Hal)]; [| apply Hal in Hj; done].
        apply Hal in Hj as [Hj | Hj]; [| done]. destruct (O j ltac:(lia) Hj) as (x' & Hx' & Hid').
        rewrite Hda, He by done. exists x'. split; [| done]. rewrite lookup_insert_ne; [done |]. intros Heq.
        apply Hno. rewrite <- Heq in Hx'. replace x' with x in * by congruence.
        apply (on_node_of_own s j); [done | lia | by destruct Hj | congruence | done].
  - intros j Hij. by destruct (Hedge _ _ Hij) as (_ & ? & _).
  - intros t y Hy He Hin. destruct (T t y Hy) as [W C E]. destruct Hcase as [(He' & _) | (He' & _)]; [| lia].
    apply Hfresh. split; [apply C; [congruence | done] | done].
Qed.

Lemma ensure_ok (d : detector) (t : tls) : thread_ok d t -> thread_ok d (ensureCurrentEpoch d t).
Proof.
  intros [W C E]. destruct (ensure_spec d t W C) as (H1 & H2 & H3 & _). split; [done | by intros _ | by rewrite H2].
Qed.

Definition ensured (d : detector) (y : logical_thread) : logical_thread :=
  LogicalThread (lt_ctx y) (ensureCurrentEpoch d (lt_dd y)) (rep y) (report_pending y).

Lemma MutexEnsureID_spec (s : dd_state) (t m : Z) (x : DDMutex) (y : logical_thread) : rt_wf s ->
  mutexes s !! m = Some x -> threads s !! t = Some y -> current_epoch_ (dd s) + N + N <= word_modulus ->
  exists s' x', MutexEnsureID s t m = Ok s' /\ rt_wf s' /\ mutexes s' !! m = Some x' /\ node_ok (dd s') (id x') /\
    threads s' = <[t := ensured (dd s') y]> (threads s) /\ thread_ok (dd s') (lt_dd y) /\
    (on_node s m (index (id x)) -> dd s' = dd s /\ mutexes s' = mutexes s) /\
    (~ on_node s m (index (id x)) -> index (id x') ∉ bits (bv_ (ensureCurrentEpoch (dd s') (lt_dd y))) /\
      forall j, ~ edge (g_ (dd s')) (index (id x')) j).
Proof.
  intros Hs Hx Hy Hmax. unfold MutexEnsureID. rewrite (the_mutex_Ok s m x Hx), Ok_bind.
  assert (Hrest : forall s1, rt_wf s1 -> threads s1 = threads s ->
    (z ← the_thread s1 t; set_tls s1 t (ensureCurrentEpoch (dd s1) (lt_dd z))) = Ok (set_thread s1 t (ensured (dd s1) y)) /\
    rt_wf (set_thread s1 t (ensured (dd s1) y)) /\ thread_ok (dd s1) (lt_dd y)).
  { intros s1 Hs1 Ht. assert (Hy1 : threads s1 !! t = Some y) by (by rewrite Ht). rewrite (the_thread_Ok s1 t y Hy1), Ok_bind, (set_tls_Ok s1 t y) by done. pose proof (r_thread s1 Hs1 t y Hy1) as Hok. split_and!; [done | | done].
    apply set_thread_wf; [done | by apply ensure_ok]. }
  destruct (nodeBelongsToCurrentEpoch (dd s) (id x)) eqn:Hb; cbn [negb].
  - apply (belongs_spec s m x Hs Hx) in Hb. rewrite Ok_bind. destruct (Hrest s Hs eq_refl) as (-> & Hw & Hok).
    eexists _, x. split_and!; try done. by destruct (on_node_ok s m _ Hs Hb) as (_ & _ & x' & Hx' & Hn & _); simplify_eq.
  - assert (Hno : ~ on_node s m (index (id x))) by (rewrite <- (belongs_spec s m x Hs Hx), Hb; done).
    destruct (new_node_wf s m x Hs Hx Hno Hmax) as (d & nd & -> & Hw & Hn & He & Hh). rewrite !Ok_bind.
    change (set_mutex (set_dd s d) m (Mutex nd (stk x) (ctx x))) with (with_node s d m nd x).
    destruct (Hrest _ Hw eq_refl) as (-> & Hw' & Hok). eexists _, _. split; [done |]. cbn.
    split_and!; [done | by rewrite lookup_insert_eq | done | done | done | done |]. intros _. split; [| done].
    destruct Hok as [W C E]. destruct (ensure_spec d (lt_dd y) W C) as (_ & _ & _ & ->). cbn.
    destruct (decide _); [by apply (Hh t y) | apply not_elem_of_empty].
Qed.

(** ** Paths *)

Lemma walk_lookup (g : BVGraph (BV := BV)) (l : list Z) :
  walk g l <-> l <> [] /\ forall i x y, l !! i = Some x -> l !! S i = Some y -> edge g x y.
Proof.
  induction l as [| x l IH]; [split; [done | by intros [? _]] |]. destruct l as [| y l].
  - split; [intros _; split; [done | intros [| i] a b _ Hb; done] | done].
  - change (walk g (x :: y :: l)) with (edge g x y /\ walk g (y :: l)). rewrite IH. split.
    + intros (He & _ & Hw). split; [done |]. intros [| i] a b Ha Hb; [cbn in Ha, Hb; congruence |]. by apply (Hw i a b).
    + intros (_ & Hw). split_and!; [by apply (Hw 0%nat) | done |]. intros i a b Ha Hb. by apply (Hw (S i) a b).
Qed.

Lemma path_to_prefix (g : BVGraph (BV := BV)) (from x : Z) (targets : gset Z) (l : list Z) (i : nat) :
  path_to g from targets l -> l !! i = Some x -> x ∈ targets -> path_to g from targets (take (S i) l).
Proof.
  intros (Hh & Hw & _) Hi Hx. apply walk_lookup in Hw as [Hne Hw]. split_and!.
  - destruct l; [done |]. exact Hh.
  - apply walk_lookup. split; [by destruct l |]. intros j a b Ha Hb.
    apply lookup_take_Some in Ha as [Ha _], Hb as [Hb _]. by apply (Hw j).
  - exists x. split; [| done]. rewrite last_lookup, length_take. apply lookup_lt_Some in Hi as Hlt.
    replace (Nat.pred (S i `min` length l)) with i by lia. rewrite lookup_take_lt by lia. done.
Qed.

(** A shortest path to the targets does not leave a target. *)
Lemma shortest_old_edges (g g' : BVGraph (BV := BV)) (from cur : Z) (targets : gset Z) (l : list Z) :
  (forall x y, edge g' x y -> edge g x y \/ (x ∈ targets /\ y = cur)) -> path_to g' from targets l ->
  (forall l', path_to g' from targets l' -> (length l <= length l')%nat) -> path_to g from targets l.
Proof.
  intros Hed Hp Hmin. pose proof Hp as (Hh & Hw & Hlast). split_and!; [done | | done]. apply walk_lookup in Hw as [Hne Hw].
  apply walk_lookup. split; [done |]. intros i x y Hx Hy. destruct (Hed x y) as [| [Ht _]]; [by apply (Hw i) | done |].
  specialize (Hmin _ (path_to_prefix g' from x targets l i Hp Hx Ht)). rewrite length_take in Hmin.
  apply lookup_lt_Some in Hy. lia.
Qed.

Lemma path_to_mono (g g' : BVGraph (BV := BV)) (from : Z) (targets : gset Z) (l : list Z) :
  (forall x y, edge g x y -> edge g' x y) -> path_to g from targets l -> path_to g' from targets l.
Proof.
  intros Hed (Hh & Hw & Hl). split_and!; [done | | done]. apply walk_lookup in Hw as [Hne Hw]. apply walk_lookup.
  split; [done |]. intros i x y Hx Hy. by apply Hed, (Hw i).
Qed.

Lemma path_to_allocated (d : detector) (from : Z) (targets : gset Z) (l : list Z) : dd_wf d ->
  (forall h, h ∈ targets -> allocated d h) -> path_to (g_ d) from targets l -> forall x, x ∈ l -> allocated d x.
Proof.
  intros Hd Ht (_ & Hw & z & Hz & Hin) x [i Hi]%list_elem_of_lookup_1. apply walk_lookup in Hw as [_ Hw].
  destruct (l !! S i) as [y |] eqn:Hy; [by apply (edge_allocated d x y), (Hw i) |].
  apply lookup_ge_None in Hy. rewrite last_lookup in Hz. apply lookup_lt_Some in Hi as Hlt.
  replace (Nat.pred (length l)) with i in Hz by lia. replace x with z by congruence. by apply Ht.
Qed.

Lemma rtc_path (g : BVGraph (BV := BV)) (from h : Z) (targets : gset Z) : rtc (edge g) from h -> h ∈ targets ->
  exists l, path_to g from targets l.
Proof.
  intros Hp Hh. induction Hp as [x | x y z Hxy _ IH]; [by exists [x]; apply path_to_one |].
  destruct (IH Hh) as [l Hl]. exists (x :: l). by apply (path_to_cons g x y).
Qed.

Lemma nodes_of_spec (d : detector) (path : list Z) (k : nat) : dd_wf d -> (k <= length path)%nat ->
  (forall x, x ∈ take k path -> in_graph (BV := BV) x) ->
  nodes_of d path k = Ok (((fun x => x + current_epoch_ d) <$> take k path) ++ drop k path).
Proof.
  intros Hd. revert path. induction k as [| k IH]; intros path Hk Hr; [by destruct path |].
  destruct path as [| x path]; [cbn in Hk; lia |]. cbn [nodes_of take drop fmap list_fmap app] in *.
  assert (Hx : in_graph (BV := BV) x) by (apply Hr; left). unfold indexToNode, check_idx. rewrite (check_true (x <? N)) by (apply Z.ltb_lt, Hx).
  rewrite !Ok_bind. rewrite IH; [| cbn in Hk; lia | intros y Hy; apply Hr; by right]. rewrite Ok_bind.
  rewrite wrap_small; [done |]. pose proof (d_epoch d Hd). pose proof (d_epoch_max d Hd). unfold in_graph in Hx. split; lia.
Qed.

Lemma findPathToLock_spec (d : detector) (t : tls) (nd : Z) (path : list Z) (n : nat) : dd_wf d -> tls_wf t ->
  tls_current d t -> epoch_ t = current_epoch_ d -> node_ok d nd -> index nd ∉ bits (bv_ t) -> (n <= length path)%nat ->
  exists d' path' k, findPathToLock d t nd path n = Ok (d', path', Z.of_nat k) /\ same_detector d d' /\ g_ d' = g_ d /\
    length path' = length path /\
    (k = 0%nat -> forall l, path_to (g_ d) (index nd) (bits (bv_ t)) l -> (n < length l)%nat) /\
    ((0 < k)%nat -> (k <= n)%nat /\ exists l, path_to (g_ d) (index nd) (bits (bv_ t)) l /\ length l = k /\
      take k path' = (fun x => x + current_epoch_ d) <$> l /\
      forall l', path_to (g_ d) (index nd) (bits (bv_ t)) l' -> (k <= length l')%nat).
Proof.
  intros Hd Ht Hc He Hn Hout Hlen. unfold findPathToLock. rewrite getLocks_spec by done. rewrite Ok_bind.
  destruct (copyFrom_spec (tmp_bv_ d) (bv_ t) (t_bits t Ht)) as (tmp & -> & Tw & Tb). rewrite Ok_bind.
  set (d1 := Detector _ _ _ tmp _ _ _).
  assert (Hn1 : nodeToIndex d1 nd = Ok (index nd)) by (by apply (nodeToIndex_spec d1)). rewrite Hn1, Ok_bind.
  rewrite getBit_spec by (done || apply index_range). rewrite Ok_bind, bool_decide_false by (by rewrite Tb).
  cbn [negb]. rewrite (check_true true), Ok_bind by done.
  destruct (findShortestPath_spec (g_ d1) (index nd) tmp path n (d_graph d Hd) Tw (index_range nd) Hlen) as
    (p & k & -> & Hl & Hk0 & Hk1). rewrite Tb in Hk0, Hk1. rewrite Ok_bind, Nat2Z.id. cbn [g_ d1] in *.
  destruct k as [| k].
  - replace (nodes_of d1 p 0) with (Ok p) by (by destruct p). rewrite !Ok_bind. cbn. exists d1, p, 0%nat. split_and!; try done. lia.
  - destruct (Hk1 ltac:(lia)) as (Hkn & Hp & Hmin). assert (Hd1 : dd_wf d1) by (by apply (same_wf d)).
    rewrite (nodes_of_spec d1) by (done || lia || (intros x Hx; by eapply (path_to_allocated d _ (bits (bv_ t)) _ Hd (Hc He) Hp))).
    rewrite Ok_bind. destruct p as [| p0 p]; [cbn in Hl; lia |]. destruct Hp as (Hh & Hw & Hlast).
    cbn [take head] in Hh. injection Hh as ->.
    assert (Hid : index nd + current_epoch_ d = nd).
    { destruct Hn as (_ & <- & _). symmetry. apply node_split. }
    cbn [take fmap list_fmap app head get_or_die]. rewrite (proj2 (Z.eqb_neq _ _)) by lia. cbn [negb].
    rewrite Ok_bind. cbn [current_epoch_ d1]. rewrite Hid, Z.eqb_refl, (check_true true), Ok_bind by done.
    exists d1, (nd :: ((fun x => x + current_epoch_ d) <$> take k p) ++ drop k p), (S k). split_and!; try done.
    + cbn. rewrite length_app, length_fmap, length_take, length_drop. cbn in Hl. lia.
    + intros _. split; [done |]. exists (index nd :: take k p). split_and!; [done | | |].
      * cbn. rewrite length_take. cbn in Hl. lia.
      * cbn [take fmap list_fmap]. rewrite Hid. f_equal. rewrite take_app_le, firstn_all2 by (rewrite length_fmap, length_take; cbn in Hl; lia). done.
      * intros l' Hl'. by apply Hmin.
Qed.

(** ** Reports *)

Definition order_path (s : dd_state) (t m : Z) (ms : list Z) : Prop :=
  head ms = Some m /\ (forall i a b, ms !! i = Some a -> ms !! S i = Some b -> order s a b) /\
  exists h, last ms = Some h /\ holds s t h.

(** Entry [i] of a report describes the edge from mutex [i] of the cycle to
    the next one. *)
Definition entry_ok (s : dd_state) (ms : list Z) (i : nat) (e : ReportEdge) : Prop :=
  forall a b, ms !! i = Some a -> ms !! ((i + 1) mod length ms)%nat = Some b ->
  exists xa xb, mutexes s !! a = Some xa /\ mutexes s !! b = Some xb /\ mtx_ctx0 e = ctx xa /\ mtx_ctx1 e = ctx xb.

Lemma on_node_id (s : dd_state) (m i : Z) : rt_wf s -> on_node s m i ->
  exists x, mutexes s !! m = Some x /\ id x = i + current_epoch_ (dd s) /\ node_ok (dd s) (i + current_epoch_ (dd s)) /\
    getData (dd s) (i + current_epoch_ (dd s)) = Ok m.
Proof.
  intros Hs Hm. destruct (on_node_ok s m i Hs Hm) as (_ & Hd & x & Hx & Hn & Hi).
  assert (Hid : id x = i + current_epoch_ (dd s)).
  { destruct Hn as (_ & <- & _). rewrite <- Hi. apply node_split. }
  exists x. rewrite <- Hid. split_and!; try done. unfold getData. rewrite nodeToIndex_spec by done. by rewrite Ok_bind, Hi, Hd.
Qed.

Lemma report_edges_spec (s : dd_state) (p ms : list Z) (turns : list nat) : rt_wf s ->
  (forall i a, ms !! i = Some a -> exists f, p !! i = Some (f + current_epoch_ (dd s)) /\ on_node s a f) ->
  (forall i, i ∈ turns -> (i < length ms)%nat) ->
  exists es, report_edges s p (length ms) turns = Ok es /\ Forall2 (entry_ok s ms) turns es.
Proof.
  intros Hs Hp. induction turns as [| i turns IH]; intros Ht; cbn [report_edges]; [by exists [] |].
  assert (Hi : (i < length ms)%nat) by (apply Ht; left).
  destruct (lookup_lt_is_Some_2 ms i Hi) as [a Ha].
  destruct (lookup_lt_is_Some_2 ms ((i + 1) mod length ms)%nat) as [b Hb]; [apply Nat.mod_upper_bound; lia |].
  destruct (Hp i a Ha) as (f & Hf & Hna). destruct (Hp _ b Hb) as (g & Hg & Hnb).
  destruct (on_node_id s a f Hs Hna) as (xa & Hxa & _ & Hoa & Hga). destruct (on_node_id s b g Hs Hnb) as (xb & Hxb & _ & Hob & Hgb).
  unfold report_edge. rewrite Hf, Hg. cbn [get_or_die]. rewrite !Ok_bind, Hga, Hgb, !Ok_bind.
  unfold findEdge. rewrite !nodeToIndex_spec, !Ok_bind by done. unfold the_mutex. rewrite Hxa, Hxb. cbn [get_or_die]. rewrite !Ok_bind.
  destruct (default _ _) as [[sf st] tid]. destruct IH as (es & -> & Hes); [intros j Hj; apply Ht; by right |].
  rewrite !Ok_bind. eexists. split; [done |]. constructor; [| done]. intros a' b' Ha' Hb'. exists xa, xb.
  replace a' with a by congruence. replace b' with b by congruence. done.
Qed.

(** The path of indices and the path of mutexes. *)
Lemma order_path_of (s : dd_state) (t m : Z) (y : logical_thread) (l : list Z) : rt_wf s -> threads s !! t = Some y ->
  epoch_ (lt_dd y) = current_epoch_ (dd s) -> current_epoch_ (dd s) <> 0 ->
  forall i, on_node s m i -> path_to (g_ (dd s)) i (bits (bv_ (lt_dd y))) l ->
  order_path s t m (data_ (dd s) <$> l) /\
  forall j a, (data_ (dd s) <$> l) !! j = Some a -> exists f, l !! j = Some f /\ on_node s a f.
Proof.
  intros Hs Hy He Hne i Hm Hp. destruct (r_thread s Hs t y Hy) as [W C E].
  assert (Hall : forall x, x ∈ l -> on_node s (data_ (dd s) x) x).
  { intros x Hx. apply on_node_data; [done | done |]. by apply (path_to_allocated _ i _ l (r_dd s Hs) (C He)). }
  assert (Hl : forall j x, l !! j = Some x -> on_node s (data_ (dd s) x) x).
  { intros j x Hj. apply Hall. by apply list_elem_of_lookup_2 in Hj. }
  destruct Hp as (Hh & Hw & z & Hz & Hin). apply walk_lookup in Hw as [_ Hw]. split; [split_and! |].
  - destruct l as [| x l]; [done |]. injection Hh as ->. cbn. by destruct (on_node_ok s m i Hs Hm) as (_ & -> & _).
  - intros j a b Ha Hb. rewrite list_lookup_fmap in Ha, Hb. apply fmap_Some in Ha as (u & Hu & ->), Hb as (w & Hv & ->).
    exists u, w. split_and!; [by apply (Hl j) | by apply (Hl (S j)) | by apply (Hw j)].
  - exists (data_ (dd s) z). rewrite fmap_last, Hz. split; [done |]. exists z, y. split_and!; try done.
    apply Hall. by apply last_Some_elem_of.
  - intros j a Ha. rewrite list_lookup_fmap in Ha. apply fmap_Some in Ha as (u & Hu & ->). exists u. split; [done | by apply (Hl j)].
Qed.

Definition index_of (s : dd_state) (m : Z) : Z := match mutexes s !! m with Some x => index (id x) | None => 0 end.

Lemma index_of_on (s : dd_state) (m i : Z) : on_node s m i -> index_of s m = i.
Proof. intros (x & Hx & _ & _ & Hi). unfold index_of. by rewrite Hx. Qed.

Lemma path_of_order (s : dd_state) (t m : Z) (y : logical_thread) (ms : list Z) : threads s !! t = Some y -> order_path s t m ms ->
  path_to (g_ (dd s)) (index_of s m) (bits (bv_ (lt_dd y))) (index_of s <$> ms) /\ epoch_ (lt_dd y) = current_epoch_ (dd s) /\
  exists i, on_node s m i.
Proof.
  intros Hy (Hh & Hord & h & Hl & i & y' & Hi & Hy' & He & Hin). replace y' with y in * by congruence. split_and!; [split_and! | done |].
  - destruct ms; [done |]. cbn in *. congruence.
  - apply walk_lookup. split; [by destruct ms |]. intros j a b Ha Hb. rewrite list_lookup_fmap in Ha, Hb.
    apply fmap_Some in Ha as (u & Hu & ->), Hb as (w & Hw & ->). destruct (Hord j u w Hu Hw) as (k & k' & H1 & H2 & H3).
    by rewrite (index_of_on s u k), (index_of_on s w k').
  - exists i. rewrite fmap_last, Hl. cbn. by rewrite (index_of_on s h i).
  - destruct ms as [| a ms]; [done |]. injection Hh as ->. destruct ms as [| b ms].
    + injection Hl as ->. by exists i.
    + destruct (Hord 0%nat m b eq_refl eq_refl) as (k & _ & Hk & _). by exists k.
Qed.

Lemma ReportDeadlock_spec (s : dd_state) (cb : DDCallback) (m : Z) (x : DDMutex) (y : logical_thread) (stack : list Z) : rt_wf s ->
  mutexes s !! m = Some x -> threads s !! lt cb = Some y -> on_node s m (index (id x)) ->
  epoch_ (lt_dd y) = current_epoch_ (dd s) -> index (id x) ∉ bits (bv_ (lt_dd y)) -> length stack = kMaxLoopSize ->
  exists s', ReportDeadlock s cb m stack = Ok s' /\ rt_wf s' /\ mutexes s' = mutexes s /\ same_detector (dd s) (dd s') /\
    ((forall l, path_to (g_ (dd s)) (index (id x)) (bits (bv_ (lt_dd y))) l -> (kMaxLoopSize < length l)%nat) /\ threads s' = threads s \/
     exists l r, path_to (g_ (dd s)) (index (id x)) (bits (bv_ (lt_dd y))) l /\ (length l <= kMaxLoopSize)%nat /\
       (forall l', path_to (g_ (dd s)) (index (id x)) (bits (bv_ (lt_dd y))) l' -> (length l <= length l')%nat) /\
       threads s' = <[lt cb := LogicalThread (lt_ctx y) (lt_dd y) r true]> (threads s) /\ n r = Z.of_nat (length l) /\
       forall i, (i < length l)%nat -> exists e, loop r !! i = Some e /\ entry_ok s (data_ (dd s) <$> l) i e).
Proof.
  intros Hs Hx Hy Hon He Hout Hst. destruct (r_thread s Hs _ y Hy) as [W C E].
  destruct (on_node_ok s m _ Hs Hon) as (_ & _ & x' & Hx' & Hn & _). replace x' with x in * by congruence. clear x' Hx'.
  assert (Hne : current_epoch_ (dd s) <> 0).
  { pose proof (N_pos (BV := BV)). destruct Hn as (H1 & H2 & _). pose proof (node_epoch_pos (id x) H1). lia. }
  unfold ReportDeadlock. rewrite (the_thread_Ok s _ y Hy), Ok_bind, (the_mutex_Ok s m x Hx), Ok_bind.
  destruct (findPathToLock_spec (dd s) (lt_dd y) (id x) stack kMaxLoopSize (r_dd s Hs) W C He Hn Hout) as
    (d & p & k & -> & Hsame & Hg & Hlen & Hk0 & Hk1); [lia |]. rewrite Ok_bind.
  destruct Hsame as [Se Sa Sr Sv Sd Sl].
  assert (Hw : rt_wf (set_dd s d)) by (apply set_dd_wf; try done; apply (same_wf (dd s)); [by split | apply Hs]).
  destruct k as [| k].
  - exists (set_dd s d). split_and!; try done. left. split; [by apply Hk0 | done].
  - destruct (Hk1 ltac:(lia)) as (Hkn & l & Hp & Hll & Htk & Hmin). rewrite (proj2 (Z.eqb_neq _ _)) by lia.
    destruct (order_path_of s (lt cb) m y l Hs Hy He Hne _ Hon Hp) as [(Hh & _) Hnodes].
    assert (Hpl : forall i f, l !! i = Some f -> p !! i = Some (f + current_epoch_ (dd s))).
    { intros i f Hi. apply lookup_lt_Some in Hi as Hlt. rewrite <- (lookup_take_lt p (S k)) by lia. by rewrite Htk, list_lookup_fmap, Hi. }
    assert (Hp0 : head p = Some (id x)).
    { destruct Hp as (Hh0 & _). destruct l as [| z l]; [done |]. injection Hh0 as ->. specialize (Hpl 0%nat _ eq_refl).
      destruct p; [done |]. cbn in *. rewrite Hpl. f_equal. destruct Hn as (_ & <- & _). symmetry. apply node_split. }
    rewrite Hp0. cbn [get_or_die]. rewrite Ok_bind, Z.eqb_refl, (check_true true), Ok_bind by done.
    replace (Nat.min (Z.to_nat (Z.of_nat (S k))) kMaxLoopSize) with (length (data_ (dd s) <$> l)) by (rewrite length_fmap; lia).
    destruct (report_edges_spec (set_dd s d) p (data_ (dd s) <$> l) (seq 0 (length (data_ (dd s) <$> l))) Hw) as (es & -> & Hes).
    { intros i a Ha. destruct (Hnodes i a Ha) as (f & Hf & z & Hz). exists f. cbn. rewrite Se. split; [by apply Hpl |].
      exists z. cbn. by rewrite Se. }
    { intros i Hi%elem_of_seq. lia. }
    rewrite Ok_bind. eexists. split; [done |]. split_and!.
    + apply set_thread_wf; [done |]. exact (r_thread _ Hw (lt cb) y Hy).
    + done.
    + by split.
    + right. eexists l, _. split_and!; [done | lia | by rewrite Hll | done | cbn; by rewrite length_fmap |].
      intros i Hi. cbn. pose proof (Forall2_length _ _ _ Hes) as Hle. rewrite length_seq, length_fmap in Hle.
      destruct (lookup_lt_is_Some_2 es i ltac:(lia)) as [e He']. exists e. split; [by rewrite lookup_app_l by lia |].
      assert (Hi' : seq 0 (length (data_ (dd s) <$> l)) !! i = Some i) by (rewrite lookup_seq, length_fmap; split; lia).
      apply (Forall2_lookup_lr _ _ _ _ _ _ Hes Hi' He').
Qed.

(** ** MutexBeforeLock *)

Lemma set_same_tls (s : dd_state) (t : Z) (y : logical_thread) : threads s !! t = Some y -> set_tls s t (lt_dd y) = Ok s.
Proof.
  intros Hy. rewrite (set_tls_Ok s t y) by done. unfold set_thread. destruct s as [d f ms ts], y as [c l r p]; cbn in *.
  by rewrite insert_id.
Qed.

Lemma leads_to_path (g : BVGraph (BV := BV)) (i : Z) (H' : gset Z) : leads_to_held g i H' <-> exists l, path_to g i H' l.
Proof.
  split.
  - intros (h & Hh & Hp). by apply (rtc_path g i h).
  - intros (l & Hh & Hw & z & Hz & Hin). exists z. split; [done |]. revert i Hh. induction l as [| x l IH]; intros i Hh; [done |].
    injection Hh as ->. destruct l as [| y l]; [injection Hz as ->; done |]. destruct Hw as [He Hw].
    apply (rtc_l _ i y); [done |]. by apply IH.
Qed.

(** The part of MutexBeforeLock under the lock, once the mutex has a node the
    thread does not hold. *)
Lemma before_lock_search (s : dd_state) (cb : DDCallback) (m : Z) (x : DDMutex) (y : logical_thread) (stack : list Z) : rt_wf s ->
  mutexes s !! m = Some x -> threads s !! lt cb = Some y -> on_node s m (index (id x)) ->
  epoch_ (lt_dd y) = current_epoch_ (dd s) -> index (id x) ∉ bits (bv_ (lt_dd y)) -> length stack = kMaxLoopSize ->
  exists s', ('(d, t, found) ← onLockBefore (dd s) (lt_dd y) (id x);
              s ← set_tls (set_dd s d) (lt cb) t;
              if found : bool then
                '(d, t, _) ← dd_addEdges d t (id x) (Unwind cb) (UniqueTid cb);
                s ← set_tls (set_dd s d) (lt cb) t;
                ReportDeadlock s cb m stack
              else Ok s) = Ok s' /\ rt_wf s' /\ mutexes s' = mutexes s /\ current_epoch_ (dd s') = current_epoch_ (dd s) /\
    ((forall l, path_to (g_ (dd s)) (index (id x)) (bits (bv_ (lt_dd y))) l -> (kMaxLoopSize < length l)%nat) /\ threads s' = threads s \/
     exists l r, path_to (g_ (dd s)) (index (id x)) (bits (bv_ (lt_dd y))) l /\ (length l <= kMaxLoopSize)%nat /\
       (forall l', path_to (g_ (dd s)) (index (id x)) (bits (bv_ (lt_dd y))) l' -> (length l <= length l')%nat) /\
       threads s' = <[lt cb := LogicalThread (lt_ctx y) (lt_dd y) r true]> (threads s) /\ n r = Z.of_nat (length l) /\
       (forall i, (i < length l)%nat -> exists e, loop r !! i = Some e /\ entry_ok s (data_ (dd s) <$> l) i e) /\
       forall i j, edge (g_ (dd s)) i j \/ (i ∈ bits (bv_ (lt_dd y)) /\ j = index (id x)) -> edge (g_ (dd s')) i j).
Proof.
  intros Hs Hx Hy Hon He Hout Hst. destruct (r_thread s Hs _ y Hy) as [W C E].
  destruct (on_node_ok s m _ Hs Hon) as (_ & _ & x' & Hx' & Hn & _). replace x' with x in * by congruence. clear x' Hx'.
  assert (Hens : forall d, current_epoch_ d = current_epoch_ (dd s) -> ensureCurrentEpoch d (lt_dd y) = lt_dd y).
  { intros d Hd. unfold ensureCurrentEpoch, tls_ensureCurrentEpoch. by rewrite He, <- Hd, Z.eqb_refl. }
  destruct (onLockBefore_spec (dd s) (lt_dd y) (id x) (r_dd s Hs) W C Hn) as (d1 & b & -> & Hsame & Hb).
  rewrite Hens in * by done. rewrite Ok_bind. destruct Hsame as [Se Sa Sr Sv Sd Sl].
  assert (Hw1 : rt_wf (set_dd s d1)) by (apply set_dd_wf; try done; apply (same_wf (dd s)); [by split | apply Hs]).
  rewrite (set_same_tls (set_dd s d1) (lt cb) y) by done. rewrite Ok_bind.
  assert (Hg1 : forall i j, edge (g_ d1) i j <-> edge (g_ (dd s)) i j) by (intros i j; unfold edge; by rewrite Sv).
  destruct b.
  2: { exists (set_dd s d1). split_and!; try done. left. split; [| done]. intros l Hl.
    assert (false = true) by (apply Hb, leads_to_path; by exists l). done. }
  assert (Hn1 : node_ok d1 (id x)) by (destruct Hn as (N1 & N2 & N3); split_and!; [done | congruence | by apply (same_allocated (dd s)); [split |]]).
  assert (C1 : tls_current d1 (lt_dd y)) by (apply (r_thread _ Hw1 (lt cb) y Hy)).
  destruct (dd_addEdges_spec HN d1 (lt_dd y) (id x) (Unwind cb) (UniqueTid cb) (r_dd _ Hw1) W C1 Hn1) as
    (d2 & added & -> & Hd2 & Ep & Av & Rc & Da & Ge & _). rewrite Hens in * by done. rewrite Ok_bind.
  assert (Hw2 : rt_wf (set_dd (set_dd s d1) d2)) by (by apply set_dd_wf).
  rewrite (set_same_tls (set_dd (set_dd s d1) d2) (lt cb) y) by done. rewrite Ok_bind.
  assert (Hon2 : on_node (set_dd (set_dd s d1) d2) m (index (id x))).
  { destruct Hon as (z & Hz). exists z. cbn. by rewrite Ep, Se. }
  destruct (ReportDeadlock_spec _ cb m x y stack Hw2 Hx Hy Hon2) as (s' & Hrun & Hw' & Hm' & Hd' & Hcase); [cbn; congruence | done | done |].
  exists s'. split; [exact Hrun |]. cbn [set_dd dd mutexes threads] in *. split_and!; [done | done | rewrite (same_epoch _ _ Hd'); congruence |].
  assert (Hg2 : forall i j, edge (g_ d2) i j <-> edge (g_ (dd s)) i j \/ (i ∈ bits (bv_ (lt_dd y)) /\ j = index (id x))).
  { intros i j. rewrite Ge, Hg1. done. }
  assert (Hmono : forall l, path_to (g_ (dd s)) (index (id x)) (bits (bv_ (lt_dd y))) l -> path_to (g_ d2) (index (id x)) (bits (bv_ (lt_dd y))) l).
  { intros l. apply path_to_mono. intros i j Hij. apply Hg2. by left. }
  destruct Hcase as [[Hno Ht] | (l & r & Hp & Hl & Hmin & Ht & Hnr & Hent)]; [left; split; [intros l Hl; by apply Hno, Hmono | done] | right].
  exists l, r. split_and!; try done.
  - apply (shortest_old_edges _ (g_ d2) _ (index (id x))); [| done | done]. intros i j Hij. by apply Hg2.
  - intros l' Hl'. by apply Hmin, Hmono.
  - intros i Hi. destruct (Hent i Hi) as (e & He1 & He2). exists e. split; [done |]. rewrite Da, Sd in He2. exact He2.
  - intros i j Hij. apply (same_edge d2 _ i j Hd'), Hg2, Hij.
Qed.

(** The search stays silent: the thread holds the mutex already, or every
    lock it holds is ordered before the mutex already, or no chain of at most
    [kMaxLoopSize] mutexes leads from the mutex to a lock it holds. *)
Definition silent (s : dd_state) (t m : Z) : Prop :=
  holds s t m \/ (forall h, holds s t h -> order s h m) \/ forall ms, order_path s t m ms -> (kMaxLoopSize < length ms)%nat.

(** The report [r] of [s'] describes the cycle [ms] that the chain of [s]
    from [m] to a lock of [t] closes, and there is no shorter one. *)
Definition cycle_reported (s s' : dd_state) (t m : Z) (r : DDReport) (ms : list Z) : Prop :=
  order_path s t m ms /\ (length ms <= kMaxLoopSize)%nat /\
  (forall ms', order_path s t m ms' -> (length ms <= length ms')%nat) /\ n r = Z.of_nat (length ms) /\
  forall i a b, ms !! i = Some a -> ms !! ((i + 1) mod length ms)%nat = Some b ->
    order s' a b /\ exists e xa xb, loop r !! i = Some e /\ mutexes s !! a = Some xa /\ mutexes s !! b = Some xb /\
      mtx_ctx0 e = ctx xa /\ mtx_ctx1 e = ctx xb.

Definition before_lock_outcome (s s' : dd_state) (t m : Z) (y y' : logical_thread) : Prop :=
  (silent s t m /\ rep y' = rep y /\ report_pending y' = report_pending y) \/
  (~ silent s t m /\ report_pending y' = true /\ exists ms, cycle_reported s s' t m (rep y') ms).

Lemma ensure_held (d : detector) (t : tls) (i : Z) : thread_ok d t -> i ∈ bits (bv_ (ensureCurrentEpoch d t)) ->
  epoch_ t = current_epoch_ d /\ i ∈ bits (bv_ t) /\ ensureCurrentEpoch d t = t.
Proof.
  intros [W C E] Hi. destruct (ensure_spec d t W C) as (_ & _ & _ & Hb). rewrite Hb in Hi.
  destruct (decide (epoch_ t = current_epoch_ d)) as [He |]; [| by apply not_elem_of_empty in Hi].
  split_and!; [done | done |]. unfold ensureCurrentEpoch, tls_ensureCurrentEpoch. by rewrite He, Z.eqb_refl.
Qed.

(** When the search finds nothing, or the mutex has no node. *)
Lemma silent_no_path (s : dd_state) (t m : Z) (y : logical_thread) (i : Z) : threads s !! t = Some y -> on_node s m i ->
  (forall l, path_to (g_ (dd s)) i (bits (bv_ (lt_dd y))) l -> (kMaxLoopSize < length l)%nat) -> silent s t m.
Proof.
  intros Hy Hi Hno. right. right. intros ms Hms. destruct (path_of_order s t m y ms Hy Hms) as (Hp & _).
  rewrite (index_of_on s m i Hi) in Hp. specialize (Hno _ Hp). by rewrite length_fmap in Hno.
Qed.

Lemma silent_no_node (s : dd_state) (t m : Z) (y : logical_thread) : threads s !! t = Some y -> (forall i, ~ on_node s m i) -> silent s t m.
Proof.
  intros Hy Hno. right. right. intros ms Hms. destruct (path_of_order s t m y ms Hy Hms) as (_ & _ & i & Hi). by destruct (Hno i).
Qed.

(** What the search returned is the cycle of mutexes. *)
Lemma cycle_of_path (s s' : dd_state) (t m : Z) (y : logical_thread) (i : Z) (l : list Z) (r : DDReport) : rt_wf s ->
  threads s !! t = Some y -> on_node s m i -> epoch_ (lt_dd y) = current_epoch_ (dd s) -> mutexes s' = mutexes s ->
  current_epoch_ (dd s') = current_epoch_ (dd s) ->
  path_to (g_ (dd s)) i (bits (bv_ (lt_dd y))) l -> (length l <= kMaxLoopSize)%nat ->
  (forall l', path_to (g_ (dd s)) i (bits (bv_ (lt_dd y))) l' -> (length l <= length l')%nat) -> n r = Z.of_nat (length l) ->
  (forall j, (j < length l)%nat -> exists e, loop r !! j = Some e /\ entry_ok s (data_ (dd s) <$> l) j e) ->
  (forall j k, edge (g_ (dd s)) j k \/ (j ∈ bits (bv_ (lt_dd y)) /\ k = i) -> edge (g_ (dd s')) j k) ->
  cycle_reported s s' t m r (data_ (dd s) <$> l).
Proof.
  intros Hs Hy Hi He Hm Hep Hp Hl Hmin Hn Hent Hed. pose proof Hp as (_ & Hw & _). apply walk_lookup in Hw as [_ Hw].
  destruct (on_node_ok s m i Hs Hi) as (_ & _ & x & _ & (N1 & N2 & _) & _).
  assert (Hne : current_epoch_ (dd s) <> 0).
  { pose proof (N_pos (BV := BV)). pose proof (node_epoch_pos (id x) N1). lia. }
  destruct (order_path_of s t m y l Hs Hy He Hne i Hi Hp) as [Hop Hnodes].
  assert (Hon : forall a j, on_node s a j -> on_node s' a j).
  { intros a j (z & Hz). exists z. by rewrite Hm, Hep. }
  split_and!; [done | by rewrite length_fmap | | by rewrite length_fmap |].
  - intros ms' Hms'. destruct (path_of_order s t m y ms' Hy Hms') as (Hp' & _). rewrite (index_of_on s m i Hi) in Hp'.
    specialize (Hmin _ Hp'). rewrite length_fmap in *. done.
  - intros j a b Ha Hb. rewrite length_fmap in Hb. destruct (Hnodes j a Ha) as (f & Hf & Hfa).
    destruct (Hnodes _ b Hb) as (k & Hk & Hkb). split.
    + exists f, k. split_and!; [by apply Hon | by apply Hon |]. apply Hed. apply lookup_lt_Some in Hf as Hlt.
      destruct (decide (S j = length l)) as [Hlast | Hmid].
      * right. rewrite Nat.add_1_r, Hlast, Nat.Div0.mod_same in Hk. destruct Hp as (Hh & _ & z & Hz & Hin).
        rewrite last_lookup, <- Hlast in Hz. cbn in Hz. rewrite <- head_lookup in Hk. split; congruence.
      * left. rewrite Nat.mod_small in Hk by lia. apply (Hw j); [done |]. by rewrite <- Nat.add_1_r.
    + apply lookup_lt_Some in Hf as Hlt. destruct (Hent j Hlt) as (e & He1 & He2).
      destruct (He2 a b Ha) as (xa & xb & H1 & H2 & H3 & H4); [by rewrite length_fmap |]. by exists e, xa, xb.
Qed.

(** All edges are there already. *)
Lemma all_edges_order (s : dd_state) (t m : Z) (x : DDMutex) (y : logical_thread) : rt_wf s -> mutexes s !! m = Some x ->
  threads s !! t = Some y -> on_node s m (index (id x)) -> epoch_ (lt_dd y) = current_epoch_ (dd s) ->
  (forall h, h ∈ bits (bv_ (lt_dd y)) -> edge (g_ (dd s)) h (index (id x))) <-> (forall h, holds s t h -> order s h m).
Proof.
  intros Hs Hx Hy Hi He. split.
  - intros Hall h (j & y' & Hj & Hy' & _ & Hin). replace y' with y in * by congruence. exists j, (index (id x)).
    split_and!; [done | done | by apply Hall].
  - intros Hall j Hj. destruct (r_thread s Hs t y Hy) as [W C E]. destruct (on_node_ok s m _ Hs Hi) as (_ & _ & x' & _ & (N1 & N2 & _) & _).
    assert (Hne : current_epoch_ (dd s) <> 0).
    { pose proof (N_pos (BV := BV)). pose proof (node_epoch_pos (id x') N1). lia. }
    pose proof (on_node_data s j Hs Hne (C He j Hj)) as Hjn.
    destruct (Hall (data_ (dd s) j)) as (a & b & Ha & Hb & Hab); [by exists j, y |].
    by rewrite (on_node_inj s _ j a Hjn Ha), (on_node_inj s m _ b Hi Hb).
Qed.

Definition epochs_left (s : dd_state) : Prop := current_epoch_ (dd s) + N + N <= word_modulus.


(** The last part of MutexBeforeLock, in the state that MutexEnsureID left. *)
Lemma before_lock_locked (s : dd_state) (cb : DDCallback) (m : Z) (x : DDMutex) (y : logical_thread) (stack : list Z) : rt_wf s ->
  mutexes s !! m = Some x -> threads s !! lt cb = Some y -> node_ok (dd s) (id x) -> epoch_ (lt_dd y) = current_epoch_ (dd s) ->
  length stack = kMaxLoopSize ->
  exists s' y', (held ← isHeld (dd s) (lt_dd y) (id x);
      if held : bool then Ok s
      else
        '(d, t, found) ← onLockBefore (dd s) (lt_dd y) (id x);
        s ← set_tls (set_dd s d) (lt cb) t;
        if found : bool then
          '(d, t, _) ← dd_addEdges d t (id x) (Unwind cb) (UniqueTid cb);
          s ← set_tls (set_dd s d) (lt cb) t;
          ReportDeadlock s cb m stack
        else Ok s) = Ok s' /\ rt_wf s' /\ threads s' !! lt cb = Some y' /\
    (forall u, u <> lt cb -> threads s' !! u = threads s !! u) /\
    (((holds s (lt cb) m \/ forall ms, order_path s (lt cb) m ms -> (kMaxLoopSize < length ms)%nat) /\
        rep y' = rep y /\ report_pending y' = report_pending y) \/
     (~ holds s (lt cb) m /\ report_pending y' = true /\ exists ms, cycle_reported s s' (lt cb) m (rep y') ms)).
Proof.
  intros Hs Hx Hy Hn He Hst. pose proof (r_thread s Hs _ y Hy) as [W C E].
  assert (Hon : on_node s m (index (id x))) by (exists x; by destruct Hn as (? & ? & _)).
  rewrite isHeld_spec by done. rewrite Ok_bind. case_bool_decide as Hheld.
  - exists s, y. split_and!; try done. left. split; [| done]. left. by exists (index (id x)), y.
  - assert (Hnh : ~ holds s (lt cb) m).
    { intros (i & y' & Hi & Hy' & _ & Hin). replace y' with y in * by congruence. by rewrite (on_node_inj s m i _ Hi Hon) in Hin. }
    destruct (before_lock_search s cb m x y stack Hs Hx Hy Hon He Hheld Hst) as (s' & -> & Hw & Hm & Hep & Hcase).
    destruct Hcase as [[Hno Ht] | (l & r & Hp & Hl & Hmin & Ht & Hnr & Hent & Hed)].
    + exists s', y. rewrite Ht. split_and!; try done. left. split; [right | done]. intros ms Hms.
      destruct (path_of_order s (lt cb) m y ms Hy Hms) as (Hp & _). rewrite (index_of_on s m _ Hon) in Hp.
      specialize (Hno _ Hp). by rewrite length_fmap in Hno.
    + eexists s', _. rewrite Ht, lookup_insert_eq. split_and!; [done | done | done | |].
      { intros u Hu. by rewrite lookup_insert_ne. }
      right. split_and!; [done | done |]. exists (data_ (dd s) <$> l). by apply (cycle_of_path s s' (lt cb) m y (index (id x)) l r).
Qed.

(** Bringing the thread to the current epoch does not change what it holds. *)
Section ensured_thread.
Context (s s1 : dd_state) (t : Z) (y : logical_thread).
Context (Hy : threads s !! t = Some y) (Hok : thread_ok (dd s) (lt_dd y)).
Context (Hdd : dd s1 = dd s) (Hm : mutexes s1 = mutexes s) (Ht : threads s1 = <[t := ensured (dd s) y]> (threads s)).

Lemma ensured_on_node (m i : Z) : on_node s1 m i <-> on_node s m i.
Proof using Hdd Hm. unfold on_node. by rewrite Hdd, Hm. Qed.

Lemma ensured_order (a b : Z) : order s1 a b <-> order s a b.
Proof using Hdd Hm. unfold order. rewrite Hdd. by setoid_rewrite ensured_on_node. Qed.

Lemma ensured_holds (m : Z) : holds s1 t m <-> holds s t m.
Proof using Hy Hok Hdd Hm Ht.
  unfold holds. setoid_rewrite ensured_on_node. rewrite Hdd, Ht. split.
  - intros (i & z & Hi & Hz & _ & Hin). rewrite lookup_insert_eq in Hz. injection Hz as <-.
    destruct (ensure_held (dd s) (lt_dd y) i Hok Hin) as (He & Hin' & _). by exists i, y.
  - intros (i & z & Hi & Hz & He & Hin). replace z with y in * by congruence. exists i, (ensured (dd s) y).
    rewrite lookup_insert_eq. cbn. unfold ensureCurrentEpoch, tls_ensureCurrentEpoch. by rewrite He, Z.eqb_refl.
Qed.

Lemma ensured_path (m : Z) (ms : list Z) : order_path s1 t m ms <-> order_path s t m ms.
Proof using Hy Hok Hdd Hm Ht. unfold order_path. setoid_rewrite ensured_order. by setoid_rewrite ensured_holds. Qed.

Lemma ensured_cycle (s' : dd_state) (m : Z) (r : DDReport) (ms : list Z) : cycle_reported s1 s' t m r ms <-> cycle_reported s s' t m r ms.
Proof using Hy Hok Hdd Hm Ht. unfold cycle_reported. setoid_rewrite ensured_path. by rewrite Hm. Qed.
End ensured_thread.

(** A new node is on no path. *)
Lemma new_node_no_path (s : dd_state) (t m i : Z) (ms : list Z) : on_node s m i -> (forall j, ~ edge (g_ (dd s)) i j) ->
  ~ holds s t m -> ~ order_path s t m ms.
Proof.
  intros Hi Hno Hnh (Hh & Hord & h & Hl & Hhold). destruct ms as [| a [| b ms]]; [done | |]; injection Hh as ->.
  - injection Hl as ->. done.
  - destruct (Hord 0%nat m b eq_refl eq_refl) as (j & k & Hj & _ & Hjk). rewrite (on_node_inj s m j i Hj Hi) in Hjk. by apply (Hno k).
Qed.

Lemma on_node_dec (s : dd_state) (m : Z) (x : DDMutex) : rt_wf s -> mutexes s !! m = Some x ->
  on_node s m (index (id x)) \/ forall i, ~ on_node s m i.
Proof.
  intros Hs Hx. destruct (nodeBelongsToCurrentEpoch (dd s) (id x)) eqn:Hb; [left; by apply (belongs_spec s m x Hs Hx) | right].
  intros i Hi. assert (on_node s m (index (id x))) as Hbad%(belongs_spec s m x Hs Hx); [| congruence].
  destruct Hi as (z & Hz & Hz'). replace x with z by congruence. exists z. by destruct Hz' as (? & ? & _).
Qed.

(** MutexBeforeLock past the lock-free tests. *)
Lemma before_lock_slow (s : dd_state) (cb : DDCallback) (m : Z) (stack : list Z) (x : DDMutex) (y : logical_thread) :
  rt_wf s -> mutexes s !! m = Some x -> threads s !! lt cb = Some y -> epochs_left s -> length stack = kMaxLoopSize ->
  ~ (on_node s m (index (id x)) /\ epoch_ (lt_dd y) = current_epoch_ (dd s) /\ forall h, holds s (lt cb) h -> order s h m) ->
  exists s' y', (s ← MutexEnsureID s (lt cb) m;
      y ← the_thread s (lt cb);
      x ← the_mutex s m;
      held ← isHeld (dd s) (lt_dd y) (id x);
      if held : bool then Ok s
      else
        '(d, t, found) ← onLockBefore (dd s) (lt_dd y) (id x);
        s ← set_tls (set_dd s d) (lt cb) t;
        if found : bool then
          '(d, t, _) ← dd_addEdges d t (id x) (Unwind cb) (UniqueTid cb);
          s ← set_tls (set_dd s d) (lt cb) t;
          ReportDeadlock s cb m stack
        else Ok s) = Ok s' /\ rt_wf s' /\ threads s' !! lt cb = Some y' /\
    (forall u, u <> lt cb -> threads s' !! u = threads s !! u) /\ before_lock_outcome s s' (lt cb) m y y'.
Proof.
  intros Hs Hx Hy Hmax Hst Hnall. pose proof (r_thread s Hs _ y Hy) as Hok.
  destruct (MutexEnsureID_spec s (lt cb) m x y Hs Hx Hy Hmax) as (s1 & x1 & -> & Hs1 & Hx1 & Hn1 & Ht1 & Hok1 & Hold & Hnew).
  assert (Hy1 : threads s1 !! lt cb = Some (ensured (dd s1) y)) by (by rewrite Ht1, lookup_insert_eq).
  assert (He1 : epoch_ (lt_dd (ensured (dd s1) y)) = current_epoch_ (dd s1)).
  { destruct Hok1 as [W0 C0 _]. by destruct (ensure_spec (dd s1) (lt_dd y) W0 C0) as (_ & ? & _). }
  rewrite Ok_bind, (the_thread_Ok s1 _ _ Hy1), Ok_bind, (the_mutex_Ok s1 m x1 Hx1), Ok_bind.
  destruct (before_lock_locked s1 cb m x1 _ stack Hs1 Hx1 Hy1 Hn1 He1 Hst) as (s' & y' & -> & Hw & Hy' & Hoth & Hcase).
  exists s', y'. split_and!; [done | done | done | |].
  { intros u Hu. by rewrite Hoth, Ht1, lookup_insert_ne. }
  destruct (on_node_dec s m x Hs Hx) as [Hon | Hno].
  - destruct (Hold Hon) as [Hd Hm]. rewrite Hd in Ht1. destruct Hcase as [([Hh | Hlong] & Hr & Hp) | (Hnh & Hp & ms & Hms)].
    + left. split; [| done]. left. by apply (ensured_holds s s1 (lt cb) y).
    + left. split; [| done]. right. right. intros ms Hms. by apply Hlong, (ensured_path s s1 (lt cb) y).
    + apply (ensured_cycle s s1 (lt cb) y) in Hms; [| done..]. rewrite (ensured_holds s s1 (lt cb) y) in Hnh by done.
      right. split_and!; [| done | by exists ms]. destruct Hms as (Hop & Hlen & _). destruct (path_of_order s (lt cb) m y ms Hy Hop) as (_ & He & _).
      intros [Hh | [Hall | Hlong]]; [done | by apply Hnall | specialize (Hlong ms Hop); lia].
  - assert (Hno' : ~ on_node s m (index (id x))) by done. destruct (Hnew Hno') as [Hout Hedge].
    assert (Hon1 : on_node s1 m (index (id x1))) by (exists x1; by destruct Hn1 as (? & ? & _)).
    assert (Hq : silent s (lt cb) m) by (by apply (silent_no_node s (lt cb) m y)).
    destruct Hcase as [(_ & Hr & Hp) | (Hnh & _ & ms & Hop & _)]; [by left |]. by destruct (new_node_no_path s1 (lt cb) m _ ms Hon1 Hedge Hnh).
Qed.

Lemma MutexBeforeLock_spec (s : dd_state) (cb : DDCallback) (m : Z) (wlock : bool) (stack : list Z) (x : DDMutex) (y : logical_thread) :
  rt_wf s -> mutexes s !! m = Some x -> threads s !! lt cb = Some y -> epochs_left s -> length stack = kMaxLoopSize ->
  exists s' y', MutexBeforeLock s cb m wlock stack = Ok s' /\ rt_wf s' /\ threads s' !! lt cb = Some y' /\
    (forall u, u <> lt cb -> threads s' !! u = threads s !! u) /\ before_lock_outcome s s' (lt cb) m y y'.
Proof.
  intros Hs Hx Hy Hmax Hst. pose proof (r_thread s Hs _ y Hy) as [W C E]. pose proof (N_pos (BV := BV)) as HNp.
  unfold MutexBeforeLock. rewrite (the_thread_Ok s _ y Hy), Ok_bind. unfold tls_empty.
  assert (Hquiet : silent s (lt cb) m -> exists s' y', Ok s = Ok s' /\ rt_wf s' /\ threads s' !! lt cb = Some y' /\
    (forall u, u <> lt cb -> threads s' !! u = threads s !! u) /\ before_lock_outcome s s' (lt cb) m y y').
  { intros Hq. exists s, y. split_and!; try done. by left. }
  rewrite empty_spec by apply W. case_bool_decide as Hemp.
  { apply Hquiet. right. left. intros h (i & y' & _ & Hy' & _ & Hin). replace y' with y in * by congruence.
    rewrite Hemp in Hin. by apply not_elem_of_empty in Hin. }
  rewrite (the_mutex_Ok s m x Hx), Ok_bind.
  destruct (hasAllEdges_spec (dd s) (lt_dd y) (id x) (r_dd s Hs) W) as (all & -> & Hall). rewrite Ok_bind.
  pose proof (mo_id _ _ _ (r_mutex s Hs m x Hx)) as Hid. destruct all.
  - apply Hquiet. right. left. destruct (proj1 Hall eq_refl) as (Hne & He & Hn & Hed).
    apply (all_edges_order s (lt cb) m x y); try done. exists x. split_and!; [done | lia | done | done].
  - apply (before_lock_slow s cb m stack x y); try done. intros (Hon & He & Hord). assert (false = true); [| done]. apply Hall.
    pose proof Hon as (z & Hz & H1 & H2 & _). replace z with x in * by congruence. split_and!; [lia | done | done |].
    by apply (all_edges_order s (lt cb) m x y).
Qed.
End specs.
