(* ===== verification/DeadlockHooks.v ===== *)
(** * The mutex hooks together

    Every hook preserves the invariant of [DeadlockRuntimeSpecs]; runs of the
    hooks, by any threads in any order. *)

From S2P Require Import Prelude Words BitVector BVGraph BVGraphSpecs DeadlockDetector DeadlockSpecs DeadlockSystem DeadlockRuntime DeadlockRuntimeSpecs.

Section hooks.
Context {BV : Type} `{HB : BitVectorSpec BV} `{HIT : !BVIterator BV} {HITS : BVIteratorSpec BV}.

Abbreviation N := (kSize (BV := BV)).
Abbreviation tls := (DeadlockDetectorTLS (BV := BV)).
Abbreviation index := (nodeToIndexUnchecked (BV := BV)).
Abbreviation dd_state := (DD (BV := BV)).
Abbreviation logical_thread := (DDLogicalThread (BV := BV)).

Context (HN : N <= 65536).

(** ** MutexAfterLock *)

(** Thread [t] has [m] among its locks, in the epoch of the node of [m]. *)
Definition acquired (s : dd_state) (t m : Z) : Prop :=
  exists x y, mutexes s !! m = Some x /\ threads s !! t = Some y /\ N <= id x /\
    nodeToEpoch (BV := BV) (id x) = epoch_ (lt_dd y) /\ index (id x) ∈ bits (bv_ (lt_dd y)).

(** Every other lock the thread holds is ordered before [m]. *)
Definition ordered_before (s : dd_state) (t m : Z) : Prop := forall h, holds s t h -> h = m \/ order s h m.

Definition lock_room (t : tls) : Prop :=
  Z.of_nat (base.size (bits (bv_ t))) < kMaxLocks /\ Z.of_nat (length (recursive_locks t)) < kMaxRecursiveLocks.

Lemma lock_room_for (t : tls) (i : Z) : lock_room t -> room_for t i.
Proof. intros [H1 H2]. unfold room_for. by destruct (decide _). Qed.

Lemma lock_room_ensure (d : DeadlockDetector) (t : tls) : lock_room t -> lock_room (ensureCurrentEpoch d t).
Proof.
  intros Hr. unfold ensureCurrentEpoch, tls_ensureCurrentEpoch. destruct (_ =? _); [done |]. unfold lock_room. cbn.
  by rewrite (proj2 (clear_spec (bv_ t))), size_empty.
Qed.

(** The locks of the thread grow by the index of [m]. *)
Lemma after_lock_state (s : dd_state) (t m : Z) (x : DDMutex) (y : logical_thread) (l : tls) : rt_wf s ->
  mutexes s !! m = Some x -> threads s !! t = Some y -> tls_wf l -> epoch_ l = epoch_ (lt_dd y) ->
  N <= id x -> nodeToEpoch (BV := BV) (id x) = epoch_ l -> bits (bv_ l) = {[index (id x)]} ∪ bits (bv_ (lt_dd y)) ->
  exists s', set_tls s t l = Ok s' /\ rt_wf s' /\ acquired s' t m /\
    ((forall i, epoch_ l = current_epoch_ (dd s) -> i ∈ bits (bv_ (lt_dd y)) -> edge (g_ (dd s)) i (index (id x))) -> ordered_before s' t m).
Proof.
  intros Hs Hx Hy Hl He Hid Hep Hb. rewrite (set_tls_Ok s t y) by done. eexists. split; [done |].
  destruct (r_thread s Hs t y Hy) as [W C E].
  set (y' := LogicalThread (lt_ctx y) l (rep y) (report_pending y)). split_and!.
  - apply set_thread_wf; [done |]. split; cbn; [done | | by rewrite He]. intros Hc i. rewrite Hb.
    intros [->%elem_of_singleton | Hi]%elem_of_union; [| by apply C; [congruence |]].
    apply (mo_node _ _ _ (r_mutex s Hs m x Hx)); [done | congruence].
  - exists x, y'. cbn. rewrite lookup_insert_eq, Hb. split_and!; try done. apply elem_of_union_l, elem_of_singleton_2. done.
  - intros Hed h (i & z & Hi & Hz & Hc & Hin). cbn in Hz. rewrite lookup_insert_eq in Hz. injection Hz as <-. cbn in Hc, Hin.
    assert (Hm : on_node s m (index (id x))) by (exists x; split_and!; [done | done | congruence | done]).
    rewrite Hb in Hin. apply elem_of_union in Hin as [->%elem_of_singleton | Hin].
    + left. destruct (on_node_ok s h _ Hs Hi) as (_ & Hd1 & _). destruct (on_node_ok s m _ Hs Hm) as (_ & Hd2 & _). congruence.
    + right. exists i, (index (id x)). split_and!; [done | done |]. by apply Hed.
Qed.

(** The last part of MutexAfterLock, in the state that MutexEnsureID left. *)
Lemma after_lock_locked (s : dd_state) (cb : DDCallback) (m stk : Z) (wlock trylock : bool) (x : DDMutex) (y : logical_thread) :
  rt_wf s -> mutexes s !! m = Some x -> threads s !! lt cb = Some y -> node_ok (dd s) (id x) -> epoch_ (lt_dd y) = current_epoch_ (dd s) ->
  lock_room (lt_dd y) -> (wlock = true -> index (id x) ∉ bits (bv_ (lt_dd y))) ->
  exists s', (_ ← (if wlock then held ← isHeld (dd s) (lt_dd y) (id x); check (negb held) else Ok tt);
      '(d, t) ← (if negb trylock then
                   '(d, t, _) ← dd_addEdges (dd s) (lt_dd y) (id x) (if negb (stk =? 0) then stk else Unwind cb) (UniqueTid cb);
                   Ok (d, t)
                 else Ok (dd s, lt_dd y));
      t ← onLockAfter d t (id x) stk;
      set_tls (set_dd s d) (lt cb) t) = Ok s' /\ rt_wf s' /\ acquired s' (lt cb) m /\ (trylock = false -> ordered_before s' (lt cb) m).
Proof.
  intros Hs Hx Hy Hn He Hroom Hw. pose proof (r_thread s Hs _ y Hy) as [W C E]. pose proof Hn as (N1 & N2 & N3).
  assert (Hcheck : (if wlock then held ← isHeld (dd s) (lt_dd y) (id x); check (negb held) else Ok tt) = Ok tt).
  { destruct wlock; [| done]. rewrite isHeld_spec by done. rewrite Ok_bind, bool_decide_false by (by apply Hw). done. }
  rewrite Hcheck, Ok_bind.
  assert (Hens : forall d, current_epoch_ d = current_epoch_ (dd s) -> ensureCurrentEpoch d (lt_dd y) = lt_dd y).
  { intros d Hd. unfold ensureCurrentEpoch, tls_ensureCurrentEpoch. by rewrite He, <- Hd, Z.eqb_refl. }
  assert (Hadd : exists d, (if negb trylock then
       '(d, t, _) ← dd_addEdges (dd s) (lt_dd y) (id x) (if negb (stk =? 0) then stk else Unwind cb) (UniqueTid cb); Ok (d, t)
     else Ok (dd s, lt_dd y)) = Ok (d, lt_dd y) /\ rt_wf (set_dd s d) /\ current_epoch_ d = current_epoch_ (dd s) /\
     node_ok d (id x) /\ (trylock = false -> forall i, i ∈ bits (bv_ (lt_dd y)) -> edge (g_ d) i (index (id x)))).
  { destruct trylock; cbn [negb].
    - exists (dd s). split_and!; try done. by destruct s.
    - destruct (dd_addEdges_spec HN (dd s) (lt_dd y) (id x) (if negb (stk =? 0) then stk else Unwind cb) (UniqueTid cb) (r_dd s Hs) W C Hn)
        as (d & added & -> & Hd & Ep & Av & Rc & Da & Ge & _). rewrite Hens in * by done. rewrite Ok_bind. exists d.
      split_and!; [done | by apply set_dd_wf | done | | intros _ i Hi; apply Ge; by right].
      split_and!; [done | congruence |]. unfold allocated. by rewrite Av, Rc. }
  destruct Hadd as (d & -> & Hwd & Ep & Hnd & Hed). rewrite Ok_bind.
  pose proof (r_thread (set_dd s d) Hwd (lt cb) y Hy) as [_ Cd _].
  destruct (onLockAfter_spec HN d (lt_dd y) (id x) stk (r_dd _ Hwd) W Cd Hnd) as (l & -> & L1 & L2 & L3).
  { rewrite Hens by done. by apply lock_room_for. }
  rewrite Hens in L3 by done. rewrite Ok_bind.
  destruct (after_lock_state (set_dd s d) (lt cb) m x y l Hwd Hx Hy L1) as (s' & -> & H1 & H2 & H3); [congruence | done | congruence | done |].
  exists s'. split_and!; [done | done | done |]. intros Ht. apply H3. intros i _ Hi. by apply Hed.
Qed.

Lemma MutexAfterLock_spec (s : dd_state) (cb : DDCallback) (m : Z) (wlock trylock : bool) (x : DDMutex) (y : logical_thread) :
  rt_wf s -> mutexes s !! m = Some x -> threads s !! lt cb = Some y -> epochs_left s -> lock_room (lt_dd y) ->
  (wlock = true -> ~ holds s (lt cb) m) ->
  exists s', MutexAfterLock s cb m wlock trylock = Ok s' /\ rt_wf s' /\ acquired s' (lt cb) m /\
    (trylock = false -> ordered_before s' (lt cb) m).
Proof.
  intros Hs Hx Hy Hmax Hroom Hw. pose proof (r_thread s Hs _ y Hy) as Hok. pose proof Hok as [W C E]. pose proof (N_pos (BV := BV)) as HNp.
  pose proof (mo_id _ _ _ (r_mutex s Hs m x Hx)) as Hid. unfold MutexAfterLock.
  rewrite (the_thread_Ok s _ y Hy), Ok_bind, (the_mutex_Ok s m x Hx), Ok_bind. set (stk := if second_deadlock_stack s then Unwind cb else 0).
  destruct (onFirstLock_spec HN (lt_dd y) (id x) stk W) as (l & b & -> & L1 & L2 & L3). rewrite Ok_bind. destruct b.
  - destruct L3 as (Hemp & Hne & Hep & Hb).
    assert (N <= id x) by (destruct Hid as [Hz |]; [rewrite Hz in Hep; unfold nodeToEpoch in Hep; rewrite Z.div_0_l in Hep by lia; lia | done]).
    destruct (after_lock_state s (lt cb) m x y l Hs Hx Hy L1) as (s' & -> & H1 & H2 & H3); [done | done | congruence | by rewrite Hb, Hemp, union_empty_r_L |].
    exists s'. split_and!; [done | done | done |]. intros _. apply H3. intros i _ Hi. rewrite Hemp in Hi. by apply not_elem_of_empty in Hi.
  - subst l. destruct (onLockFast_spec HN (dd s) (lt_dd y) (id x) stk (r_dd s Hs) W (lock_room_for _ _ Hroom)) as (l & b & -> & F1 & F2 & F3).
    rewrite Ok_bind. destruct b.
    + destruct F3 as (Hne & He & Hep & Hb & Hed).
      destruct (after_lock_state s (lt cb) m x y l Hs Hx Hy F1) as (s' & -> & H1 & H2 & H3); [done | lia | congruence | done |].
      exists s'. split_and!; [done | done | done |]. intros _. apply H3. intros i _ Hi. by apply Hed.
    + clear l F1 F2 F3.
      destruct (MutexEnsureID_spec HN s (lt cb) m x y Hs Hx Hy Hmax) as (s1 & x1 & -> & Hs1 & Hx1 & Hn1 & Ht1 & Hok1 & Hold & Hnew).
      assert (Hy1 : threads s1 !! lt cb = Some (ensured (dd s1) y)) by (by rewrite Ht1, lookup_insert_eq).
      rewrite Ok_bind, (the_thread_Ok s1 _ _ Hy1), Ok_bind, (the_mutex_Ok s1 m x1 Hx1), Ok_bind.
      apply (after_lock_locked s1 cb m stk wlock trylock x1 _ Hs1 Hx1 Hy1 Hn1).
      * destruct Hok1 as [W0 C0 _]. by destruct (ensure_spec (dd s1) (lt_dd y) W0 C0) as (_ & ? & _).
      * by apply lock_room_ensure.
      * intros Hwl Hin. cbn in Hin. destruct (on_node_dec s m x Hs Hx) as [Hon | Hno]; [| by destruct (Hnew (Hno _))].
        destruct (Hold Hon) as [Hd Hm]. assert (x1 = x) as -> by congruence. rewrite Hd in Hin.
        destruct (ensure_held (dd s) (lt_dd y) _ Hok Hin) as (He & Hin' & _). apply (Hw Hwl). by exists (index (id x)), y.
Qed.

(** ** The other hooks *)

Lemma idle_mutex_wf (s : dd_state) (m : Z) (z : DDMutex) : rt_wf s -> id z = 0 -> (forall i, ~ on_node s m i) -> rt_wf (set_mutex s m z).
Proof.
  intros Hs Hz Hno. pose proof Hs as [D S0 T M O]. pose proof (N_pos (BV := BV)) as HNp. split; cbn; try done.
  - intros m' x Hx. destruct (decide (m' = m)) as [-> | Hne]; [| rewrite lookup_insert_ne in Hx by done; by apply M].
    rewrite lookup_insert_eq in Hx. injection Hx as <-. rewrite Hz. split; [by left | | lia].
    unfold nodeToEpoch. rewrite Z.div_0_l by lia. apply (d_epoch _ D).
  - intros i Hne Hi. destruct (O i Hne Hi) as (x & Hx & Hid). exists x. split; [| done].
    rewrite lookup_insert_ne; [done |]. intros Heq. apply (Hno i). rewrite Heq. by apply on_node_data.
Qed.

Lemma MutexDestroy_spec (s : dd_state) (cb : DDCallback) (m : Z) (x : DDMutex) : rt_wf s -> mutexes s !! m = Some x ->
  (forall t, ~ holds s t m) ->
  exists s', MutexDestroy s cb m = Ok s' /\ rt_wf s' /\ (forall i, ~ on_node s' m i).
Proof.
  intros Hs Hx Hfree. pose proof Hs as [D S0 T M O]. pose proof (N_pos (BV := BV)) as HNp.
  unfold MutexDestroy. rewrite (the_mutex_Ok s m x Hx), Ok_bind. destruct (Z.eqb_spec (id x) 0) as [H0 | H0].
  { exists s. split_and!; [done | done |]. intros i (z & Hz & Hge & _). replace z with x in * by congruence. lia. }
  destruct (on_node_dec s m x Hs Hx) as [Hon | Hno].
  2: { destruct (nodeBelongsToCurrentEpoch (dd s) (id x)) eqn:Hb; [apply (belongs_spec s m x Hs Hx) in Hb; by destruct (Hno _ Hb) |].
    rewrite Ok_bind. eexists. split; [done |]. replace (set_dd s (dd s)) with s by (by destruct s).
    split; [by apply idle_mutex_wf |]. intros i (z & Hz & Hge & _). cbn in Hz. rewrite lookup_insert_eq in Hz. injection Hz as <-. cbn in Hge. lia. }
  rewrite (proj2 (belongs_spec s m x Hs Hx) Hon). destruct (on_node_ok s m _ Hs Hon) as (Ha & Hda & x' & Hx' & Hn & _).
  replace x' with x in * by congruence.
  destruct (removeNode_spec (dd s) (id x) D Hn) as (d & -> & Hd & He & Hdata & Hav & Hal & _). rewrite Ok_bind.
  assert (Hne : current_epoch_ (dd s) <> 0).
  { destruct Hn as (K1 & K2 & _). pose proof (node_epoch_pos (id x) K1). lia. }
  eexists. split; [done |]. split.
  - split; cbn; rewrite ?He; try done.
    + intros t y Hy. destruct (T t y Hy) as [W C E]. split; [done | | by rewrite He]. intros Ht i Hi. apply Hal.
      split; [apply C; [congruence | done] |]. intros ->. apply (Hfree t). exists (index (id x)), y. split_and!; [done | done | congruence | done].
    + intros m' z Hz. destruct (decide (m' = m)) as [-> | Hm]; [rewrite lookup_insert_eq in Hz; injection Hz as <-; cbn |].
      * split; [by left | | lia]. unfold nodeToEpoch. rewrite Z.div_0_l by lia. rewrite He. apply (d_epoch _ D).
      * rewrite lookup_insert_ne in Hz by done. destruct (M m' z Hz) as [M1 M2 M3]. split; rewrite ?He, ?Hdata; [done | done |].
        intros K1 K2. destruct (M3 K1 K2) as [Hza Hzd]. split; [| done]. apply Hal. split; [done |]. congruence.
    + intros i _ Hi. apply Hal in Hi as [Hi Hix]. destruct (O i Hne Hi) as (z & Hz & Hid). exists z. rewrite Hdata. split; [| done].
      rewrite lookup_insert_ne; [done |]. intros Heq. apply Hix. apply (on_node_inj s m); [| done]. rewrite Heq. by apply on_node_data.
  - intros i (z & Hz & Hge & _). cbn in Hz. rewrite lookup_insert_eq in Hz. injection Hz as <-. cbn in Hge. lia.
Qed.

Lemma MutexBeforeUnlock_spec (s : dd_state) (cb : DDCallback) (m : Z) (wlock : bool) (x : DDMutex) (y : logical_thread) : rt_wf s ->
  mutexes s !! m = Some x -> threads s !! lt cb = Some y ->
  exists s', MutexBeforeUnlock s cb m wlock = Ok s' /\ rt_wf s' /\ (forall h, holds s' (lt cb) h -> holds s (lt cb) h).
Proof.
  intros Hs Hx Hy. destruct (r_thread s Hs _ y Hy) as [W C E]. unfold MutexBeforeUnlock.
  rewrite (the_thread_Ok s _ y Hy), Ok_bind, (the_mutex_Ok s m x Hx), Ok_bind.
  destruct (onUnlock_spec HN (lt_dd y) (id x) W) as (l & -> & L1 & L2 & L3). rewrite Ok_bind, (set_tls_Ok s _ y _ Hy).
  eexists. split; [done |]. split.
  - apply set_thread_wf; [done |]. split; cbn; [done | | by rewrite L2]. intros Hc i Hi. apply C; [congruence | by apply L3].
  - intros h (i & z & Hi & Hz & Hc & Hin). cbn in Hz. rewrite lookup_insert_eq in Hz. injection Hz as <-. cbn in Hc, Hin.
    exists i, y. split_and!; [done | done | congruence | by apply L3].
Qed.

(** ** Runs *)

Inductive hook : Type :=
| CreateThread (t : Z) (mem : logical_thread) (c : Z)
| DestroyThread (t : Z)
| Init (cb : DDCallback) (m : Z) (mem : DDMutex)
| BeforeLock (cb : DDCallback) (m : Z) (wlock : bool) (stack : list Z)
| AfterLock (cb : DDCallback) (m : Z) (wlock trylock : bool)
| BeforeUnlock (cb : DDCallback) (m : Z) (wlock : bool)
| Destroy (cb : DDCallback) (m : Z)
| TakeReport (cb : DDCallback).

Definition run_hook (s : dd_state) (h : hook) : result dd_state :=
  match h with
  | CreateThread t mem c => Ok (CreateLogicalThread s t mem c)
  | DestroyThread t => Ok (DestroyLogicalThread s t)
  | Init cb m mem => Ok (MutexInit s cb m mem)
  | BeforeLock cb m wlock stack => MutexBeforeLock s cb m wlock stack
  | AfterLock cb m wlock trylock => MutexAfterLock s cb m wlock trylock
  | BeforeUnlock cb m wlock => MutexBeforeUnlock s cb m wlock
  | Destroy cb m => MutexDestroy s cb m
  | TakeReport cb => '(s, _) ← GetReport s cb; Ok s
  end.

Definition present (s : dd_state) (t m : Z) : Prop := is_Some (threads s !! t) /\ is_Some (mutexes s !! m).

(** What the caller guarantees. *)
Definition legal_hook (s : dd_state) (h : hook) : Prop :=
  match h with
  | CreateThread t _ _ => threads s !! t = None
  | DestroyThread _ => True
  | Init _ m _ => forall i, ~ on_node s m i
  | BeforeLock cb m _ stack => present s (lt cb) m /\ epochs_left s /\ length stack = kMaxLoopSize
  | AfterLock cb m wlock _ => present s (lt cb) m /\ epochs_left s /\ (wlock = true -> ~ holds s (lt cb) m) /\
      forall y, threads s !! lt cb = Some y -> lock_room (lt_dd y)
  | BeforeUnlock cb m _ => present s (lt cb) m
  | Destroy _ m => is_Some (mutexes s !! m) /\ forall t, ~ holds s t m
  | TakeReport cb => is_Some (threads s !! lt cb)
  end.

(** What a hook achieves. *)
Definition hook_ok (s : dd_state) (h : hook) (s' : dd_state) : Prop :=
  match h with
  | BeforeLock cb _ _ _ => forall t, t <> lt cb -> threads s' !! t = threads s !! t
  | AfterLock cb m _ trylock => acquired s' (lt cb) m /\ (trylock = false -> ordered_before s' (lt cb) m)
  | BeforeUnlock cb _ _ => forall m, holds s' (lt cb) m -> holds s (lt cb) m
  | Destroy _ m => forall i, ~ on_node s' m i
  | TakeReport cb => exists y', threads s' !! lt cb = Some y' /\ report_pending y' = false
  | _ => True
  end.

Lemma hook_step (s : dd_state) (h : hook) : rt_wf s -> legal_hook s h -> exists s', run_hook s h = Ok s' /\ rt_wf s' /\ hook_ok s h s'.
Proof.
  intros Hs Hl. destruct h as [t mem c | t | cb m mem | cb m wl st | cb m wl tr | cb m wl | cb m | cb]; cbn [run_hook legal_hook hook_ok] in *.
  - eexists. split_and!; [done | | done]. apply set_thread_wf; [done |]. cbn.
    destruct (clear_spec (bv_ (lt_dd mem))) as [Hw Hb]. split; cbn.
    + split; cbn; [done | by rewrite Hb, elements_empty | intros z Hz; by apply not_elem_of_nil in Hz].
    + intros _ z Hz. cbn in Hz. rewrite Hb in Hz. by apply not_elem_of_empty in Hz.
    + apply (d_epoch _ (r_dd s Hs)).
  - eexists. split_and!; [done | | done]. destruct Hs as [D S0 T M O]. split; cbn; try done.
    intros u y Hy. apply lookup_delete_Some in Hy as [_ Hy]. by apply (T u).
  - eexists. split_and!; [done | | done]. by apply idle_mutex_wf.
  - destruct Hl as ([[y Hy] [x Hx]] & He & Hlen).
    destruct (MutexBeforeLock_spec HN s cb m wl st x y Hs Hx Hy He Hlen) as (s' & y' & -> & Hw & _ & Ho & _).
    by exists s'.
  - destruct Hl as ([[y Hy] [x Hx]] & He & Hw & Hroom).
    destruct (MutexAfterLock_spec s cb m wl tr x y Hs Hx Hy He (Hroom y Hy) Hw) as (s' & -> & H1 & H2). by exists s'.
  - destruct Hl as [[y Hy] [x Hx]]. destruct (MutexBeforeUnlock_spec s cb m wl x y Hs Hx Hy) as (s' & -> & H1 & H2). by exists s'.
  - destruct Hl as [[x Hx] Hfree]. destruct (MutexDestroy_spec s cb m x Hs Hx Hfree) as (s' & -> & H1 & H2). by exists s'.
  - destruct Hl as [y Hy]. unfold GetReport. rewrite (the_thread_Ok s _ y Hy), Ok_bind.
    destruct (report_pending y) eqn:Hp; cbn [negb]; rewrite Ok_bind.
    + eexists. split_and!; [done | | eexists; cbn; by rewrite lookup_insert_eq]. apply set_thread_wf; [done |]. exact (r_thread s Hs (lt cb) y Hy).
    + exists s. split_and!; [done | done |]. by exists y.
Qed.

Inductive hooks_reach : dd_state -> Prop :=
| hooks_start mem flag : hooks_reach (Create mem flag)
| hooks_next s h s' : hooks_reach s -> legal_hook s h -> run_hook s h = Ok s' -> hooks_reach s'.

Lemma hooks_reach_wf (s : dd_state) : hooks_reach s -> rt_wf s.
Proof.
  induction 1 as [mem flag | s h s' _ IH Hl Hrun].
  - pose proof (N_pos (BV := BV)) as HNp. destruct (graph_clear_spec (g_ mem)) as [Gw Gn].
    destruct (clear_spec (available_nodes_ mem)) as [Aw Ab], (clear_spec (recycled_nodes_ mem)) as [Rw Rb]. split; cbn; try done.
    split; cbn; try done.
    + rewrite Ab. set_solver.
    + rewrite word_modulus_pow. lia.
    + intros y z Hyz. by destruct (Gn y z).
  - destruct (hook_step s h IH Hl) as (s2 & Hr & Hw & _). congruence.
Qed.

(** Nodes in use and mutexes correspond one to one. *)
Definition nodes_owned (s : dd_state) : Prop :=
  (forall i, current_epoch_ (dd s) <> 0 -> allocated (dd s) i -> on_node s (data_ (dd s) i) i) /\
  (forall m i, on_node s m i -> allocated (dd s) i /\ data_ (dd s) i = m).


(** C13. MutexBeforeLock reports exactly the cycles it can describe.  In every
    reachable state, for a thread about to lock [m]: it stays silent, with the
    thread's report as it was, exactly when the thread holds [m], or every lock
    it holds is ordered before [m] already, or no chain of at most 20 mutexes
    in the recorded lock order leads from [m] to a lock the thread holds.
    Otherwise a report becomes pending, and it describes such a chain: as many
    entries as mutexes, none shorter exists, the first is [m], each entry has
    the contexts of a mutex of the chain and of its successor, and these are
    in the lock order afterwards, the step from the last back to [m] too. *)
Theorem deadlock_report_exact (s : dd_state) (cb : DDCallback) (m : Z) (wlock : bool) (stack : list Z) :
  hooks_reach s -> legal_hook s (BeforeLock cb m wlock stack) ->
  exists s' y y', MutexBeforeLock s cb m wlock stack = Ok s' /\ threads s !! lt cb = Some y /\ threads s' !! lt cb = Some y' /\
    ((silent s (lt cb) m /\ rep y' = rep y /\ report_pending y' = report_pending y) \/
     (~ silent s (lt cb) m /\ report_pending y' = true /\ exists ms, cycle_reported s s' (lt cb) m (rep y') ms)).
Proof.
  intros Hr ([[y Hy] [x Hx]] & He & Hlen).
  destruct (MutexBeforeLock_spec HN s cb m wlock stack x y (hooks_reach_wf s Hr) Hx Hy He Hlen) as (s' & y' & H1 & _ & H2 & _ & H3).
  by exists s', y, y'.
Qed.

(** ** Running concrete hooks *)

Definition after_hook (s : dd_state) (h : hook) : dd_state := match run_hook s h with Ok s' => s' | Die _ => s end.

Lemma hooks_reach_next (s : dd_state) (h : hook) : hooks_reach s -> legal_hook s h -> is_ok (run_hook s h) = true -> hooks_reach (after_hook s h).
Proof.
  intros Hr Hl Hok. unfold after_hook. destruct (run_hook s h) as [s' |] eqn:Hrun; [| done]. by apply (hooks_next s h s').
Qed.

Definition held_by (s : dd_state) (t m : Z) : bool :=
  match mutexes s !! m, threads s !! t with
  | Some x, Some y => bool_decide (index (id x) ∈ bits (bv_ (lt_dd y)))
  | _, _ => false
  end.

Lemma held_by_false (s : dd_state) (t m : Z) : held_by s t m = false -> ~ holds s t m.
Proof.
  unfold held_by. intros Hf (i & y & (x & Hx & _ & _ & Hi) & Hy & _ & Hin). rewrite Hx, Hy, Hi in Hf.
  by rewrite bool_decide_true in Hf.
Qed.
End hooks.

(** ** An instance: eight nodes, two threads, two mutexes *)

Abbreviation DD8 := (DD (BV := BasicBitVector)).
Abbreviation after8 := (after_hook (H := basic_bit_vector 8) (HIT := basic_iterator 8)).
Abbreviation reach8 := (hooks_reach (HB := basic_spec 8 w8_ok) (HIT := basic_iterator 8)).
Abbreviation legal_hook8 := (legal_hook (HB := basic_spec 8 w8_ok)).

Definition create8 : DD8 := Create (HBV := basic_bit_vector 8) (Detector 5 1 2 3 graph8 (fun _ => 0) []) false.
Definition no_report : DDReport := Report 0 (replicate kMaxLoopSize (MkReportEdge 0 0 0 0 0)).
Definition thread8 : DDLogicalThread (BV := BasicBitVector) := LogicalThread 0 (TLS 7 9 [1] []) no_report true.
Definition path8 : list Z := replicate kMaxLoopSize 0.
Definition calls (t : Z) : DDCallback := Callback t (t + 1000) t.

(** Thread 501 takes mutex 901, then 902; thread 502 takes 902. *)
Definition hooks8 : list (hook (BV := BasicBitVector)) :=
  [CreateThread 501 thread8 51; CreateThread 502 thread8 52; Init (calls 501) 901 (Mutex 4 5 71); Init (calls 501) 902 (Mutex 4 5 72);
   BeforeLock (calls 501) 901 true path8; AfterLock (calls 501) 901 true false;
   BeforeLock (calls 501) 902 true path8; AfterLock (calls 501) 902 true false;
   BeforeUnlock (calls 501) 902 true; BeforeUnlock (calls 501) 901 true;
   BeforeLock (calls 502) 902 true path8; AfterLock (calls 502) 902 true false].
Definition dd8 (n : nat) : DD8 := foldl after8 create8 (take n hooks8).

Ltac there := split; vm_compute; eexists; reflexivity.
Ltac legal_before := split; [there | split; [vm_compute; discriminate | reflexivity]].
Ltac legal_after :=
  split; [there | split; [vm_compute; discriminate |]]; split; [intros _; apply held_by_false; vm_compute; reflexivity |];
  let y := fresh in let Hy := fresh in intros y Hy; vm_compute in Hy; injection Hy as <-; split; vm_compute; reflexivity.
Ltac legal_init :=
  let i := fresh in let x := fresh in let Hx := fresh in intros i (x & Hx & _); vm_compute in Hx; discriminate Hx.

Lemma dd8_reach : reach8 (dd8 12).
Proof.
  unfold dd8, hooks8. cbn [take foldl].
  repeat (apply hooks_reach_next; [| | vm_compute; reflexivity]).
  1: apply hooks_start.
  1-2: vm_compute; reflexivity.
  1-2: legal_init.
  1, 3: legal_before.
  all: try legal_after.
  all: try there.
  legal_before.
Qed.

(** Thread 502 is about to take 901. *)
Lemma inversion_legal8 : legal_hook8 (dd8 12) (BeforeLock (calls 502) 901 true path8).
Proof. legal_before. Qed.


Lemma deadlock_report_exact_witness :
  (exists s' y y', MutexBeforeLock (HBV := basic_bit_vector 8) (HIT := basic_iterator 8) (dd8 12) (calls 502) 901 true path8 = Ok s' /\
    threads (dd8 12) !! 502 = Some y /\ threads s' !! 502 = Some y') /\
  match threads (after8 (dd8 12) (BeforeLock (calls 502) 901 true path8)) !! 502 with
  | Some y => report_pending y = true /\ n (rep y) = 2 /\
      take 2 (loop (rep y)) = [MkReportEdge 501 71 72 1501 0; MkReportEdge 502 72 71 1502 0]
  | None => False
  end.
Proof.
  split; [| vm_compute; split_and!; reflexivity].
  destruct (deadlock_report_exact (HB := basic_spec 8 w8_ok) (HITS := basic_iterator_spec 8 w8_ok) ltac:(vm_compute; discriminate) (dd8 12)
    (calls 502) 901 true path8 dd8_reach inversion_legal8) as (s' & y & y' & H1 & H2 & H3 & _).
  exists s', y, y'. split; [exact H1 | split; [exact H2 | exact H3]].
Defined.
