(* ===== verification/Mutex.v ===== *)
(** * The reader-writer mutex: sanitizer_mutex.h and Semaphore

    [Mutex] as threads over one 64-bit word [state_] and two semaphores.  The
    place of a thread in the code is a [pc]; [next] gives the memory operation
    it does there and where it goes on, with the local computation between two
    operations done on the way.  [step] interleaves the threads at single
    memory operations.  A load may return any value, for a relaxed load may be
    stale, and a weak compare-exchange may fail for no reason; a
    compare-exchange that succeeds acts on the current value.  CheckedMutex is
    in [CheckedMutex]; DCHECKs are not compiled in a release build. *)

From S2P Require Import Prelude Words.

(** ** The word *)

Definition kCounterWidth : Z := 20.
Definition kReaderLockShift : Z := 0.
Definition kReaderLockInc : Z := wshl 1 kReaderLockShift.
Definition kReaderLockMask : Z := wshl (wshl 1 kCounterWidth -w 1) kReaderLockShift.
Definition kWaitingReaderShift : Z := kCounterWidth.
Definition kWaitingReaderInc : Z := wshl 1 kWaitingReaderShift.
Definition kWaitingReaderMask : Z := wshl (wshl 1 kCounterWidth -w 1) kWaitingReaderShift.
Definition kWaitingWriterShift : Z := 2 * kCounterWidth.
Definition kWaitingWriterInc : Z := wshl 1 kWaitingWriterShift.
Definition kWaitingWriterMask : Z := wshl (wshl 1 kCounterWidth -w 1) kWaitingWriterShift.
Definition kWriterLock : Z := wshl 1 (3 * kCounterWidth).
Definition kWriterSpinWait : Z := wshl 1 (3 * kCounterWidth + 1).
Definition kReaderSpinWait : Z := wshl 1 (3 * kCounterWidth + 2).
Definition kMaxSpinIters : Z := 1500.

(** [state & mask] as a condition *)
Definition has (state mask : Z) : bool := negb (Z.land state mask =? 0).

(** ** Places in the code *)

Inductive sem : Type := Writers | Readers.
Inductive wait_pc : Type := WaitEntry | WaitLoop (count : Z) | WaitSleep.
Inductive pc : Type :=
| Idle
| LockEntry
| LockLoop (reset_mask state spin_iters : Z)
| LockWait (w : wait_pc)
| LockAgain (spin_iters : Z)
| TryEntry
| TryCas (state : Z)
| WriteHeld
| UnlockEntry
| UnlockLoop (state : Z)
| ReadEntry
| ReadLoop (reset_mask state spin_iters : Z)
| ReadWait (w : wait_pc)
| ReadAgain (spin_iters : Z)
| ReadHeld
| ReadUnlockEntry
| ReadUnlockLoop (state : Z)
| PostAdd (s : sem) (count : Z)
| PostWake (s : sem) (count : Z).

#[global] Instance sem_eq_dec : EqDecision sem.
Proof. solve_decision. Defined.

(** ** Memory operations *)

Inductive action : Type :=
| Load (k : Z -> pc)
| Cas (old new : Z) (ok : pc) (fail : Z -> pc)
| SemLoad (s : sem) (k : Z -> pc)
| SemCas (s : sem) (old new : Z) (ok : pc) (fail : Z -> pc)
| FutexWait (s : sem) (asleep back : pc)
| Asleep (s : sem) (back : pc)
| SemAdd (s : sem) (count : Z) (k : pc)
| FutexWake (s : sem) (count : Z) (more : Z -> pc) (done : pc)
| Calls (entries : list pc).

(** [Semaphore::Wait] *)
Definition wait_action (s : sem) (w : wait_pc) (inside : wait_pc -> pc) (done : pc) : action :=
  match w with
  | WaitEntry => SemLoad s (fun count => inside (WaitLoop count))
  | WaitLoop count =>
      if count =? 0 then FutexWait s (inside WaitSleep) (inside WaitEntry)
      else SemCas s count (count - 1) done (fun count => inside (WaitLoop count))
  | WaitSleep => Asleep s (inside WaitEntry)
  end.

Definition lock_action (reset_mask state spin_iters : Z) : action :=
  let locked := has state (Z.lor kWriterLock kReaderLockMask) in
  let next_turn := fun state => LockLoop reset_mask state (spin_iters +w 1) in
  if negb locked then
    Cas state (Z.land (Z.lor state kWriterLock) reset_mask) WriteHeld next_turn
  else if kMaxSpinIters <? spin_iters then
    Cas state (Z.land (state +w kWaitingWriterInc) reset_mask) (LockWait WaitEntry) next_turn
  else if negb (has state kWriterSpinWait) then
    Cas state (Z.lor state kWriterSpinWait) (LockAgain spin_iters) next_turn
  else Load next_turn.

(** [TryLock] after it has read [state]. *)
Definition try_loop (state : Z) : pc := if has state (Z.lor kWriterLock kReaderLockMask) then Idle else TryCas state.

(** What [Unlock] computes from [state]: the new word, and whom to wake. *)
Definition unlock_choice (state : Z) : Z * bool * Z :=
  let new_state := Z.land state (wnot kWriterLock) in
  let wake_writer := negb (has state (Z.lor kWriterSpinWait kReaderSpinWait)) && has state kWaitingWriterMask in
  let new_state := if wake_writer then Z.lor (new_state -w kWaitingWriterInc) kWriterSpinWait else new_state in
  let wake_readers := if wake_writer || has state kWriterSpinWait then 0
                      else Z.shiftr (Z.land state kWaitingReaderMask) kWaitingReaderShift in
  let new_state := if negb (wake_readers =? 0) then Z.lor (Z.land new_state (wnot kWaitingReaderMask)) kReaderSpinWait
                   else new_state in
  (new_state, wake_writer, wake_readers).
Definition unlock_action (state : Z) : action :=
  let '(new_state, wake_writer, wake_readers) := unlock_choice state in
  Cas state new_state
    (if wake_writer then PostAdd Writers 1 else if negb (wake_readers =? 0) then PostAdd Readers (to_u32 wake_readers) else Idle)
    UnlockLoop.

Definition read_action (reset_mask state spin_iters : Z) : action :=
  let locked := has state kWriterLock in
  let next_turn := fun state => ReadLoop reset_mask state (spin_iters +w 1) in
  if negb locked then
    Cas state (Z.land (state +w kReaderLockInc) reset_mask) ReadHeld next_turn
  else if kMaxSpinIters <? spin_iters then
    Cas state (Z.land (state +w kWaitingReaderInc) reset_mask) (ReadWait WaitEntry) next_turn
  else if negb (has state kReaderSpinWait) then
    Cas state (Z.lor state kReaderSpinWait) (ReadAgain spin_iters) next_turn
  else Load next_turn.

Definition read_unlock_choice (state : Z) : Z * bool :=
  let new_state := state -w kReaderLockInc in
  let wake := negb (has new_state (Z.lor (Z.lor kReaderLockMask kWriterSpinWait) kReaderSpinWait)) &&
              has new_state kWaitingWriterMask in
  let new_state := if wake then Z.lor (new_state -w kWaitingWriterInc) kWriterSpinWait else new_state in
  (new_state, wake).
Definition read_unlock_action (state : Z) : action :=
  let '(new_state, wake) := read_unlock_choice state in
  Cas state new_state (if wake then PostAdd Writers 1 else Idle) ReadUnlockLoop.

(** Only the holder unlocks. *)
Definition next (p : pc) : action :=
  match p with
  | Idle => Calls [LockEntry; TryEntry; ReadEntry]
  | LockEntry => Load (fun state => LockLoop (wnot 0) state 0)
  | LockLoop reset_mask state spin_iters => lock_action reset_mask state spin_iters
  | LockWait w => wait_action Writers w LockWait (LockAgain 0)
  | LockAgain spin_iters => Load (fun state => LockLoop (wnot kWriterSpinWait) state (spin_iters +w 1))
  | TryEntry => Load try_loop
  | TryCas state => Cas state (Z.lor state kWriterLock) WriteHeld try_loop
  | WriteHeld => Calls [UnlockEntry]
  | UnlockEntry => Load UnlockLoop
  | UnlockLoop state => unlock_action state
  | ReadEntry => Load (fun state => ReadLoop (wnot 0) state 0)
  | ReadLoop reset_mask state spin_iters => read_action reset_mask state spin_iters
  | ReadWait w => wait_action Readers w ReadWait (ReadAgain 0)
  | ReadAgain spin_iters => Load (fun state => ReadLoop (wnot kReaderSpinWait) state (spin_iters +w 1))
  | ReadHeld => Calls [ReadUnlockEntry]
  | ReadUnlockEntry => Load ReadUnlockLoop
  | ReadUnlockLoop state => read_unlock_action state
  | PostAdd s count => SemAdd s count (PostWake s count)
  | PostWake s count => FutexWake s count (PostWake s) Idle
  end.

(** ** Interleaving *)

Record mutex : Type := MkMutex { state_ : Z; writers_ : Z; readers_ : Z }.
Record threads : Type := Threads { mu : mutex; pcs : list pc }.

Definition sem_get (m : mutex) (s : sem) : Z := match s with Writers => writers_ m | Readers => readers_ m end.
Definition sem_set (m : mutex) (s : sem) (z : Z) : mutex :=
  match s with Writers => MkMutex (state_ m) z (readers_ m) | Readers => MkMutex (state_ m) (writers_ m) z end.
Definition set_state (m : mutex) (z : Z) : mutex := MkMutex z (writers_ m) (readers_ m).
Definition go (s : threads) (m : mutex) (i : nat) (p : pc) : threads := Threads m (<[i := p]> (pcs s)).

(** [Post] dies on a count of 0. *)
Inductive step (s : threads) : threads -> Prop :=
| step_call i p l p' : pcs s !! i = Some p -> next p = Calls l -> p' ∈ l -> step s (go s (mu s) i p')
| step_load i p k v : pcs s !! i = Some p -> next p = Load k -> is_uptr v -> step s (go s (mu s) i (k v))
| step_cas i p old new ok fail : pcs s !! i = Some p -> next p = Cas old new ok fail ->
    state_ (mu s) = old -> step s (go s (set_state (mu s) new) i ok)
| step_cas_fail i p old new ok fail : pcs s !! i = Some p -> next p = Cas old new ok fail ->
    step s (go s (mu s) i (fail (state_ (mu s))))
| step_sem_load i p x k v : pcs s !! i = Some p -> next p = SemLoad x k -> 0 <= v -> step s (go s (mu s) i (k v))
| step_sem_cas i p x old new ok fail : pcs s !! i = Some p -> next p = SemCas x old new ok fail ->
    sem_get (mu s) x = old -> step s (go s (sem_set (mu s) x new) i ok)
| step_sem_cas_fail i p x old new ok fail : pcs s !! i = Some p -> next p = SemCas x old new ok fail ->
    step s (go s (mu s) i (fail (sem_get (mu s) x)))
| step_sleep i p x asleep back : pcs s !! i = Some p -> next p = FutexWait x asleep back ->
    sem_get (mu s) x = 0 -> step s (go s (mu s) i asleep)
| step_no_sleep i p x asleep back : pcs s !! i = Some p -> next p = FutexWait x asleep back ->
    step s (go s (mu s) i back)
| step_spurious i p x back : pcs s !! i = Some p -> next p = Asleep x back -> step s (go s (mu s) i back)
| step_add i p x count k : pcs s !! i = Some p -> next p = SemAdd x count k -> count <> 0 ->
    step s (go s (sem_set (mu s) x (to_u32 (sem_get (mu s) x + count))) i k)
| step_wake i p j q x count more done back : pcs s !! i = Some p -> next p = FutexWake x count more done ->
    0 < count -> pcs s !! j = Some q -> next q = Asleep x back ->
    step s (go (go s (mu s) i (more (count - 1))) (mu s) j back)
| step_woken i p x count more done : pcs s !! i = Some p -> next p = FutexWake x count more done ->
    (count = 0 \/ forall j q back, pcs s !! j = Some q -> next q <> Asleep x back) -> step s (go s (mu s) i done).

(** A mutex that nobody uses yet. *)
Definition fresh (n : nat) : threads := Threads (MkMutex 0 0 0) (replicate n Idle).

(** ** StaticSpinMutex *)

Inductive spin_pc : Type := SpinIdle | SpinTry | SpinOnce | SpinSlow | SpinExchange | SpinHeld.
Record spin : Type := Spin { spin_state : Z; spin_pcs : list spin_pc }.
Definition spin_go (s : spin) (z : Z) (i : nat) (p : spin_pc) : spin := Spin z (<[i := p]> (spin_pcs s)).

(** [SpinTry] is Lock's TryLock, [SpinOnce] a TryLock of the caller. *)
Inductive spin_step (s : spin) : spin -> Prop :=
| spin_lock i : spin_pcs s !! i = Some SpinIdle -> spin_step s (spin_go s (spin_state s) i SpinTry)
| spin_trylock i : spin_pcs s !! i = Some SpinIdle -> spin_step s (spin_go s (spin_state s) i SpinOnce)
| spin_try i : spin_pcs s !! i = Some SpinTry ->
    spin_step s (spin_go s 1 i (if spin_state s =? 0 then SpinHeld else SpinSlow))
| spin_once i : spin_pcs s !! i = Some SpinOnce ->
    spin_step s (spin_go s 1 i (if spin_state s =? 0 then SpinHeld else SpinIdle))
| spin_load i v : spin_pcs s !! i = Some SpinSlow ->
    spin_step s (spin_go s (spin_state s) i (if v =? 0 then SpinExchange else SpinSlow))
| spin_exchange i : spin_pcs s !! i = Some SpinExchange ->
    spin_step s (spin_go s 1 i (if spin_state s =? 0 then SpinHeld else SpinSlow))
| spin_unlock i : spin_pcs s !! i = Some SpinHeld -> spin_step s (spin_go s 0 i SpinIdle).
