(* ===== verification/MutexSpecs.v ===== *)
(** * The mutex excludes, and never loses a wake-up *)

From S2P Require Import Prelude Words Mutex.

(** ** Bit fields *)

Lemma land_field (x k n : Z) : 0 <= k -> 0 <= n -> Z.land x (Z.shiftl (Z.ones n) k) = (x / 2 ^ k) mod 2 ^ n * 2 ^ k.
Proof.
  intros Hk Hn. rewrite <- Z.land_ones, <- Z.shiftr_div_pow2, <- Z.shiftl_mul_pow2 by done.
  apply Z.bits_inj'. intros i Hi. rewrite Z.land_spec, !Z.shiftl_spec by done. destruct (Z.ltb_spec i k).
  - by rewrite !(Z.testbit_neg_r _ (i - k)), andb_false_r by lia.
  - rewrite Z.land_spec, Z.shiftr_spec by lia. by replace (i - k + k) with i by lia.
Qed.

Lemma land_wnot (x m : Z) : is_uptr x -> is_uptr m -> Z.land x (wnot m) = x - Z.land x m.
Proof.
  intros Hx Hm. assert (Hw : wnot m = Z.ldiff (Z.ones 64) m).
  { rewrite <- Z.sub_nocarry_ldiff.
    - unfold wnot. by rewrite Z.ones_equiv, word_modulus_pow.
    - apply Z.bits_inj'. intros i Hi. rewrite Z.ldiff_spec, Z.bits_0, Z.testbit_ones by lia.
      destruct (Z.ltb_spec i 64); [by rewrite (proj2 (Z.leb_le 0 i)), andb_false_r by lia |].
      unfold is_uptr in Hm. rewrite word_modulus_pow in Hm. by rewrite (testbit_high m i 64) by lia. }
  assert (Hl : x - Z.land x m = Z.ldiff x (Z.land x m)).
  { apply Z.sub_nocarry_ldiff. apply Z.bits_inj'. intros i Hi. rewrite Z.ldiff_spec, Z.land_spec, Z.bits_0.
    by destruct (Z.testbit x i), (Z.testbit m i). }
  rewrite Hl, Hw. apply Z.bits_inj'. intros i Hi. rewrite Z.land_spec, !Z.ldiff_spec, Z.land_spec, Z.testbit_ones by lia.
  destruct (Z.ltb_spec i 64).
  - rewrite (proj2 (Z.leb_le 0 i)) by lia. by destruct (Z.testbit x i), (Z.testbit m i).
  - unfold is_uptr in Hx. rewrite word_modulus_pow in Hx. by rewrite (testbit_high x i 64) by lia.
Qed.

Lemma lor_add (x m : Z) : Z.lor x m = x + m - Z.land x m.
Proof. pose proof (Z.add_lor_land x m). lia. Qed.

Lemma land_lor_zero (x a b : Z) : Z.land x (Z.lor a b) =? 0 = (Z.land x a =? 0) && (Z.land x b =? 0).
Proof.
  rewrite Z.land_lor_distr_r. destruct (Z.eqb_spec (Z.lor (Z.land x a) (Z.land x b)) 0) as [E | E].
  - apply Z.lor_eq_0_iff in E as [-> ->]. done.
  - destruct (Z.eqb_spec (Z.land x a) 0) as [H1 |], (Z.eqb_spec (Z.land x b) 0) as [H2 |]; try done.
    destruct E. by rewrite H1, H2.
Qed.

(** ** The fields of the word *)

Record fields : Type := Fields { rl : Z; wr : Z; ww : Z; wl : bool; ws : bool; rs : bool }.
Definition word (f : fields) : Z :=
  rl f + wr f * 1048576 + ww f * 1099511627776 + Z.b2z (wl f) * 1152921504606846976 +
  Z.b2z (ws f) * 2305843009213693952 + Z.b2z (rs f) * 4611686018427387904.
Record fields_ok (f : fields) : Prop := {
  f_rl : 0 <= rl f < 1048576;
  f_wr : 0 <= wr f < 1048576;
  f_ww : 0 <= ww f < 1048576;
}.

Lemma word_range (f : fields) : fields_ok f -> 0 <= word f < 9223372036854775808.
Proof. intros [H1 H2 H3]. unfold word. destruct (wl f), (ws f), (rs f); cbn [Z.b2z]; lia. Qed.

(** [get_field k n] rewrites a masked word into arithmetic. *)
Ltac word_lia f := unfold word; destruct (wl f), (ws f), (rs f); cbn [Z.b2z rl wr ww wl ws rs]; zlia.
Ltac get_field m k n :=
  change m with (Z.shiftl (Z.ones n) k); rewrite land_field by lia;
  let a := eval vm_compute in (2 ^ k) in let b := eval vm_compute in (2 ^ n) in change (2 ^ k) with a; change (2 ^ n) with b.

Section word.
Context (f : fields) (Hf : fields_ok f).

Lemma word_uptr : is_uptr (word f).
Proof using Hf. pose proof (word_range f Hf). unfold is_uptr, word_modulus. lia. Qed.

Lemma get_rl : Z.land (word f) kReaderLockMask = rl f.
Proof using Hf. destruct Hf. get_field kReaderLockMask 0 20. word_lia f. Qed.
Lemma get_wr : Z.land (word f) kWaitingReaderMask = wr f * 1048576.
Proof using Hf. destruct Hf. get_field kWaitingReaderMask 20 20. word_lia f. Qed.
Lemma get_ww : Z.land (word f) kWaitingWriterMask = ww f * 1099511627776.
Proof using Hf. destruct Hf. get_field kWaitingWriterMask 40 20. word_lia f. Qed.
Lemma get_wl : Z.land (word f) kWriterLock = Z.b2z (wl f) * kWriterLock.
Proof using Hf. destruct Hf. change kWriterLock with 1152921504606846976 at 2. get_field kWriterLock 60 1. word_lia f. Qed.
Lemma get_ws : Z.land (word f) kWriterSpinWait = Z.b2z (ws f) * kWriterSpinWait.
Proof using Hf. destruct Hf. change kWriterSpinWait with 2305843009213693952 at 2. get_field kWriterSpinWait 61 1. word_lia f. Qed.
Lemma get_rs : Z.land (word f) kReaderSpinWait = Z.b2z (rs f) * kReaderSpinWait.
Proof using Hf. destruct Hf. change kReaderSpinWait with 4611686018427387904 at 2. get_field kReaderSpinWait 62 1. word_lia f. Qed.

Lemma has_wl : has (word f) kWriterLock = wl f.
Proof using Hf. unfold has. rewrite get_wl. by destruct (wl f). Qed.
Lemma has_ws : has (word f) kWriterSpinWait = ws f.
Proof using Hf. unfold has. rewrite get_ws. by destruct (ws f). Qed.
Lemma has_rs : has (word f) kReaderSpinWait = rs f.
Proof using Hf. unfold has. rewrite get_rs. by destruct (rs f). Qed.
Lemma has_ww : has (word f) kWaitingWriterMask = (0 <? ww f).
Proof using Hf.
  unfold has. rewrite get_ww. destruct Hf. destruct (Z.ltb_spec 0 (ww f)), (Z.eqb_spec (ww f * 1099511627776) 0); done || lia.
Qed.
Lemma has_rl : has (word f) kReaderLockMask = (0 <? rl f).
Proof using Hf. unfold has. rewrite get_rl. destruct Hf. destruct (Z.ltb_spec 0 (rl f)), (Z.eqb_spec (rl f) 0); done || lia. Qed.
Lemma has_locked : has (word f) (Z.lor kWriterLock kReaderLockMask) = wl f || (0 <? rl f).
Proof using Hf. rewrite <- has_wl, <- has_rl. unfold has. by rewrite land_lor_zero, negb_andb. Qed.
Lemma has_spinning : has (word f) (Z.lor kWriterSpinWait kReaderSpinWait) = ws f || rs f.
Proof using Hf. rewrite <- has_ws, <- has_rs. unfold has. by rewrite land_lor_zero, negb_andb. Qed.
Lemma has_busy : has (word f) (Z.lor (Z.lor kReaderLockMask kWriterSpinWait) kReaderSpinWait) = (0 <? rl f) || ws f || rs f.
Proof using Hf. rewrite <- has_ws, <- has_rs, <- has_rl. unfold has. by rewrite !land_lor_zero, !negb_andb. Qed.

Lemma set_wl : Z.lor (word f) kWriterLock = word (Fields (rl f) (wr f) (ww f) true (ws f) (rs f)).
Proof using Hf. rewrite lor_add, get_wl. change kWriterLock with 1152921504606846976. destruct Hf. word_lia f. Qed.
Lemma set_ws : Z.lor (word f) kWriterSpinWait = word (Fields (rl f) (wr f) (ww f) (wl f) true (rs f)).
Proof using Hf. rewrite lor_add, get_ws. change kWriterSpinWait with 2305843009213693952. destruct Hf. word_lia f. Qed.
Lemma set_rs : Z.lor (word f) kReaderSpinWait = word (Fields (rl f) (wr f) (ww f) (wl f) (ws f) true).
Proof using Hf. rewrite lor_add, get_rs. change kReaderSpinWait with 4611686018427387904. destruct Hf. word_lia f. Qed.

Ltac constant := split; vm_compute; [discriminate | reflexivity].
Lemma clear_wl : Z.land (word f) (wnot kWriterLock) = word (Fields (rl f) (wr f) (ww f) false (ws f) (rs f)).
Proof using Hf.
  rewrite land_wnot, get_wl by (apply word_uptr || constant). change kWriterLock with 1152921504606846976. destruct Hf. word_lia f.
Qed.
Lemma clear_ws : Z.land (word f) (wnot kWriterSpinWait) = word (Fields (rl f) (wr f) (ww f) (wl f) false (rs f)).
Proof using Hf.
  rewrite land_wnot, get_ws by (apply word_uptr || constant). change kWriterSpinWait with 2305843009213693952. destruct Hf. word_lia f.
Qed.
Lemma clear_rs : Z.land (word f) (wnot kReaderSpinWait) = word (Fields (rl f) (wr f) (ww f) (wl f) (ws f) false).
Proof using Hf.
  rewrite land_wnot, get_rs by (apply word_uptr || constant). change kReaderSpinWait with 4611686018427387904. destruct Hf. word_lia f.
Qed.
Lemma clear_wr : Z.land (word f) (wnot kWaitingReaderMask) = word (Fields (rl f) 0 (ww f) (wl f) (ws f) (rs f)).
Proof using Hf. rewrite land_wnot, get_wr by (apply word_uptr || constant). destruct Hf. word_lia f. Qed.
Lemma clear_none : Z.land (word f) (wnot 0) = word f.
Proof using Hf. rewrite land_wnot by (apply word_uptr || constant). rewrite Z.land_0_r. lia. Qed.

Lemma inc_ww : word f +w kWaitingWriterInc = word (Fields (rl f) (wr f) (ww f + 1) (wl f) (ws f) (rs f)).
Proof using Hf.
  change kWaitingWriterInc with 1099511627776. pose proof (word_range f Hf). rewrite wrap_small by (unfold is_uptr, word_modulus; lia).
  word_lia f.
Qed.
Lemma inc_wr : word f +w kWaitingReaderInc = word (Fields (rl f) (wr f + 1) (ww f) (wl f) (ws f) (rs f)).
Proof using Hf.
  change kWaitingReaderInc with 1048576. pose proof (word_range f Hf). rewrite wrap_small by (unfold is_uptr, word_modulus; lia).
  word_lia f.
Qed.
Lemma inc_rl : word f +w kReaderLockInc = word (Fields (rl f + 1) (wr f) (ww f) (wl f) (ws f) (rs f)).
Proof using Hf.
  change kReaderLockInc with 1. pose proof (word_range f Hf). rewrite wrap_small by (unfold is_uptr, word_modulus; lia). word_lia f.
Qed.
Lemma dec_ww : 0 < ww f -> word f -w kWaitingWriterInc = word (Fields (rl f) (wr f) (ww f - 1) (wl f) (ws f) (rs f)).
Proof using Hf.
  intros Hw. change kWaitingWriterInc with 1099511627776. pose proof (word_range f Hf) as Hr. destruct Hf.
  rewrite wrap_small; [word_lia f |]. revert Hr. unfold is_uptr, word_modulus. word_lia f.
Qed.
Lemma dec_rl : 0 < rl f -> word f -w kReaderLockInc = word (Fields (rl f - 1) (wr f) (ww f) (wl f) (ws f) (rs f)).
Proof using Hf.
  intros Hw. change kReaderLockInc with 1. pose proof (word_range f Hf) as Hr. destruct Hf.
  rewrite wrap_small; [word_lia f |]. revert Hr. unfold is_uptr, word_modulus. word_lia f.
Qed.
End word.

(** ** What the operations do to the fields *)

Definition keeps (m : bool) (mask : Z) : Z := if m then wnot mask else wnot 0.

Lemma lock_word (f : fields) (m : bool) : fields_ok f ->
  Z.land (Z.lor (word f) kWriterLock) (keeps m kWriterSpinWait) =
  word (Fields (rl f) (wr f) (ww f) true (if m then false else ws f) (rs f)).
Proof.
  intros Hf. rewrite set_wl by done. assert (Hf' : fields_ok (Fields (rl f) (wr f) (ww f) true (ws f) (rs f))) by (by destruct Hf).
  destruct m; cbn [keeps]; [by rewrite clear_ws | by rewrite clear_none].
Qed.

Lemma lock_wait_word (f : fields) (m : bool) : fields_ok f -> ww f + 1 < 1048576 ->
  Z.land (word f +w kWaitingWriterInc) (keeps m kWriterSpinWait) =
  word (Fields (rl f) (wr f) (ww f + 1) (wl f) (if m then false else ws f) (rs f)).
Proof.
  intros Hf Hw. rewrite inc_ww by done.
  assert (Hf' : fields_ok (Fields (rl f) (wr f) (ww f + 1) (wl f) (ws f) (rs f))) by (destruct Hf; split; cbn; lia).
  destruct m; cbn [keeps]; [by rewrite clear_ws | by rewrite clear_none].
Qed.

Lemma read_word (f : fields) (m : bool) : fields_ok f -> rl f + 1 < 1048576 ->
  Z.land (word f +w kReaderLockInc) (keeps m kReaderSpinWait) =
  word (Fields (rl f + 1) (wr f) (ww f) (wl f) (ws f) (if m then false else rs f)).
Proof.
  intros Hf Hw. rewrite inc_rl by done.
  assert (Hf' : fields_ok (Fields (rl f + 1) (wr f) (ww f) (wl f) (ws f) (rs f))) by (destruct Hf; split; cbn; lia).
  destruct m; cbn [keeps]; [by rewrite clear_rs | by rewrite clear_none].
Qed.

Lemma read_wait_word (f : fields) (m : bool) : fields_ok f -> wr f + 1 < 1048576 ->
  Z.land (word f +w kWaitingReaderInc) (keeps m kReaderSpinWait) =
  word (Fields (rl f) (wr f + 1) (ww f) (wl f) (ws f) (if m then false else rs f)).
Proof.
  intros Hf Hw. rewrite inc_wr by done.
  assert (Hf' : fields_ok (Fields (rl f) (wr f + 1) (ww f) (wl f) (ws f) (rs f))) by (destruct Hf; split; cbn; lia).
  destruct m; cbn [keeps]; [by rewrite clear_rs | by rewrite clear_none].
Qed.

Definition wakes_writer (f : fields) : bool := negb (ws f || rs f) && (0 <? ww f).
Definition wakes_readers (f : fields) : Z := if wakes_writer f || ws f then 0 else wr f.
Definition unlocked (f : fields) : fields :=
  Fields (rl f) (if wakes_readers f =? 0 then wr f else 0) (if wakes_writer f then ww f - 1 else ww f) false
         (wakes_writer f || ws f) (negb (wakes_readers f =? 0) || rs f).

Lemma unlock_choice_word (f : fields) : fields_ok f ->
  unlock_choice (word f) = (word (unlocked f), wakes_writer f, wakes_readers f).
Proof.
  intros Hf. unfold unlock_choice. rewrite has_spinning, has_ww, has_ws, clear_wl, get_wr by done. fold (wakes_writer f).
  assert (Hshift : Z.shiftr (wr f * 1048576) kWaitingReaderShift = wr f).
  { rewrite Z.shiftr_div_pow2 by done. change (2 ^ kWaitingReaderShift) with 1048576. apply Z.div_mul. lia. }
  rewrite Hshift. fold (wakes_readers f). set (f1 := Fields (rl f) (wr f) (ww f) false (ws f) (rs f)).
  assert (Hf1 : fields_ok f1) by (by destruct Hf). unfold unlocked. destruct (wakes_writer f) eqn:Hw.
  - unfold wakes_writer in Hw. apply andb_true_iff in Hw as [Hs Hp%Z.ltb_lt].
    rewrite dec_ww by done. set (f2 := Fields (rl f1) (wr f1) (ww f1 - 1) _ _ _).
    assert (Hf2 : fields_ok f2) by (destruct Hf; split; cbn; lia). rewrite set_ws by done.
    assert (Hr : wakes_readers f = 0) by (unfold wakes_readers, wakes_writer; by rewrite Hs, (proj2 (Z.ltb_lt _ _) Hp)).
    by rewrite Hr.
  - destruct (Z.eqb_spec (wakes_readers f) 0) as [Hr | Hr]; cbn [negb orb]; [done |].
    rewrite clear_wr by done. rewrite set_rs by (destruct Hf; split; cbn; lia). done.
Qed.

Definition read_wakes (f : fields) : bool := negb ((0 <? rl f) || ws f || rs f) && (0 <? ww f).
Definition read_unlocked (f : fields) : fields :=
  let f := Fields (rl f - 1) (wr f) (ww f) (wl f) (ws f) (rs f) in
  if read_wakes f then Fields (rl f) (wr f) (ww f - 1) (wl f) true (rs f) else f.

Lemma read_unlock_choice_word (f : fields) : fields_ok f -> 0 < rl f ->
  read_unlock_choice (word f) = (word (read_unlocked f), read_wakes (Fields (rl f - 1) (wr f) (ww f) (wl f) (ws f) (rs f))).
Proof.
  intros Hf Hr. unfold read_unlock_choice, read_unlocked. rewrite dec_rl by done. set (f1 := Fields (rl f - 1) _ _ _ _ _).
  assert (Hf1 : fields_ok f1) by (destruct Hf; split; cbn; lia). rewrite has_busy, has_ww by done. fold (read_wakes f1).
  destruct (read_wakes f1) eqn:Hw; [| done]. unfold read_wakes in Hw. apply andb_true_iff in Hw as [_ Hp%Z.ltb_lt].
  rewrite dec_ww by done. rewrite set_ws; [done |]. destruct Hf1. split; cbn in *; lia.
Qed.

(** ** Sums over threads *)

Definition total {A} (w : A -> Z) (l : list A) : Z := foldr (fun p z => w p + z) 0 l.

Lemma total_insert {A} (w : A -> Z) (l : list A) (i : nat) (p q : A) : l !! i = Some p -> total w (<[i := q]> l) = total w l - w p + w q.
Proof.
  revert i. induction l as [| x l IH]; intros i Hi; [done |]. destruct i as [| i]; cbn in *.
  - injection Hi as ->. lia.
  - change (w x + total w (<[i := q]> l) = w x + total w l - w p + w q). rewrite (IH i Hi). lia.
Qed.

Lemma total_ge {A} (w : A -> Z) (l : list A) : (forall p, 0 <= w p) -> 0 <= total w l.
Proof. intros Hw. induction l as [| x l IH]; cbn; [lia |]. fold (total w l). specialize (Hw x). lia. Qed.

Lemma total_elem {A} (w : A -> Z) (l : list A) (i : nat) (p : A) : (forall p, 0 <= w p) -> l !! i = Some p -> w p <= total w l.
Proof.
  intros Hw. revert i. induction l as [| x l IH]; intros i Hi; [done |]. cbn. fold (total w l). pose proof (total_ge w l Hw).
  destruct i as [| i]; cbn in Hi; [injection Hi as ->; lia |]. specialize (IH i Hi). specialize (Hw x). lia.
Qed.

Lemma total_two {A} (w : A -> Z) (l : list A) (i j : nat) (p q : A) : (forall p, 0 <= w p) -> i <> j -> l !! i = Some p -> l !! j = Some q ->
  w p + w q <= total w l.
Proof.
  intros Hw Hij. revert i j Hij. induction l as [| x l IH]; intros i j Hij Hi Hj; [done |]. cbn. fold (total w l).
  destruct i as [| i], j as [| j]; cbn in Hi, Hj; [done | | |].
  - injection Hi as ->. pose proof (total_elem w l j q Hw Hj). lia.
  - injection Hj as ->. pose proof (total_elem w l i p Hw Hi). lia.
  - specialize (IH i j ltac:(congruence) Hi Hj). specialize (Hw x). lia.
Qed.

Lemma total_pos {A} (w : A -> Z) (l : list A) : 0 < total w l -> exists i p, l !! i = Some p /\ 0 < w p.
Proof.
  induction l as [| x l IH]; cbn; [lia |]. fold (total w l). intros Hp. destruct (decide (0 < w x)) as [Hx | Hx].
  - by exists 0%nat, x.
  - destruct IH as (i & p & Hi & Hw); [lia |]. by exists (S i), p.
Qed.

Lemma total_le {A} (w v : A -> Z) (l : list A) : (forall p, w p <= v p) -> total w l <= total v l.
Proof. intros Hw. induction l as [| x l IH]; cbn; [done |]. fold (total w l) (total v l). specialize (Hw x). lia. Qed.

Lemma total_one {A} (w : A -> Z) (l : list A) : (forall p, w p <= 1) -> total w l <= Z.of_nat (length l).
Proof. intros Hw. induction l as [| x l IH]; cbn [total foldr length]; [done |]. fold (total w l). specialize (Hw x). lia. Qed.

(** ** What each thread stands for *)

Definition writes (p : pc) : Z := match p with WriteHeld | UnlockEntry | UnlockLoop _ => 1 | _ => 0 end.
Definition reads (p : pc) : Z := match p with ReadHeld | ReadUnlockEntry | ReadUnlockLoop _ => 1 | _ => 0 end.
Definition waits (x : sem) (p : pc) : Z :=
  match x, p with Writers, LockWait _ | Readers, ReadWait _ => 1 | _, _ => 0 end.
Definition sleeps (x : sem) (p : pc) : Z :=
  match x, p with Writers, LockWait WaitSleep | Readers, ReadWait WaitSleep => 1 | _, _ => 0 end.
Definition posts (x : sem) (p : pc) : Z := 
  match x, p with Writers, PostAdd Writers n | Readers, PostAdd Readers n => Z.max 0 n | _, _ => 0 end.
Definition rouses (x : sem) (p : pc) : Z := 
  match x, p with Writers, PostWake Writers n | Readers, PostWake Readers n => Z.max 0 n | _, _ => 0 end.
(** The thread will reset its spin-wait flag. *)
Definition resets (x : sem) (p : pc) : Z :=
  match x, p with
  | Writers, LockLoop reset_mask _ _ | Readers, ReadLoop reset_mask _ _ => if reset_mask =? wnot 0 then 0 else 1
  | Writers, LockAgain _ | Readers, ReadAgain _ => 1
  | _, _ => 0
  end.

Definition pc_ok (p : pc) : Prop :=
  match p with
  | LockLoop reset_mask _ _ => exists m, reset_mask = keeps m kWriterSpinWait
  | ReadLoop reset_mask _ _ => exists m, reset_mask = keeps m kReaderSpinWait
  | TryCas state => has state (Z.lor kWriterLock kReaderLockMask) = false
  | PostAdd _ n => 0 < n
  | _ => True
  end.

Lemma resets_lock (m : bool) (st spin : Z) : resets Writers (LockLoop (keeps m kWriterSpinWait) st spin) = Z.b2z m.
Proof. by destruct m. Qed.
Lemma resets_read (m : bool) (st spin : Z) : resets Readers (ReadLoop (keeps m kReaderSpinWait) st spin) = Z.b2z m.
Proof. by destruct m. Qed.

Definition sum (s : threads) (w : pc -> Z) : Z := total w (pcs s).

(** Counters and flags of the word, and the semaphores, against the threads. *)
Record counted (s : threads) (f : fields) : Prop := {
  c_word : state_ (mu s) = word f;
  c_writes : Z.b2z (wl f) = sum s writes;
  c_reads : rl f = sum s reads;
  c_wr : wr f + readers_ (mu s) + sum s (posts Readers) = sum s (waits Readers);
  c_ww : ww f + writers_ (mu s) + sum s (posts Writers) = sum s (waits Writers);
  c_ws : Z.b2z (ws f) = sum s (resets Writers) + writers_ (mu s) + sum s (posts Writers);
}.
(** Who waits will be woken. *)
Record woken (s : threads) (f : fields) : Prop := {
  k_pos : 0 <= wr f /\ 0 <= ww f;
  k_sem : 0 <= writers_ (mu s) /\ 0 <= readers_ (mu s);
  k_excl : wl f = true -> rl f = 0;
  k_rs : rs f = true -> 0 < sum s (resets Readers) + readers_ (mu s) + sum s (posts Readers);
  k_some : 0 < ww f \/ 0 < wr f -> wl f = true \/ 0 < rl f \/ ws f = true \/ rs f = true;
  k_readers : 0 < wr f -> wl f = true \/ ws f = true \/ 0 < ww f;
  k_rouse : forall x, sum s (sleeps x) = 0 \/
    sem_get (mu s) x <= sum s (waits x) - sum s (sleeps x) + sum s (rouses x);
  k_ok : forall i p, pcs s !! i = Some p -> pc_ok p;
}.
Definition inv (s : threads) : Prop := exists f, counted s f /\ woken s f.

Lemma weights_pos (x : sem) (p : pc) :
  0 <= writes p <= 1 /\ 0 <= reads p <= 1 /\ 0 <= sleeps x p <= waits x p /\ waits x p <= 1 /\ 0 <= posts x p /\ 0 <= rouses x p /\ 0 <= resets x p <= 1.
Proof.
  destruct x, p as [| | | w | | | | | | | | | w | | | | | y n | y n]; cbn; try lia; try (destruct w; lia); try (destruct y; cbn; lia);
    destruct (_ =? _); lia.
Qed.

Lemma sum_go (s : threads) (m : mutex) (i : nat) (p q : pc) (w : pc -> Z) : pcs s !! i = Some p ->
  sum (go s m i q) w = sum s w - w p + w q.
Proof. intros Hi. unfold sum, go. cbn. by apply total_insert. Qed.

Lemma ok_go (s : threads) (m : mutex) (i : nat) (q : pc) : (forall j p, pcs s !! j = Some p -> pc_ok p) -> pc_ok q ->
  forall j p, pcs (go s m i q) !! j = Some p -> pc_ok p.
Proof. intros Hs Hq j p Hj. cbn in Hj. apply list_lookup_insert_Some in Hj as [(_ & <- & _) | (_ & Hj)]; [done | by apply (Hs j)]. Qed.

Lemma sum_pos (s : threads) (w : pc -> Z) : (forall p, 0 <= w p) -> 0 <= sum s w.
Proof. apply total_ge. Qed.

Ltac weights := intros p; first [pose proof (weights_pos Writers p) | idtac]; pose proof (weights_pos Readers p); lia.

Lemma sums_pos (s : threads) (x : sem) :
  0 <= sum s writes /\ 0 <= sum s reads /\ 0 <= sum s (sleeps x) <= sum s (waits x) /\ 0 <= sum s (posts x) /\ 0 <= sum s (rouses x) /\
  0 <= sum s (resets x) /\ sum s (waits x) <= Z.of_nat (length (pcs s)) /\ sum s writes <= Z.of_nat (length (pcs s)) /\
  sum s reads <= Z.of_nat (length (pcs s)).
Proof.
  split_and!; try (apply sum_pos; intros p; pose proof (weights_pos x p); lia); try (apply total_one; intros p; pose proof (weights_pos x p); lia).
  apply total_le. intros p. pose proof (weights_pos x p). lia.
Qed.

(** The invariant after thread [i] has gone from [p] to [q]. *)
Lemma inv_go (s : threads) (m : mutex) (i : nat) (p q : pc) (f : fields) : pcs s !! i = Some p ->
  (forall j r, pcs s !! j = Some r -> pc_ok r) -> pc_ok q -> state_ m = word f ->
  Z.b2z (wl f) = sum s writes - writes p + writes q -> rl f = sum s reads - reads p + reads q ->
  wr f + readers_ m + (sum s (posts Readers) - posts Readers p + posts Readers q) =
    sum s (waits Readers) - waits Readers p + waits Readers q ->
  ww f + writers_ m + (sum s (posts Writers) - posts Writers p + posts Writers q) =
    sum s (waits Writers) - waits Writers p + waits Writers q ->
  Z.b2z (ws f) = sum s (resets Writers) - resets Writers p + resets Writers q + writers_ m +
    (sum s (posts Writers) - posts Writers p + posts Writers q) ->
  0 <= wr f -> 0 <= ww f -> 0 <= writers_ m -> 0 <= readers_ m -> (wl f = true -> rl f = 0) ->
  (rs f = true -> 0 < sum s (resets Readers) - resets Readers p + resets Readers q + readers_ m +
    (sum s (posts Readers) - posts Readers p + posts Readers q)) ->
  (0 < ww f \/ 0 < wr f -> wl f = true \/ 0 < rl f \/ ws f = true \/ rs f = true) ->
  (0 < wr f -> wl f = true \/ ws f = true \/ 0 < ww f) ->
  (forall x, sum s (sleeps x) - sleeps x p + sleeps x q = 0 \/
    sem_get m x <= (sum s (waits x) - waits x p + waits x q) - (sum s (sleeps x) - sleeps x p + sleeps x q) +
      (sum s (rouses x) - rouses x p + rouses x q)) ->
  inv (go s m i q).
Proof.
  intros Hi Hok Hq H1 H2 H3 H4 H5 H6 H7 H8 H9 H10 H11 H12 H13 H14 H15.
  exists f. split; split; rewrite ?(sum_go s m i p q _ Hi); try done.
  - intros x. rewrite !(sum_go s m i p q _ Hi). apply H15.
  - by apply ok_go.
Qed.
#[global] Arguments sum : simpl never.

(** [p] and [q] stand for the same, except that [q] may be awake. *)
Record quiet (p q : pc) : Prop := {
  q_writes : writes p = writes q;
  q_reads : reads p = reads q;
  q_waits : forall x, waits x p = waits x q;
  q_posts : forall x, posts x p = posts x q;
  q_rouses : forall x, rouses x p = rouses x q;
  q_resets : forall x, resets x p = resets x q;
  q_sleeps : forall x, sleeps x q <= sleeps x p;
  q_ok : pc_ok p -> pc_ok q;
}.

Lemma quiet_inv (s : threads) (i : nat) (p q : pc) : inv s -> pcs s !! i = Some p -> quiet p q -> inv (go s (mu s) i q).
Proof.
  intros (f & [C1 C2 C3 C4 C5 C6] & [K1 K2 K3 K4 K5 K6 K7 K8]) Hi [Q1 Q2 Q3 Q4 Q5 Q6 Q7 Q8].
  pose proof (Q3 Writers). pose proof (Q3 Readers). pose proof (Q4 Writers). pose proof (Q4 Readers).
  pose proof (Q6 Writers). pose proof (Q6 Readers).
  apply (inv_go s _ i p q f Hi K8); try lia; try done.
  - apply Q8. by apply (K8 i).
  - intros Hr. specialize (K4 Hr). lia.
  - intros x. specialize (K7 x). specialize (Q3 x). specialize (Q5 x). specialize (Q7 x).
    pose proof (sums_pos s x). pose proof (weights_pos x q). pose proof (sums_pos (go s (mu s) i q) x) as Hq.
    rewrite !(sum_go s _ i p q _ Hi) in Hq. lia.
Qed.

(** [next p] in the cases where it is the operation at hand. *)
Ltac next_cases p H :=
  destruct p; cbn in H; try match goal with w : wait_pc |- _ => destruct w end;
  try (unfold lock_action, read_action, unlock_action, read_unlock_action, wait_action in H);
  repeat case_match; try discriminate H; simplify_eq.
Ltac quiet_now := split; [cbn; done || lia | cbn; done || lia | intros []; cbn; done || lia | intros []; cbn; done || lia |
  intros []; cbn; done || lia | intros []; cbn; done || lia | intros []; cbn; done || lia | cbn; intros; eauto].

Lemma quiet_call (p : pc) (l : list pc) (q : pc) : next p = Calls l -> q ∈ l -> quiet p q.
Proof.
  intros Hp Hq. next_cases p Hp; repeat (apply elem_of_cons in Hq as [-> | Hq]); try (by apply not_elem_of_nil in Hq); quiet_now.
Qed.

Lemma quiet_try (v : Z) (p : pc) : quiet p Idle -> quiet p (try_loop v).
Proof.
  intros [Q1 Q2 Q3 Q4 Q5 Q6 Q7 Q8]. unfold try_loop. destruct (has _ _) eqn:Hh; split; try done; intros []; try apply Q3; try apply Q4; try apply Q5;
    try apply Q6; try apply Q7.
Qed.

Lemma quiet_load (p : pc) (k : Z -> pc) (v : Z) : next p = Load k -> quiet p (k v).
Proof.
  intros Hp. next_cases p Hp; try (apply quiet_try); try quiet_now; first [by exists false | by exists true].
Qed.

Lemma quiet_fail (p ok : pc) (old new v : Z) (fail : Z -> pc) : next p = Cas old new ok fail -> quiet p (fail v).
Proof. intros Hp. next_cases p Hp; try (apply quiet_try); quiet_now. Qed.

Lemma quiet_sem_load (p : pc) (x : sem) (k : Z -> pc) (v : Z) : next p = SemLoad x k -> quiet p (k v).
Proof. intros Hp. next_cases p Hp; quiet_now. Qed.

Lemma quiet_sem_fail (p ok : pc) (x : sem) (old new v : Z) (fail : Z -> pc) : next p = SemCas x old new ok fail -> quiet p (fail v).
Proof. intros Hp. next_cases p Hp; quiet_now. Qed.

Lemma quiet_back (p asleep back : pc) (x : sem) : next p = FutexWait x asleep back \/ next p = Asleep x back -> quiet p back.
Proof. intros [Hp | Hp]; next_cases p Hp; quiet_now. Qed.

(** ** Steps on a semaphore *)

Lemma sleep_inv (s : threads) (i : nat) (p asleep back : pc) (x : sem) : inv s -> pcs s !! i = Some p ->
  next p = FutexWait x asleep back -> sem_get (mu s) x = 0 -> inv (go s (mu s) i asleep).
Proof.
  intros (f & [C1 C2 C3 C4 C5 C6] & [K1 K2 K3 K4 K5 K6 K7 K8]) Hi Hp Hx.
  assert (Hw : quiet asleep p /\ (forall y, y <> x -> sleeps y asleep = sleeps y p)).
  { next_cases p Hp; (split; [quiet_now | intros []; done]). }
  destruct Hw as [[Q1 Q2 Q3 Q4 Q5 Q6 Q7 Q8] Hs].
  pose proof (Q3 Writers). pose proof (Q3 Readers). pose proof (Q4 Writers). pose proof (Q4 Readers).
  pose proof (Q6 Writers). pose proof (Q6 Readers).
  apply (inv_go s _ i p asleep f Hi K8); try lia; try done.
  - next_cases p Hp; done.
  - intros Hr. specialize (K4 Hr). lia.
  - intros y. destruct (decide (y = x)) as [-> | Hne].
    + right. rewrite Hx. pose proof (sums_pos (go s (mu s) i asleep) x) as Hq. rewrite !(sum_go s _ i p asleep _ Hi) in Hq. lia.
    + rewrite (Hs y Hne). specialize (K7 y). specialize (Q3 y). specialize (Q5 y). lia.
Qed.

(** Taking a token. *)
Lemma sem_cas_inv (s : threads) (i : nat) (p ok : pc) (x : sem) (old new : Z) (fail : Z -> pc) : inv s -> pcs s !! i = Some p ->
  next p = SemCas x old new ok fail -> sem_get (mu s) x = old -> inv (go s (sem_set (mu s) x new) i ok).
Proof.
  intros (f & [C1 C2 C3 C4 C5 C6] & [K1 K2 K3 K4 K5 K6 K7 K8]) Hi Hp Hx.
  next_cases p Hp; cbn [sem_get] in *; zb; apply (inv_go s _ i _ _ f Hi K8); cbn; try done; try lia; try (intros Hr; specialize (K4 Hr); lia).
  all: intros y; specialize (K7 y); pose proof (sums_pos s y); destruct y; cbn in *; lia.
Qed.

(** [Post] *)
Lemma add_inv (s : threads) (i : nat) (p k : pc) (x : sem) (count : Z) : inv s -> Z.of_nat (length (pcs s)) < 1048576 ->
  pcs s !! i = Some p -> next p = SemAdd x count k -> inv (go s (sem_set (mu s) x (to_u32 (sem_get (mu s) x + count))) i k).
Proof.
  intros (f & [C1 C2 C3 C4 C5 C6] & [K1 K2 K3 K4 K5 K6 K7 K8]) Hlen Hi Hp.
  next_cases p Hp. pose proof (K8 i _ Hi) as Hpos. cbn in Hpos. pose proof (sums_pos s x).
  assert (Hc : posts x (PostAdd x count) <= sum s (posts x)).
  { apply (total_elem (posts x) (pcs s) i); [intros q; pose proof (weights_pos x q); lia | done]. }
  assert (Hx : posts x (PostAdd x count) = count) by (destruct x; cbn; lia). rewrite Hx in Hc.
  assert (Hu : to_u32 (sem_get (mu s) x + count) = sem_get (mu s) x + count).
  { unfold to_u32. apply Z.mod_small. destruct x; cbn [sem_get] in *; lia. }
  rewrite Hu. apply (inv_go s _ i _ _ f Hi K8); try done; destruct x; cbn in *; try done; try lia; try (intros Hr; specialize (K4 Hr); lia).
  all: intros y; specialize (K7 y); pose proof (sums_pos s y); destruct y; cbn in *; lia.
Qed.

(** A sleeper is woken by [FutexWake], and the waker goes on. *)
Lemma wake_inv (s : threads) (i j : nat) (p q back done : pc) (x : sem) (count : Z) (more : Z -> pc) : inv s ->
  pcs s !! i = Some p -> next p = FutexWake x count more done -> 0 < count -> pcs s !! j = Some q -> next q = Asleep x back ->
  inv (go (go s (mu s) i (more (count - 1))) (mu s) j back).
Proof.
  intros Hs Hi Hp Hc Hj Hq. assert (Hij : i <> j).
  { intros <-. rewrite Hi in Hj. injection Hj as ->. rewrite Hp in Hq. done. }
  assert (Hstrict : forall y, sum s (sleeps y) - sleeps y q + sleeps y back = 0 \/
    sem_get (mu s) y + rouses y p - rouses y (more (count - 1)) <=
      sum s (waits y) - (sum s (sleeps y) - sleeps y q + sleeps y back) + sum s (rouses y)).
  { destruct Hs as (f & _ & [_ _ _ _ _ _ K7 _]). intros y. specialize (K7 y). pose proof (sums_pos s y).
    assert (Hsl : sleeps y q <= sum s (sleeps y)).
    { apply (total_elem (sleeps y) (pcs s) j); [intros r; pose proof (weights_pos y r); lia | done]. }
    next_cases p Hp; next_cases q Hq; destruct y; cbn in *; lia. }
  pose proof (quiet_inv s j q back Hs Hj (quiet_back q q back x (or_intror Hq))) as (f & [C1 C2 C3 C4 C5 C6] & [K1 K2 K3 K4 K5 K6 _ K8]).
  assert (Hsame : forall y, waits y back = waits y q /\ rouses y back = rouses y q).
  { intros y. next_cases q Hq; by destruct y. }
  assert (Hsum : forall y, sum (go s (mu s) j back) (sleeps y) = sum s (sleeps y) - sleeps y q + sleeps y back /\
    sum (go s (mu s) j back) (waits y) = sum s (waits y) /\ sum (go s (mu s) j back) (rouses y) = sum s (rouses y)).
  { intros y. rewrite !(sum_go s _ j q back _ Hj). destruct (Hsame y). lia. }
  set (s1 := go s (mu s) j back) in *. assert (Hi1 : pcs s1 !! i = Some p) by (unfold s1; cbn; by rewrite list_lookup_insert_ne).
  assert (Heq : go (go s (mu s) i (more (count - 1))) (mu s) j back = go s1 (mu s1) i (more (count - 1))).
  { unfold s1, go. cbn. f_equal. by rewrite list_insert_insert_ne. }
  rewrite Heq. change (mu s1) with (mu s) in *.
  apply (inv_go s1 _ i p _ f Hi1 K8); try done; try (next_cases p Hp; cbn; done || lia || (intros Hr; specialize (K4 Hr); lia)).
  intros y. specialize (Hstrict y). destruct (Hsum y) as (-> & -> & ->). next_cases p Hp; destruct y; cbn in *; lia.
Qed.

Lemma woken_inv (s : threads) (i : nat) (p done : pc) (x : sem) (count : Z) (more : Z -> pc) : inv s -> pcs s !! i = Some p ->
  next p = FutexWake x count more done -> (count = 0 \/ forall j q back, pcs s !! j = Some q -> next q <> Asleep x back) ->
  inv (go s (mu s) i done).
Proof.
  intros (f & [C1 C2 C3 C4 C5 C6] & [K1 K2 K3 K4 K5 K6 K7 K8]) Hi Hp Hno.
  assert (Hsl : count = 0 \/ sum s (sleeps x) = 0).
  { destruct Hno as [-> | Hno]; [by left | right]. pose proof (sums_pos s x). destruct (decide (0 < sum s (sleeps x))) as [Hlt |]; [| lia].
    apply total_pos in Hlt as (j & q & Hj & Hq). exfalso.
    destruct x, q as [| | | w | | | | | | | | | w | | | | | |]; cbn in Hq; try lia; destruct w; try lia; by eapply Hno. }
  apply (inv_go s _ i p done f Hi K8); try done; try (next_cases p Hp; cbn; done || lia || (intros Hr; specialize (K4 Hr); lia)).
  intros y. specialize (K7 y). pose proof (sums_pos s y). next_cases p Hp; destruct y, x; cbn in *; lia.
Qed.

(** ** Steps on the word *)

Lemma inv_fields (s : threads) (f : fields) : counted s f -> woken s f -> Z.of_nat (length (pcs s)) < 1048576 -> fields_ok f.
Proof.
  intros [C1 C2 C3 C4 C5 C6] [[K1 K1'] [K2 K2'] K3 K4 K5 K6 K7 K8] Hlen.
  pose proof (sums_pos s Writers). pose proof (sums_pos s Readers). split; lia.
Qed.

Section cas.
Context (s : threads) (i : nat) (p : pc) (Hi : pcs s !! i = Some p).

Lemma weight_le (w : pc -> Z) : (forall q, 0 <= w q) -> w p <= sum s w.
Proof using Hi. intros Hw. by apply (total_elem w (pcs s) i). Qed.

End cas.

(** The invariant as facts about the sums. *)
Ltac facts s Hc Hk :=
  destruct Hc as [C1 C2 C3 C4 C5 C6], Hk as [[K1 K1'] [K2 K2'] K3 K4 K5 K6 K7 K8];
  pose proof (sums_pos s Writers); pose proof (sums_pos s Readers).
(** What [inv_go] asks, for fields [g] given in terms of the old ones [f]. *)
Ltac flags f m :=
  destruct m, (wl f) eqn:?, (ws f) eqn:?, (rs f) eqn:?; cbn in *; try done; try lia; try tauto;
  try (intros; repeat match goal with H : true = true -> _ |- _ => specialize (H eq_refl) end; lia).
Ltac inv_go_now s i f g m K7 K8 Hi :=
  apply (inv_go s _ i _ _ g Hi K8); cbn [pc_ok set_state state_ writers_ readers_ rl wr ww wl ws rs];
  rewrite ?resets_lock, ?resets_read; try done;
  try (intros y; specialize (K7 y); pose proof (sums_pos s y); destruct y; cbn in *; lia); flags f m.

Lemma cas_lock (s : threads) (i : nat) (m : bool) (st spin : Z) : inv s -> Z.of_nat (length (pcs s)) < 1048576 ->
  pcs s !! i = Some (LockLoop (keeps m kWriterSpinWait) st spin) -> state_ (mu s) = st ->
  has st (Z.lor kWriterLock kReaderLockMask) = false ->
  inv (go s (set_state (mu s) (Z.land (Z.lor st kWriterLock) (keeps m kWriterSpinWait))) i WriteHeld).
Proof.
  intros (f & Hc & Hk) Hlen Hi <- Hhas. pose proof (inv_fields s f Hc Hk Hlen) as Hf. facts s Hc Hk.
  rewrite C1, has_locked in Hhas by done. apply orb_false_iff in Hhas as [Hwl Hrl%Z.ltb_ge]. rewrite C1, lock_word by done.
  pose proof (weight_le s i _ Hi (resets Writers) ltac:(intros q; pose proof (weights_pos Writers q); lia)) as Hle.
  rewrite resets_lock in Hle.
  inv_go_now s i f (Fields (rl f) (wr f) (ww f) true (if m then false else ws f) (rs f)) m K7 K8 Hi.
Qed.

Lemma cas_lock_wait (s : threads) (i : nat) (m : bool) (st spin : Z) : inv s -> Z.of_nat (length (pcs s)) < 1048576 ->
  pcs s !! i = Some (LockLoop (keeps m kWriterSpinWait) st spin) -> state_ (mu s) = st ->
  has st (Z.lor kWriterLock kReaderLockMask) = true ->
  inv (go s (set_state (mu s) (Z.land (st +w kWaitingWriterInc) (keeps m kWriterSpinWait))) i (LockWait WaitEntry)).
Proof.
  intros (f & Hc & Hk) Hlen Hi <- Hhas. pose proof (inv_fields s f Hc Hk Hlen) as Hf. facts s Hc Hk.
  rewrite C1, has_locked in Hhas by done. apply orb_true_iff in Hhas. rewrite Z.ltb_lt in Hhas.
  pose proof (sums_pos (go s (mu s) i (LockWait WaitEntry)) Writers) as Hroom. rewrite !(sum_go s _ i _ _ _ Hi) in Hroom.
  cbn [go pcs] in Hroom. rewrite length_insert in Hroom. rewrite C1, lock_wait_word by (cbn in Hroom; done || lia).
  pose proof (weight_le s i _ Hi (resets Writers) ltac:(intros q; pose proof (weights_pos Writers q); lia)) as Hle.
  rewrite resets_lock in Hle. clear Hroom.
  inv_go_now s i f (Fields (rl f) (wr f) (ww f + 1) (wl f) (if m then false else ws f) (rs f)) m K7 K8 Hi.
Qed.

Lemma cas_lock_spin (s : threads) (i : nat) (m : bool) (st spin : Z) : inv s -> Z.of_nat (length (pcs s)) < 1048576 ->
  pcs s !! i = Some (LockLoop (keeps m kWriterSpinWait) st spin) -> state_ (mu s) = st -> has st kWriterSpinWait = false ->
  inv (go s (set_state (mu s) (Z.lor st kWriterSpinWait)) i (LockAgain spin)).
Proof.
  intros (f & Hc & Hk) Hlen Hi <- Hhas. pose proof (inv_fields s f Hc Hk Hlen) as Hf. facts s Hc Hk.
  rewrite C1, has_ws in Hhas by done. rewrite C1, set_ws by done.
  pose proof (weight_le s i _ Hi (resets Writers) ltac:(intros q; pose proof (weights_pos Writers q); lia)) as Hle.
  rewrite resets_lock in Hle.
  inv_go_now s i f (Fields (rl f) (wr f) (ww f) (wl f) true (rs f)) m K7 K8 Hi.
Qed.

Lemma cas_try (s : threads) (i : nat) (st : Z) : inv s -> Z.of_nat (length (pcs s)) < 1048576 ->
  pcs s !! i = Some (TryCas st) -> state_ (mu s) = st -> has st (Z.lor kWriterLock kReaderLockMask) = false ->
  inv (go s (set_state (mu s) (Z.lor st kWriterLock)) i WriteHeld).
Proof.
  intros (f & Hc & Hk) Hlen Hi <- Hhas. pose proof (inv_fields s f Hc Hk Hlen) as Hf. facts s Hc Hk.
  rewrite C1, has_locked in Hhas by done. apply orb_false_iff in Hhas as [Hwl Hrl%Z.ltb_ge]. rewrite C1, set_wl by done.
  inv_go_now s i f (Fields (rl f) (wr f) (ww f) true (ws f) (rs f)) tt K7 K8 Hi.
Qed.

Lemma cas_read (s : threads) (i : nat) (m : bool) (st spin : Z) : inv s -> Z.of_nat (length (pcs s)) < 1048576 ->
  pcs s !! i = Some (ReadLoop (keeps m kReaderSpinWait) st spin) -> state_ (mu s) = st -> has st kWriterLock = false ->
  inv (go s (set_state (mu s) (Z.land (st +w kReaderLockInc) (keeps m kReaderSpinWait))) i ReadHeld).
Proof.
  intros (f & Hc & Hk) Hlen Hi <- Hhas. pose proof (inv_fields s f Hc Hk Hlen) as Hf. facts s Hc Hk.
  rewrite C1, has_wl in Hhas by done.
  pose proof (sums_pos (go s (mu s) i ReadHeld) Writers) as Hroom. rewrite !(sum_go s _ i _ _ _ Hi) in Hroom.
  cbn [go pcs] in Hroom. rewrite length_insert in Hroom. rewrite C1, read_word by (cbn in Hroom; done || lia). clear Hroom.
  inv_go_now s i f (Fields (rl f + 1) (wr f) (ww f) (wl f) (ws f) (if m then false else rs f)) m K7 K8 Hi.
Qed.

Lemma cas_read_wait (s : threads) (i : nat) (m : bool) (st spin : Z) : inv s -> Z.of_nat (length (pcs s)) < 1048576 ->
  pcs s !! i = Some (ReadLoop (keeps m kReaderSpinWait) st spin) -> state_ (mu s) = st -> has st kWriterLock = true ->
  inv (go s (set_state (mu s) (Z.land (st +w kWaitingReaderInc) (keeps m kReaderSpinWait))) i (ReadWait WaitEntry)).
Proof.
  intros (f & Hc & Hk) Hlen Hi <- Hhas. pose proof (inv_fields s f Hc Hk Hlen) as Hf. facts s Hc Hk.
  rewrite C1, has_wl in Hhas by done.
  pose proof (sums_pos (go s (mu s) i (ReadWait WaitEntry)) Readers) as Hroom. rewrite !(sum_go s _ i _ _ _ Hi) in Hroom.
  cbn [go pcs] in Hroom. rewrite length_insert in Hroom. rewrite C1, read_wait_word by (cbn in Hroom; done || lia). clear Hroom.
  inv_go_now s i f (Fields (rl f) (wr f + 1) (ww f) (wl f) (ws f) (if m then false else rs f)) m K7 K8 Hi.
Qed.

Lemma cas_read_spin (s : threads) (i : nat) (m : bool) (st spin : Z) : inv s -> Z.of_nat (length (pcs s)) < 1048576 ->
  pcs s !! i = Some (ReadLoop (keeps m kReaderSpinWait) st spin) -> state_ (mu s) = st ->
  inv (go s (set_state (mu s) (Z.lor st kReaderSpinWait)) i (ReadAgain spin)).
Proof.
  intros (f & Hc & Hk) Hlen Hi <-. pose proof (inv_fields s f Hc Hk Hlen) as Hf. facts s Hc Hk.
  rewrite C1, set_rs by done. pose proof (weight_le s i _ Hi (resets Readers) ltac:(intros q; pose proof (weights_pos Readers q); lia)) as Hle.
  rewrite resets_read in Hle.
  inv_go_now s i f (Fields (rl f) (wr f) (ww f) (wl f) (ws f) true) m K7 K8 Hi.
Qed.

Lemma cas_unlock (s : threads) (i : nat) (st : Z) : inv s -> Z.of_nat (length (pcs s)) < 1048576 ->
  pcs s !! i = Some (UnlockLoop st) -> state_ (mu s) = st ->
  let '(new_state, wake_writer, wake_readers) := unlock_choice st in
  inv (go s (set_state (mu s) new_state) i
    (if wake_writer : bool then PostAdd Writers 1 else if negb (wake_readers =? 0) then PostAdd Readers (to_u32 wake_readers) else Idle)).
Proof.
  intros (f & Hc & Hk) Hlen Hi <-. pose proof (inv_fields s f Hc Hk Hlen) as Hf. facts s Hc Hk.
  rewrite C1, unlock_choice_word by done.
  pose proof (weight_le s i _ Hi writes ltac:(intros q; pose proof (weights_pos Readers q); lia)) as Hle. cbn in Hle.
  assert (Hwl : wl f = true) by (destruct (wl f); cbn in *; [done | lia]). pose proof (K3 Hwl) as Hrl. rewrite Hwl in C2. cbn in C2.
  assert (Hu : to_u32 (wr f) = wr f) by (destruct Hf; apply Z.mod_small; lia).
  unfold unlocked. destruct (wakes_writer f) eqn:Hw; cbn [orb].
  - assert (Hr : wakes_readers f = 0) by (unfold wakes_readers; by rewrite Hw). rewrite Hr. cbn [negb Z.eqb orb].
    unfold wakes_writer in Hw. apply andb_true_iff in Hw as [Hs%negb_true_iff%orb_false_iff Hp%Z.ltb_lt]. destruct Hs as [Hws Hrs].
    rewrite Hws in C6. cbn in C6.
    inv_go_now s i f (Fields (rl f) (wr f) (ww f - 1) false true (rs f)) tt K7 K8 Hi.
  - unfold wakes_readers. rewrite Hw. cbn [orb]. destruct (ws f) eqn:Hws.
    + cbn [negb Z.eqb orb]. inv_go_now s i f (Fields (rl f) (wr f) (ww f) false true (rs f)) tt K7 K8 Hi.
    + destruct (Z.eqb_spec (wr f) 0) as [Hz | Hz]; cbn [negb orb].
      * assert (Hww : ww f = 0 \/ rs f = true).
        { unfold wakes_writer in Hw. rewrite Hws in Hw. destruct (rs f); [by right | left]. cbn in Hw. zb. lia. }
        inv_go_now s i f (Fields (rl f) (wr f) (ww f) false false (rs f)) tt K7 K8 Hi.
      * rewrite Hu. inv_go_now s i f (Fields (rl f) 0 (ww f) false false true) tt K7 K8 Hi.
Qed.

Lemma cas_read_unlock (s : threads) (i : nat) (st : Z) : inv s -> Z.of_nat (length (pcs s)) < 1048576 ->
  pcs s !! i = Some (ReadUnlockLoop st) -> state_ (mu s) = st ->
  let '(new_state, wake) := read_unlock_choice st in
  inv (go s (set_state (mu s) new_state) i (if wake : bool then PostAdd Writers 1 else Idle)).
Proof.
  intros (f & Hc & Hk) Hlen Hi <-. pose proof (inv_fields s f Hc Hk Hlen) as Hf. facts s Hc Hk.
  pose proof (weight_le s i _ Hi reads ltac:(intros q; pose proof (weights_pos Readers q); lia)) as Hle. cbn in Hle.
  rewrite C1, read_unlock_choice_word by (done || lia).
  assert (Hwl : wl f = false) by (destruct (wl f); [specialize (K3 eq_refl); lia | done]). unfold read_unlocked.
  destruct (read_wakes _) eqn:Hw; unfold read_wakes in Hw; cbn [rl wr ww wl ws rs] in *.
  - apply andb_true_iff in Hw as [Hs%negb_true_iff Hp%Z.ltb_lt]. apply orb_false_iff in Hs as [Hs Hrs].
    apply orb_false_iff in Hs as [Hrl Hws].
    inv_go_now s i f (Fields (rl f - 1) (wr f) (ww f - 1) (wl f) true (rs f)) tt K7 K8 Hi.
  - assert (Hor : 0 < rl f - 1 \/ ws f = true \/ rs f = true \/ ww f = 0).
    { destruct (Z.ltb_spec 0 (rl f - 1)); [by left |]. destruct (ws f), (rs f); try tauto. cbn in Hw. zb. lia. }
    inv_go_now s i f (Fields (rl f - 1) (wr f) (ww f) (wl f) (ws f) (rs f)) tt K7 K8 Hi.
Qed.

#[local] Arguments lock_action : simpl never.
#[local] Arguments read_action : simpl never.
#[local] Arguments unlock_action : simpl never.
#[local] Arguments read_unlock_action : simpl never.
#[local] Arguments wait_action : simpl never.

Lemma cas_inv (s : threads) (i : nat) (p ok : pc) (old new : Z) (fail : Z -> pc) : inv s -> Z.of_nat (length (pcs s)) < 1048576 ->
  pcs s !! i = Some p -> next p = Cas old new ok fail -> state_ (mu s) = old -> inv (go s (set_state (mu s) new) i ok).
Proof.
  intros Hs Hlen Hi Hp Hst. pose proof Hs as (f & _ & [_ _ _ _ _ _ _ K8]). specialize (K8 i p Hi). destruct p as [| | r st n | w | n | | st | | | st | | r st n | w | n | | | st | x n | x n];
    cbn in Hp; try discriminate Hp; try (destruct w; unfold wait_action in Hp; repeat case_match; discriminate Hp).
  - destruct K8 as [m ->]. unfold lock_action in Hp. destruct (has st (Z.lor kWriterLock kReaderLockMask)) eqn:Hl; cbn [negb] in Hp.
    + destruct (kMaxSpinIters <? n); [injection Hp as <- <- <- <-; by apply (cas_lock_wait s i m st n) |].
      destruct (has st kWriterSpinWait) eqn:Hw; [discriminate Hp |]. injection Hp as <- <- <- <-. by apply (cas_lock_spin s i m st n).
    + injection Hp as <- <- <- <-. by apply (cas_lock s i m st n).
  - injection Hp as <- <- <- <-. by apply cas_try.
  - pose proof (cas_unlock s i st Hs Hlen Hi) as Hu. unfold unlock_action in Hp. destruct (unlock_choice st) as [[a b] c].
    injection Hp as <- <- <- <-. by apply Hu.
  - destruct K8 as [m ->]. unfold read_action in Hp. destruct (has st kWriterLock) eqn:Hl; cbn [negb] in Hp.
    + destruct (kMaxSpinIters <? n); [injection Hp as <- <- <- <-; by apply (cas_read_wait s i m st n) |].
      destruct (has st kReaderSpinWait) eqn:Hw; [discriminate Hp |]. injection Hp as <- <- <- <-. by apply (cas_read_spin s i m st n).
    + injection Hp as <- <- <- <-. by apply (cas_read s i m st n).
  - pose proof (cas_read_unlock s i st Hs Hlen Hi) as Hu. unfold read_unlock_action in Hp. destruct (read_unlock_choice st) as [a b].
    injection Hp as <- <- <- <-. by apply Hu.
Qed.

(** ** Every step *)

Lemma step_inv (s s' : threads) : inv s -> Z.of_nat (length (pcs s)) < 1048576 -> step s s' ->
  inv s' /\ length (pcs s') = length (pcs s).
Proof.
  intros Hs Hlen Hstep. split.
  2: { destruct Hstep; cbn; by rewrite ?length_insert. }
  destruct Hstep as [i p l p' Hi Hp Hin | i p k v Hi Hp Hv | i p old new ok fail Hi Hp Hst | i p old new ok fail Hi Hp |
    i p x k v Hi Hp Hv | i p x old new ok fail Hi Hp Hx | i p x old new ok fail Hi Hp | i p x asleep back Hi Hp Hx |
    i p x asleep back Hi Hp | i p x back Hi Hp | i p x count k Hi Hp Hc | i p j q x count more done back Hi Hp Hc Hj Hq |
    i p x count more done Hi Hp Hno].
  - apply (quiet_inv s i p p' Hs Hi). by apply (quiet_call p l).
  - apply (quiet_inv s i p (k v) Hs Hi). by apply quiet_load.
  - by apply (cas_inv s i p ok old new fail).
  - apply (quiet_inv s i p _ Hs Hi). by apply (quiet_fail p ok old new _ fail).
  - apply (quiet_inv s i p (k v) Hs Hi). by apply (quiet_sem_load p x).
  - by apply (sem_cas_inv s i p ok x old new fail).
  - apply (quiet_inv s i p _ Hs Hi). by apply (quiet_sem_fail p ok x old new _ fail).
  - by apply (sleep_inv s i p asleep back x).
  - apply (quiet_inv s i p back Hs Hi). apply (quiet_back p asleep back x). by left.
  - apply (quiet_inv s i p back Hs Hi). apply (quiet_back p p back x). by right.
  - by apply (add_inv s i p k x count).
  - by apply (wake_inv s i j p q back done x count more).
  - by apply (woken_inv s i p done x count more).
Qed.

Lemma fresh_inv (n : nat) : inv (fresh n).
Proof.
  assert (Hz : forall w : pc -> Z, w Idle = 0 -> sum (fresh n) w = 0).
  { intros w Hw. unfold sum, fresh. cbn [pcs]. induction n as [| n IH]; [done |].
    change (w Idle + total w (replicate n Idle) = 0). lia. }
  exists (Fields 0 0 0 false false false). split; split; cbn; rewrite ?Hz by done; try done; try lia.
  - intros x. left. apply Hz. by destruct x.
  - intros i p Hi. apply lookup_replicate in Hi as [-> _]. done.
Qed.

Lemma reach_inv (n : nat) (s : threads) : Z.of_nat n < 1048576 -> rtc step (fresh n) s -> inv s /\ length (pcs s) = n.
Proof.
  intros Hn. revert s. apply (rtc_ind_r (fun s => inv s /\ length (pcs s) = n)).
  - split; [apply fresh_inv | apply length_replicate].
  - intros s s' _ Hstep [Hs Hl]. destruct (step_inv s s' Hs ltac:(lia) Hstep) as [? ?]. split; [done | congruence].
Qed.
