(* ===== verification/MutexProgress.v ===== *)
(** * What the mutex guarantees

    Mutual exclusion in every reachable state, and progress: while nobody
    holds the mutex and a thread wants it, some thread can get it, so no
    wake-up is ever lost. *)

From S2P Require Import Prelude Words Mutex MutexSpecs.

(** ** Steps without bad luck *)

Definition sleeper (x : sem) (q : pc) : bool := match next q with Asleep y _ => bool_decide (x = y) | _ => false end.

(** One step of thread [i] with current values and no spurious failure. *)
Definition turn (s : threads) (i : nat) : option threads :=
  p ← pcs s !! i;
  match next p with
  | Load k => if (0 <=? state_ (mu s)) && (state_ (mu s) <? word_modulus) then Some (go s (mu s) i (k (state_ (mu s)))) else None
  | Cas old new ok fail =>
      if state_ (mu s) =? old then Some (go s (set_state (mu s) new) i ok) else Some (go s (mu s) i (fail (state_ (mu s))))
  | SemLoad x k => if 0 <=? sem_get (mu s) x then Some (go s (mu s) i (k (sem_get (mu s) x))) else None
  | SemCas x old new ok fail =>
      if sem_get (mu s) x =? old then Some (go s (sem_set (mu s) x new) i ok) else Some (go s (mu s) i (fail (sem_get (mu s) x)))
  | FutexWait x asleep back => if sem_get (mu s) x =? 0 then Some (go s (mu s) i asleep) else Some (go s (mu s) i back)
  | Asleep _ _ => None
  | SemAdd x count k =>
      if count =? 0 then None else Some (go s (sem_set (mu s) x (to_u32 (sem_get (mu s) x + count))) i k)
  | FutexWake x count more done =>
      if count =? 0 then Some (go s (mu s) i done)
      else match list_find (fun q => sleeper x q = true) (pcs s) with
           | Some (j, q) => match next q with
                            | Asleep y back => if (0 <? count) && bool_decide (x = y) then Some (go (go s (mu s) i (more (count - 1))) (mu s) j back) else None
                            | _ => None
                            end
           | None => Some (go s (mu s) i done)
           end
  | Calls _ => None
  end.

Lemma turn_step (s s' : threads) (i : nat) : turn s i = Some s' -> step s s'.
Proof.
  unfold turn. destruct (pcs s !! i) as [p |] eqn:Hi; [| done]. cbn. destruct (next p) as [k | old new ok fail | x k | x old new ok fail |
    x asleep back | x back | x count k | x count more done | l] eqn:Hp; try (by intros [=]).
  - destruct (_ && _) eqn:Hr; [| done]. intros [= <-]. zb. by apply (step_load s i p).
  - destruct (Z.eqb_spec (state_ (mu s)) old); intros [= <-]; [by eapply step_cas | by eapply step_cas_fail].
  - destruct (Z.leb_spec 0 (sem_get (mu s) x)); [| done]. intros [= <-]. by eapply step_sem_load.
  - destruct (Z.eqb_spec (sem_get (mu s) x) old); intros [= <-]; [by eapply step_sem_cas | by eapply step_sem_cas_fail].
  - destruct (Z.eqb_spec (sem_get (mu s) x) 0); intros [= <-]; [by eapply step_sleep | by eapply step_no_sleep].
  - destruct (Z.eqb_spec count 0); [done |]. intros [= <-]. by eapply step_add.
  - destruct (Z.eqb_spec count 0) as [H0 | H0]; [intros [= <-]; eapply step_woken; [done | done | by left] |].
    destruct (list_find _ _) as [[j q] |] eqn:Hfind.
    + apply list_find_Some in Hfind as (Hj & _ & _). destruct (next q) as [| | | | | y back | | |] eqn:Hq; try done.
      destruct (_ && _) eqn:Hc; [| done]. apply andb_true_iff in Hc as [Hc%Z.ltb_lt ->%bool_decide_eq_true]. intros [= <-]. by eapply step_wake.
    + intros [= <-]. eapply step_woken; [done | done | right]. intros j q back Hj Hq. apply list_find_None in Hfind.
      rewrite Forall_forall in Hfind. apply list_elem_of_lookup_2 in Hj. apply (Hfind q Hj). unfold sleeper. rewrite Hq. by apply bool_decide_true.
Qed.

(** Steps of the threads that see current values, without spurious failures
    or wake-ups, and without new calls. *)
Definition sure_step (s s' : threads) : Prop := exists i, turn s i = Some s'.

Lemma sure_step_step (s s' : threads) : sure_step s s' -> step s s'.
Proof. intros [i Hi]. by eapply turn_step. Qed.

Section turns.
Context (s : threads) (i : nat) (p : pc) (Hi : pcs s !! i = Some p).
Ltac turn_of Hp := unfold turn; rewrite Hi; cbn [mbind option_bind]; rewrite Hp.

Lemma turn_load (k : Z -> pc) : next p = Load k -> is_uptr (state_ (mu s)) -> turn s i = Some (go s (mu s) i (k (state_ (mu s)))).
Proof using Hi. intros Hp [H1 H2]. turn_of Hp. by rewrite (proj2 (Z.leb_le _ _) H1), (proj2 (Z.ltb_lt _ _) H2). Qed.
Lemma turn_cas (old new : Z) (ok : pc) (fail : Z -> pc) : next p = Cas old new ok fail ->
  turn s i = Some (if state_ (mu s) =? old then go s (set_state (mu s) new) i ok else go s (mu s) i (fail (state_ (mu s)))).
Proof using Hi. intros Hp. turn_of Hp. by destruct (_ =? _). Qed.
Lemma turn_sem_load (x : sem) (k : Z -> pc) : next p = SemLoad x k -> 0 <= sem_get (mu s) x ->
  turn s i = Some (go s (mu s) i (k (sem_get (mu s) x))).
Proof using Hi. intros Hp H. turn_of Hp. by rewrite (proj2 (Z.leb_le _ _) H). Qed.
Lemma turn_sem_cas (x : sem) (old new : Z) (ok : pc) (fail : Z -> pc) : next p = SemCas x old new ok fail ->
  turn s i = Some (if sem_get (mu s) x =? old then go s (sem_set (mu s) x new) i ok else go s (mu s) i (fail (sem_get (mu s) x))).
Proof using Hi. intros Hp. turn_of Hp. by destruct (_ =? _). Qed.
Lemma turn_wait (x : sem) (asleep back : pc) : next p = FutexWait x asleep back -> sem_get (mu s) x <> 0 ->
  turn s i = Some (go s (mu s) i back).
Proof using Hi. intros Hp H. turn_of Hp. by rewrite (proj2 (Z.eqb_neq _ _) H). Qed.
Lemma turn_add (x : sem) (count : Z) (k : pc) : next p = SemAdd x count k -> count <> 0 ->
  turn s i = Some (go s (sem_set (mu s) x (to_u32 (sem_get (mu s) x + count))) i k).
Proof using Hi. intros Hp H. turn_of Hp. by rewrite (proj2 (Z.eqb_neq _ _) H). Qed.
Lemma turn_wake (x : sem) (count : Z) (more : Z -> pc) (done : pc) : next p = FutexWake x count more done -> 0 < count ->
  (exists j q, pcs s !! j = Some q /\ sleeper x q = true) ->
  exists j q back, pcs s !! j = Some q /\ next q = Asleep x back /\ turn s i = Some (go (go s (mu s) i (more (count - 1))) (mu s) j back).
Proof using Hi.
  intros Hp H (j0 & q0 & Hj0 & Hq0). turn_of Hp. rewrite (proj2 (Z.eqb_neq count 0)) by lia.
  destruct (list_find (fun q => sleeper x q = true) (pcs s)) as [[j q] |] eqn:Hfind; cycle 1.
  { exfalso. apply list_find_None in Hfind. rewrite Forall_forall in Hfind. apply (Hfind q0); [by apply list_elem_of_lookup_2 in Hj0 | done]. }
  apply list_find_Some in Hfind as (Hj & Hq & _). exists j, q. unfold sleeper in Hq.
  destruct (next q) as [| | | | | y back | | |]; try discriminate Hq. apply bool_decide_eq_true in Hq as <-. exists back.
  split; [done |]. split; [done |]. rewrite (proj2 (Z.ltb_lt 0 count) H). by rewrite bool_decide_true.
Qed.
End turns.

(** ** Getting to the lock *)

(** Some continuation of [s] has a thread that holds the mutex. *)
Definition leads (s : threads) : Prop := exists s' i p, rtc sure_step s s' /\ pcs s' !! i = Some p /\ (p = WriteHeld \/ p = ReadHeld).

Lemma leads_step (s s' : threads) (i : nat) : turn s i = Some s' -> leads s' -> leads s.
Proof. intros Hs (t & j & p & Ht & H). exists t, j, p. split; [apply (rtc_l _ s s'); [by exists i | done] | done]. Qed.

Lemma here (l : list pc) (i : nat) (p q : pc) : l !! i = Some p -> <[i := q]> l !! i = Some q.
Proof. intros Hi. apply list_lookup_insert_eq. by apply lookup_lt_Some in Hi. Qed.

(** The word says that nobody holds the mutex. *)
Record free (m : mutex) : Prop := {
  free_word : is_uptr (state_ m);
  free_lock : has (state_ m) (Z.lor kWriterLock kReaderLockMask) = false;
  free_writer : has (state_ m) kWriterLock = false;
}.

(** A thread that is awake and wants the mutex. *)
Definition trying (p : pc) : bool :=
  match p with LockEntry | LockLoop _ _ _ | LockAgain _ | ReadEntry | ReadLoop _ _ _ | ReadAgain _ => true | _ => false end.

Lemma lock_now (s : threads) (i : nat) (r spin : Z) : free (mu s) -> pcs s !! i = Some (LockLoop r (state_ (mu s)) spin) -> leads s.
Proof.
  intros Hf Hi. eexists _, i, WriteHeld. split; [apply rtc_once; exists i |].
  - eapply turn_cas; [exact Hi |]. cbn. unfold lock_action. by rewrite (free_lock _ Hf).
  - rewrite Z.eqb_refl. cbn. split; [by apply (here _ _ _ _ Hi) | by left].
Qed.

Lemma read_now (s : threads) (i : nat) (r spin : Z) : free (mu s) -> pcs s !! i = Some (ReadLoop r (state_ (mu s)) spin) -> leads s.
Proof.
  intros Hf Hi. eexists _, i, ReadHeld. split; [apply rtc_once; exists i |].
  - eapply turn_cas; [exact Hi |]. cbn. unfold read_action. by rewrite (free_writer _ Hf).
  - rewrite Z.eqb_refl. cbn. split; [by apply (here _ _ _ _ Hi) | by right].
Qed.

(** [p] reads the word and goes on with [k]: by a load, or by a
    compare-exchange that fails unless the word is [st]. *)
Definition rereads (st : Z) (p : pc) (k : Z -> pc) : Prop := next p = Load k \/ exists new ok, next p = Cas st new ok k.

Lemma reread_leads (s : threads) (i : nat) (st : Z) (p : pc) (k : Z -> pc) : free (mu s) -> pcs s !! i = Some p -> rereads st p k ->
  st <> state_ (mu s) -> leads (go s (mu s) i (k (state_ (mu s)))) -> leads s.
Proof.
  intros Hf Hi [Hp | (new & ok & Hp)] Hst; apply (leads_step _ _ i).
  - apply (turn_load s i p Hi k Hp), Hf.
  - rewrite (turn_cas s i p Hi _ _ _ _ Hp). by rewrite (proj2 (Z.eqb_neq _ _)) by done.
Qed.

Lemma lock_rereads (r st n : Z) : rereads st (LockLoop r st n) (fun v => LockLoop r v (n +w 1)).
Proof. unfold rereads. cbn. unfold lock_action. repeat case_match; first [by left | right; by eexists _, _]. Qed.

Lemma read_rereads (r st n : Z) : rereads st (ReadLoop r st n) (fun v => ReadLoop r v (n +w 1)).
Proof. unfold rereads. cbn. unfold read_action. repeat case_match; first [by left | right; by eexists _, _]. Qed.

(** A thread in the loop of Lock or ReadLock. *)
Lemma loop_leads (s : threads) (i : nat) (r st n : Z) : free (mu s) ->
  pcs s !! i = Some (LockLoop r st n) \/ pcs s !! i = Some (ReadLoop r st n) -> leads s.
Proof.
  intros Hf Hi. destruct (decide (st = state_ (mu s))) as [-> | Hst].
  - destruct Hi as [Hi | Hi]; [by eapply lock_now | by eapply read_now].
  - destruct Hi as [Hi | Hi].
    + apply (reread_leads s i st _ _ Hf Hi (lock_rereads r st n) Hst). eapply lock_now; [done | by apply (here _ _ _ _ Hi)].
    + apply (reread_leads s i st _ _ Hf Hi (read_rereads r st n) Hst). eapply read_now; [done | by apply (here _ _ _ _ Hi)].
Qed.

Lemma trying_leads (s : threads) (i : nat) (p : pc) : free (mu s) -> pcs s !! i = Some p -> trying p = true -> leads s.
Proof.
  intros Hf Hi Hp.
  assert (Hk : (exists r st n, p = LockLoop r st n \/ p = ReadLoop r st n) \/
    exists k, next p = Load k /\ forall v, exists r n, k v = LockLoop r v n \/ k v = ReadLoop r v n).
  { destruct p; try discriminate Hp; cbn [next]; first [left; eauto; fail | right; eauto 8]. }
  destruct Hk as [(r & st & n & Hk) | (k & Hn & Hk)]; [apply (loop_leads s i r st n Hf); destruct Hk as [<- | <-]; by auto |].
  apply (leads_step _ _ i (turn_load s i p Hi k Hn (free_word _ Hf))).
  destruct (Hk (state_ (mu s))) as (r & n & Hv). apply (loop_leads (go s (mu s) i (k (state_ (mu s)))) i r (state_ (mu s)) n Hf).
  cbn. destruct Hv as [-> | ->]; [left | right]; by apply (here _ _ _ _ Hi).
Qed.

(** ** Taking a token of a semaphore *)

Lemma sem_set_free (m : mutex) (x : sem) (z : Z) : free m -> free (sem_set m x z).
Proof. intros [H1 H2 H3]. by destruct x. Qed.

(** A waiter that is awake takes a token. *)
Lemma awake_leads (s : threads) (i : nat) (p : pc) (x : sem) : free (mu s) -> 0 < sem_get (mu s) x -> pcs s !! i = Some p ->
  waits x p = 1 -> sleeps x p = 0 -> leads s.
Proof.
  intros Hf Hsem Hi Hw Hsl.
  assert (Hp : exists inside done w, p = inside w /\ w <> WaitSleep /\ (forall w, next (inside w) = wait_action x w inside done) /\ trying done = true).
  { destruct x, p as [| | | w | | | | | | | | | w | | | | | |]; try discriminate Hw;
      [exists LockWait, (LockAgain 0), w | exists ReadWait, (ReadAgain 0), w]; by destruct w. }
  destruct Hp as (inside & done & w & -> & Hsleep & Hnext & Htry).
  assert (Htake : forall s count, free (mu s) -> 0 < sem_get (mu s) x -> count = sem_get (mu s) x ->
    pcs s !! i = Some (inside (WaitLoop count)) -> leads s).
  { clear s Hf Hsem Hi. intros s count Hf Hsem -> Hi. eapply leads_step; [eapply (turn_sem_cas s i _ Hi x) |].
    - rewrite Hnext. cbn. by rewrite (proj2 (Z.eqb_neq _ _)) by lia.
    - rewrite Z.eqb_refl. eapply (trying_leads _ i done); [by apply sem_set_free | by apply (here _ _ _ _ Hi) | done]. }
  assert (Hentry : forall s, free (mu s) -> 0 < sem_get (mu s) x -> pcs s !! i = Some (inside WaitEntry) -> leads s).
  { clear s Hf Hsem Hi. intros s Hf Hsem Hi. eapply leads_step; [apply (turn_sem_load s i _ Hi x (fun count => inside (WaitLoop count))); [by rewrite Hnext | lia] |].
    by eapply Htake; [| | | apply (here _ _ _ _ Hi)]. }
  destruct w as [| count |]; [by apply Hentry | | done].
  destruct (decide (count = sem_get (mu s) x)) as [Heq | Hne]; [by apply (Htake s count) |].
  destruct (Z.eqb_spec count 0) as [-> | Hc].
  - eapply leads_step; [eapply (turn_wait s i _ Hi x); [by rewrite Hnext | lia] |].
    by apply Hentry; [| | apply (here _ _ _ _ Hi)].
  - eapply leads_step; [eapply (turn_sem_cas s i _ Hi x); rewrite Hnext; cbn; by rewrite (proj2 (Z.eqb_neq _ _)) by lia |].
    rewrite (proj2 (Z.eqb_neq (sem_get (mu s) x) count)) by lia.
    by eapply Htake; [| | | apply (here _ _ _ _ Hi)].
Qed.

Lemma sum_sub (s : threads) (v w : pc -> Z) : sum s (fun p => v p - w p) = sum s v - sum s w.
Proof. unfold sum. induction (pcs s) as [| p l IH]; cbn; [done |]. fold (total v l) (total w l) (total (fun p => v p - w p) l). lia. Qed.

Lemma sem_token (s : threads) (x : sem) : inv s -> 0 < sem_get (mu s) x + sum s (posts x) -> 0 < sum s (waits x).
Proof.
  intros (f & [C1 C2 C3 C4 C5 C6] & [[K1 K1'] _ _ _ _ _ _ _]) Hx. destruct x; cbn in Hx; lia.
Qed.

(** Whoever waits on a semaphore with a token can be woken. *)
Lemma token_leads (s : threads) (x : sem) : inv s -> free (mu s) -> 0 < sem_get (mu s) x -> leads s.
Proof.
  intros Hs Hf Hsem. pose proof (sums_pos s x) as Hpos.
  pose proof (sem_token s x Hs ltac:(lia)) as Hwait.
  destruct (decide (0 < sum s (fun p => waits x p - sleeps x p))) as [Haw | Haw].
  - apply total_pos in Haw as (i & p & Hi & Hp). pose proof (weights_pos x p). by apply (awake_leads s i p x); try lia.
  - rewrite sum_sub in Haw. destruct Hs as (f & _ & [_ _ _ _ _ _ K7 _]). specialize (K7 x).
    assert (Hr : 0 < sum s (rouses x)) by lia. assert (Hsl : 0 < sum s (sleeps x)) by lia.
    apply total_pos in Hr as (i & p & Hi & Hp), Hsl as (j & q & Hj & Hq).
    assert (Hnext : exists n, next p = FutexWake x n (PostWake x) Idle /\ 0 < n).
    { destruct p as [| | | | | | | | | | | | | | | | | y n | y n]; try (destruct x; cbn in Hp; lia). exists n.
      destruct x, y; cbn in Hp; try lia; split; done || lia. }
    destruct Hnext as (n & Hn & Hn0).
    assert (Hslept : sleeper x q = true).
    { destruct x, q as [| | | w | | | | | | | | | w | | | | | |]; cbn in Hq; try lia; destruct w; try lia; done. }
    destruct (turn_wake s i p Hi x n _ _ Hn Hn0 ltac:(by exists j, q)) as (j' & q' & back & Hj' & Hq' & Hturn).
    assert (Hback : waits x back = 1 /\ sleeps x back = 0).
    { destruct q' as [| | | w | | | | | | | | | w | | | | | |]; cbn in Hq';
        try (unfold lock_action, read_action, unlock_action, read_unlock_action in Hq'; repeat case_match; discriminate Hq').
      all: destruct w; cbn in Hq'; try (repeat case_match; discriminate Hq'). all: injection Hq' as <- <-; done. }
    eapply leads_step; [exact Hturn |]. apply (awake_leads _ j' back x); [done | done | | apply Hback | apply Hback].
    cbn. apply list_lookup_insert_eq. rewrite length_insert. by apply lookup_lt_Some in Hj'.
Qed.

(** ... and so it can when the token is still to be posted. *)
Lemma post_leads (s : threads) (x : sem) : inv s -> Z.of_nat (length (pcs s)) < 1048576 -> free (mu s) ->
  0 < sem_get (mu s) x + sum s (posts x) -> leads s.
Proof.
  intros Hs Hlen Hf Htok. destruct (decide (0 < sem_get (mu s) x)) as [Hsem | Hsem]; [by apply (token_leads s x) |].
  pose proof (sums_pos s x) as Hpos. pose proof Hs as (f & Hc & Hk). pose proof (k_ok s f Hk) as Hok.
  assert (Hp : 0 < sum s (posts x)) by lia. apply total_pos in Hp as (i & p & Hi & Hp).
  assert (Hn : exists n, p = PostAdd x n /\ 0 < n).
  { destruct p as [| | | | | | | | | | | | | | | | | y n | y n]; try (destruct x; cbn in Hp; lia). exists n.
    destruct x, y; cbn in Hp; try lia; split; done || lia. }
  destruct Hn as (n & -> & Hn).
  pose proof (turn_add s i _ Hi x n _ eq_refl ltac:(lia)) as Hstep. eapply leads_step; [exact Hstep |].
  apply turn_step in Hstep. destruct (step_inv _ _ Hs Hlen Hstep) as [Hs' _]. apply (token_leads _ x); [done | by apply sem_set_free |].
  assert (Hval : sem_get (sem_set (mu s) x (to_u32 (sem_get (mu s) x + n))) x = n).
  { destruct Hc as [C1 C2 C3 C4 C5 C6], Hk as [[K1 K1'] [K2 K2'] _ _ _ _ _ _].
    assert (Hle : n <= sum s (posts x)).
    { pose proof (weight_le s i _ Hi (posts x) ltac:(intros q; pose proof (weights_pos x q); lia)). destruct x; cbn in *; lia. }
    destruct x; cbn in *; unfold to_u32; rewrite Z.mod_small by lia; lia. }
  cbn. rewrite Hval. done.
Qed.

(** ** The mutex is free *)

Lemma inv_free (s : threads) : inv s -> Z.of_nat (length (pcs s)) < 1048576 -> sum s writes = 0 -> sum s reads = 0 -> free (mu s).
Proof.
  intros (f & Hc & Hk) Hlen Hw Hr. pose proof (inv_fields s f Hc Hk Hlen) as Hf. destruct Hc as [C1 C2 C3 _ _ _].
  assert (Hwl : wl f = false) by (destruct (wl f); cbn in C2; [lia | done]).
  split; rewrite C1; [by apply word_uptr | | by rewrite has_wl].
  rewrite has_locked, Hwl by done. by rewrite C3, Hr.
Qed.

(** In a call of Lock or ReadLock. *)
Definition acquiring (p : pc) : Prop := trying p = true \/ waits Writers p = 1 \/ waits Readers p = 1.

Lemma waiting_leads (s : threads) (x : sem) : inv s -> Z.of_nat (length (pcs s)) < 1048576 -> free (mu s) ->
  sum s writes = 0 -> sum s reads = 0 -> 0 < sum s (waits x) -> leads s.
Proof.
  intros Hs Hlen Hf Hw Hr Hwait. pose proof Hs as (f & [C1 C2 C3 C4 C5 C6] & [[K1 K1'] [K2 K2'] K3 K4 K5 K6 K7 K8]).
  pose proof (sums_pos s Writers). pose proof (sums_pos s Readers).
  assert (Hwl : wl f = false) by (destruct (wl f); cbn in C2; [lia | done]).
  destruct (decide (0 < writers_ (mu s) + sum s (posts Writers))); [by apply (post_leads s Writers) |].
  destruct (decide (0 < readers_ (mu s) + sum s (posts Readers))); [by apply (post_leads s Readers) |].
  assert (Hreset : 0 < sum s (resets Writers) \/ 0 < sum s (resets Readers)).
  { destruct K5 as [| [| [Hs' | Hr']]]; [destruct x; lia | congruence | lia | left; rewrite Hs' in C6; cbn in C6; lia |
      right; specialize (K4 Hr'); lia]. }
  assert (Htry : exists i p, pcs s !! i = Some p /\ trying p = true).
  { destruct Hreset as [(i & p & Hi & Hp)%total_pos | (i & p & Hi & Hp)%total_pos]; exists i, p; (split; [done |]);
      destruct p; cbn in *; done || lia. }
  destruct Htry as (i & p & Hi & Hp). by apply (trying_leads s i p).
Qed.

(** ** The claims *)

(** C5. The mutex excludes.  For fewer than 2^20 threads and every
    interleaving of Lock, TryLock, Unlock, ReadLock and ReadUnlock at single
    memory operations, with stale loads, compare-exchanges that fail for no
    reason and spurious wake-ups: while a thread holds the mutex for writing no
    other thread holds it in any way; the writer flag of the word is set
    exactly while there is such a thread, and the reader count is the number of
    threads that hold it for reading; the CHECK of Semaphore::Post never
    fails; and the semaphores never hold more tokens than there are threads. *)
Theorem mutex_excludes (n : nat) (s : threads) : Z.of_nat n < 1048576 -> rtc step (fresh n) s ->
  (forall i j p q, i <> j -> pcs s !! i = Some p -> writes p = 1 -> pcs s !! j = Some q -> writes q = 0 /\ reads q = 0) /\
  (has (state_ (mu s)) kWriterLock = true <-> exists i p, pcs s !! i = Some p /\ writes p = 1) /\
  Z.land (state_ (mu s)) kReaderLockMask = sum s reads /\
  (forall i p x count k, pcs s !! i = Some p -> next p = SemAdd x count k -> count <> 0) /\
  0 <= writers_ (mu s) <= Z.of_nat n /\ 0 <= readers_ (mu s) <= Z.of_nat n.
Proof.
  intros Hn Hr. destruct (reach_inv n s Hn Hr) as [Hs Hlen]. destruct Hs as (f & Hc & Hk).
  pose proof (inv_fields s f Hc Hk ltac:(lia)) as Hf. pose proof (k_ok s f Hk) as Hok. pose proof (k_pos s f Hk) as [Kr Kw].
  destruct Hc as [C1 C2 C3 C4 C5 C6], Hk as [_ [K2 K2'] K3 _ _ _ _ _].
  pose proof (sums_pos s Writers). pose proof (sums_pos s Readers).
  assert (H01 : forall q, 0 <= writes q <= 1 /\ 0 <= reads q <= 1) by (intros q; pose proof (weights_pos Readers q); lia).
  assert (Hsum : forall i p, pcs s !! i = Some p -> writes p = 1 -> wl f = true).
  { intros i p Hi Hp. pose proof (weight_le s i p Hi writes ltac:(intros q; apply H01)). destruct (wl f); cbn in C2; [done | lia]. }
  split_and!.
  - intros i j p q Hij Hi Hp Hj. pose proof (K3 (Hsum i p Hi Hp)) as Hrl. rewrite (Hsum i p Hi Hp) in C2. cbn in C2.
    pose proof (total_two writes (pcs s) i j p q ltac:(intros r; apply H01) Hij Hi Hj) as Htwo. unfold sum in C2.
    pose proof (weight_le s j q Hj reads ltac:(intros r; apply H01)). destruct (H01 q). lia.
  - rewrite C1, has_wl by done. split; [| intros (i & p & Hi & Hp); by apply (Hsum i p)].
    intros Hw. rewrite Hw in C2. cbn in C2. assert (Hpos : 0 < sum s writes) by lia.
    apply total_pos in Hpos as (i & p & Hi & Hp). exists i, p. split; [done |]. destruct (H01 p). lia.
  - by rewrite C1, get_rl.
  - intros i p x count k Hi Hp. specialize (Hok i p Hi). destruct p; cbn in Hp; try discriminate Hp;
      try (unfold lock_action, read_action, unlock_action, read_unlock_action, wait_action in Hp; repeat case_match; discriminate Hp).
    injection Hp as <- <- <-. cbn in Hok. lia.
  - lia.
  - lia.
  - lia.
  - lia.
Qed.

(** C6. No wake-up is lost.  In every reachable state of fewer than 2^20
    threads in which nobody holds the mutex and at least one thread is in a
    call of Lock or ReadLock, spinning, blocked or on its way, some thread can
    get the mutex by steps that need no new call, no spurious wake-up and no
    other luck (each operation sees current values): the threads never all
    sleep while the mutex is free. *)
Theorem mutex_progress (n : nat) (s : threads) (i : nat) (p : pc) : Z.of_nat n < 1048576 -> rtc step (fresh n) s ->
  (forall j q, pcs s !! j = Some q -> writes q = 0 /\ reads q = 0) -> pcs s !! i = Some p -> acquiring p ->
  exists s' j q, rtc sure_step s s' /\ pcs s' !! j = Some q /\ (q = WriteHeld \/ q = ReadHeld).
Proof.
  intros Hn Hr Hfree Hi Hp. destruct (reach_inv n s Hn Hr) as [Hs Hlen]. assert (Hlen' : Z.of_nat (length (pcs s)) < 1048576) by lia.
  assert (Hzero : forall w, (forall q, 0 <= w q) -> (forall j q, pcs s !! j = Some q -> w q = 0) -> sum s w = 0).
  { intros w Hw Hz. pose proof (sum_pos s w Hw). destruct (decide (0 < sum s w)) as [Hlt |]; [| lia].
    apply total_pos in Hlt as (j & q & Hj & Hq). rewrite (Hz j q Hj) in Hq. lia. }
  assert (Hw : sum s writes = 0) by (apply Hzero; [intros q; pose proof (weights_pos Readers q); lia | intros j q Hj; by apply (Hfree j)]).
  assert (Hrd : sum s reads = 0) by (apply Hzero; [intros q; pose proof (weights_pos Readers q); lia | intros j q Hj; by apply (Hfree j)]).
  pose proof (inv_free s Hs Hlen' Hw Hrd) as Hf. destruct Hp as [Hp | Hp]; [by apply (trying_leads s i p) |].
  assert (Hwait : exists x, waits x p = 1) by (destruct Hp; eauto). destruct Hwait as [x Hx].
  apply (waiting_leads s x); try done.
  pose proof (weight_le s i p Hi (waits x) ltac:(intros q; pose proof (weights_pos x q); lia)). lia.
Qed.

(** ** Running threads *)

(** Thread [i] makes call [p] and runs until it sleeps, returns or holds. *)
Fixpoint turns (fuel : nat) (s : threads) (i : nat) : threads :=
  match fuel with O => s | S fuel => match turn s i with Some s' => turns fuel s' i | None => s end end.
Definition called (s : threads) (c : nat * pc) : threads :=
  let '(i, p) := c in
  match pcs s !! i with
  | Some q => match next q with
              | Calls l => if existsb (fun r => match r, p with LockEntry, LockEntry | ReadEntry, ReadEntry | UnlockEntry, UnlockEntry => true | _, _ => false end) l
                           then turns 5000 (go s (mu s) i p) i else s
              | _ => s
              end
  | None => s
  end.

Lemma turns_steps (fuel : nat) (s : threads) (i : nat) : rtc step s (turns fuel s i).
Proof.
  revert s. induction fuel as [| fuel IH]; intros s; cbn; [done |]. destruct (turn s i) as [s' |] eqn:Ht; [| done].
  eapply rtc_l; [by eapply turn_step | apply IH].
Qed.

Lemma called_steps (s : threads) (c : nat * pc) : rtc step s (called s c).
Proof.
  destruct c as [i p]. unfold called. destruct (pcs s !! i) as [q |] eqn:Hi; [| done]. destruct (next q) as [| | | | | | | | l] eqn:Hq; try done.
  destruct (existsb _ l) eqn:Hl; [| done]. eapply rtc_l; [| apply turns_steps]. apply (step_call s i q l p Hi Hq).
  apply existsb_exists in Hl as (r & Hr%list_elem_of_In & Hrp). by destruct r, p.
Qed.

Lemma calls_steps (s : threads) (l : list (nat * pc)) : rtc step s (foldl called s l).
Proof. revert s. induction l as [| c l IH]; intros s; cbn; [done |]. etransitivity; [apply called_steps | apply IH]. Qed.

(** Thread 0 locks; reader 1 and writer 2 block; thread 0 unlocks and wakes
    thread 2. *)
Definition handed_over : threads :=
  foldl called (fresh 3) [(0%nat, LockEntry); (1%nat, ReadEntry); (2%nat, LockEntry); (0%nat, UnlockEntry)].

Lemma handed_over_is : handed_over =
  Threads (MkMutex (kWaitingReaderInc + kWriterSpinWait) 1 0) [Idle; ReadWait WaitSleep; LockWait WaitEntry].
Proof. vm_compute. reflexivity. Qed.

(** A reader waits although the mutex is not write-locked. *)
Lemma waiting_reader_without_writer :
  rtc step (fresh 3) handed_over /\ has (state_ (mu handed_over)) kWaitingReaderMask = true /\
  has (state_ (mu handed_over)) (Z.lor kWriterLock kReaderLockMask) = false.
Proof. split; [unfold handed_over; apply calls_steps | rewrite handed_over_is; split; vm_compute; reflexivity]. Qed.

Definition one_writer : threads := foldl called (fresh 3) [(0%nat, LockEntry); (1%nat, ReadEntry); (2%nat, LockEntry)].

Lemma mutex_excludes_witness :
  rtc step (fresh 3) one_writer /\ pcs one_writer = [WriteHeld; ReadWait WaitSleep; LockWait WaitSleep] /\
  Z.land (state_ (mu one_writer)) kReaderLockMask = sum one_writer reads.
Proof.
  assert (Hreach : rtc step (fresh 3) one_writer) by (unfold one_writer; apply calls_steps).
  destruct (mutex_excludes 3 one_writer ltac:(lia) Hreach) as (_ & _ & H & _).
  split; [exact Hreach | split; [vm_compute; reflexivity | exact H]].
Defined.

Lemma mutex_progress_witness :
  pcs handed_over = [Idle; ReadWait WaitSleep; LockWait WaitEntry] /\
  exists s' j q, rtc sure_step handed_over s' /\ pcs s' !! j = Some q /\ (q = WriteHeld \/ q = ReadHeld).
Proof.
  assert (Hp : pcs handed_over = [Idle; ReadWait WaitSleep; LockWait WaitEntry]) by (rewrite handed_over_is; reflexivity).
  split; [exact Hp |].
  apply (mutex_progress 3 handed_over 1 (ReadWait WaitSleep)).
  - lia.
  - unfold handed_over. apply calls_steps.
  - intros j q Hj. rewrite Hp in Hj. clear Hp. destruct j as [| [| [| j]]]; cbn in Hj; try (injection Hj as <-; split; reflexivity). discriminate Hj.
  - rewrite Hp. reflexivity.
  - right. right. reflexivity.
Defined.

(** ** StaticSpinMutex *)

Definition spin_holds (p : spin_pc) : Z := match p with SpinHeld => 1 | _ => 0 end.

Lemma spin_mutex_excludes (n : nat) (s : spin) : rtc spin_step (Spin 0 (replicate n SpinIdle)) s ->
  spin_state s = total spin_holds (spin_pcs s) /\
  forall i j, i <> j -> spin_pcs s !! i = Some SpinHeld -> spin_pcs s !! j <> Some SpinHeld.
Proof.
  intros Hr. assert (H01 : forall p, 0 <= spin_holds p) by (intros []; done).
  assert (Hinv : spin_state s = total spin_holds (spin_pcs s) /\ 0 <= spin_state s <= 1).
  { revert s Hr. apply (rtc_ind_r (fun s => spin_state s = total spin_holds (spin_pcs s) /\ 0 <= spin_state s <= 1)).
    - split; [| done]. cbn. induction n as [| n IH]; done.
    - intros s s' _ Hstep [Hs Hle]. destruct Hstep as [i Hi | i Hi | i Hi | i Hi | i v Hi | i Hi | i Hi]; cbn [spin_go spin_state spin_pcs];
        rewrite (total_insert _ _ _ _ _ Hi); cbn; repeat case_match; zb; cbn; try lia.
      all: pose proof (total_elem spin_holds _ i _ H01 Hi); cbn in *; lia. }
  destruct Hinv as [Hs Hle]. split; [done |]. intros i j Hij Hi Hj.
  pose proof (total_two spin_holds _ i j _ _ H01 Hij Hi Hj). cbn in *. lia.
Qed.
