(* ===== verification/CheckedMutex.v ===== *)
(** * The mutex hierarchy check: CheckedMutex of sanitizer_mutex.cpp

    [DebugMutexInit] reads the table of mutex types and refuses one whose
    "can be locked under" relation has a cycle; [Lock] and [Unlock] are the
    per-thread InternalDeadlockDetector that a debug build calls around every
    lock.  Arrays indexed by a mutex type are functions; an index outside
    [0, kMutexTypeMax) is a bad access. *)

From S2P Require Import Prelude Words.

Definition MutexInvalid : Z := 0.
Definition MutexUnchecked : Z := -1.
Definition MutexLeaf : Z := -1.
Definition MutexMulti : Z := -3.
Definition kMutexTypeMax : Z := 20.

(** [named]: the pointer [name] is not null. *)
Record MutexMeta : Type := Meta { meta_type : Z; named : bool; can_lock : list Z }.

(** What DebugMutexInit leaves behind, and its local arrays. *)
Record hierarchy : Type := Hierarchy {
  mutex_type_count : Z;
  mutex_can_lock : Z -> Z -> bool;
  mutex_multi : Z -> bool;
  leaf : Z -> bool;
  cnt : Z -> Z;
}.
Definition no_hierarchy : hierarchy := Hierarchy (-1) (fun _ _ => false) (fun _ => false) (fun _ => false) (fun _ => 0).

Definition set_count (h : hierarchy) (t : Z) : hierarchy := Hierarchy t (mutex_can_lock h) (mutex_multi h) (leaf h) (cnt h).
Definition set_leaf (h : hierarchy) (t : Z) : hierarchy :=
  Hierarchy (mutex_type_count h) (mutex_can_lock h) (mutex_multi h) (fun i => (i =? t) || leaf h i) (cnt h).
Definition set_multi (h : hierarchy) (t : Z) : hierarchy :=
  Hierarchy (mutex_type_count h) (mutex_can_lock h) (fun i => (i =? t) || mutex_multi h i) (leaf h) (cnt h).
Definition set_can_lock (h : hierarchy) (t z : Z) : hierarchy :=
  Hierarchy (mutex_type_count h) (fun i j => ((i =? t) && (j =? z)) || mutex_can_lock h i j) (mutex_multi h) (leaf h) (cnt h).
Definition inc_cnt (h : hierarchy) (t : Z) : hierarchy :=
  Hierarchy (mutex_type_count h) (mutex_can_lock h) (mutex_multi h) (leaf h) (fun i => if i =? t then cnt h i + 1 else cnt h i).

(** The loop over [mutex_meta[t].can_lock]. *)
Fixpoint read_can_lock (h : hierarchy) (t : Z) (zs : list Z) : result hierarchy :=
  match zs with
  | [] => Ok h
  | z :: zs' =>
      if z =? MutexInvalid then Ok h
      else if z =? MutexLeaf then
        _ ← check (negb (leaf h t));
        read_can_lock (set_leaf h t) t zs'
      else if z =? MutexMulti then read_can_lock (set_multi h t) t zs'
      else
        _ ← check (z <? kMutexTypeMax);
        _ ← get_or_die (guard (0 <= z));
        _ ← check (negb (mutex_can_lock h t z));
        read_can_lock (inc_cnt (set_can_lock h t z) t) t zs'
  end.

(** [for (t = 0; t < kMutexTypeMax; t++)] over the table from entry [t] on. *)
Fixpoint read_table (h : hierarchy) (t : Z) (table : list MutexMeta) : result hierarchy :=
  match table with
  | [] => Ok h
  | m :: table' =>
      let h := set_count h t in
      if negb (named m) then Ok h
      else
        _ ← check (t =? meta_type m);
        h ← read_can_lock h t (can_lock m);
        read_table h (t + 1) table'
  end.

(** [for (int z = 0; z < mutex_type_count; z++)] for the leaf [t]. *)
Definition add_leaf (t : Z) (h : hierarchy) (z : Z) : result hierarchy :=
  if (z =? MutexInvalid) || (t =? z) || leaf h z then Ok h
  else
    _ ← check (negb (mutex_can_lock h z t));
    Ok (set_can_lock h z t).
Definition types (h : hierarchy) : list Z := seqZ 0 (mutex_type_count h).
Definition add_leaves (h : hierarchy) : result hierarchy :=
  for_each (fun h t =>
    if negb (leaf h t) then Ok h
    else
      _ ← check (cnt h t =? 0);
      for_each (add_leaf t) h (types h)) h (types h).

(** [u32 trans[kMutexTypeMax]] *)
Definition upd {A} (m : Z -> A) (i : Z) (x : A) : Z -> A := fun j => if j =? i then x else m j.
Definition direct (h : hierarchy) : Z -> Z :=
  foldl (fun tr i => foldl (fun tr j => if mutex_can_lock h i j then upd tr i (Z.lor (tr i) (to_u32 (Z.shiftl 1 j))) else tr) tr (types h))
        (fun _ => 0) (types h).
Definition close_row (k : Z) (tr : Z -> Z) (i : Z) : Z -> Z :=
  if negb (Z.land (tr i) (to_u32 (Z.shiftl 1 k)) =? 0) then upd tr i (Z.lor (tr i) (tr k)) else tr.
Definition closure (h : hierarchy) : Z -> Z :=
  foldl (fun tr k => foldl (close_row k) tr (types h)) (direct h) (types h).
Definition check_cycles (h : hierarchy) : result unit :=
  for_each (fun _ i => if negb (Z.land (closure h i) (to_u32 (Z.shiftl 1 i)) =? 0) then Die (Reported "cycle") else Ok tt) tt (types h).

Definition DebugMutexInit (table : list MutexMeta) : result hierarchy :=
  h ← read_table no_hierarchy 0 table;
  _ ← check (mutex_type_count h <? kMutexTypeMax);
  h ← add_leaves h;
  _ ← check_cycles h;
  Ok h.

(** ** The detector of a thread *)

Record LockDesc : Type := Desc { seq_ : Z; pc_ : Z; recursion : Z }.
Record InternalDeadlockDetector : Type := IDD { initialized : Z; sequence : Z; locked : Z -> LockDesc }.
Definition no_locks : InternalDeadlockDetector := IDD 0 0 (fun _ => Desc 0 0 0).

(** The process: the table, what has been read from it, and the threads. *)
Record process : Type := Process { mutex_meta : list MutexMeta; hier : hierarchy; idd : nat -> InternalDeadlockDetector }.
Definition set_idd (p : process) (t : nat) (d : InternalDeadlockDetector) : process :=
  Process (mutex_meta p) (hier p) (fun u => if decide (u = t) then d else idd p u).

Definition Initialize (p : process) (t : nat) (type : Z) : result (process * bool) :=
  if (type =? MutexUnchecked) || (type =? MutexInvalid) then Ok (p, false)
  else
    _ ← check (MutexInvalid <? type);
    let d := idd p t in
    if negb (initialized d =? 0) then Ok (p, 0 <? initialized d)
    else
      h ← (if mutex_type_count (hier p) <? 0 then DebugMutexInit (mutex_meta p) else Ok (hier p));
      let i := if negb (mutex_type_count h =? 0) then 1 else -1 in
      Ok (set_idd (Process (mutex_meta p) h (idd p)) t (IDD i (sequence d) (locked d)), 0 <? i).

(** The last locked type: [max_seq] and [max_idx]. *)
Definition last_locked (d : InternalDeadlockDetector) (h : hierarchy) : result (Z * Z) :=
  for_each (fun '(max_seq, max_idx) i =>
    if seq_ (locked d i) =? 0 then Ok (max_seq, max_idx)
    else
      _ ← check (negb (seq_ (locked d i) =? max_seq));
      if max_seq <? seq_ (locked d i) then Ok (seq_ (locked d i), i) else Ok (max_seq, max_idx)) (0, MutexInvalid) (types h).

Definition Lock (p : process) (t : nat) (type pc : Z) : result process :=
  '(p, on) ← Initialize p t type;
  if negb on then Ok p
  else
    let h := hier p in let d := idd p t in
    _ ← check (type <? mutex_type_count h);
    '(max_seq, max_idx) ← last_locked d h;
    if (max_idx =? type) && mutex_multi h type then
      _ ← check (seq_ (locked d type) =? max_seq);
      _ ← check (negb (pc_ (locked d type) =? 0));
      let l := locked d type in
      Ok (set_idd p t (IDD (initialized d) (sequence d) (upd (locked d) type (Desc (seq_ l) (pc_ l) (recursion l + 1)))))
    else
      _ ← check (negb (negb (max_idx =? MutexInvalid) && negb (mutex_can_lock h max_idx type)));
      let sequence := sequence d +w 1 in
      Ok (set_idd p t (IDD (initialized d) sequence (upd (locked d) type (Desc sequence pc 1)))).

Definition Unlock (p : process) (t : nat) (type : Z) : result process :=
  '(p, on) ← Initialize p t type;
  if negb on then Ok p
  else
    let d := idd p t in
    _ ← check (type <? mutex_type_count (hier p));
    _ ← check (negb (seq_ (locked d type) =? 0));
    _ ← check (0 <? recursion (locked d type));
    let l := locked d type in
    let r := recursion l - 1 in
    Ok (set_idd p t (IDD (initialized d) (sequence d)
      (upd (locked d) type (if negb (r =? 0) then Desc (seq_ l) (pc_ l) r else Desc 0 0 r)))).

Definition CheckNoLocks (p : process) (t : nat) : result unit :=
  for_each (fun _ i => check (recursion (locked (idd p t) i) =? 0)) tt (types (hier p)).
