(* ===== verification/CheckedMutexSpecs.v ===== *)
(** * The mutex hierarchy check: what it guarantees

    [DebugMutexInit] accepts a table only if the relation "can be locked
    under" has no cycle (its closure loop is Warshall's algorithm).  With
    that, the order in which a thread has locked its mutexes follows the
    hierarchy, so threads that passed every check cannot wait for each other
    in a circle. *)

From S2P Require Import Prelude Words CheckedMutex.

(** ** Loops over [0, n) *)

Lemma foldl_seqZ {A} (f : A -> Z -> A) (P : Z -> A -> Prop) (n : Z) (a : A) :
  0 <= n -> P 0 a -> (forall i a, 0 <= i < n -> P i a -> P (i + 1) (f a i)) -> P n (foldl f a (seqZ 0 n)).
Proof.
  intros Hn H0 Hstep.
  enough (H : forall m : nat, Z.of_nat m <= n -> P (Z.of_nat m) (foldl f a (seqZ 0 (Z.of_nat m)))).
  { specialize (H (Z.to_nat n)). rewrite Z2Nat.id in H by done. by apply H. }
  induction m as [| m IH]; intros Hm; [done |].
  replace (Z.of_nat (S m)) with (Z.of_nat m + 1) by lia.
  rewrite seqZ_app by lia. rewrite foldl_app, Z.add_0_l, (seqZ_cons _ 1) by lia. cbn [foldl].
  apply Hstep; [lia |]. apply IH. lia.
Qed.

Lemma for_each_check {A} (b : A -> bool) (d : death) (l : list A) :
  for_each (fun _ x => if b x then Die d else Ok tt) tt l = Ok tt <-> forall x, x ∈ l -> b x = false.
Proof.
  induction l as [| x l IH]; cbn [for_each]; [split; [intros _ x Hx; by apply not_elem_of_nil in Hx | done] |].
  split.
  - destruct (b x) eqn:Hb; step; [done |]. intros H. rewrite IH in H. intros y [-> | Hy]%elem_of_cons; [done | by apply H].
  - intros H. rewrite (H x) by left. step. apply IH. intros y Hy. apply H. by right.
Qed.

(** ** The closure *)

Lemma bit_condition (x k : Z) : 0 <= k < 32 -> negb (Z.land x (to_u32 (Z.shiftl 1 k)) =? 0) = Z.testbit x k.
Proof.
  intros Hk. rewrite Z.shiftl_1_l. unfold to_u32.
  rewrite Z.mod_small by (pose proof (Z.pow_lt_mono_r 2 k 32); change 4294967296 with (2 ^ 32); lia).
  assert (Hb : Z.land x (2 ^ k) = if Z.testbit x k then 2 ^ k else 0).
  { apply Z.bits_inj'. intros i Hi. rewrite Z.land_spec, Z.pow2_bits_eqb by lia.
    destruct (Z.eqb_spec k i) as [-> | Hne].
    - rewrite andb_true_r. destruct (Z.testbit x i); [by rewrite Z.pow2_bits_true | by rewrite Z.bits_0].
    - rewrite andb_false_r. destruct (Z.testbit x k); [by rewrite Z.pow2_bits_false by done | by rewrite Z.bits_0]. }
  rewrite Hb. destruct (Z.testbit x k); [| done].
  assert (0 < 2 ^ k) by (apply Z.pow_pos_nonneg; lia). by destruct (Z.eqb_spec (2 ^ k) 0); [lia |].
Qed.

Definition edge (h : hierarchy) (i j : Z) : Prop :=
  0 <= i < mutex_type_count h /\ 0 <= j < mutex_type_count h /\ mutex_can_lock h i j = true.
Definition acyclic (h : hierarchy) : Prop := forall i, ~ tc (edge h) i i.

Section closure.
Context (h : hierarchy).
Notation n := (mutex_type_count h).
Hypothesis (Hn : 0 <= n <= 32).

(** Paths whose inner nodes are below [k]. *)
Inductive thru (k : Z) : Z -> Z -> Prop :=
| thru_edge i j : edge h i j -> thru k i j
| thru_cat i m j : thru k i m -> m < k -> thru k m j -> thru k i j.

Lemma thru_range (k i j : Z) : thru k i j -> 0 <= i < n /\ 0 <= j < n.
Proof. induction 1 as [i j (? & ? & _) | i m j _ [? _] _ _ [_ ?]]; done. Qed.

Lemma thru_mono (k i j : Z) : thru k i j -> thru (k + 1) i j.
Proof. induction 1 as [i j He | i m j _ IH1 Hm _ IH2]; [by apply thru_edge |]. apply (thru_cat _ i m j); [done | lia | done]. Qed.

Lemma thru_succ (k i j : Z) : thru (k + 1) i j <-> thru k i j \/ (thru k i k /\ thru k k j).
Proof.
  split.
  - induction 1 as [i j He | i m j _ IH1 Hm _ IH2]; [left; by apply thru_edge |].
    destruct (decide (m = k)) as [-> | Hne]; [right; naive_solver |].
    assert (Hcat : forall a b, thru k a m -> thru k m b -> thru k a b) by (intros a b ? ?; apply (thru_cat k a m b); [done | lia | done]).
    naive_solver.
  - intros [H | [H1 H2]]; [by apply thru_mono |]. apply (thru_cat _ i k j); [by apply thru_mono | lia | by apply thru_mono].
Qed.

Lemma thru_tc (i j : Z) : thru n i j <-> tc (edge h) i j.
Proof.
  split.
  - induction 1 as [i j He | i m j _ IH1 _ _ IH2]; [by apply tc_once | by apply tc_transitive with m].
  - induction 1 as [i j He | i m j He _ IH]; [by apply thru_edge |].
    apply (thru_cat n i m j); [by apply thru_edge | apply He | done].
Qed.

Lemma direct_bits (i j : Z) : 0 <= j -> Z.testbit (direct h i) j = true <-> thru 0 i j.
Proof.
  intros Hj. assert (Hd : Z.testbit (direct h i) j = true <-> 0 <= i < n /\ edge h i j).
  { unfold direct, types.
    apply (foldl_seqZ _ (fun k tr => Z.testbit (tr i) j = true <-> 0 <= i < k /\ edge h i j)); [lia | |].
    - rewrite Z.bits_0. split; [done | lia].
    - intros a tr Ha IH.
      enough (H : Z.testbit (foldl (fun tr j => if mutex_can_lock h a j then upd tr a (Z.lor (tr a) (to_u32 (Z.shiftl 1 j))) else tr) tr (seqZ 0 n) i) j = true
                  <-> Z.testbit (tr i) j = true \/ (i = a /\ 0 <= j < n /\ mutex_can_lock h a j = true)).
      { unfold types. rewrite H, IH. unfold edge. split.
        - intros [? | (-> & ? & ?)]; [split; [lia |]; tauto | split; [lia | done]].
        - intros [? He]. destruct (decide (i = a)) as [-> |]; [right; tauto | left; split; [lia | done]]. }
      apply (foldl_seqZ _ (fun b tr' => Z.testbit (tr' i) j = true <-> Z.testbit (tr i) j = true \/ (i = a /\ 0 <= j < b /\ mutex_can_lock h a j = true))); [lia | |].
      + split; [by left | intros [? | (_ & ? & _)]; [done | lia]].
      + intros b tr' Hb IH'. destruct (mutex_can_lock h a b) eqn:Hc.
        * unfold upd. destruct (Z.eqb_spec i a) as [-> |].
          -- rewrite Z.lor_spec, orb_true_iff, IH'. rewrite Z.shiftl_1_l. unfold to_u32.
             rewrite Z.mod_small by (pose proof (Z.pow_lt_mono_r 2 b 32); change 4294967296 with (2 ^ 32); lia).
             rewrite Z.pow2_bits_eqb, Z.eqb_eq by lia. split.
             ++ intros [[? | ?] | <-]; [by left | right; split; [done |]; split; [lia | tauto] | right; split; [done |]; split; [lia | done]].
             ++ intros [? | (? & ? & ?)]; [by left; left |]. destruct (decide (b = j)); [by right |]. left. right. split; [done |]. split; [lia | done].
          -- rewrite IH'. naive_solver.
        * rewrite IH'. split; [intros [? | (? & ? & ?)]; [by left | right; split; [done |]; split; [lia | done]] |].
          intros [? | (? & ? & Hj')]; [by left |]. right. split; [done |]. split; [| done].
          assert (j <> b) by congruence. lia. }
  rewrite Hd. split.
  - intros [_ He]. by apply thru_edge.
  - intros Ht. inversion Ht as [? ? He | i' m j' Hm Hlt _]; subst; [split; [apply He | done] |].
    apply thru_range in Hm. lia.
Qed.

(** One turn of the outer loop. *)
Lemma close_bits (k : Z) (tr : Z -> Z) : 0 <= k < n ->
  (forall i j, 0 <= j -> Z.testbit (tr i) j = true <-> thru k i j) ->
  forall i j, 0 <= j -> Z.testbit (foldl (close_row k) tr (types h) i) j = true <-> thru (k + 1) i j.
Proof.
  intros Hk Htr.
  assert (H : forall i j, 0 <= j ->
    Z.testbit (foldl (close_row k) tr (types h) i) j = true <-> if decide (i < n) then thru (k + 1) i j else thru k i j).
  { pose (P := fun a (tr' : Z -> Z) => forall i j, 0 <= j -> Z.testbit (tr' i) j = true <-> if decide (i < a) then thru (k + 1) i j else thru k i j).
    change (P n (foldl (close_row k) tr (types h))). unfold types. apply foldl_seqZ; unfold P; clear P; [lia | |].
    - intros i j Hj. destruct (decide (i < 0)) as [Hi |]; [| by apply Htr].
      rewrite (Htr i j Hj). split; intros Ht%thru_range; lia.
    - intros a tr' Ha IH i j Hj.
      assert (Hrow : forall j, 0 <= j -> Z.testbit (tr' k) j = true <-> thru k k j).
      { intros j' Hj'. rewrite IH by done. case_decide; [rewrite thru_succ; tauto | done]. }
      unfold close_row. rewrite bit_condition by lia.
      destruct (decide (i = a)) as [-> | Hne].
      + rewrite decide_True by lia. rewrite thru_succ.
        assert (IHa : forall j, 0 <= j -> Z.testbit (tr' a) j = true <-> thru k a j).
        { intros j' Hj'. rewrite IH by done. by rewrite decide_False by lia. }
        destruct (Z.testbit (tr' a) k) eqn:Hb.
        * unfold upd. rewrite Z.eqb_refl, Z.lor_spec, orb_true_iff, IHa, Hrow by done. apply IHa in Hb; [| lia]. tauto.
        * rewrite IHa by done. assert (~ thru k a k) by (rewrite <- IHa by lia; by rewrite Hb). tauto.
      + transitivity (Z.testbit (tr' i) j = true).
        { destruct (Z.testbit (tr' a) k); [| done]. unfold upd. by destruct (Z.eqb_spec i a). }
        rewrite IH by done. do 2 case_decide; try lia; done. }
  intros i j Hj. rewrite H by done. case_decide as Hi; [done |].
  split; intros Ht%thru_range; lia.
Qed.

Lemma closure_bits (i j : Z) : 0 <= j -> Z.testbit (closure h i) j = true <-> tc (edge h) i j.
Proof.
  rewrite <- thru_tc. revert i j. unfold closure, types at 2.
  apply (foldl_seqZ _ (fun k tr => forall i j, 0 <= j -> Z.testbit (tr i) j = true <-> thru k i j)); [lia | |].
  - intros i j. apply direct_bits.
  - intros k tr Hk IH. by apply close_bits.
Qed.

(** The check is right and complete. *)
Lemma check_cycles_spec : check_cycles h = Ok tt <-> acyclic h.
Proof.
  unfold check_cycles. rewrite for_each_check. unfold types. split.
  - intros H i Hc. assert (Hi : 0 <= i < n) by (apply thru_tc in Hc; by apply thru_range in Hc as [? _]).
    specialize (H i). rewrite bit_condition in H by lia.
    apply (closure_bits i i) in Hc; [| lia]. rewrite Hc in H. discriminate H. apply elem_of_seqZ. lia.
  - intros H i Hi%elem_of_seqZ. rewrite bit_condition by lia. apply not_true_is_false.
    rewrite closure_bits by lia. apply H.
Qed.
End closure.

(** ** The table *)

(** The entries of a row that the loop reads. *)
Fixpoint listed (zs : list Z) : list Z :=
  match zs with
  | [] => []
  | z :: zs' => if z =? MutexInvalid then [] else z :: listed zs'
  end.
Definition lists (table : list MutexMeta) (i j : Z) : Prop :=
  exists m, table !! Z.to_nat i = Some m /\ j ∈ listed (can_lock m).
Definition under (table : list MutexMeta) (n i j : Z) : Prop :=
  0 <= i < n /\ 0 <= j < n /\
  (lists table i j \/
   (lists table j MutexLeaf /\ i <> MutexInvalid /\ i <> j /\ ~ lists table i MutexLeaf)).

Lemma read_can_lock_spec (t : Z) (zs : list Z) (h h' : hierarchy) : read_can_lock h t zs = Ok h' ->
  mutex_type_count h' = mutex_type_count h /\
  (forall i j, mutex_can_lock h' i j = true <-> mutex_can_lock h i j = true \/ (i = t /\ 0 <= j /\ j ∈ listed zs)) /\
  (forall i, leaf h' i = true <-> leaf h i = true \/ (i = t /\ MutexLeaf ∈ listed zs)).
Proof.
  revert h. induction zs as [| z zs IH]; intros h; cbn [read_can_lock listed].
  { intros [= ->]. split; [done |]. setoid_rewrite elem_of_nil. split; intros; tauto. }
  destruct (Z.eqb_spec z MutexInvalid) as [| Hz0].
  { intros [= ->]. split; [done |]. setoid_rewrite elem_of_nil. split; intros; tauto. }
  setoid_rewrite elem_of_cons.
  destruct (Z.eqb_spec z MutexLeaf) as [-> | Hz1].
  - intros H. inv_ok. apply IH in Hk as (Hc & Hl & Hf). cbn in Hc, Hl, Hf. split; [done |]. split.
    + intros i j. rewrite Hl. unfold MutexLeaf. intuition lia.
    + intros i. rewrite Hf, orb_true_iff, Z.eqb_eq. tauto.
  - destruct (Z.eqb_spec z MutexMulti) as [-> | Hz2].
    + intros H. apply IH in H as (Hc & Hl & Hf). cbn in Hc, Hl, Hf. split; [done |]. split.
      * intros i j. rewrite Hl. unfold MutexMulti. intuition lia.
      * intros i. rewrite Hf. unfold MutexMulti, MutexLeaf. intuition lia.
    + intros H. inv_ok. zb. case_guard; [| done]. apply IH in Hk as (Hc & Hl & Hf). cbn in Hc, Hl, Hf. split; [done |]. split.
      * intros i j. rewrite Hl, orb_true_iff, andb_true_iff, !Z.eqb_eq. intuition (subst; auto).
      * intros i. rewrite Hf. intuition congruence.
Qed.

Lemma lists_cons (m : MutexMeta) (table : list MutexMeta) (i j : Z) : 0 <= i ->
  lists (m :: table) i j <-> (i = 0 /\ j ∈ listed (can_lock m)) \/ (0 < i /\ lists table (i - 1) j).
Proof.
  intros Hi. unfold lists. destruct (decide (i = 0)) as [-> |].
  - cbn. split; [intros (x & [= ->] & ?); by left | intros [[_ ?] | [? _]]; [by exists m | lia]].
  - replace (Z.to_nat i) with (S (Z.to_nat (i - 1))) by lia. cbn. split; [intros ?; right; split; [lia | done] | intros [[? _] | [_ ?]]; [lia | done]].
Qed.

Lemma read_table_spec (table : list MutexMeta) (t : Z) (h h' : hierarchy) :
  read_table h t table = Ok h' -> table <> [] ->
  t <= mutex_type_count h' < t + Z.of_nat (length table) /\
  (forall i j, i < mutex_type_count h' ->
     mutex_can_lock h' i j = true <-> mutex_can_lock h i j = true \/ (t <= i /\ 0 <= j /\ lists table (i - t) j)) /\
  (forall i, i < mutex_type_count h' -> leaf h' i = true <-> leaf h i = true \/ (t <= i /\ lists table (i - t) MutexLeaf)).
Proof.
  revert t h. induction table as [| m table IH]; intros t h; [done |]. cbn [read_table length]. intros H _.
  destruct (named m); cbn [negb] in H; cycle 1.
  { injection H as <-. cbn. split; [lia |]. split; intros; split; try (by left); intros [? | [? _]]; [done | lia | done | lia]. }
  inv_ok. apply read_can_lock_spec in Hr0 as (Hc & Hl & Hf). cbn in Hc, Hl, Hf.
  destruct table as [| m' table].
  { cbn in Hk0. injection Hk0 as <-. rewrite Hc. cbn [length]. split; [lia |]. split.
    - intros i j Hi. rewrite Hl. intuition lia.
    - intros i Hi. rewrite Hf. intuition lia. }
  apply IH in Hk0 as (Hcount & Hl' & Hf'); [| done]. split; [cbn [length] in *; lia |]. split.
  - intros i j Hi. rewrite Hl', Hl by done. split.
    + intros [[? | (-> & ? & ?)] | (? & ? & ?)]; [by left | |].
      * right. split; [lia |]. split; [done |]. apply lists_cons; [lia |]. left. split; [lia | done].
      * right. split; [lia |]. split; [done |]. apply lists_cons; [lia |]. right. split; [lia |]. by replace (i - t - 1) with (i - (t + 1)) by lia.
    + intros [? | (? & ? & [[? ?] | [? Hm]]%lists_cons)]; [by left; left | | | lia].
      * left. right. split; [lia | done].
      * right. split; [lia |]. split; [done |]. by replace (i - (t + 1)) with (i - t - 1) by lia.
  - intros i Hi. rewrite Hf', Hf by done. split.
    + intros [[? | (-> & ?)] | (? & ?)]; [by left | |].
      * right. split; [lia |]. apply lists_cons; [lia |]. left. split; [lia | done].
      * right. split; [lia |]. apply lists_cons; [lia |]. right. split; [lia |]. by replace (i - t - 1) with (i - (t + 1)) by lia.
    + intros [? | (? & [[? ?] | [? Hm]]%lists_cons)]; [by left; left | | | lia].
      * left. right. split; [lia | done].
      * right. split; [lia |]. by replace (i - (t + 1)) with (i - t - 1) by lia.
Qed.

(** A successful loop keeps an invariant. *)
Lemma for_each_Ok {A S} (f : S -> A -> result S) (P : list A -> S -> Prop) (l : list A) (s s' : S) :
  for_each f s l = Ok s' -> P [] s ->
  (forall done x s s', x ∈ l -> f s x = Ok s' -> P done s -> P (done ++ [x]) s') -> P l s'.
Proof.
  intros H H0 Hf. enough (Hgen : forall rest done s, for_each f s rest = Ok s' -> (forall x, x ∈ rest -> x ∈ l) -> P done s -> P (done ++ rest) s') by (by apply (Hgen l [] s)).
  clear H H0 s. induction rest as [| x rest IH]; intros d s H Hsub Hd; cbn [for_each] in H.
  - injection H as <-. by rewrite app_nil_r.
  - inv_ok. replace (d ++ x :: rest) with ((d ++ [x]) ++ rest) by (by rewrite <- app_assoc).
    apply (IH _ r); [done | intros y Hy; apply Hsub; by right |]. apply (Hf _ _ s); [apply Hsub; by left | done | done].
Qed.

Lemma add_leaves_spec (h h' : hierarchy) : add_leaves h = Ok h' ->
  mutex_type_count h' = mutex_type_count h /\
  (forall i, leaf h' i = leaf h i) /\
  (forall i j, mutex_can_lock h' i j = true <-> mutex_can_lock h i j = true \/
     (j ∈ types h /\ i ∈ types h /\ leaf h j = true /\ i <> MutexInvalid /\ i <> j /\ leaf h i = false)).
Proof.
  intros H. refine (for_each_Ok _ (fun done h' => mutex_type_count h' = mutex_type_count h /\ (forall i, leaf h' i = leaf h i) /\
    (forall i j, mutex_can_lock h' i j = true <-> mutex_can_lock h i j = true \/
     (j ∈ done /\ i ∈ types h /\ leaf h j = true /\ i <> MutexInvalid /\ i <> j /\ leaf h i = false))) _ _ _ H _ _).
  { setoid_rewrite elem_of_nil. split; [done |]. split; [done |]. intros; tauto. }
  clear H h'. intros d t h1 h2 Ht H (Hc & Hf & Hl).
  destruct (leaf h1 t) eqn:Hleaf; cbn [negb] in H; cycle 1.
  { injection H as <-. split; [done |]. split; [done |]. intros i j. rewrite Hl, elem_of_app, list_elem_of_singleton.
    rewrite Hf in Hleaf. naive_solver congruence. }
  inv_ok. rewrite Hf in Hleaf.
  assert (Hin : mutex_type_count h2 = mutex_type_count h1 /\ (forall i, leaf h2 i = leaf h1 i) /\
    (forall i j, mutex_can_lock h2 i j = true <-> mutex_can_lock h1 i j = true \/
     (j = t /\ i ∈ types h1 /\ i <> MutexInvalid /\ i <> t /\ leaf h1 i = false))).
  { refine (for_each_Ok _ (fun done h2 => mutex_type_count h2 = mutex_type_count h1 /\ (forall i, leaf h2 i = leaf h1 i) /\
    (forall i j, mutex_can_lock h2 i j = true <-> mutex_can_lock h1 i j = true \/
     (j = t /\ i ∈ done /\ i <> MutexInvalid /\ i <> t /\ leaf h1 i = false))) _ _ _ Hk _ _).
    - setoid_rewrite elem_of_nil. split; [done |]. split; [done |]. intros; tauto.
    - clear Hk h2. intros d' z h2 h3 Hz H (Hc' & Hf' & Hl'). unfold add_leaf in H. rewrite Hf' in H.
      setoid_rewrite elem_of_app. setoid_rewrite list_elem_of_singleton.
      destruct ((z =? MutexInvalid) || (t =? z) || leaf h1 z) eqn:Hskip.
      + injection H as <-. split; [done |]. split; [done |]. intros i j. rewrite Hl'.
        rewrite !orb_true_iff, !Z.eqb_eq in Hskip. naive_solver congruence.
      + inv_ok. cbn. split; [done |]. split; [done |]. intros i j. rewrite orb_true_iff, andb_true_iff, !Z.eqb_eq, Hl'.
        rewrite !orb_false_iff, !Z.eqb_neq in Hskip. naive_solver congruence. }
  destruct Hin as (Hc2 & Hf2 & Hl2). split; [congruence |]. split; [congruence |].
  intros i j. rewrite Hl2, Hl. unfold types. rewrite Hc, Hf, elem_of_app, list_elem_of_singleton. naive_solver congruence.
Qed.

Lemma DebugMutexInit_spec (table : list MutexMeta) (h : hierarchy) :
  DebugMutexInit table = Ok h -> 0 < Z.of_nat (length table) <= kMutexTypeMax ->
  0 <= mutex_type_count h < kMutexTypeMax /\ acyclic h /\
  forall i j, edge h i j <-> under table (mutex_type_count h) i j.
Proof.
  unfold DebugMutexInit. intros H Hlen. inv_ok. destruct r2.
  apply read_table_spec in Hr as (Hc & Hl & Hf); [| intros ->; cbn in Hlen; lia].
  apply add_leaves_spec in Hr1 as (Hc' & _ & Hl'). unfold kMutexTypeMax in *.
  split; [lia |]. split; [apply check_cycles_spec; [lia | done] |].
  intros i j. unfold edge, under. rewrite Hl', Hc'. unfold types. rewrite !elem_of_seqZ.
  split.
  - intros (Hi & Hj & H). split; [done |]. split; [done |]. rewrite Hl in H by lia. destruct H as [[H | (_ & _ & H)] | H].
    + done.
    + left. by rewrite Z.sub_0_r in H.
    + right. destruct H as (_ & _ & Hlf & ? & ? & Hnl). rewrite Hf in Hlf by lia. rewrite Z.sub_0_r in Hlf.
      destruct Hlf as [| [_ ?]]; [done |]. split; [done |]. split; [done |]. split; [done |].
      intros Hli. rewrite (proj2 (Hf i ltac:(lia))) in Hnl; [done |]. right. split; [lia |]. by rewrite Z.sub_0_r.
  - intros (Hi & Hj & H). split; [done |]. split; [done |]. rewrite Hl by lia. rewrite Z.sub_0_r. destruct H as [H | (Hlj & ? & ? & Hni)].
    + left. right. split; [lia |]. split; [lia | done].
    + right. split; [lia |]. split; [lia |]. split.
      * apply Hf; [lia |]. right. split; [lia |]. by rewrite Z.sub_0_r.
      * split; [done |]. split; [done |]. apply not_true_is_false. rewrite Hf by lia. rewrite Z.sub_0_r. intros [| [_ ?]]; [done | by apply Hni].
Qed.

(** A table without a free entry: the loop leaves the last type out, and the
    check that is to notice it cannot fail. *)
Definition chain_entry (i : Z) : MutexMeta := Meta i true [if i =? 19 then MutexLeaf else i + 1].
Lemma unterminated_table_accepted : length (chain_entry <$> seqZ 0 20) = 20%nat /\
  exists h, DebugMutexInit (chain_entry <$> seqZ 0 20) = Ok h /\ mutex_type_count h = 19.
Proof.
  split; [reflexivity |].
  assert (H : (fun h => mutex_type_count h) <$> DebugMutexInit (chain_entry <$> seqZ 0 20) = Ok 19) by (vm_compute; reflexivity).
  destruct (DebugMutexInit (chain_entry <$> seqZ 0 20)) as [h | d]; cbn in H; [| done].
  exists h. split; [done |]. by injection H.
Qed.

(** ** Threads *)

Inductive call : Type := CallLock (t : nat) (type pc : Z) | CallUnlock (t : nat) (type : Z).
Definition run_call (p : process) (c : call) : result process :=
  match c with CallLock t type pc => Lock p t type pc | CallUnlock t type => Unlock p t type end.
Definition run : process -> list call -> result process := for_each run_call.
Definition start (table : list MutexMeta) : process := Process table no_hierarchy (fun _ => no_locks).

(** What a thread has locked, or is about to lock: [Lock] records the type
    before the mutex itself is taken. *)
Definition held (d : InternalDeadlockDetector) (type : Z) : Prop := seq_ (locked d type) <> 0.
Definition newest (d : InternalDeadlockDetector) (type : Z) : Prop :=
  held d type /\ forall i, seq_ (locked d i) <= seq_ (locked d type).
(** [a] may wait for [b]: the type [a] locked last is one that [b] holds and
    did not lock last. *)
Definition waits_for (p : process) (a b : nat) : Prop :=
  exists type, newest (idd p a) type /\ held (idd p b) type /\ ~ newest (idd p b) type.

(** A thread after at most [k] calls. *)
Record thread_ok (h : hierarchy) (d : InternalDeadlockDetector) (k : Z) : Prop := {
  ok_seq : 0 <= sequence d <= k;
  ok_range i : 0 <= seq_ (locked d i) <= sequence d;
  ok_type i : held d i -> 0 < i < mutex_type_count h;
  ok_inj i j : held d i -> seq_ (locked d i) = seq_ (locked d j) -> i = j;
  ok_order i j : held d i -> seq_ (locked d i) < seq_ (locked d j) -> tc (edge h) i j;
  ok_recursion i : (held d i -> 0 < recursion (locked d i)) /\ (~ held d i -> recursion (locked d i) = 0);
  ok_pc i : held d i -> pc_ (locked d i) <> 0;
}.
Record process_ok (table : list MutexMeta) (p : process) (k : Z) : Prop := {
  ok_table : mutex_meta p = table /\ Z.of_nat (length table) = kMutexTypeMax;
  ok_hier : mutex_type_count (hier p) = -1 \/ DebugMutexInit table = Ok (hier p);
  ok_threads t : thread_ok (hier p) (idd p t) k;
}.

Lemma thread_ok_mono (h : hierarchy) (d : InternalDeadlockDetector) (k k' : Z) : k <= k' -> thread_ok h d k -> thread_ok h d k'.
Proof. intros Hk []. split; try done. lia. Qed.

Lemma start_ok (table : list MutexMeta) : Z.of_nat (length table) = kMutexTypeMax -> process_ok table (start table) 0.
Proof. intros Ht. split; [done | by left |]. intros t. by split; cbn; unfold held; cbn; try lia. Qed.

Lemma set_idd_ok (table : list MutexMeta) (p : process) (t : nat) (d : InternalDeadlockDetector) (k k' : Z) :
  process_ok table p k -> k <= k' -> thread_ok (hier p) d k' -> process_ok table (set_idd p t d) k'.
Proof.
  intros [] Hk Hd. split; [done | done |]. intros u. cbn. case_decide; [done | by apply thread_ok_mono with k].
Qed.

(** A thread without locks fits any hierarchy. *)
Lemma thread_ok_hier (h h' : hierarchy) (d : InternalDeadlockDetector) (k i : Z) :
  mutex_type_count h = -1 -> thread_ok h d k -> thread_ok h' (IDD i (sequence d) (locked d)) k.
Proof.
  intros Hh []. assert (Hno : forall i, ~ held d i) by (intros j Hj; apply ok_type0 in Hj; lia).
  split; unfold held in *; cbn in *; try done; intros; exfalso; by eapply Hno.
Qed.
Lemma thread_ok_init (h : hierarchy) (d : InternalDeadlockDetector) (k i : Z) :
  thread_ok h d k -> thread_ok h (IDD i (sequence d) (locked d)) k.
Proof. by intros []. Qed.

Lemma Initialize_ok (table : list MutexMeta) (p p' : process) (t : nat) (type k : Z) (on : bool) : process_ok table p k -> Initialize p t type = Ok (p', on) ->
  process_ok table p' k /\ (on = true -> 0 < type) /\
  (forall u, sequence (idd p' u) = sequence (idd p u) /\ locked (idd p' u) = locked (idd p u)).
Proof.
  intros Hp. pose proof Hp as [Htab Hhier Hthr]. unfold Initialize. destruct ((type =? MutexUnchecked) || (type =? MutexInvalid)) eqn:Htype.
  { intros [= <- <-]. split; [done |]. split; done. }
  intros H. inv_ok. unfold MutexInvalid in *. zb. destruct (negb (initialized (idd p t) =? 0)).
  { injection Hk as <- <-. split; [done |]. split; done. }
  apply bind_Ok in Hk as (h & Hh & Hk). injection Hk as <- <-. split; [| split; [done | intros u; cbn; by case_decide; subst]].
  destruct (Z.ltb_spec (mutex_type_count (hier p)) 0) as [Hneg | Hpos].
  - assert (Hm1 : mutex_type_count (hier p) = -1) by (destruct Hhier as [| Hdone]; [done |]; apply DebugMutexInit_spec in Hdone as (? & _); unfold kMutexTypeMax in *; lia).
    split; [done | right; by rewrite <- (proj1 Htab) |]. intros u. cbn. case_decide; [by apply thread_ok_hier with (hier p) |].
    pose proof (thread_ok_hier _ h _ _ (initialized (idd p u)) Hm1 (Hthr u)) as Hu. by destruct (idd p u).
  - injection Hh as <-. apply (set_idd_ok table (Process (mutex_meta p) (hier p) (idd p)) t _ k k); [by split | lia |]. cbn. by apply thread_ok_init.
Qed.

Lemma newest_or_none (d : InternalDeadlockDetector) (h : hierarchy) (k : Z) : thread_ok h d k -> 0 <= mutex_type_count h ->
  exists ms mi, last_locked d h = Ok (ms, mi) /\
  ((ms = 0 /\ mi = MutexInvalid /\ forall i, ~ held d i) \/ (newest d mi /\ ms = seq_ (locked d mi) /\ 0 < mi < mutex_type_count h)).
Proof.
  intros Hd Hc.
  destruct (for_each_spec (fun '(max_seq, max_idx) i =>
    if seq_ (locked d i) =? 0 then Ok (max_seq, max_idx)
    else
      _ ← check (negb (seq_ (locked d i) =? max_seq));
      if max_seq <? seq_ (locked d i) then Ok (seq_ (locked d i), i) else Ok (max_seq, max_idx))
    (fun done '(ms, mi) => (forall i, i ∈ done -> seq_ (locked d i) <= ms) /\
      ((ms = 0 /\ mi = MutexInvalid) \/ (mi ∈ done /\ held d mi /\ ms = seq_ (locked d mi)))) (types h) (0, MutexInvalid))
    as ([ms mi] & Heq & Hle & Hcase).
  - split; [intros i Hi; by apply not_elem_of_nil in Hi | by left].
  - intros done x rest [ms mi] Hl [Hle Hcase]. destruct (Z.eqb_spec (seq_ (locked d x)) 0) as [H0 | H0].
    { exists (ms, mi). split; [reflexivity |]. split.
      - intros i [Hi | ->%list_elem_of_singleton]%elem_of_app; [by apply Hle |]. rewrite H0. destruct Hcase as [[-> _] | (_ & _ & ->)]; [lia | apply (ok_range h d k Hd)].
      - rewrite elem_of_app. tauto. }
    rewrite check_true; cycle 1.
    { apply negb_true_iff, Z.eqb_neq. intros Heq. destruct Hcase as [[-> _] | (Hmi & _ & ->)]; [done |].
      apply (ok_inj h d k Hd) in Heq; [| done]. subst mi.
      pose proof (NoDup_seqZ 0 (mutex_type_count h)) as Hnd. unfold types in Hl. rewrite Hl in Hnd.
      apply NoDup_app in Hnd as (_ & Hnd & _). apply (Hnd x Hmi). by left. }
    step. destruct (Z.ltb_spec ms (seq_ (locked d x))).
    + eexists. split; [reflexivity |]. split.
      * intros i [Hi | ->%list_elem_of_singleton]%elem_of_app; [apply Hle in Hi; lia | lia].
      * right. rewrite elem_of_app, list_elem_of_singleton. by split; [right |].
    + eexists. split; [reflexivity |]. split.
      * intros i [Hi | ->%list_elem_of_singleton]%elem_of_app; [by apply Hle | lia].
      * rewrite elem_of_app. tauto.
  - exists ms, mi. split; [done |].
    assert (Hall : forall i, seq_ (locked d i) <= ms \/ seq_ (locked d i) = 0).
    { intros i. destruct (decide (seq_ (locked d i) = 0)); [by right | left]. apply Hle. apply elem_of_seqZ.
      pose proof (ok_type h d k Hd i ltac:(done)). lia. }
    destruct Hcase as [[-> ->] | (Hin & Hheld & ->)].
    + left. split; [done |]. split; [done |]. intros i Hi. destruct (Hall i); [| done].
      pose proof (ok_range h d k Hd i). unfold held in Hi. lia.
    + right. split; [| split; [done | by apply (ok_type h d k Hd)]]. split; [done |]. intros i. destruct (Hall i); [done |].
      pose proof (ok_range h d k Hd mi). lia.
Qed.

(** Locking a type the hierarchy allows under the newest one. *)
Lemma record_lock_ok (h : hierarchy) (d : InternalDeadlockDetector) (k type pc i : Z) :
  thread_ok h d k -> k + 1 < word_modulus -> 0 < type < mutex_type_count h -> pc <> 0 ->
  (forall mi, newest d mi -> edge h mi type) ->
  (forall i, ~ held d i) \/ (exists mi, newest d mi) ->
  thread_ok h (IDD i (sequence d +w 1) (upd (locked d) type (Desc (sequence d +w 1) pc 1))) (k + 1).
Proof.
  intros Hd Hk Htype Hpc Hedge Hmax. pose proof (ok_seq _ _ _ Hd) as Hs.
  rewrite wrap_small by (unfold is_uptr; lia).
  assert (Hr := ok_range _ _ _ Hd).
  split; unfold held, upd in *; cbn.
  - lia.
  - intros j. destruct (Z.eqb_spec j type); cbn; [lia |]. specialize (Hr j). lia.
  - intros j. destruct (Z.eqb_spec j type) as [-> |]; [done |]. apply (ok_type _ _ _ Hd).
  - intros j j'. destruct (Z.eqb_spec j type) as [-> |], (Z.eqb_spec j' type) as [-> |]; cbn; [done | | | apply (ok_inj _ _ _ Hd)].
    + specialize (Hr j'). lia.
    + specialize (Hr j). lia.
  - intros j j' Hj. destruct (Z.eqb_spec j type) as [-> | Hne], (Z.eqb_spec j' type) as [-> |]; cbn in *; [lia | | | by apply (ok_order _ _ _ Hd)].
    + specialize (Hr j'). lia.
    + intros _. destruct Hmax as [Hno | [mi Hmi]]; [exfalso; by apply (Hno j) |]. specialize (Hedge mi Hmi).
      destruct (decide (seq_ (locked d j) = seq_ (locked d mi))) as [Heq | Hlt].
      * apply (ok_inj _ _ _ Hd) in Heq; [| done]. subst j. by apply tc_once.
      * destruct Hmi as [_ Hmi]. specialize (Hmi j). apply tc_r with mi; [| done]. apply (ok_order _ _ _ Hd); [done | lia].
  - intros j. destruct (Z.eqb_spec j type); cbn; [lia |]. apply (ok_recursion _ _ _ Hd).
  - intros j. destruct (Z.eqb_spec j type); cbn; [done |]. apply (ok_pc _ _ _ Hd).
Qed.

(** A change of one descriptor that keeps its [seq], or clears it. *)
Lemma set_recursion_ok (h : hierarchy) (d : InternalDeadlockDetector) (k type r : Z) :
  thread_ok h d k -> held d type -> 0 <= r ->
  thread_ok h (IDD (initialized d) (sequence d) (upd (locked d) type
    (if negb (r =? 0) then Desc (seq_ (locked d type)) (pc_ (locked d type)) r else Desc 0 0 r))) k.
Proof.
  intros [Hs Hr Ht Hi Ho Hrec Hpc] Htype Hr0.
  assert (Hseq : forall i, seq_ (upd (locked d) type (if negb (r =? 0) then Desc (seq_ (locked d type)) (pc_ (locked d type)) r else Desc 0 0 r) i)
    = if (i =? type) && (r =? 0) then 0 else seq_ (locked d i)).
  { intros i. unfold upd. destruct (Z.eqb_spec i type) as [-> |]; [| done]. by destruct (r =? 0). }
  split; unfold held in *; cbn; [done | | | | | |]; intros i; rewrite ?Hseq.
  - specialize (Hr i). destruct (_ && _); lia.
  - destruct (_ && _); [done | apply Ht].
  - intros j. rewrite ?Hseq. destruct ((i =? type) && _); [done |]. destruct (_ && _); [done | apply Hi].
  - intros j. rewrite ?Hseq. destruct ((i =? type) && _); [done |]. destruct (_ && _); [| apply Ho]. intros _. specialize (Hr i). lia.
  - unfold upd. destruct (Z.eqb_spec i type) as [-> |]; cbn; [| apply Hrec]. destruct (Z.eqb_spec r 0); cbn; [done |]. split; [lia | done].
  - unfold upd. destruct (Z.eqb_spec i type) as [-> |]; cbn; [| apply Hpc]. destruct (Z.eqb_spec r 0); cbn; [done | intros _; by apply Hpc].
Qed.

Definition call_ok (c : call) : Prop := match c with CallLock _ _ pc => pc <> 0 | CallUnlock _ _ => True end.

(** What [Lock] does with a type it checks. *)
Definition may_lock (h : hierarchy) (d : InternalDeadlockDetector) (type : Z) : Prop :=
  forall mi, newest d mi -> edge h mi type \/ (mi = type /\ mutex_multi h type = true).

Lemma newest_unique (h : hierarchy) (d : InternalDeadlockDetector) (k i j : Z) : thread_ok h d k -> newest d i -> newest d j -> i = j.
Proof. intros Hd [Hi Hi'] [Hj Hj']. apply (ok_inj _ _ _ Hd); [done |]. specialize (Hi' j). specialize (Hj' i). lia. Qed.

(** [Lock] after [Initialize]. *)
Definition lock_body (p : process) (t : nat) (type pc : Z) : result process :=
  let h := hier p in let d := idd p t in
  _ ← check (type <? mutex_type_count h);
  '(max_seq, max_idx) ← last_locked d h;
  if (max_idx =? type) && mutex_multi h type then
    _ ← check (seq_ (locked d type) =? max_seq);
    _ ← check (negb (pc_ (locked d type) =? 0));
    let l := locked d type in
    Ok (set_idd p t (IDD (initialized d) (sequence d) (upd (locked d) type (Desc (seq_ l) (pc_ l) (recursion l + 1)))))
  else
    _ ← check (negb (negb (max_idx =? MutexInvalid) && negb (mutex_can_lock h max_idx type)));
    let sequence := sequence d +w 1 in
    Ok (set_idd p t (IDD (initialized d) sequence (upd (locked d) type (Desc sequence pc 1)))).

Lemma lock_body_ok (table : list MutexMeta) (p : process) (t : nat) (type pc k : Z) :
  process_ok table p k -> k + 1 < word_modulus -> pc <> 0 -> 0 < type < mutex_type_count (hier p) ->
  (is_ok (lock_body p t type pc) = true <-> may_lock (hier p) (idd p t) type) /\
  forall p', lock_body p t type pc = Ok p' -> process_ok table p' (k + 1).
Proof.
  intros Hp Hk Hpc Htype. pose proof (ok_threads _ _ _ Hp t) as Hd. unfold lock_body. cbv zeta.
  rewrite (check_true (type <? _)) by (apply Z.ltb_lt; lia). rewrite Ok_bind.
  destruct (newest_or_none _ _ _ Hd ltac:(lia)) as (ms & mi & -> & Hcase). rewrite Ok_bind.
  destruct ((mi =? type) && mutex_multi (hier p) type) eqn:Hmulti.
  - apply andb_true_iff in Hmulti as [->%Z.eqb_eq Hmulti]. destruct Hcase as [(_ & -> & _) | (Hnew & -> & _)]; [unfold MutexInvalid in *; lia |].
    rewrite Z.eqb_refl. rewrite (check_true true) by done. rewrite Ok_bind, check_true by (apply negb_true_iff, Z.eqb_neq, (ok_pc _ _ _ Hd), Hnew). rewrite Ok_bind. split.
    + split; [intros _ mi Hmi | done]. right. split; [by apply (newest_unique _ _ _ _ _ Hd) | done].
    + intros p' [= <-]. apply (set_idd_ok table _ _ _ k); [done | lia |]. apply thread_ok_mono with k; [lia |].
      pose proof (ok_recursion _ _ _ Hd type) as [Hrec _]. specialize (Hrec (proj1 Hnew)).
      pose proof (set_recursion_ok _ _ _ type (recursion (locked (idd p t) type) + 1) Hd (proj1 Hnew) ltac:(lia)) as H.
      destruct (Z.eqb_spec (recursion (locked (idd p t) type) + 1) 0) in H; [lia |]. exact H.
  - assert (Hiff : negb (negb (mi =? MutexInvalid) && negb (mutex_can_lock (hier p) mi type)) = true <-> may_lock (hier p) (idd p t) type).
    { unfold may_lock, edge. destruct Hcase as [(_ & -> & Hno) | (Hnew & _ & Hmi)].
      - split; [| done]. intros _ mi [Hmi _]. by apply Hno in Hmi.
      - destruct (Z.eqb_spec mi MutexInvalid); [unfold MutexInvalid in *; lia |]. cbn [negb andb]. rewrite negb_involutive. split.
        + intros Hc mi' Hmi'. rewrite (newest_unique _ _ _ _ _ Hd Hmi' Hnew). left. split; [lia |]. split; [lia | done].
        + intros H. destruct (H mi Hnew) as [(_ & _ & ?) | [-> Hm]]; [done |]. by rewrite Z.eqb_refl, Hm in Hmulti. }
    destruct (negb (negb _ && negb _)).
    + rewrite (check_true true eq_refl), Ok_bind. split; [split; [by intros _; apply Hiff | done] |]. intros p' [= <-].
      assert (Hmay := proj1 Hiff eq_refl). apply (set_idd_ok table _ _ _ k); [done | lia |]. apply record_lock_ok; try done.
      * intros mi' Hmi'. destruct (Hmay mi' Hmi') as [| [-> Hm]]; [done |]. destruct Hcase as [(_ & _ & Hno) | (Hnew & _)]; [by destruct (Hno type (proj1 Hmi')) |].
        rewrite (newest_unique _ _ _ _ _ Hd Hnew Hmi') in Hmulti. by rewrite Z.eqb_refl, Hm in Hmulti.
      * destruct Hcase as [(_ & _ & Hno) | (Hnew & _)]; [by left | right; by exists mi].
    + split; [| done]. split; [done |]. intros H. by apply Hiff in H.
Qed.

Lemma Lock_body (p : process) (t : nat) (type pc : Z) :
  Lock p t type pc = '(p', on) ← Initialize p t type; if negb on then Ok p' else lock_body p' t type pc.
Proof. reflexivity. Qed.

Lemma Lock_ok (table : list MutexMeta) (p p' : process) (t : nat) (type pc k : Z) :
  process_ok table p k -> k + 1 < word_modulus -> pc <> 0 -> Lock p t type pc = Ok p' -> process_ok table p' (k + 1).
Proof.
  intros Hp Hk Hpc. rewrite Lock_body. intros ([p1 on] & Hi & H)%bind_Ok. apply (Initialize_ok table _ _ _ _ k) in Hi as (Hp1 & Hon & _); [| done].
  destruct on; cbn [negb] in H.
  - assert (Hlt : type < mutex_type_count (hier p1)).
    { unfold lock_body in H. inv_ok. by zb. }
    specialize (Hon eq_refl). by apply (lock_body_ok table p1 t type pc k).
  - injection H as <-. destruct Hp1. split; [done | done |]. intros u. apply thread_ok_mono with k; [lia | done].
Qed.

Lemma Unlock_ok (table : list MutexMeta) (p p' : process) (t : nat) (type k : Z) :
  process_ok table p k -> Unlock p t type = Ok p' -> process_ok table p' (k + 1).
Proof.
  intros Hp. unfold Unlock. intros ([p1 on] & Hi & H)%bind_Ok. apply (Initialize_ok table _ _ _ _ k) in Hi as (Hp1 & Hon & _); [| done].
  destruct on; cbn [negb] in H.
  - cbv zeta in H. inv_ok. zb. apply (set_idd_ok table _ _ _ k); [done | lia |]. apply thread_ok_mono with k; [lia |].
    apply set_recursion_ok; [by apply (ok_threads table) | done | lia].
  - injection H as <-. destruct Hp1. split; [done | done |]. intros u. apply thread_ok_mono with k; [lia | done].
Qed.

Lemma run_ok (table : list MutexMeta) (calls : list call) (p : process) :
  Z.of_nat (length table) = kMutexTypeMax -> Z.of_nat (length calls) + 1 < word_modulus -> Forall call_ok calls ->
  run (start table) calls = Ok p -> process_ok table p (Z.of_nat (length calls)).
Proof.
  intros Htable Hlen Hcalls H.
  enough (Hgen : forall calls p0 k, process_ok table p0 k -> k + Z.of_nat (length calls) < word_modulus -> Forall call_ok calls ->
    run p0 calls = Ok p -> process_ok table p (k + Z.of_nat (length calls))).
  { apply (Hgen calls (start table) 0); try done; [by apply start_ok | lia]. }
  clear. induction calls as [| c calls IH]; intros p0 k Hp Hk Hc H; cbn [run for_each length] in H.
  - injection H as <-. by rewrite Z.add_0_r.
  - apply Forall_cons in Hc as [Hc Hcs]. inv_ok. cbn [length] in *. replace (k + Z.of_nat (S (length calls))) with (k + 1 + Z.of_nat (length calls)) by lia.
    apply (IH r); [| lia | done | done]. destruct c as [t type pc | t type]; [by apply (Lock_ok table p0 r t type pc k); try lia | by apply (Unlock_ok table p0 r t type k)].
Qed.



(** ** An example: type 2 is a leaf, type 1 may be locked before type 3 *)

Definition sample_table : list MutexMeta :=
  [Meta 0 true []; Meta 1 true [3]; Meta 2 true [MutexLeaf]; Meta 3 true [MutexMulti]] ++ replicate 16 (Meta 0 false []).
Definition sample_calls : list call := [CallLock 0 1 7; CallLock 0 3 7; CallLock 0 3 8; CallLock 1 1 9; CallUnlock 0 3].


Definition outcome (table : list MutexMeta) (calls : list call) (t : nat) (type : Z) : option (bool * bool * bool) :=
  match run (start table) calls with
  | Ok p => Some (is_ok (Lock p t type 5), is_ok (Unlock p t type), is_ok (CheckNoLocks p t))
  | Die _ => None
  end.
Example sample_outcomes :
  (outcome sample_table sample_calls 0 <$> [1; 2; 3], outcome sample_table [CallLock 0 2 7] 0 <$> [1; 2; 3], outcome sample_table [] 0 <$> [1; 2; 3])
  = ([Some (false, true, false); Some (true, false, false); Some (true, true, false)],
     [Some (false, false, false); Some (false, true, false); Some (false, false, false)],
     [Some (true, false, true); Some (true, false, true); Some (true, false, true)]).
Proof. vm_compute. reflexivity. Qed.

