(* ===== verification/Ranges.v ===== *)
(** * Intersection of address ranges: sanitizer_range.cpp

    [Intersect] sorts the ends of the ranges of both lists and sweeps over
    them, counting the ranges of each list that are open.  A vector under
    construction is a list with its back first. *)

From S2P Require Import Prelude Sorting.

Record Range : Type := MkRange { begin_ : Z; end_ : Z }.

#[global] Instance Range_eq_dec : EqDecision Range.
Proof. solve_decision. Defined.

Record Event : Type := MkEvent { val : Z; diff1 : Z; diff2 : Z }.
Definition event_less (lh rh : Event) : bool := val lh <? val rh.

#[export] Instance event_less_order : StrictWeakOrder event_less.
Proof. split; unfold event_less; intros *; rewrite ?Z.ltb_lt, ?Z.ltb_ge; lia. Qed.

(** The two loops that fill [events]; [first] tells which list is read. *)
Fixpoint push_events (first : bool) (events : list Event) (rs : list Range) : result (list Event) :=
  match rs with
  | [] => Ok events
  | r :: rs' =>
      _ ← check (begin_ r <=? end_ r);
      let open := if first then MkEvent (begin_ r) 1 0 else MkEvent (begin_ r) 0 1 in
      let close := if first then MkEvent (end_ r) (-1) 0 else MkEvent (end_ r) 0 (-1) in
      push_events first (close :: open :: events) rs'
  end.

Record sweep : Type := Sweep { start : Z; state1 : Z; state2 : Z; output : list Range }.

(** What is appended when both lists are open on [[start, v)]. *)
Definition push_range (out : list Range) (start v : Z) : list Range :=
  match out with
  | r :: out' => if start =? end_ r then MkRange (begin_ r) v :: out' else MkRange start v :: out
  | [] => [MkRange start v]
  end.

Definition sweep_event (s : sweep) (e : Event) : sweep :=
  let s :=
    if negb (val e =? start s) then
      Sweep (val e) (state1 s) (state2 s)
        (if negb (state1 s =? 0) && negb (state2 s =? 0) then push_range (output s) (start s) (val e) else output s)
    else s in
  Sweep (start s) (state1 s + diff1 e) (state2 s + diff2 e) (output s).

Definition Intersect (a b : list Range) : result (list Range) :=
  events ← push_events true [] a;
  events ← push_events false events b;
  events ← Sort event_less (rev events);
  Ok (rev (output (foldl sweep_event (Sweep 0 0 0 []) events))).

Lemma elem_of_rev {A} (l : list A) (x : A) : x ∈ rev l <-> x ∈ l.
Proof. by rewrite <- (Permutation_rev l). Qed.

(** ** What the events count *)

Definition inside (x : Z) (r : Range) : Prop := begin_ r <= x < end_ r.
#[global] Instance inside_dec x r : Decision (inside x r).
Proof. unfold inside. apply _. Defined.
Definition covered (rs : list Range) (x : Z) : Prop := exists r, r ∈ rs /\ inside x r.

(** The number of ranges that hold [x]. *)
Definition depth (rs : list Range) (x : Z) : Z := foldr (fun r n => (if decide (inside x r) then 1 else 0) + n) 0 rs.

Lemma depth_pos (rs : list Range) (x : Z) : 0 <= depth rs x.
Proof. induction rs as [| r rs IH]; cbn; [done |]. fold (depth rs x). case_decide; lia. Qed.

Lemma depth_covered (rs : list Range) (x : Z) : depth rs x <> 0 <-> covered rs x.
Proof.
  unfold covered. induction rs as [| r rs IH]; cbn [depth foldr].
  - split; [done | intros (r & Hr & _); by apply not_elem_of_nil in Hr].
  - fold (depth rs x). setoid_rewrite elem_of_cons. pose proof (depth_pos rs x). case_decide; split; intros H1.
    + by exists r; auto.
    + lia.
    + apply IH in H1 as (r' & ? & ?). by exists r'; auto.
    + apply IH. destruct H1 as (r' & [-> | ?] & ?); [done |]. by exists r'.
Qed.

(** What the events up to [x] add up to. *)
Definition total (d : Event -> Z) (x : Z) (es : list Event) : Z :=
  foldr (fun e n => (if decide (val e <= x) then d e else 0) + n) 0 es.

Lemma ends_cons (d : Event -> Z) (x : Z) (e : Event) (es : list Event) :
  total d x (e :: es) = (if decide (val e <= x) then d e else 0) + total d x es.
Proof. done. Qed.

Lemma ends_app (d : Event -> Z) (x : Z) (es1 es2 : list Event) : total d x (es1 ++ es2) = total d x es1 + total d x es2.
Proof. unfold total. induction es1 as [| e es IH]; cbn; [done |]. rewrite IH. lia. Qed.

Lemma total_perm (d : Event -> Z) (x : Z) (es1 es2 : list Event) : es1 ≡ₚ es2 -> total d x es1 = total d x es2.
Proof. unfold total. induction 1; cbn in *; lia. Qed.

Lemma total_before (d : Event -> Z) (x : Z) (es : list Event) : (forall e, e ∈ es -> x < val e) -> total d x es = 0.
Proof.
  unfold total. induction es as [| e es IH]; cbn; intros H; [done |]. rewrite IH by (intros e' He; apply H; by right).
  rewrite decide_False; [done |]. specialize (H e ltac:(by left)). lia.
Qed.

Lemma total_after (d : Event -> Z) (x y : Z) (es : list Event) : (forall e, e ∈ es -> val e <= x) -> x <= y -> total d x es = total d y es.
Proof.
  unfold total. induction es as [| e es IH]; cbn; intros H Hxy; [done |]. rewrite IH by (try done; intros e' He; apply H; by right).
  specialize (H e ltac:(by left)). do 2 case_decide; lia.
Qed.

Definition bounds (rs : list Range) : Prop := forall r, r ∈ rs -> 0 <= begin_ r <= end_ r.

Lemma push_events_spec (first : bool) (events : list Event) (rs : list Range) : bounds rs ->
  exists es, push_events first events rs = Ok es /\
  (forall x, total diff1 x es = total diff1 x events + if first then depth rs x else 0) /\
  (forall x, total diff2 x es = total diff2 x events + if first then 0 else depth rs x) /\
  (forall e, e ∈ es -> e ∈ events \/ 0 <= val e) /\
  (forall e, e ∈ events -> e ∈ es) /\ (forall r, r ∈ rs -> exists e, e ∈ es /\ val e = end_ r).
Proof.
  revert events. induction rs as [| r rs IH]; intros events Hb; cbn [push_events].
  { exists events. split; [done |]. split; [| split]; try (intros x; destruct first; cbn; lia).
    split; [by left |]. split; [done |]. intros r []%not_elem_of_nil. }
  assert (Hr : 0 <= begin_ r <= end_ r) by (apply Hb; by left).
  rewrite check_true by (apply Z.leb_le; lia). rewrite Ok_bind.
  assert (Hbs : bounds rs) by (intros r' Hr'; apply Hb; by right). cbv zeta.
  match goal with |- context [push_events first ?ev rs] => destruct (IH ev Hbs) as (es & -> & H1 & H2 & H3 & H4 & H5) end.
  exists es. split; [done |]. split; [| split; [| split; [| split]]].
  - intros x. rewrite H1, !ends_cons. destruct first; cbn [val diff1 diff2 depth foldr]; fold (depth rs x); unfold inside; repeat case_decide; lia.
  - intros x. rewrite H2, !ends_cons. destruct first; cbn [val diff1 diff2 depth foldr]; fold (depth rs x); unfold inside; repeat case_decide; lia.
  - intros e He. destruct (H3 e He) as [Hin | ?]; [| by right].
    destruct first; rewrite !elem_of_cons in Hin; destruct Hin as [-> | [-> | ?]]; cbn; auto; right; lia.
  - intros e He. apply H4. by do 2 right.
  - intros r' [-> | Hr']%elem_of_cons; [| by apply H5]. eexists. split; [apply H4; by left |]. by destruct first.
Qed.

(** ** The sweep *)

Lemma push_range_covered (out : list Range) (s v x : Z) : s < v -> (forall r, r ∈ out -> begin_ r < end_ r <= s) ->
  covered (push_range out s v) x <-> covered out x \/ s <= x < v.
Proof.
  intros Hsv Hout. unfold covered, inside. destruct out as [| r out]; cbn [push_range].
  - setoid_rewrite list_elem_of_singleton. setoid_rewrite elem_of_nil. naive_solver.
  - destruct (Z.eqb_spec s (end_ r)) as [-> | Hne].
    + specialize (Hout r ltac:(by left)). split.
      * intros (r' & [-> | Hr']%elem_of_cons & Hx); cbn in Hx; [| left; exists r'; split; [by right | done]].
        destruct (decide (x < end_ r)); [left; exists r; split; [by left | lia] | right; lia].
      * intros [(r' & [-> | Hr']%elem_of_cons & Hx) | Hx].
        -- eexists. split; [by left |]. cbn. lia.
        -- exists r'. split; [by right | done].
        -- eexists. split; [by left |]. cbn. lia.
    + split.
      * intros (r' & [-> | Hr']%elem_of_cons & Hx); cbn in Hx; [by right | left; by exists r'].
      * intros [(r' & Hr' & Hx) | Hx]; [exists r'; split; [by right | done] | exists (MkRange s v); split; [by left | done]].
Qed.

(** Back first: each range ends before the one pushed after it begins. *)
Fixpoint separate (out : list Range) (limit : Z) : Prop :=
  match out with
  | [] => True
  | r :: out' => begin_ r < end_ r <= limit /\ separate out' (begin_ r - 1)
  end.

Lemma separate_mono (out : list Range) (l l' : Z) : l <= l' -> separate out l -> separate out l'.
Proof. destruct out as [| r out]; cbn; [done |]. intros ? [? ?]. split; [lia | done]. Qed.

Lemma separate_elem (out : list Range) (l : Z) (r : Range) : separate out l -> r ∈ out -> begin_ r < end_ r <= l.
Proof.
  revert l. induction out as [| r' out IH]; intros l Hs Hr; [by apply not_elem_of_nil in Hr |].
  destruct Hs as [H1 H2]. apply elem_of_cons in Hr as [-> | Hr]; [done |]. specialize (IH _ H2 Hr). lia.
Qed.

Lemma push_range_separate (out : list Range) (s v : Z) : s < v -> separate out s -> separate (push_range out s v) v.
Proof.
  intros Hsv Hs. destruct out as [| r out]; cbn [push_range]; [cbn; split; [lia | done] |].
  destruct (Z.eqb_spec s (end_ r)); cbn in *; [split; [lia | tauto] |].
  split; [lia |]. split; [lia | tauto].
Qed.

Lemma separate_sorted (out : list Range) (l : Z) : separate out l ->
  forall i j r q, (i < j)%nat -> rev out !! i = Some r -> rev out !! j = Some q -> end_ r < begin_ q.
Proof.
  revert l. induction out as [| r0 out IH]; intros l Hs i j r q Hij Hi Hj; cbn in *; [done |]. destruct Hs as [H1 H2].
  destruct (decide (j < length (rev out))%nat) as [Hlt | Hge].
  - rewrite lookup_app_l in Hi, Hj by lia. by apply (IH _ H2 i j).
  - rewrite lookup_app_r in Hj by lia. destruct (j - length (rev out))%nat as [| n] eqn:Hn; [| destruct n; discriminate Hj].
    injection Hj as <-. rewrite lookup_app_l in Hi by lia. apply list_elem_of_lookup_2 in Hi.
    rewrite elem_of_rev in Hi. apply (separate_elem _ _ _ H2) in Hi. lia.
Qed.

Section sweep.
Context (a b : list Range) (es : list Event).
Hypothesis (H1 : forall x, total diff1 x es = depth a x).
Hypothesis (H2 : forall x, total diff2 x es = depth b x).

Record swept (done : list Event) (s : sweep) : Prop := {
  sw_start : 0 <= start s /\ forall e, e ∈ done -> val e <= start s;
  sw_state1 : state1 s = total diff1 (start s) done;
  sw_state2 : state2 s = total diff2 (start s) done;
  sw_output : separate (output s) (start s);
  sw_covered x : covered (output s) x <-> 0 <= x < start s /\ covered a x /\ covered b x;
}.

Lemma sweep_event_swept (done rest : list Event) (e : Event) (s : sweep) : es = done ++ e :: rest ->
  (forall f, f ∈ done -> val f <= val e) -> (forall f, f ∈ rest -> val e <= val f) -> 0 <= val e -> start s <= val e ->
  swept done s -> swept (done ++ [e]) (sweep_event s e).
Proof using H1 H2.
  intros Hes Hdone Hrest He Hle [[Hs0 Hstart] Hst1 Hst2 Hsep Hcov].
  assert (Htotal : forall d x, start s <= x < val e -> total d x es = total d (start s) done).
  { intros d x Hx. rewrite Hes, ends_app, (total_before d x (e :: rest)), Z.add_0_r.
    - symmetry. apply total_after; [done | lia].
    - intros f [-> | Hf]%elem_of_cons; [lia |]. specialize (Hrest f Hf). lia. }
  assert (Hstate : forall x, start s <= x < val e -> state1 s = depth a x /\ state2 s = depth b x).
  { intros x Hx. rewrite Hst1, Hst2, <- !(Htotal _ x Hx), H1, H2. done. }
  assert (Hsnoc : forall d, total d (val e) (done ++ [e]) = total d (start s) done + d e).
  { intros d. rewrite ends_app. cbn. rewrite decide_True by lia. rewrite (total_after d (start s) (val e) done) by (done || lia). lia. }
  assert (Hall : forall f, f ∈ done ++ [e] -> val f <= val e).
  { intros f [Hf | ->%list_elem_of_singleton]%elem_of_app; [by apply Hdone | done]. }
  unfold sweep_event. destruct (Z.eqb_spec (val e) (start s)) as [Heq | Hne]; cbn [negb].
  - split; cbn; rewrite <- ?Heq; rewrite ?Hsnoc, ?Hst1, ?Hst2; try done; rewrite Heq; done.
  - split; cbn [start state1 state2 output]; rewrite ?Hsnoc, ?Hst1, ?Hst2; try done.
    + destruct (negb _ && negb _); [apply push_range_separate; [lia | done] | apply separate_mono with (start s); [lia | done]].
    + intros x. rewrite <- Hst1, <- Hst2.
      assert (Hin : start s <= x < val e -> (negb (state1 s =? 0) && negb (state2 s =? 0) = true <-> covered a x /\ covered b x)).
      { intros Hx. destruct (Hstate x Hx) as [-> ->]. rewrite andb_true_iff, !negb_true_iff, !Z.eqb_neq, !depth_covered. done. }
      destruct (negb (state1 s =? 0) && negb (state2 s =? 0)).
      * rewrite push_range_covered by (lia || intros r Hr; by apply (separate_elem _ _ _ Hsep)). rewrite Hcov.
        split; [intros [(? & ?) | Hx]; split; try lia; try done; by apply Hin |].
        intros [Hx ?]. destruct (decide (x < start s)); [left; split; [lia | done] | right; lia].
      * rewrite Hcov. split; [intros [? ?]; split; [lia | done] |]. intros [Hx Hc]. split; [| done].
        destruct (decide (x < start s)); [lia |]. apply Hin in Hc; [done | lia].
Qed.
End sweep.

Lemma Intersect_returns (a b : list Range) : bounds a -> bounds b -> exists out, Intersect a b = Ok out.
Proof.
  intros Ha Hb. unfold Intersect.
  destruct (push_events_spec true [] a Ha) as (es1 & -> & _). rewrite Ok_bind.
  destruct (push_events_spec false es1 b Hb) as (es2 & -> & _). rewrite Ok_bind.
  destruct (Sort_spec event_less (rev es2)) as (es & -> & _). rewrite Ok_bind. by eexists.
Qed.

(** C19. [Intersect] returns the intersection in normal form: for any two lists
    of ranges (overlapping, empty and adjacent ones included) an address is in
    a range of the result iff it is in a range of both lists, no range of the
    result is empty, and each ends before the next one begins, with a gap
    between them. *)
Theorem Intersect_exact (a b : list Range) :
  (forall r, r ∈ a -> 0 <= begin_ r <= end_ r) -> (forall r, r ∈ b -> 0 <= begin_ r <= end_ r) ->
  exists out, Intersect a b = Ok out /\
  (forall x, covered out x <-> covered a x /\ covered b x) /\
  (forall r, r ∈ out -> begin_ r < end_ r) /\
  (forall i j r q, (i < j)%nat -> out !! i = Some r -> out !! j = Some q -> end_ r < begin_ q).
Proof.
  intros Ha Hb. unfold Intersect.
  destruct (push_events_spec true [] a Ha) as (es1 & -> & A1 & A2 & A3 & _ & A5). rewrite Ok_bind.
  destruct (push_events_spec false es1 b Hb) as (es2 & -> & B1 & B2 & B3 & B4 & _). rewrite Ok_bind.
  destruct (Sort_spec event_less (rev es2)) as (es & -> & Hperm & Hsorted). rewrite Ok_bind.
  assert (Hp : es ≡ₚ es2) by (by rewrite Hperm, <- Permutation_rev).
  assert (H1 : forall x, total diff1 x es = depth a x) by (intros x; rewrite (total_perm _ _ _ _ Hp), B1, A1; cbn; lia).
  assert (H2 : forall x, total diff2 x es = depth b x) by (intros x; rewrite (total_perm _ _ _ _ Hp), B2, A2; cbn; lia).
  assert (Hpos : forall e, e ∈ es -> 0 <= val e).
  { intros e. rewrite Hp. intros He. destruct (B3 e He) as [He1 |]; [| done]. destruct (A3 e He1) as [[]%not_elem_of_nil |]; done. }
  assert (Hle : forall k l e f, (k < l)%nat -> es !! k = Some e -> es !! l = Some f -> val e <= val f).
  { intros k l e f Hkl He Hf. pose proof (Hsorted k l ltac:(split; [done | by apply lookup_lt_Some in Hf]) ltac:(lia) e f He Hf) as H.
    unfold event_less in H. by apply Z.ltb_ge in H. }
  assert (Hsweep : forall rest done s, es = done ++ rest -> swept a b done s -> (forall e, head rest = Some e -> start s <= val e) ->
    swept a b es (foldl sweep_event s rest)).
  { induction rest as [| e rest IH]; intros done s Hes Hs Hhead; cbn [foldl]; [by rewrite app_nil_r in Hes; subst done |].
    assert (He : es !! length done = Some e) by (rewrite Hes; by apply list_lookup_middle).
    assert (Hrest : forall f, f ∈ rest -> val e <= val f).
    { intros f (n & Hf)%list_elem_of_lookup_1. apply (Hle (length done) (length done + S n)%nat e f); [lia | done |].
      rewrite Hes, lookup_app_r by lia. by replace (length done + S n - length done)%nat with (S n) by lia. }
    assert (Hdone : forall f, f ∈ done -> val f <= val e).
    { intros f (n & Hf)%list_elem_of_lookup_1. pose proof (lookup_lt_Some _ _ _ Hf). apply (Hle n (length done) f e); [lia | | done].
      rewrite Hes. by rewrite lookup_app_l by lia. }
    specialize (Hhead e eq_refl).
    assert (H0e : 0 <= val e) by (apply Hpos; rewrite Hes; apply elem_of_app; right; by left).
    apply (IH (done ++ [e])); [by rewrite <- app_assoc | by apply (sweep_event_swept a b es H1 H2 done rest) |].
    intros f Hf. assert (val e <= val f) by (apply Hrest; by apply head_Some_elem_of).
    unfold sweep_event. destruct (Z.eqb_spec (val e) (start s)); cbn; lia. }
  destruct (Hsweep es [] (Sweep 0 0 0 [])) as [[_ Hend] _ _ Hsep Hcov].
  - done.
  - split; cbn; try done; [split; [lia | intros e []%not_elem_of_nil] |]. intros x. split; [intros (r & []%not_elem_of_nil & _) | lia].
  - intros e He. cbn. apply Hpos. by apply head_Some_elem_of.
  - set (out := output _) in *. exists (rev out). split; [done |]. split; [| split].
    + intros x. transitivity (covered out x); [unfold covered; by setoid_rewrite elem_of_rev |]. rewrite Hcov.
      split; [tauto |]. intros [Hca Hcb]. split; [| done].
      destruct Hca as (r & Hr & Hx). pose proof (Ha r Hr). unfold inside in Hx. split; [lia |].
      destruct (A5 r Hr) as (e & He & Hval). apply B4 in He. rewrite <- Hp in He. apply Hend in He. lia.
    + intros r Hr. rewrite elem_of_rev in Hr. apply (separate_elem _ _ _ Hsep) in Hr. lia.
    + by apply (separate_sorted out _ Hsep).
Qed.

Definition sample_a : list Range := [MkRange 10 20; MkRange 15 30; MkRange 40 40; MkRange 50 60].
Definition sample_b : list Range := [MkRange 25 55; MkRange 0 12].
Lemma Intersect_exact_witness :
  Intersect sample_a sample_b = Ok [MkRange 10 12; MkRange 25 30; MkRange 50 55] /\
  exists out, Intersect sample_a sample_b = Ok out /\
  (forall x, covered out x <-> covered sample_a x /\ covered sample_b x) /\
  (forall r, r ∈ out -> begin_ r < end_ r) /\
  (forall i j r q, (i < j)%nat -> out !! i = Some r -> out !! j = Some q -> end_ r < begin_ q).
Proof.
  split; [vm_compute; reflexivity |]. apply (Intersect_exact sample_a sample_b).
  - intros r Hr. unfold sample_a in Hr. rewrite !elem_of_cons, elem_of_nil in Hr. destruct Hr as [-> | [-> | [-> | [-> | []]]]]; cbn; lia.
  - intros r Hr. unfold sample_b in Hr. rewrite !elem_of_cons, elem_of_nil in Hr. destruct Hr as [-> | [-> | []]]; cbn; lia.
Defined.
