(* ===== verification/Lsan.v ===== *)
(** * LeakSanitizer: lsan_common.cpp

    The check that runs while the world is stopped: ScanForPointers and the
    roots it is applied to, the flood fill, the callbacks over all chunks and
    the collection of leaks.  What lsan_common.h asks of the tool it is linked
    into (thread ranges, the chunks of the allocator, poisoned words) is the
    class [LsanTool] and what the allocator promises the class
    [LsanAllocator]; what the operating system says of the stopped process is
    [World].  Vectors used as stacks have their back first. *)

From S2P Require Import Prelude Words Memory Sorting Ranges.

(** ** Chunks *)

Inductive ChunkTag : Type := kDirectlyLeaked | kIndirectlyLeaked | kReachable | kIgnored.
#[global] Instance ChunkTag_eq_dec : EqDecision ChunkTag.
Proof. solve_decision. Defined.

Record ChunkMetadata : Type := Chunk { allocated : bool; tag : ChunkTag; requested_size : Z; stack_trace_id : Z }.

(** The chunks by user-visible address. *)
Notation heap := (gmap Z ChunkMetadata).
Definition with_tag (t : ChunkTag) (m : ChunkMetadata) : ChunkMetadata :=
  Chunk (allocated m) t (requested_size m) (stack_trace_id m).
Definition set_tag (h : heap) (chunk : Z) (t : ChunkTag) : heap := alter (with_tag t) chunk h.

(** The constructor CHECKs that there is metadata. *)
Definition LsanMetadata (h : heap) (chunk : Z) : result ChunkMetadata :=
  match h !! chunk with Some m => Ok m | None => Die CheckFailed end.

(** Registered root regions with their counts; the order of [forEach] is that
    of the table. *)
Notation RootRegions := (gmap (Z * Z) Z).

(** ** What the check is linked with *)

Record Flags : Type := LsanFlags {
  resolution : Z; report_objects : bool; use_globals : bool; use_stacks : bool; use_registers : bool; use_tls : bool;
  use_root_regions : bool; use_unaligned : bool; use_poisoned : bool; use_detached : bool;
}.
Definition SetDefaults : Flags := LsanFlags 0 false true true true true true false false false.
Definition pointer_alignment (f : Flags) : Z := if use_unaligned f then 1 else 8.

(** [dtls]: none when it is null or in destruction. *)
Record thread_ranges : Type := ThreadRanges {
  stack_begin : Z; stack_end : Z; tls_begin : Z; tls_end : Z; cache_begin : Z; cache_end : Z; dtls : option (list (Z * Z));
}.

Class LsanTool : Type := {
  flags : Flags;
  WordIsPoisoned : Z -> bool;
  GetThreadRangesLocked : Z -> option thread_ranges;
  GetThreadExtraStackRangesLocked : Z -> list Range;
  GetAdditionalThreadContextPtrsLocked : list Z;
  GetRunningThreadsLocked : list Z;
  GetAllocatorGlobalRange : Z * Z;
  PointsIntoChunk : heap -> Z -> result Z;
  GetUserBegin : Z -> Z;
  ForEachChunk : list Z;
}.

(** The chunks in use, whatever their tags are. *)
Class LsanAllocator (T : LsanTool) : Type := {
  chunks_ok : heap -> Prop;
  chunks_ok_tag h c t : chunks_ok h -> chunks_ok (set_tag h c t);
  points_into_chunk h p : chunks_ok h ->
    exists c, PointsIntoChunk h p = Ok c /\ (c <> 0 -> exists m, h !! c = Some m /\ allocated m = true);
  points_into_tag h c t p : PointsIntoChunk (set_tag h c t) p = PointsIntoChunk h p;
  every_chunk h c m : chunks_ok h -> h !! c = Some m -> allocated m = true -> c ∈ GetUserBegin <$> ForEachChunk;
  each_once : NoDup (GetUserBegin <$> ForEachChunk);
  has_metadata h x : chunks_ok h -> x ∈ ForEachChunk -> is_Some (h !! GetUserBegin x);
  chunk_range h c m : chunks_ok h -> h !! c = Some m -> 0 < c /\ 0 <= requested_size m /\ c + requested_size m + 16 < word_modulus;
}.

(** Threads that are stopped: the status of GetRegistersAndSP, and where the
    registers were written. *)
Inductive PtraceRegistersStatus : Type := REGISTERS_UNAVAILABLE_FATAL | REGISTERS_UNAVAILABLE | REGISTERS_AVAILABLE.
Record suspended_thread : Type := Suspended { thread_id : Z; have_registers : PtraceRegistersStatus; registers : Range; sp_ : Z }.

(** [readable]: TryMemCpy can copy from the range; [accessible]:
    IsAccessibleMemoryRange of one byte; [writable_segments]: the PT_LOAD
    segments of dl_iterate_phdr that are writable and not empty;
    [mapped_regions]: the readable segments of the memory map. *)
Class World : Type := {
  memory_ : memory;
  readable : Z -> Z -> bool;
  accessible : Z -> bool;
  page_size : Z;
  writable_segments : list Range;
  mapped_regions : list Range;
  caller_tid : Z;
  caller_sp : Z;
  suspended_threads : list suspended_thread;
}.

Section lsan.
Context {T : LsanTool} {W : World}.

Definition MaybeUserPointer (p : Z) : bool :=
  if p <? 4 * 4096 then false else Z.land p (wshl 8519552 40) =? 0.

(** ** Access to memory *)

(** The piece [[beg, end)] of a vector that receives a copy of [[src, src + n)];
    a piece outside the vector is a bad access. *)
Definition copy_or_zero (src n : Z) (dest : Z -> Z) (beg end_ : Z) : result (Z -> Z) :=
  _ ← get_or_die (guard ((end_ <= beg) \/ (src <= beg /\ end_ <= src + n)));
  Ok (fun i => if (beg - src <=? i) && (i <? end_ - src) then (if readable beg end_ then memory_ (src + i) else 0) else dest i).

Fixpoint copy_pages (src n : Z) (dest : Z -> Z) (p e_down : Z) (fuel : nat) : result (Z -> Z) :=
  match fuel with
  | O => Die OutOfFuel
  | S fuel =>
      if p <? e_down then
        dest ← copy_or_zero src n dest p (p +w page_size);
        copy_pages src n dest (p +w page_size) e_down fuel
      else Ok dest
  end.

Definition MemCpyAccessible (dest : Z -> Z) (src n : Z) : result (Z -> Z) :=
  if readable src (src +w n) then Ok (fun i => if (0 <=? i) && (i <? n) then memory_ (src + i) else dest i)
  else
    let b := src in
    b_up ← RoundUpTo b page_size;
    let e := src +w n in
    let e_down := RoundDownTo e page_size in
    dest ← copy_or_zero src n dest b b_up;
    dest ← copy_pages src n dest b_up e_down (S (Z.to_nat (n / page_size + 1)));
    copy_or_zero src n dest e_down e.

(** DirectMemoryAccessor, and CopyMemoryAccessor with its fields. *)
Inductive accessor : Type := Direct | Copied (begin end_ : Z) (buffer : Z -> Z).
Definition copy_accessor : accessor := Copied 0 0 (fun _ => 0).
Definition Init (a : accessor) (begin end_ : Z) : result accessor :=
  match a with
  | Direct => Ok Direct
  | Copied _ _ _ =>
      _ ← get_or_die (guard (begin <= end_));
      buffer ← MemCpyAccessible (fun _ => 0) begin (end_ -w begin);
      Ok (Copied begin end_ buffer)
  end.
Definition LoadPtr (a : accessor) (p : Z) : result Z :=
  match a with
  | Direct => Ok (load64 memory_ p)
  | Copied begin end_ buffer =>
      let offset := p -w begin in
      _ ← check (offset +w 8 <=? end_ -w begin);
      Ok (load64 buffer offset)
  end.

(** ** Scanning *)

Record marks : Type := Marks { chunks : heap; frontier : list Z }.

(** One turn of the loop. *)
Definition scan_word (begin : Z) (push : bool) (t : ChunkTag) (a : accessor) (pp : Z) (s : marks) : result marks :=
  p ← LoadPtr a pp;
  if negb (MaybeUserPointer p) then Ok s
  else
    chunk ← PointsIntoChunk (chunks s) p;
    if chunk =? 0 then Ok s
    else if chunk =? begin then Ok s
    else
      m ← LsanMetadata (chunks s) chunk;
      if bool_decide (tag m = kReachable \/ tag m = kIgnored) then Ok s
      else if negb (use_poisoned flags) && WordIsPoisoned pp then Ok s
      else Ok (Marks (set_tag (chunks s) chunk t) (if push then chunk :: frontier s else frontier s)).

Fixpoint scan_loop (begin end_ : Z) (push : bool) (t : ChunkTag) (a : accessor) (pp : Z) (s : marks) (fuel : nat) : result marks :=
  match fuel with
  | O => Die OutOfFuel
  | S fuel =>
      if pp +w 8 <=? end_ then
        s ← scan_word begin push t a pp s;
        scan_loop begin end_ push t a (pp +w pointer_alignment flags) s fuel
      else Ok s
  end.

Definition first_word (begin : Z) : Z :=
  let alignment := pointer_alignment flags in
  if negb (begin mod alignment =? 0) then begin +w alignment -w (begin mod alignment) else begin.
Definition scan_fuel (begin end_ : Z) : nat := S (Z.to_nat (end_ - begin)).

(** [push] is false for a null [frontier]. *)
Definition ScanForPointers (begin end_ : Z) (push : bool) (t : ChunkTag) (a : accessor) (s : marks) : result marks :=
  _ ← check (bool_decide (t = kReachable \/ t = kIndirectlyLeaked));
  a ← Init a begin end_;
  scan_loop begin end_ push t a (first_word begin) s (scan_fuel begin end_).

Definition ScanRangeForPointers (begin end_ : Z) (push : bool) (t : ChunkTag) (s : marks) : result marks :=
  ScanForPointers begin end_ push t Direct s.

Definition ScanGlobalRange (begin end_ : Z) (s : marks) : result marks :=
  let '(allocator_begin, allocator_end) := GetAllocatorGlobalRange in
  if (begin <=? allocator_begin) && (allocator_begin <? end_) then
    _ ← check (allocator_begin <=? allocator_end);
    _ ← check (allocator_end <=? end_);
    s ← (if begin <? allocator_begin then ScanRangeForPointers begin allocator_begin true kReachable s else Ok s);
    if allocator_end <? end_ then ScanRangeForPointers allocator_end end_ true kReachable s else Ok s
  else ScanRangeForPointers begin end_ true kReachable s.

Definition ScanRanges (ranges : list Range) (a : accessor) (s : marks) : result marks :=
  for_each (fun s r => ScanForPointers (begin_ r) (end_ r) true kReachable a s) s ranges.

Definition ProcessGlobalRegions (s : marks) : result marks :=
  if negb (use_globals flags) then Ok s
  else for_each (fun s r => ScanGlobalRange (begin_ r) (end_ r) s) s writable_segments.

Definition ProcessThreadRegistry (s : marks) : result marks :=
  for_each (fun s ptr =>
    chunk ← PointsIntoChunk (chunks s) ptr;
    if chunk =? 0 then Ok s
    else
      m ← LsanMetadata (chunks s) chunk;
      if negb (allocated m) then Ok s
      else Ok (Marks (set_tag (chunks s) chunk kReachable) (chunk :: frontier s))) s GetAdditionalThreadContextPtrsLocked.

(** Skipping guard pages. *)
Fixpoint skip_guard (stack_begin stack_end : Z) (fuel : nat) : result Z :=
  match fuel with
  | O => Die OutOfFuel
  | S fuel =>
      if (stack_begin <? stack_end) && negb (accessible stack_begin) then skip_guard (stack_begin +w page_size) stack_end fuel
      else Ok stack_begin
  end.

Definition scan_stack (r : thread_ranges) (os_id sp : Z) (a : accessor) (s : marks) : result marks :=
  begin ← (if (sp <? stack_begin r) || (stack_end r <=? sp)
           then skip_guard (stack_begin r) (stack_end r) (S (Z.to_nat (stack_end r - stack_begin r)))
           else Ok sp);
  s ← ScanForPointers begin (stack_end r) true kReachable a s;
  ScanRanges (GetThreadExtraStackRangesLocked os_id) a s.

Definition scan_tls (r : thread_ranges) (a : accessor) (s : marks) : result marks :=
  s ← (if tls_begin r =? 0 then Ok s
       else if (cache_begin r =? cache_end r) || (tls_end r <? cache_begin r) || (cache_end r <? tls_begin r)
       then ScanForPointers (tls_begin r) (tls_end r) true kReachable a s
       else
         s ← (if tls_begin r <? cache_begin r then ScanForPointers (tls_begin r) (cache_begin r) true kReachable a s else Ok s);
         if cache_end r <? tls_end r then ScanForPointers (cache_end r) (tls_end r) true kReachable a s else Ok s);
  match dtls r with
  | Some dtvs =>
      for_each (fun s '(dtls_beg, size) =>
        let dtls_end := dtls_beg +w size in
        if dtls_beg <? dtls_end then ScanForPointers dtls_beg dtls_end true kReachable a s else Ok s) s dtvs
  | None => Ok s
  end.

Definition ProcessThread (os_id sp : Z) (regs : Range) (a : accessor) (s : marks) : result marks :=
  match GetThreadRangesLocked os_id with
  | None => Ok s
  | Some r =>
      let sp := if sp =? 0 then stack_begin r else sp in
      s ← (if use_registers flags then ScanForPointers (begin_ regs) (end_ regs) true kReachable a s else Ok s);
      s ← (if use_stacks flags then scan_stack r os_id sp a s else Ok s);
      if use_tls flags then scan_tls r a s else Ok s
  end.

Definition ProcessThreads (s : marks) : result marks :=
  '(s, done_threads) ← for_each (fun '(s, done_threads) th =>
    match have_registers th with
    | REGISTERS_UNAVAILABLE_FATAL => Ok (s, done_threads)
    | status =>
        let sp := match status with REGISTERS_AVAILABLE => sp_ th | _ => 0 end in
        let sp := if thread_id th =? caller_tid then caller_sp else sp in
        s ← ProcessThread (thread_id th) sp (registers th) Direct s;
        Ok (s, if use_detached flags then done_threads ++ [thread_id th] else done_threads)
    end) (s, []) suspended_threads;
  s ← (if use_detached flags then
         done_threads ← Sort Z.ltb done_threads;
         for_each (fun s os_id =>
           i ← InternalLowerBound Z.ltb done_threads os_id;
           if bool_decide (done_threads !! i = Some os_id) then Ok s
           else
             let sp := if os_id =? caller_tid then caller_sp else 0 in
             ProcessThread os_id sp (MkRange 0 0) copy_accessor s) s GetRunningThreadsLocked
       else Ok s);
  ProcessThreadRegistry s.

(** ** Root regions *)

Definition __lsan_register_root_region (regions : RootRegions) (b size : Z) : result RootRegions :=
  let e := b +w size in
  _ ← check (b <? e);
  Ok (<[(b, e) := default 0 (regions !! (b, e)) +w 1]> regions).
Definition __lsan_unregister_root_region (regions : RootRegions) (b size : Z) : result RootRegions :=
  let e := b +w size in
  _ ← check (b <? e);
  match regions !! (b, e) with
  | Some n => if n -w 1 =? 0 then Ok (delete (b, e) regions) else Ok (<[(b, e) := n -w 1]> regions)
  | None => Die (Reported "root region has not been registered")
  end.

Definition HasRootRegions (regions : RootRegions) : bool := negb (bool_decide (regions = ∅)).
Definition root_regions (regions : RootRegions) : list Range := (fun kv => MkRange kv.1.1 kv.1.2) <$> map_to_list regions.
Definition ScanRootRegions (regions : RootRegions) (s : marks) : result marks :=
  if negb (use_root_regions flags) then Ok s
  else
    intersection ← Intersect mapped_regions (root_regions regions);
    for_each (fun s r => ScanRangeForPointers (begin_ r) (end_ r) true kReachable s) s intersection.
Definition ProcessRootRegions (regions : RootRegions) (s : marks) : result marks :=
  if negb (use_root_regions flags) || negb (HasRootRegions regions) then Ok s
  else ScanRootRegions regions s.

(** ** Classification *)

Fixpoint flood (t : ChunkTag) (s : marks) (fuel : nat) : result marks :=
  match fuel with
  | O => Die OutOfFuel
  | S fuel =>
      match frontier s with
      | [] => Ok s
      | next_chunk :: rest =>
          m ← LsanMetadata (chunks s) next_chunk;
          s ← ScanRangeForPointers next_chunk (next_chunk +w requested_size m) true t (Marks (chunks s) rest);
          flood t s fuel
      end
  end.
Definition flood_fuel (s : marks) : nat := S (length (frontier s) + size (chunks s)).
Definition FloodFillTag (t : ChunkTag) (s : marks) : result marks := flood t s (flood_fuel s).

Definition MarkIndirectlyLeakedCb (s : marks) (chunk : Z) : result marks :=
  let chunk := GetUserBegin chunk in
  m ← LsanMetadata (chunks s) chunk;
  if allocated m && bool_decide (tag m <> kReachable) then
    ScanRangeForPointers chunk (chunk +w requested_size m) false kIndirectlyLeaked s
  else Ok s.

Definition IgnoredSuppressedCb (suppressed : list Z) (s : marks) (chunk : Z) : result marks :=
  let chunk := GetUserBegin chunk in
  m ← LsanMetadata (chunks s) chunk;
  if negb (allocated m) || bool_decide (tag m = kIgnored) then Ok s
  else
    idx ← InternalLowerBound Z.ltb suppressed (stack_trace_id m);
    if bool_decide (suppressed !! idx = Some (stack_trace_id m))
    then Ok (Marks (set_tag (chunks s) chunk kIgnored) (frontier s))
    else Ok s.

Definition CollectIgnoredCb (s : marks) (chunk : Z) : result marks :=
  let chunk := GetUserBegin chunk in
  m ← LsanMetadata (chunks s) chunk;
  if allocated m && bool_decide (tag m = kIgnored) then Ok (Marks (chunks s) (chunk :: frontier s)) else Ok s.

Definition ClassifyAllChunks (suppressed_stacks : list Z) (regions : RootRegions) (s : marks) : result marks :=
  s ← (if bool_decide (suppressed_stacks = []) then Ok s else for_each (IgnoredSuppressedCb suppressed_stacks) s ForEachChunk);
  s ← for_each CollectIgnoredCb s ForEachChunk;
  s ← ProcessGlobalRegions s;
  s ← ProcessThreads s;
  s ← ProcessRootRegions regions s;
  s ← FloodFillTag kReachable s;
  s ← FloodFillTag kReachable s;
  for_each MarkIndirectlyLeakedCb s ForEachChunk.

Record LeakedChunk : Type := Leaked { chunk_ : Z; leaked_stack_id : Z; leaked_size : Z; leaked_tag : ChunkTag }.

Definition ResetTagsCb (h : heap) (chunk : Z) : result heap :=
  let chunk := GetUserBegin chunk in
  m ← LsanMetadata h chunk;
  if allocated m && bool_decide (tag m <> kIgnored) then Ok (set_tag h chunk kDirectlyLeaked) else Ok h.

Definition CollectLeaksCb (h : heap) (leaks : list LeakedChunk) (chunk : Z) : result (list LeakedChunk) :=
  let chunk := GetUserBegin chunk in
  m ← LsanMetadata h chunk;
  if negb (allocated m) then Ok leaks
  else if bool_decide (tag m = kDirectlyLeaked \/ tag m = kIndirectlyLeaked)
  then Ok (leaks ++ [Leaked chunk (stack_trace_id m) (requested_size m) (tag m)])
  else Ok leaks.

(** ReportUnsuspendedThreads: whether every running thread was stopped. *)
Definition ReportUnsuspendedThreads : result bool :=
  threads ← Sort Z.ltb (thread_id <$> suspended_threads);
  for_each (fun succeeded os_id =>
    i ← InternalLowerBound Z.ltb threads os_id;
    Ok (if bool_decide (threads !! i = Some os_id) then succeeded else false)) true GetRunningThreadsLocked.

(** The heap afterwards, the leaks, and [param->success]. *)
Definition CheckForLeaksCallback (thread_suspend_fail : Z) (suppressed_stacks : list Z) (regions : RootRegions) (h : heap)
  : result (heap * list LeakedChunk * bool) :=
  all ← ReportUnsuspendedThreads;
  if negb all && (thread_suspend_fail =? 0) then Ok (h, [], true)
  else if negb all && (thread_suspend_fail =? 2) then Ok (h, [], false)
  else
    s ← ClassifyAllChunks suppressed_stacks regions (Marks h []);
    leaks ← for_each (CollectLeaksCb (chunks s)) [] ForEachChunk;
    h ← for_each ResetTagsCb (chunks s) ForEachChunk;
    Ok (h, leaks, true).
End lsan.
