(* ===== verification/LsanScan.v ===== *)
(** * What a scan marks

    The effect of ScanForPointers: exactly the chunks that some aligned word
    of the range points into, the chunk at the start of the range apart, are
    marked and pushed, unless they were marked before. *)

From S2P Require Import Prelude Words Memory Sorting Ranges Lsan.

Lemma set_tag_lookup (h : heap) (c d : Z) (t : ChunkTag) :
  set_tag h c t !! d = if decide (d = c) then with_tag t <$> h !! d else h !! d.
Proof. unfold set_tag. case_decide; subst; [by rewrite lookup_alter_eq | by rewrite lookup_alter_ne]. Qed.

(** Heaps that differ in tags only. *)
Definition retagged : heap -> heap -> Prop := rtc (fun h h' => exists c t, h' = set_tag h c t).

Lemma retagged_trans (h h1 h2 : heap) : retagged h h1 -> retagged h1 h2 -> retagged h h2.
Proof. unfold retagged. by etransitivity. Qed.

Definition same_chunk (m m' : ChunkMetadata) : Prop :=
  allocated m = allocated m' /\ requested_size m = requested_size m' /\ stack_trace_id m = stack_trace_id m'.

Lemma retagged_lookup (h h' : heap) (c : Z) : retagged h h' ->
  match h !! c, h' !! c with Some m, Some m' => same_chunk m m' | None, None => True | _, _ => False end.
Proof.
  induction 1 as [h | h h1 h' (d & t & ->) _ IH]; [by destruct (h !! c) |].
  rewrite set_tag_lookup in IH. case_decide; [| done]. by destruct (h !! c), (h' !! c).
Qed.

Lemma retagged_Some (h h' : heap) (c : Z) (m : ChunkMetadata) : retagged h h' -> h !! c = Some m ->
  exists m', h' !! c = Some m' /\ same_chunk m m'.
Proof. intros Hr Hm. pose proof (retagged_lookup h h' c Hr) as H. rewrite Hm in H. destruct (h' !! c) as [m' |]; [by exists m' | done]. Qed.

Lemma retagged_Some_back (h h' : heap) (c : Z) (m' : ChunkMetadata) : retagged h h' -> h' !! c = Some m' ->
  exists m, h !! c = Some m /\ same_chunk m m'.
Proof. intros Hr Hm. pose proof (retagged_lookup h h' c Hr) as H. rewrite Hm in H. destruct (h !! c) as [m |]; [by exists m | done]. Qed.

(** The marks that stop a scan. *)
Definition stops (t : ChunkTag) : Prop := t = kReachable \/ t = kIgnored.
#[global] Instance stops_dec t : Decision (stops t).
Proof. unfold stops. apply _. Defined.
Definition unmarked (h : heap) (c : Z) : Prop := exists m, h !! c = Some m /\ ~ stops (tag m).
Definition unmarked_count (h : heap) : nat := size (filter (fun kv : Z * ChunkMetadata => ~ stops (tag kv.2)) h).

(** Marking one chunk that is not marked. *)
Lemma unmarked_count_set (h : heap) (c : Z) (t : ChunkTag) : unmarked h c -> stops t ->
  unmarked_count h = S (unmarked_count (set_tag h c t)).
Proof.
  intros (m & Hm & Hu) Ht. unfold unmarked_count.
  rewrite <- (insert_delete_id h c m Hm) at 1. rewrite map_filter_insert_True by done.
  rewrite map_size_insert_None by (apply map_lookup_filter_None; left; apply lookup_delete_eq). f_equal. f_equal.
  apply map_eq. intros d. destruct (decide (d = c)) as [-> | Hne].
  - transitivity (@None ChunkMetadata); [apply map_lookup_filter_None; left; apply lookup_delete_eq |].
    symmetry. apply map_lookup_filter_None. right. intros x. rewrite set_tag_lookup, decide_True, Hm by done. cbn. intros [= <-]. cbn. intros Hn. by apply Hn.
  - apply option_eq. intros x. rewrite !map_lookup_filter_Some, lookup_delete_ne, set_tag_lookup, decide_False by done. done.
Qed.

(** ** The effect of a scan *)

Record effect (P : Z -> Prop) (push : bool) (t : ChunkTag) (s s' : marks) (new : list Z) : Prop := {
  e_new c : c ∈ new <-> P c /\ unmarked (chunks s) c;
  e_chunks c : chunks s' !! c = if decide (c ∈ new) then with_tag t <$> chunks s !! c else chunks s !! c;
  e_frontier : frontier s' = (if push then new else []) ++ frontier s;
  e_retagged : retagged (chunks s) (chunks s');
  e_weight : push = true -> t = kReachable -> (length new + unmarked_count (chunks s') = unmarked_count (chunks s))%nat;
}.

Lemma effect_none (P : Z -> Prop) (push : bool) (t : ChunkTag) (s : marks) :
  (forall c, P c -> ~ unmarked (chunks s) c) -> effect P push t s s [].
Proof.
  intros HP. split.
  - intros c. split; [intros []%not_elem_of_nil | intros [H1 H2]; by destruct (HP c H1)].
  - intros c. rewrite decide_False; [done | apply not_elem_of_nil].
  - by destruct push.
  - done.
  - done.
Qed.

Lemma effect_unmarked (P : Z -> Prop) (push : bool) (t : ChunkTag) (s s' : marks) (new : list Z) (c : Z) :
  effect P push t s s' new -> unmarked (chunks s') c <-> unmarked (chunks s) c /\ (stops t -> ~ c ∈ new).
Proof.
  intros [Hn Hc _ _ _]. unfold unmarked. rewrite Hc. case_decide as Hin; [| tauto].
  specialize (proj1 (Hn c) Hin) as [_ (m & Hm & Hu)]. rewrite Hm. cbn. split.
  - intros (m' & [= <-] & Hm'). split; [by exists m | intros ?; by destruct Hm'].
  - intros [_ Ht]. exists (with_tag t m). split; [done |]. cbn. intros Hs. by apply Ht.
Qed.

Lemma effect_comp (P Q : Z -> Prop) (push : bool) (t : ChunkTag) (s s1 s2 : marks) (new1 new2 : list Z) :
  effect P push t s s1 new1 -> effect Q push t s1 s2 new2 -> effect (fun c => P c \/ Q c) push t s s2 (new2 ++ new1).
Proof.
  intros H1 H2. assert (Hu := fun c => effect_unmarked _ _ _ _ _ _ c H1).
  destruct H1 as [N1 C1 F1 R1 W1], H2 as [N2 C2 F2 R2 W2]. split.
  - intros c. rewrite elem_of_app, N2, Hu. destruct (decide (c ∈ new1)) as [Hin | Hout].
    + pose proof (proj1 (N1 c) Hin). tauto.
    + rewrite N1 in Hout |- *. tauto.
  - intros c. rewrite C2, C1. destruct (decide (c ∈ new2)) as [Hin2 | Hout2], (decide (c ∈ new1)) as [Hin1 | Hout1].
    + rewrite decide_True by (apply elem_of_app; by left). by destruct (chunks s !! c) as [[] |].
    + by rewrite decide_True by (apply elem_of_app; by left).
    + by rewrite decide_True by (apply elem_of_app; by right).
    + by rewrite decide_False by (rewrite elem_of_app; tauto).
  - rewrite F2, F1. destruct push; [by rewrite app_assoc | done].
  - by apply retagged_trans with (chunks s1).
  - intros Hp Ht. specialize (W1 Hp Ht). specialize (W2 Hp Ht). rewrite length_app. lia.
Qed.

Lemma effect_iff (P Q : Z -> Prop) (push : bool) (t : ChunkTag) (s s' : marks) (new : list Z) :
  (forall c, P c <-> Q c) -> effect P push t s s' new -> effect Q push t s s' new.
Proof. intros HPQ [N C F R W]. split; try done. intros c. by rewrite <- HPQ. Qed.

(** A loop whose turns each have an effect. *)
Lemma for_each_effect {A} (f : marks -> A -> result marks) (P : A -> Z -> Prop) (push : bool) (t : ChunkTag) (l : list A) (h : heap) (s : marks) :
  retagged h (chunks s) ->
  (forall x s, x ∈ l -> retagged h (chunks s) -> exists s' new, f s x = Ok s' /\ effect (P x) push t s s' new) ->
  exists s' new, for_each f s l = Ok s' /\ effect (fun c => exists x, x ∈ l /\ P x c) push t s s' new.
Proof.
  revert s. induction l as [| x l IH]; intros s Hr Hf; cbn [for_each].
  - exists s, []. split; [done |]. apply effect_none. intros c (x & []%not_elem_of_nil & _).
  - destruct (Hf x s ltac:(by left) Hr) as (s1 & new1 & -> & E1). rewrite Ok_bind.
    destruct (IH s1) as (s2 & new2 & Hs2 & E2).
    { apply retagged_trans with (chunks s); [done | apply (e_retagged _ _ _ _ _ _ E1)]. }
    { intros y s0 Hy. apply Hf. by right. }
    exists s2, (new2 ++ new1). split; [done |]. refine (effect_iff _ _ _ _ _ _ _ _ (effect_comp _ _ _ _ s s1 s2 _ _ E1 E2)).
    intros c. setoid_rewrite elem_of_cons. naive_solver.
Qed.

(** ** ScanForPointers *)

Section scan.
Context {T : LsanTool} {W : World} {A : LsanAllocator T}.

Lemma chunks_ok_retagged (h h' : heap) : retagged h h' -> chunks_ok h -> chunks_ok h'.
Proof. induction 1 as [| h h1 h' (c & t & ->) _ IH]; [done |]. intros H. by apply IH, chunks_ok_tag. Qed.

Lemma points_into_retagged (h h' : heap) (p : Z) : retagged h h' -> PointsIntoChunk h' p = PointsIntoChunk h p.
Proof. induction 1 as [| h h1 h' (c & t & ->) _ IH]; [done |]. by rewrite IH, points_into_tag. Qed.

(** Word [pp] of a range that starts at [begin] points into chunk [c]. *)
Definition candidate (h : heap) (begin : Z) (a : accessor) (pp c : Z) : Prop :=
  exists p, LoadPtr a pp = Ok p /\ MaybeUserPointer p = true /\ PointsIntoChunk h p = Ok c /\ c <> 0 /\ c <> begin /\
  (use_poisoned flags = true \/ WordIsPoisoned pp = false).

Lemma scan_word_effect (h : heap) (begin pp p : Z) (push : bool) (t : ChunkTag) (a : accessor) (s : marks) :
  chunks_ok h -> retagged h (chunks s) -> LoadPtr a pp = Ok p -> (push = true -> stops t) ->
  exists s' new, scan_word begin push t a pp s = Ok s' /\ effect (candidate h begin a pp) push t s s' new.
Proof.
  intros Hok Hr Hp Ht. unfold scan_word. rewrite Hp, Ok_bind.
  assert (Hskip : forall P : Prop, ~ P -> (forall c, candidate h begin a pp c -> unmarked (chunks s) c -> P) ->
    exists s' new, Ok s = Ok s' /\ effect (candidate h begin a pp) push t s s' new).
  { intros P HP Hc. exists s, []. split; [done |]. apply effect_none. eauto. }
  destruct (MaybeUserPointer p) eqn:Hmaybe; cbn [negb].
  2: { apply (Hskip False); [tauto |]. intros c (q & Hq & Hm & _) _. rewrite Hp in Hq. injection Hq as <-. congruence. }
  destruct (points_into_chunk h p Hok) as (c & Hc & Halloc). rewrite (points_into_retagged h), Hc, Ok_bind by done.
  assert (Honly : forall d, candidate h begin a pp d -> d = c /\ c <> 0 /\ c <> begin /\ (use_poisoned flags = true \/ WordIsPoisoned pp = false)).
  { intros d (q & Hq & _ & Hd & H0 & Hb & Hpoi). rewrite Hp in Hq. injection Hq as <-. rewrite Hc in Hd. by injection Hd as <-. }
  destruct (Z.eqb_spec c 0) as [-> | Hc0]; [apply (Hskip False); [tauto |]; intros d Hd _; by apply Honly in Hd as (_ & ? & _) |].
  destruct (Z.eqb_spec c begin) as [-> | Hcb]; [apply (Hskip False); [tauto |]; intros d Hd _; by apply Honly in Hd as (_ & _ & ? & _) |].
  destruct (Halloc Hc0) as (m0 & Hm0 & _). destruct (retagged_Some _ _ _ _ Hr Hm0) as (m & Hm & _).
  unfold LsanMetadata. rewrite Hm, Ok_bind.
  case_bool_decide as Hst.
  { apply (Hskip False); [tauto |]. intros d Hd (m' & Hm' & Hu). apply Honly in Hd as (-> & _). rewrite Hm in Hm'. injection Hm' as <-. by apply Hu. }
  assert (Hun : unmarked (chunks s) c) by (by exists m).
  destruct (negb (use_poisoned flags) && WordIsPoisoned pp) eqn:Hpoi.
  { apply (Hskip False); [tauto |]. intros d Hd _. apply Honly in Hd as (_ & _ & _ & Hd). zb. destruct Hd; congruence. }
  eexists _, [c]. split; [done |].
  assert (Hcand : candidate h begin a pp c).
  { exists p. split_and!; try done. apply andb_false_iff in Hpoi as [Hpoi | Hpoi]; [left; by apply negb_false_iff | by right]. }
  split.
  - intros d. rewrite list_elem_of_singleton. split; [by intros -> | intros [Hd _]; by apply Honly in Hd as [? _]].
  - intros d. cbn. rewrite set_tag_lookup. destruct (decide (d = c)) as [-> | Hne].
    + by rewrite decide_True by (by left).
    + by rewrite decide_False by (rewrite list_elem_of_singleton; done).
  - cbn. by destruct push.
  - apply rtc_once. by exists c, t.
  - intros Hpush Htt. cbn. symmetry. apply unmarked_count_set; [done | by apply Ht].
Qed.

(** The aligned words of a range. *)
Definition aligned_word (begin end_ pp : Z) : Prop := begin <= pp /\ pp + 8 <= end_ /\ pp mod pointer_alignment flags = 0.

Lemma alignment_pos : 1 <= pointer_alignment flags <= 8.
Proof using Type. unfold pointer_alignment. destruct (use_unaligned flags); lia. Qed.

Lemma scan_loop_effect (h : heap) (begin end_ : Z) (push : bool) (t : ChunkTag) (a : accessor) (pp : Z) (s : marks) (fuel : nat) :
  chunks_ok h -> retagged h (chunks s) -> (push = true -> stops t) -> 0 <= pp -> end_ + 16 < word_modulus -> pp < word_modulus - 8 ->
  pp mod pointer_alignment flags = 0 ->
  (forall pp, aligned_word begin end_ pp -> exists p, LoadPtr a pp = Ok p) -> begin <= pp ->
  (Z.to_nat (end_ - pp) < fuel)%nat ->
  exists s' new, scan_loop begin end_ push t a pp s fuel = Ok s' /\
    effect (fun c => exists pp', aligned_word pp end_ pp' /\ candidate h begin a pp' c) push t s s' new.
Proof.
  intros Hok Hr Ht Hpp Hend Hbig Hal Hload Hbegin Hfuel. revert pp s Hr Hpp Hbig Hal Hbegin Hfuel.
  induction fuel as [| fuel IH]; intros pp s Hr Hpp Hbig Hal Hbegin Hfuel; [lia |]. cbn [scan_loop].
  pose proof alignment_pos as Ha. unfold word_modulus in *.
  rewrite (wrap_small (pp + 8)) by (unfold is_uptr, word_modulus; lia).
  destruct (Z.leb_spec (pp + 8) end_) as [Hle | Hgt].
  2: { exists s, []. split; [done |]. apply effect_none. intros c (pp' & (? & ? & _) & _). lia. }
  destruct (Hload pp) as [p Hp]; [done |].
  destruct (scan_word_effect h begin pp p push t a s Hok Hr Hp Ht) as (s1 & new1 & -> & E1). rewrite Ok_bind.
  rewrite wrap_small by (unfold is_uptr, word_modulus; lia).
  destruct (IH (pp + pointer_alignment flags) s1) as (s2 & new2 & -> & E2); try lia.
  { apply retagged_trans with (chunks s); [done | apply (e_retagged _ _ _ _ _ _ E1)]. }
  { rewrite Z.add_mod, Hal, Z.mod_same by lia. by rewrite Z.mod_0_l by lia. }
  exists s2, (new2 ++ new1). split; [done |]. refine (effect_iff _ _ _ _ _ _ _ _ (effect_comp _ _ _ _ s s1 s2 _ _ E1 E2)).
  intros c. split.
  - intros [Hc | (pp' & (? & ? & ?) & Hc)]; [exists pp | exists pp']; (split; [| done]); split_and!; try done; lia.
  - intros (pp' & (H1 & H2 & H3) & Hc). destruct (decide (pp' = pp)) as [-> |]; [by left | right].
    exists pp'. split; [| done]. split_and!; try done.
    apply Z.mod_divide in H3 as [j ->]; [| lia]. apply Z.mod_divide in Hal as [i ->]; [| lia]. assert (i < j) by nia. nia.
Qed.

Lemma first_word_spec (begin : Z) : 0 <= begin -> begin + 16 < word_modulus ->
  begin <= first_word begin < begin + 8 /\ first_word begin mod pointer_alignment flags = 0 /\
  forall pp, begin <= pp -> pp mod pointer_alignment flags = 0 -> first_word begin <= pp.
Proof.
  intros Hb Hw. unfold first_word. pose proof alignment_pos as Ha. set (al := pointer_alignment flags) in *.
  pose proof (Z.mod_pos_bound begin al ltac:(lia)) as Hm. pose proof (Z.div_mod begin al ltac:(lia)) as Hdiv.
  destruct (Z.eqb_spec (begin mod al) 0) as [H0 | H0]; cbn [negb].
  - split; [lia |]. split; [done |]. auto.
  - rewrite (wrap_small (begin + al)) by (unfold is_uptr; lia). rewrite wrap_small by (unfold is_uptr; lia).
    replace (begin + al - begin mod al) with (al * (begin / al + 1)) by lia.
    split; [lia |]. split; [rewrite Z.mul_comm; by rewrite Z.mod_mul by lia |].
    intros pp Hpp Hal. apply Z.mod_divide in Hal as [j ->]; [| lia].
    assert (begin / al < j) by nia. nia.
Qed.

(** Chunk [c] is pointed to from the range. *)
Definition points_from (h : heap) (a : accessor) (begin end_ c : Z) : Prop :=
  exists a' pp, Init a begin end_ = Ok a' /\ aligned_word begin end_ pp /\ candidate h begin a' pp c.

(** A range that the accessor can read. *)
Definition scannable (a : accessor) (begin end_ : Z) : Prop :=
  0 <= begin /\ begin + 16 < word_modulus /\ end_ + 16 < word_modulus /\ exists a', Init a begin end_ = Ok a'.

Lemma LoadPtr_ok (a a' : accessor) (begin end_ pp : Z) : scannable a begin end_ -> Init a begin end_ = Ok a' ->
  begin <= pp -> pp + 8 <= end_ -> exists p, LoadPtr a' pp = Ok p.
Proof.
  intros (Hb & Hb' & He & _) Hi H1 H2. destruct a as [| b e buffer]; cbn in Hi; [injection Hi as <-; by eexists |].
  inv_ok. cbn. rewrite !wrap_small by (unfold is_uptr; repeat rewrite wrap_small; unfold is_uptr; lia).
  rewrite check_true by (apply Z.leb_le; lia). by eexists.
Qed.

Lemma ScanForPointers_effect (h : heap) (begin end_ : Z) (push : bool) (t : ChunkTag) (a : accessor) (s : marks) :
  chunks_ok h -> retagged h (chunks s) -> t = kReachable \/ (push = false /\ t = kIndirectlyLeaked) -> scannable a begin end_ ->
  exists s' new, ScanForPointers begin end_ push t a s = Ok s' /\ effect (points_from h a begin end_) push t s s' new.
Proof.
  intros Hok Hr Ht Hs. pose proof Hs as (Hb & Hb' & He & a' & Hi). unfold ScanForPointers.
  rewrite check_true by (apply bool_decide_true; tauto). rewrite Ok_bind, Hi, Ok_bind.
  destruct (first_word_spec begin Hb Hb') as ([F1 F2] & F3 & F4).
  destruct (scan_loop_effect h begin end_ push t a' (first_word begin) s (scan_fuel begin end_)) as (s' & new & Heq & E); try done.
  - intros ->. destruct Ht as [-> | [[=] _]]. by left.
  - lia.
  - lia.
  - intros pp (H1 & H2 & _). by apply (LoadPtr_ok a a' begin end_).
  - unfold scan_fuel. lia.
  - exists s', new. split; [done |]. eapply effect_iff; [| exact E]. intros c. unfold points_from. split.
    + intros (pp & (? & ? & ?) & Hc). exists a', pp. split; [done |]. split; [split_and!; try done; lia | done].
    + intros (a2 & pp & Ha2 & (? & ? & ?) & Hc). rewrite Hi in Ha2. injection Ha2 as <-. exists pp.
      split; [split_and!; try done; by apply F4 | done].
Qed.
End scan.

(** ** CopyMemoryAccessor *)

Section copy.
Context {W : World}.

Lemma copy_or_zero_ok (src n b e : Z) (dest : Z -> Z) : e <= b \/ (src <= b /\ e <= src + n) ->
  exists dest', copy_or_zero src n dest b e = Ok dest' /\
  forall i, dest' i = if (b - src <=? i) && (i <? e - src) then (if readable b e then memory_ (src + i) else 0) else dest i.
Proof. intros H. unfold copy_or_zero. case_guard as Hg; [| done]. cbn. by eexists. Qed.

(** Every byte of the copy is the byte of the source or zero. *)
Definition copied (src : Z) (dest : Z -> Z) : Prop := forall i, dest i = memory_ (src + i) \/ dest i = 0.

Lemma copy_or_zero_copied (src n b e : Z) (dest : Z -> Z) : e <= b \/ (src <= b /\ e <= src + n) -> copied src dest ->
  exists dest', copy_or_zero src n dest b e = Ok dest' /\ copied src dest'.
Proof.
  intros H Hc. destruct (copy_or_zero_ok src n b e dest H) as (dest' & -> & Hd). exists dest'. split; [done |].
  intros i. rewrite Hd. destruct (_ && _); [destruct (readable b e); tauto | apply Hc].
Qed.

Lemma copy_pages_copied (src n p e_down : Z) (dest : Z -> Z) (fuel : nat) :
  0 < page_size -> 0 <= src <= p -> e_down <= src + n -> e_down + page_size < word_modulus -> (e_down - p) mod page_size = 0 ->
  (e_down - p) / page_size < Z.of_nat fuel -> (0 < fuel)%nat -> copied src dest ->
  exists dest', copy_pages src n dest p e_down fuel = Ok dest' /\ copied src dest'.
Proof.
  intros Hps. revert p dest. induction fuel as [| fuel IH]; intros p dest Hp He Hw Hmod Hf Hf0 Hc; [lia |]. cbn [copy_pages].
  destruct (Z.ltb_spec p e_down) as [Hlt |]; [| by eexists].
  assert (Hps' : page_size <> 0) by lia. pose proof (Z.div_mod (e_down - p) page_size Hps') as Hdiv. rewrite Hmod, Z.add_0_r in Hdiv.
  set (q := (e_down - p) / page_size) in *. clearbody q. clear Hmod.
  assert (Hq : 1 <= q) by nia. assert (Hle : p + page_size <= e_down) by nia.
  rewrite wrap_small by (unfold is_uptr; lia).
  destruct (copy_or_zero_copied src n p (p + page_size) dest) as (d1 & -> & Hc1); [right; lia | done |]. rewrite Ok_bind.
  assert (Hnext : e_down - (p + page_size) = page_size * (q - 1)) by lia.
  apply IH; try done; try lia; rewrite ?Hnext; try lia.
  - by rewrite Z.mul_comm, Z.mod_mul by lia.
  - rewrite Z.mul_comm, Z.div_mul by lia. lia.
Qed.

(** A range that reaches over the end of a page is copied without leaving the
    destination ... *)
Lemma MemCpyAccessible_ok (src n : Z) : pow2_word page_size -> 0 <= src -> 0 <= n -> src + n + 2 * page_size < word_modulus ->
  RoundDownTo src page_size < RoundDownTo (src + n) page_size \/ readable src (src + n) = true ->
  exists dest, MemCpyAccessible (fun _ => 0) src n = Ok dest /\ copied src dest.
Proof.
  intros Hpow Hs Hn Hw Hcase. pose proof (pow2_word_range _ Hpow) as Hps. unfold MemCpyAccessible.
  rewrite (wrap_small (src + n)) by (unfold is_uptr; lia).
  destruct (readable src (src + n)) eqn:Hread.
  { eexists. split; [done |]. intros i. destruct (_ && _); auto. }
  destruct Hcase as [Hcase |]; [| done].
  destruct (RoundUpTo_nowrap src page_size) as (up & -> & Hup & Hmod); [done | done | lia |]. rewrite Ok_bind.
  rewrite !RoundDownTo_spec in * by (done || unfold is_uptr; lia).
  set (P := page_size) in *. set (e := src + n) in *.
  assert (Hsrc : src - src mod P = P * (src / P)) by (pose proof (Z.div_mod src P ltac:(lia)); lia).
  assert (He : e - e mod P = P * (e / P)) by (pose proof (Z.div_mod e P ltac:(lia)); lia).
  assert (Hupq : up = P * (up / P)) by (pose proof (Z.div_mod up P ltac:(lia)); lia).
  pose proof (Z.mod_pos_bound src P ltac:(lia)). pose proof (Z.mod_pos_bound e P ltac:(lia)).
  rewrite Hsrc, He in Hcase. rewrite He.
  assert (Hab : src / P < e / P) by nia. assert (Hu : src / P <= up / P <= src / P + 1) by nia.
  destruct (copy_or_zero_copied src n src up (fun _ => 0)) as (d1 & -> & H1); [right; nia | intros i; by right |]. rewrite Ok_bind.
  assert (Hdiff : P * (e / P) - up = P * (e / P - up / P)) by lia.
  destruct (copy_pages_copied src n up (P * (e / P)) d1 (S (Z.to_nat (n / P + 1)))) as (d2 & -> & H2); fold P; rewrite ?Hdiff; try done; try lia; try nia.
  - by rewrite Z.mul_comm, Z.mod_mul by lia.
  - rewrite Z.mul_comm, Z.div_mul by lia. assert (Hn' : e / P - src / P - 1 <= n / P) by (apply Z.div_le_lower_bound; nia). lia.
  - rewrite Ok_bind. apply copy_or_zero_copied; [right; nia | done].
Qed.
End copy.

(** ... but one inside a single page that cannot be read is not: the pieces
    before and after the page boundaries reach out of it. *)
Lemma MemCpyAccessible_overruns :
  MemCpyAccessible (W := {| memory_ := fun _ => 0; readable := fun _ _ => false; accessible := fun _ => false; page_size := 4096;
    writable_segments := []; mapped_regions := []; caller_tid := 0; caller_sp := 0; suspended_threads := [] |}) (fun _ => 0) 4104 8 = Die BadAccess.
Proof. vm_compute. reflexivity. Qed.
