(* ===== verification/LsanRoots.v ===== *)
(** * The roots of the leak check

    [roots] lists the ranges that the check treats as reachable memory; the
    functions that walk over globals, threads and root regions mark exactly
    the chunks those ranges point into. *)

From S2P Require Import Prelude Words Memory Sorting Ranges Lsan LsanScan.

(** Searching a sorted array for a value. *)
Lemma find_sorted (v : list Z) (x : Z) : sorted Z.ltb v ->
  exists i, InternalLowerBound Z.ltb v x = Ok i /\ (v !! i = Some x <-> x ∈ v).
Proof.
  intros Hs. destruct (lower_bound_spec Z.ltb v x 0 (length v) (S (length v)) Hs) as (i & Hi & Hle & Hlo & Hhi); try lia.
  { intros k y Hk Hy. apply lookup_lt_Some in Hy. lia. }
  exists i. split; [exact Hi |]. split; [by apply list_elem_of_lookup_2 |].
  intros (k & Hk)%list_elem_of_lookup_1. destruct (decide (k < i)%nat) as [Hlt | Hge].
  - specialize (Hlo k x Hlt Hk). apply Z.ltb_lt in Hlo. lia.
  - destruct (decide (k = i)) as [-> |]; [done |]. pose proof (lookup_lt_Some _ _ _ Hk).
    destruct (lookup_lt_is_Some_2 v i) as [y Hy]; [lia |].
    pose proof (Hs i k ltac:(lia) ltac:(lia) y x Hy Hk) as H1. specialize (Hhi i y ltac:(done) Hy).
    apply Z.ltb_ge in H1, Hhi. rewrite Hy. f_equal. lia.
Qed.

Section roots.
Context {T : LsanTool} {W : World}.

Definition stack_from (r : thread_ranges) (sp : Z) : Z :=
  if (sp <? stack_begin r) || (stack_end r <=? sp)
  then match skip_guard (stack_begin r) (stack_end r) (S (Z.to_nat (stack_end r - stack_begin r))) with Ok b => b | Die _ => stack_end r end
  else sp.
Definition tls_roots (r : thread_ranges) : list Range :=
  if tls_begin r =? 0 then []
  else if (cache_begin r =? cache_end r) || (tls_end r <? cache_begin r) || (cache_end r <? tls_begin r)
  then [MkRange (tls_begin r) (tls_end r)]
  else (if tls_begin r <? cache_begin r then [MkRange (tls_begin r) (cache_begin r)] else []) ++
       (if cache_end r <? tls_end r then [MkRange (cache_end r) (tls_end r)] else []).
Definition dtls_roots (r : thread_ranges) : list Range :=
  match dtls r with
  | Some dtvs => dtvs ≫= fun '(beg, size) => if beg <? beg +w size then [MkRange beg (beg +w size)] else []
  | None => []
  end.
Definition thread_roots (os_id sp : Z) (regs : Range) : list Range :=
  match GetThreadRangesLocked os_id with
  | None => []
  | Some r =>
      (if use_registers flags then [regs] else []) ++
      (if use_stacks flags then MkRange (stack_from r (if sp =? 0 then stack_begin r else sp)) (stack_end r) :: GetThreadExtraStackRangesLocked os_id else []) ++
      (if use_tls flags then tls_roots r ++ dtls_roots r else [])
  end.

(** Threads whose ranges are scanned while they are stopped, and those that
    could not be stopped. *)
Definition thread_done (th : suspended_thread) : bool :=
  match have_registers th with REGISTERS_UNAVAILABLE_FATAL => false | _ => true end.
Definition known_sp (th : suspended_thread) : Z :=
  if thread_id th =? caller_tid then caller_sp
  else match have_registers th with REGISTERS_AVAILABLE => sp_ th | _ => 0 end.
Definition done_tids : list Z := thread_id <$> filter (fun th => thread_done th = true) suspended_threads.
Definition detached_tids : list Z :=
  if use_detached flags then filter (fun os_id => ~ os_id ∈ done_tids) GetRunningThreadsLocked else [].

(** A writable segment without the allocator's own globals. *)
Definition global_roots (r : Range) : list Range :=
  let '(ab, ae) := GetAllocatorGlobalRange in
  if (begin_ r <=? ab) && (ab <? end_ r) then
    (if begin_ r <? ab then [MkRange (begin_ r) ab] else []) ++ (if ae <? end_ r then [MkRange ae (end_ r)] else [])
  else [r].

Definition region_roots (regions : RootRegions) : list Range :=
  if negb (use_root_regions flags) || negb (HasRootRegions regions) then []
  else match Intersect mapped_regions (root_regions regions) with Ok l => l | Die _ => [] end.

Definition roots (regions : RootRegions) : list (accessor * Range) :=
  (pair Direct <$> (if use_globals flags then writable_segments ≫= global_roots else [])) ++
  (pair Direct <$> (filter (fun th => thread_done th = true) suspended_threads ≫= fun th => thread_roots (thread_id th) (known_sp th) (registers th))) ++
  (pair copy_accessor <$> (detached_tids ≫= fun os_id => thread_roots os_id (if os_id =? caller_tid then caller_sp else 0) (MkRange 0 0))) ++
  (pair Direct <$> region_roots regions).

(** What the tool and the system may say. *)
Record world_ok (regions : RootRegions) : Prop := {
  w_page : 0 < page_size;
  w_allocator : forall r, r ∈ writable_segments -> let '(ab, ae) := GetAllocatorGlobalRange in
    begin_ r <= ab < end_ r -> ab <= ae <= end_ r;
  w_stack os_id r : GetThreadRangesLocked os_id = Some r -> 0 <= stack_begin r /\ stack_end r + page_size < word_modulus;
  w_regions r : r ∈ mapped_regions \/ r ∈ root_regions regions -> 0 <= begin_ r <= end_ r;
  w_roots a r : (a, r) ∈ roots regions -> scannable a (begin_ r) (end_ r);
}.

Lemma skip_guard_ok (b e : Z) (fuel : nat) : 0 < page_size -> 0 <= b -> e + page_size < word_modulus -> (Z.to_nat (e - b) < fuel)%nat ->
  exists b', skip_guard b e fuel = Ok b'.
Proof.
  intros Hp. revert b. induction fuel as [| fuel IH]; intros b Hb He Hf; [lia |]. cbn [skip_guard].
  destruct (Z.ltb_spec b e); [| by eexists]. destruct (negb (accessible b)); [| by eexists]. cbn [andb].
  rewrite wrap_small by (unfold is_uptr; lia). apply IH; lia.
Qed.

Context {A : LsanAllocator T} (h : heap) (Hok : chunks_ok h).

(** ** Functions that mark what a list of ranges points into *)

Definition pointed (l : list (accessor * Range)) (c : Z) : Prop :=
  exists ar, ar ∈ l /\ points_from h ar.1 (begin_ ar.2) (end_ ar.2) c.
Definition marks_from (f : marks -> result marks) (l : list (accessor * Range)) : Prop :=
  (forall a r, (a, r) ∈ l -> scannable a (begin_ r) (end_ r)) -> forall s, retagged h (chunks s) ->
  exists s' new, f s = Ok s' /\ effect (pointed l) true kReachable s s' new.

Lemma marks_from_nil : marks_from Ok [].
Proof.
  intros _ s _. exists s, []. split; [done |]. apply effect_none. intros c (ar & []%not_elem_of_nil & _).
Qed.

Lemma marks_from_scan (a : accessor) (r : Range) : marks_from (ScanForPointers (begin_ r) (end_ r) true kReachable a) [(a, r)].
Proof using Hok.
  intros Hs s Hr. destruct (ScanForPointers_effect h (begin_ r) (end_ r) true kReachable a s Hok Hr ltac:(by left)) as (s' & new & Heq & E).
  { apply Hs. by left. }
  exists s', new. split; [done |]. refine (effect_iff _ _ _ _ _ _ _ _ E). intros c. unfold pointed. setoid_rewrite list_elem_of_singleton. naive_solver.
Qed.

Lemma marks_from_bind (f g : marks -> result marks) (l1 l2 : list (accessor * Range)) :
  marks_from f l1 -> marks_from g l2 -> marks_from (fun s => s ← f s; g s) (l1 ++ l2).
Proof using Type.
  intros Hf Hg Hs s Hr. destruct (Hf (fun a r Hin => Hs a r (proj2 (elem_of_app _ _ _) (or_introl Hin))) s Hr) as (s1 & n1 & -> & E1). rewrite Ok_bind.
  destruct (Hg (fun a r Hin => Hs a r (proj2 (elem_of_app _ _ _) (or_intror Hin))) s1) as (s2 & n2 & -> & E2).
  { apply retagged_trans with (chunks s); [done | apply (e_retagged _ _ _ _ _ _ E1)]. }
  exists s2, (n2 ++ n1). split; [done |]. refine (effect_iff _ _ _ _ _ _ _ _ (effect_comp _ _ _ _ s s1 s2 _ _ E1 E2)).
  intros c. unfold pointed. setoid_rewrite elem_of_app. naive_solver.
Qed.

Lemma marks_from_for_each {B} (f : marks -> B -> result marks) (F : B -> list (accessor * Range)) (l : list B) :
  (forall x, x ∈ l -> marks_from (fun s => f s x) (F x)) -> marks_from (fun s => for_each f s l) (l ≫= F).
Proof using Type.
  induction l as [| x l IH]; intros Hf; [apply marks_from_nil |].
  apply (marks_from_bind (fun s => f s x) (fun s => for_each f s l)); [apply Hf; by left | apply IH; intros y Hy; apply Hf; by right].
Qed.

Lemma marks_from_if (b : bool) (f g : marks -> result marks) (l1 l2 : list (accessor * Range)) :
  marks_from f l1 -> marks_from g l2 -> marks_from (fun s => if b then f s else g s) (if b then l1 else l2).
Proof using Type. by destruct b. Qed.

Lemma marks_from_ext (f g : marks -> result marks) (l l' : list (accessor * Range)) :
  (forall s, f s = g s) -> l = l' -> marks_from g l' -> marks_from f l.
Proof using Type. intros Hfg -> Hg Hs s Hr. rewrite Hfg. by apply Hg. Qed.

Lemma bind_pair {B} (a : accessor) (F : B -> list Range) (l : list B) :
  pair a <$> (l ≫= F) = l ≫= fun x => pair a <$> F x.
Proof using Type. induction l as [| x l IH]; [done |]. cbn. by rewrite fmap_app, <- IH. Qed.

(** ** The roots, one kind at a time *)

Lemma marks_from_scan_range (b e : Z) : marks_from (ScanRangeForPointers b e true kReachable) (pair Direct <$> [MkRange b e]).
Proof using Hok. apply (marks_from_scan Direct (MkRange b e)). Qed.

Lemma ScanRanges_marks (l : list Range) (a : accessor) : marks_from (ScanRanges l a) (pair a <$> l).
Proof using Hok.
  apply (marks_from_ext _ (fun s => for_each (fun s r => ScanForPointers (begin_ r) (end_ r) true kReachable a s) s l) _ (l ≫= fun r => [(a, r)])); [done | |].
  - induction l as [| r l IH]; [done |]. cbn. by rewrite IH.
  - apply marks_from_for_each. intros r _. apply marks_from_scan.
Qed.

Context (regions : RootRegions) (Hw : world_ok regions).

Lemma ProcessGlobalRegions_marks : marks_from ProcessGlobalRegions (pair Direct <$> (if use_globals flags then writable_segments ≫= global_roots else [])).
Proof using Hok Hw.
  unfold ProcessGlobalRegions. destruct (use_globals flags); cbn [negb]; [| apply marks_from_nil].
  rewrite bind_pair. apply marks_from_for_each. intros r Hr. pose proof (w_allocator _ Hw r Hr) as Hal.
  unfold ScanGlobalRange, global_roots. destruct GetAllocatorGlobalRange as [ab ae].
  destruct ((begin_ r <=? ab) && (ab <? end_ r)) eqn:Hin; cbn [negb]; [| destruct r; apply marks_from_scan_range].
  zb. destruct Hal as [H1 H2]; [done |].
  rewrite (proj2 (Z.leb_le _ _) H1), (proj2 (Z.leb_le _ _) H2), fmap_app. cbn [check].
  refine (marks_from_bind (fun s => if begin_ r <? ab then ScanRangeForPointers (begin_ r) ab true kReachable s else Ok s)
    (fun s => if ae <? end_ r then ScanRangeForPointers ae (end_ r) true kReachable s else Ok s) _ _ _ _).
  - destruct (begin_ r <? ab); [apply marks_from_scan_range | apply marks_from_nil].
  - destruct (ae <? end_ r); [apply marks_from_scan_range | apply marks_from_nil].
Qed.

Lemma scan_stack_marks (r : thread_ranges) (os_id sp : Z) (a : accessor) : GetThreadRangesLocked os_id = Some r ->
  marks_from (scan_stack r os_id sp a) (pair a <$> (MkRange (stack_from r sp) (stack_end r) :: GetThreadExtraStackRangesLocked os_id)).
Proof using Hok Hw.
  intros Hr. destruct (w_stack _ Hw os_id r Hr) as [Hb He].
  apply (marks_from_ext _ (fun s => s ← ScanForPointers (stack_from r sp) (stack_end r) true kReachable a s; ScanRanges (GetThreadExtraStackRangesLocked os_id) a s)
    _ ([(a, MkRange (stack_from r sp) (stack_end r))] ++ (pair a <$> GetThreadExtraStackRangesLocked os_id))); [| done |].
  - intros s. unfold scan_stack, stack_from. destruct ((sp <? stack_begin r) || (stack_end r <=? sp)); [| by rewrite Ok_bind].
    destruct (skip_guard_ok (stack_begin r) (stack_end r) (S (Z.to_nat (stack_end r - stack_begin r)))) as [b ->]; try done; [apply (w_page _ Hw) | lia].
  - apply marks_from_bind; [apply (marks_from_scan a (MkRange (stack_from r sp) (stack_end r))) | apply ScanRanges_marks].
Qed.

Lemma scan_tls_marks (r : thread_ranges) (a : accessor) : marks_from (scan_tls r a) (pair a <$> (tls_roots r ++ dtls_roots r)).
Proof using Hok.
  rewrite fmap_app. unfold scan_tls.
  assert (Hscan : forall b e, marks_from (ScanForPointers b e true kReachable a) (pair a <$> [MkRange b e])) by (intros b e; apply (marks_from_scan a (MkRange b e))).
  refine (marks_from_bind (fun s => if tls_begin r =? 0 then Ok s
       else if (cache_begin r =? cache_end r) || (tls_end r <? cache_begin r) || (cache_end r <? tls_begin r)
       then ScanForPointers (tls_begin r) (tls_end r) true kReachable a s
       else
         s ← (if tls_begin r <? cache_begin r then ScanForPointers (tls_begin r) (cache_begin r) true kReachable a s else Ok s);
         if cache_end r <? tls_end r then ScanForPointers (cache_end r) (tls_end r) true kReachable a s else Ok s)
    (fun s => match dtls r with
      | Some dtvs => for_each (fun s '(dtls_beg, size) =>
          let dtls_end := dtls_beg +w size in
          if dtls_beg <? dtls_end then ScanForPointers dtls_beg dtls_end true kReachable a s else Ok s) s dtvs
      | None => Ok s
      end) _ _ _ _).
  - unfold tls_roots. destruct (tls_begin r =? 0); [apply marks_from_nil |].
    destruct ((cache_begin r =? cache_end r) || _ || _); [apply Hscan |]. rewrite fmap_app.
    apply (marks_from_bind (fun s => if tls_begin r <? cache_begin r then ScanForPointers (tls_begin r) (cache_begin r) true kReachable a s else Ok s)
      (fun s => if cache_end r <? tls_end r then ScanForPointers (cache_end r) (tls_end r) true kReachable a s else Ok s)).
    + destruct (tls_begin r <? cache_begin r); [apply Hscan | apply marks_from_nil].
    + destruct (cache_end r <? tls_end r); [apply Hscan | apply marks_from_nil].
  - unfold dtls_roots. destruct (dtls r) as [dtvs |]; [| apply marks_from_nil]. rewrite bind_pair.
    apply marks_from_for_each. intros [beg size] _. cbv zeta. destruct (beg <? beg +w size); [apply Hscan | apply marks_from_nil].
Qed.

Lemma ProcessThread_marks (os_id sp : Z) (regs : Range) (a : accessor) :
  marks_from (ProcessThread os_id sp regs a) (pair a <$> thread_roots os_id sp regs).
Proof using Hok Hw.
  unfold ProcessThread, thread_roots. destruct (GetThreadRangesLocked os_id) as [r |] eqn:Hr; [| apply marks_from_nil].
  rewrite !fmap_app. set (sp' := if sp =? 0 then stack_begin r else sp). cbv zeta.
  refine (marks_from_bind (fun s => if use_registers flags then ScanForPointers (begin_ regs) (end_ regs) true kReachable a s else Ok s)
    (fun s => s ← (if use_stacks flags then scan_stack r os_id sp' a s else Ok s); if use_tls flags then scan_tls r a s else Ok s) _ _ _ _).
  { destruct (use_registers flags); [apply marks_from_scan | apply marks_from_nil]. }
  refine (marks_from_bind (fun s => if use_stacks flags then scan_stack r os_id sp' a s else Ok s)
    (fun s => if use_tls flags then scan_tls r a s else Ok s) _ _ _ _).
  - destruct (use_stacks flags); [by apply scan_stack_marks | apply marks_from_nil].
  - destruct (use_tls flags); [apply scan_tls_marks | apply marks_from_nil].
Qed.

(** The loop over the suspended threads, with the list it builds. *)
Definition suspended_turn : marks * list Z -> suspended_thread -> result (marks * list Z) := fun '(s, done_threads) th =>
  match have_registers th with
  | REGISTERS_UNAVAILABLE_FATAL => Ok (s, done_threads)
  | status =>
      let sp := match status with REGISTERS_AVAILABLE => sp_ th | _ => 0 end in
      let sp := if thread_id th =? caller_tid then caller_sp else sp in
      s ← ProcessThread (thread_id th) sp (registers th) Direct s;
      Ok (s, if use_detached flags then done_threads ++ [thread_id th] else done_threads)
  end.

Lemma suspended_turn_eq (s : marks) (done_ : list Z) (th : suspended_thread) :
  suspended_turn (s, done_) th =
  if thread_done th then
    s ← ProcessThread (thread_id th) (known_sp th) (registers th) Direct s;
    Ok (s, if use_detached flags then done_ ++ [thread_id th] else done_)
  else Ok (s, done_).
Proof using Type. unfold suspended_turn, thread_done, known_sp. by destruct (have_registers th). Qed.

Lemma suspended_loop (l : list suspended_thread) (done_ : list Z) (s : marks) :
  for_each suspended_turn (s, done_) l =
  (s ← for_each (fun s th => ProcessThread (thread_id th) (known_sp th) (registers th) Direct s) s (filter (fun th => thread_done th = true) l);
   Ok (s, if use_detached flags then done_ ++ (thread_id <$> filter (fun th => thread_done th = true) l) else done_)).
Proof using Type.
  revert done_ s. induction l as [| th l IH]; intros done_ s; cbn [for_each].
  { cbn. destruct (use_detached flags); [by rewrite app_nil_r | done]. }
  rewrite suspended_turn_eq. destruct (thread_done th) eqn:Hth.
  - rewrite filter_cons_True by done. cbn [for_each].
    destruct (ProcessThread _ _ _ _ s) as [s1 |]; [| done]. rewrite !Ok_bind, IH. destruct (use_detached flags); [by rewrite <- app_assoc | done].
  - rewrite filter_cons_False by congruence. rewrite Ok_bind. apply IH.
Qed.

(** The two loops over threads. *)
Definition scan_threads (s : marks) : result marks :=
  s ← for_each (fun s th => ProcessThread (thread_id th) (known_sp th) (registers th) Direct s) s (filter (fun th => thread_done th = true) suspended_threads);
  for_each (fun s os_id => ProcessThread os_id (if os_id =? caller_tid then caller_sp else 0) (MkRange 0 0) copy_accessor s) s detached_tids.

Lemma detached_loop (v : list Z) (l : list Z) (s : marks) : sorted Z.ltb v -> (forall x, x ∈ v <-> x ∈ done_tids) ->
  for_each (fun s os_id =>
    i ← InternalLowerBound Z.ltb v os_id;
    if bool_decide (v !! i = Some os_id) then Ok s
    else ProcessThread os_id (if os_id =? caller_tid then caller_sp else 0) (MkRange 0 0) copy_accessor s) s l =
  for_each (fun s os_id => ProcessThread os_id (if os_id =? caller_tid then caller_sp else 0) (MkRange 0 0) copy_accessor s) s
    (filter (fun os_id => ~ os_id ∈ done_tids) l).
Proof using Type.
  intros Hsorted Hin. revert s. induction l as [| os_id l IH]; intros s; [done |]. cbn [for_each].
  destruct (find_sorted v os_id Hsorted) as (i & -> & Hi). rewrite Ok_bind. rewrite Hin in Hi.
  case_bool_decide as Hd.
  - rewrite filter_cons_False by tauto. rewrite Ok_bind. apply IH.
  - rewrite filter_cons_True by tauto. cbn [for_each].
    destruct (ProcessThread _ _ _ _ s) as [s2 |]; [| done]. rewrite !Ok_bind. apply IH.
Qed.

Lemma ProcessThreads_eq (s : marks) : ProcessThreads s = (s ← scan_threads s; ProcessThreadRegistry s).
Proof using Type.
  unfold ProcessThreads, scan_threads. change (for_each _ (s, []) suspended_threads) with (for_each suspended_turn (s, []) suspended_threads).
  rewrite suspended_loop. destruct (for_each _ s (filter _ _)) as [s1 |]; [| done]. rewrite !Ok_bind.
  unfold detached_tids. destruct (use_detached flags); [| done]. cbn [app]. fold done_tids.
  destruct (Sort_spec Z.ltb done_tids) as (v & -> & Hperm & Hsorted). rewrite Ok_bind.
  rewrite (detached_loop v) by (done || (intros x; by rewrite Hperm)). done.
Qed.

Definition threads_roots : list (accessor * Range) :=
  (pair Direct <$> (filter (fun th => thread_done th = true) suspended_threads ≫= fun th => thread_roots (thread_id th) (known_sp th) (registers th))) ++
  (pair copy_accessor <$> (detached_tids ≫= fun os_id => thread_roots os_id (if os_id =? caller_tid then caller_sp else 0) (MkRange 0 0))).

Lemma scan_threads_marks : marks_from scan_threads threads_roots.
Proof using Hok Hw.
  unfold threads_roots. rewrite !bind_pair. apply marks_from_bind.
  - apply (marks_from_for_each (fun s th => ProcessThread (thread_id th) (known_sp th) (registers th) Direct s)). intros th _. apply ProcessThread_marks.
  - apply (marks_from_for_each (fun s os_id => ProcessThread os_id (if os_id =? caller_tid then caller_sp else 0) (MkRange 0 0) copy_accessor s)).
    intros os_id _. apply ProcessThread_marks.
Qed.

Lemma ProcessRootRegions_marks : marks_from (ProcessRootRegions regions) (pair Direct <$> region_roots regions).
Proof using Hok Hw.
  unfold ProcessRootRegions, region_roots, ScanRootRegions. destruct (negb (use_root_regions flags) || _) eqn:Hoff; [apply marks_from_nil |].
  apply orb_false_iff in Hoff as [-> _].
  destruct (Intersect mapped_regions (root_regions regions)) as [l | d] eqn:Hl.
  - apply (marks_from_ext _ (ScanRanges l Direct) _ (pair Direct <$> l)); [done | done | apply ScanRanges_marks].
  - destruct (Intersect_returns mapped_regions (root_regions regions)) as [out Hout]; [intros r Hr; apply (w_regions _ Hw); by left | intros r Hr; apply (w_regions _ Hw); by right |].
    congruence.
Qed.
End roots.
