(* ===== verification/LsanSpecs.v ===== *)
(** * The leak check finds exactly the unreachable chunks

    [live] is reachability from the roots through memory words.  After the
    classification every chunk that is not live is tagged as leaked,
    indirectly iff another such chunk points to it, and the chunks collected
    are exactly those. *)

From S2P Require Import Prelude Words Memory Sorting Ranges Lsan LsanScan LsanRoots.

Section classify.
Context {T : LsanTool} {W : World} {A : LsanAllocator T}.
Context (regions : RootRegions) (suppressed : list Z) (h : heap).

Definition in_use (c : Z) : Prop := exists m, h !! c = Some m /\ allocated m = true.
(** __lsan_ignore_object, __lsan_disable or a suppression. *)
Definition ignored (c : Z) : Prop :=
  exists m, h !! c = Some m /\ allocated m = true /\ (tag m = kIgnored \/ stack_trace_id m ∈ suppressed).
(** A thread context refers to the chunk. *)
Definition thread_ptr (c : Z) : Prop := exists p, p ∈ GetAdditionalThreadContextPtrsLocked /\ PointsIntoChunk h p = Ok c /\ c <> 0.
(** Some word of chunk [d] points into chunk [c]. *)
Definition points_to (d c : Z) : Prop := exists m, h !! d = Some m /\ points_from h Direct d (d + requested_size m) c.

Inductive live : Z -> Prop :=
| live_ignored c : ignored c -> live c
| live_root c : pointed h (roots regions) c -> live c
| live_thread c : thread_ptr c -> live c
| live_step d c : live d -> in_use d -> points_to d c -> live c.

(** The tags before a check. *)
Definition pre_check : Prop := forall c m, h !! c = Some m -> allocated m = true -> tag m = kDirectlyLeaked \/ tag m = kIgnored.

Hypothesis (Hok : chunks_ok h).

Lemma points_from_in_use (a : accessor) (b e c : Z) : points_from h a b e c -> in_use c.
Proof using Hok.
  intros (a' & pp & _ & _ & p & _ & _ & Hc & H0 & _). destruct (points_into_chunk h p Hok) as (c' & Hc' & Hm).
  rewrite Hc in Hc'. injection Hc' as <-. by apply Hm.
Qed.

Lemma thread_ptr_in_use (c : Z) : thread_ptr c -> in_use c.
Proof using Hok.
  intros (p & _ & Hc & H0). destruct (points_into_chunk h p Hok) as (c' & Hc' & Hm).
  rewrite Hc in Hc'. injection Hc' as <-. by apply Hm.
Qed.

Lemma in_use_retagged (h' : heap) (c : Z) : retagged h h' -> in_use c <-> exists m, h' !! c = Some m /\ allocated m = true.
Proof using Type.
  intros Hr. split.
  - intros (m & Hm & Ha). destruct (retagged_Some _ _ _ _ Hr Hm) as (m' & Hm' & Hs & _). exists m'. by rewrite <- Hs.
  - intros (m & Hm & Ha). destruct (retagged_Some_back _ _ _ _ Hr Hm) as (m' & Hm' & Hs & _). exists m'. by rewrite Hs.
Qed.

Lemma chunk_scannable (h' : heap) (c : Z) (m : ChunkMetadata) : retagged h h' -> h' !! c = Some m ->
  scannable Direct c (c +w requested_size m) /\ c +w requested_size m = c + requested_size m.
Proof using Hok.
  intros Hr Hm. apply (chunks_ok_retagged _ _ Hr) in Hok as Hok'. destruct (chunk_range _ _ _ Hok' Hm) as (H1 & H2 & H3).
  rewrite wrap_small by (unfold is_uptr; lia). split; [| done]. repeat split; try lia. by exists Direct.
Qed.

(** ** Marks that grow *)

Definition stopped (s : marks) (c : Z) : Prop := exists m, chunks s !! c = Some m /\ stops (tag m).
Definition reachable_tag (s : marks) (c : Z) : Prop := exists m, chunks s !! c = Some m /\ tag m = kReachable.

(** Every chunk with a mark is live, and what it points to is marked too,
    except for the chunks of the frontier and of [Q]. *)
Record inv (Q : Z -> Prop) (s : marks) : Prop := {
  i_ret : retagged h (chunks s);
  i_tag c m : chunks s !! c = Some m -> allocated m = true ->
    tag m = kReachable \/ (tag m = kIgnored /\ ignored c) \/ (tag m = kDirectlyLeaked /\ ~ ignored c);
  i_live c m : chunks s !! c = Some m -> allocated m = true -> tag m = kReachable -> live c /\ (ignored c -> thread_ptr c);
  i_frontier c : c ∈ frontier s -> live c /\ in_use c;
  i_closed c : in_use c -> stopped s c -> c ∈ frontier s \/ Q c \/ forall d, points_to c d -> stopped s d;
}.

Section effect.
Context (P : Z -> Prop) (s s' : marks) (new : list Z) (E : effect P true kReachable s s' new).

Lemma stopped_effect (c : Z) : stopped s c -> stopped s' c.
Proof using E.
  intros (m & Hm & Hs). unfold stopped. rewrite (e_chunks _ _ _ _ _ _ E). case_decide as Hin; [| by exists m].
  rewrite Hm. eexists. split; [done |]. by left.
Qed.

Lemma reachable_effect (c : Z) : reachable_tag s c -> reachable_tag s' c.
Proof using E.
  intros (m & Hm & Hs). unfold reachable_tag. rewrite (e_chunks _ _ _ _ _ _ E). case_decide as Hin; [| by exists m].
  rewrite Hm. by eexists.
Qed.

Lemma pointed_stopped (c : Z) : retagged h (chunks s) -> in_use c -> P c -> stopped s' c.
Proof using E.
  intros Hr Hc HP. apply (in_use_retagged _ _ Hr) in Hc as (m & Hm & _). destruct (decide (stops (tag m))) as [Hs | Hs].
  - apply stopped_effect. by exists m.
  - unfold stopped. rewrite (e_chunks _ _ _ _ _ _ E), decide_True.
    + rewrite Hm. eexists. split; [done |]. by left.
    + apply (e_new _ _ _ _ _ _ E). split; [done |]. by exists m.
Qed.

Lemma inv_effect (Q : Z -> Prop) : inv Q s -> (forall c, P c -> live c /\ in_use c) ->
  inv Q s' /\ forall c, P c -> stopped s' c.
Proof using E.
  intros Hinv HP. pose proof Hinv as [Hr Ht Hl Hf Hc].
  assert (Hnew : forall c, c ∈ new -> live c /\ in_use c /\ unmarked (chunks s) c).
  { intros c Hin. apply (e_new _ _ _ _ _ _ E) in Hin as [H1 H2]. by destruct (HP c H1). }
  split; [| intros c Hc'; apply pointed_stopped; [done | by apply HP | done]]. split.
  - apply retagged_trans with (chunks s); [done | apply (e_retagged _ _ _ _ _ _ E)].
  - intros c m. rewrite (e_chunks _ _ _ _ _ _ E). case_decide as Hin; [| apply Ht].
    destruct (chunks s !! c); [| done]. intros [= <-]. by left.
  - intros c m. rewrite (e_chunks _ _ _ _ _ _ E). case_decide as Hin; [| apply Hl].
    destruct (chunks s !! c) as [m0 |] eqn:Hm0; [| done]. cbn. intros [= <-] Ha _. cbn in Ha.
    destruct (Hnew c Hin) as (Hlive & _ & m1 & Hm1 & Hu). rewrite Hm0 in Hm1. injection Hm1 as <-.
    split; [done |]. intros Hig. exfalso. apply Hu. destruct (Ht c m0 Hm0 Ha) as [? | [[? _] | [_ []]]]; [by left | by right | done].
  - intros c. rewrite (e_frontier _ _ _ _ _ _ E). intros [Hin | Hin]%elem_of_app; [by destruct (Hnew c Hin) as (? & ? & _) | by apply Hf].
  - intros c Hu (m & Hm & Hs). rewrite (e_frontier _ _ _ _ _ _ E), elem_of_app. rewrite (e_chunks _ _ _ _ _ _ E) in Hm. case_decide as Hin; [by left; left |].
    destruct (Hc c Hu) as [? | [? | Hcl]]; [by exists m | by left; right | by right; left |]. right. right. intros d Hd. by apply stopped_effect, Hcl.
Qed.
End effect.

(** ** Chunks that are ignored *)

Definition after_ignoring (s : marks) : Prop :=
  frontier s = [] /\ retagged h (chunks s) /\
  forall c m, chunks s !! c = Some m -> allocated m = true -> (tag m = kIgnored /\ ignored c) \/ (tag m = kDirectlyLeaked /\ ~ ignored c).

Hypothesis (Hpre : pre_check) (Hsup : sorted Z.ltb suppressed).

Lemma ignored_iff (c : Z) (m : ChunkMetadata) : h !! c = Some m -> allocated m = true ->
  ignored c <-> tag m = kIgnored \/ stack_trace_id m ∈ suppressed.
Proof using Type. intros Hm Ha. split; [intros (m' & Hm' & _ & H); by rewrite Hm in Hm'; injection Hm' as <- | intros H; by exists m]. Qed.

Lemma done_snoc (done : list Z) (x c : Z) : c ∈ GetUserBegin <$> (done ++ [x]) <-> c ∈ GetUserBegin <$> done \/ c = GetUserBegin x.
Proof using Type. by rewrite fmap_app, elem_of_app; cbn; rewrite list_elem_of_singleton. Qed.

Lemma ignore_phase : exists s,
  (if bool_decide (suppressed = []) then Ok (Marks h []) else for_each (IgnoredSuppressedCb suppressed) (Marks h []) ForEachChunk) = Ok s /\
  after_ignoring s.
Proof using Hok Hpre Hsup.
  case_bool_decide as Hnil.
  { exists (Marks h []). split; [done |]. split; [done |]. split; [done |]. cbn. intros c m Hm Ha. pose proof (ignored_iff c m Hm Ha) as Hi.
    assert (Hno : ~ stack_trace_id m ∈ suppressed) by (rewrite Hnil; apply not_elem_of_nil).
    destruct (Hpre c m Hm Ha) as [Htag | Htag]; [right | left]; (split; [done |]); rewrite Hi, Htag; [intros [[=] | ?]; done | by left]. }
  destruct (for_each_spec (IgnoredSuppressedCb suppressed) (fun done s => frontier s = [] /\ retagged h (chunks s) /\
    forall c m, h !! c = Some m -> allocated m = true ->
      chunks s !! c = Some (if decide (c ∈ GetUserBegin <$> done /\ stack_trace_id m ∈ suppressed) then with_tag kIgnored m else m))
    ForEachChunk (Marks h [])) as (s & Hs & Hf & Hr & Hc).
  - split; [done |]. split; [done |]. intros c m Hm _. cbn. rewrite decide_False; [done |]. intros [[]%not_elem_of_nil _].
  - intros done x rest s Hl (Hf & Hr & Hc).
    assert (Hx : x ∈ ForEachChunk) by (rewrite Hl; apply elem_of_app; right; by left).
    destruct (has_metadata h x Hok Hx) as [m0 Hm0]. destruct (retagged_Some _ _ _ _ Hr Hm0) as (m & Hm & Hsa & Hsz & Hst).
    unfold IgnoredSuppressedCb, LsanMetadata. rewrite Hm, Ok_bind.
    assert (Hfresh : ~ GetUserBegin x ∈ GetUserBegin <$> done).
    { pose proof each_once as Hnd. rewrite Hl, fmap_app in Hnd. apply NoDup_app in Hnd as (_ & Hnd & _). intros Hin. apply (Hnd _ Hin). by left. }
    assert (Hkeep : (allocated m0 = true -> tag m0 = kIgnored \/ ~ stack_trace_id m0 ∈ suppressed) -> forall c m, h !! c = Some m -> allocated m = true ->
      chunks s !! c = Some (if decide (c ∈ GetUserBegin <$> (done ++ [x]) /\ stack_trace_id m ∈ suppressed) then with_tag kIgnored m else m)).
    { intros Hno c m' Hm' Ha. rewrite (Hc c m' Hm' Ha). f_equal. pose proof (done_snoc done x c) as Hsn.
      destruct (decide (c = GetUserBegin x)) as [-> | Hne]; [| repeat case_decide; try done; tauto].
      rewrite Hm0 in Hm'. injection Hm' as <-. rewrite (decide_False (P := GetUserBegin x ∈ GetUserBegin <$> done /\ _)) by tauto. destruct (Hno Ha) as [Hig | Hns].
      - case_decide; [| done]. destruct m0; cbn in *; by subst.
      - rewrite decide_False by tauto. done. }
    destruct (negb (allocated m) || bool_decide (tag m = kIgnored)) eqn:Hskip.
    { eexists. split; [done |]. split; [done |]. split; [done |]. apply Hkeep. intros Ha. left.
      specialize (Hc _ _ Hm0 Ha). rewrite decide_False in Hc by tauto. rewrite Hm in Hc. injection Hc as ->.
      apply orb_true_iff in Hskip as [Hsk | Hsk%bool_decide_eq_true]; [by rewrite Ha in Hsk | done]. }
    destruct (find_sorted suppressed (stack_trace_id m) Hsup) as (i & -> & Hi). rewrite Ok_bind.
    clear Hskip. case_bool_decide as Hin; (eexists; split; [done |]); rewrite Hi in Hin.
    + split; [done |]. split; [apply retagged_trans with (chunks s); [done | apply rtc_once; by eexists _, _] |].
      intros c m' Hm' Ha. cbn. rewrite set_tag_lookup. rewrite (Hc c m' Hm' Ha). pose proof (done_snoc done x c) as Hsn.
      destruct (decide (c = GetUserBegin x)) as [-> | Hne]; [| repeat case_decide; try done; tauto].
      rewrite Hm0 in Hm'. injection Hm' as <-. rewrite (decide_False (P := GetUserBegin x ∈ GetUserBegin <$> done /\ _)) by tauto.
      rewrite decide_True; [done |]. rewrite Hst. tauto.
    + split; [done |]. split; [done |]. apply Hkeep. intros _. right. by rewrite Hst.
  - exists s. split; [done |]. split; [done |]. split; [done |]. intros c m Hm Ha.
    destruct (retagged_Some_back _ _ _ _ Hr Hm) as (m0 & Hm0 & Hsa & _). rewrite Ha in Hsa. pose proof (ignored_iff c m0 Hm0 Hsa) as Hi.
    pose proof (every_chunk h c m0 Hok Hm0 Hsa) as Hall. rewrite (Hc c m0 Hm0 Hsa) in Hm. injection Hm as <-.
    destruct (Hpre c m0 Hm0 Hsa) as [Ht | Ht]; case_decide as Hd; cbn; rewrite ?Ht; rewrite Ht in Hi; try (left; split; [done | tauto]).
    right. split; [done |]. intros [[=] | ?]%Hi; tauto.
Qed.

Lemma collect_phase (s : marks) : after_ignoring s ->
  exists s', for_each CollectIgnoredCb s ForEachChunk = Ok s' /\ inv (fun _ => False) s'.
Proof using Hok Hpre.
  intros (Hf & Hr & Ht).
  destruct (for_each_spec CollectIgnoredCb (fun done s' => chunks s' = chunks s /\ forall c, c ∈ frontier s' <-> c ∈ GetUserBegin <$> done /\ ignored c)
    ForEachChunk s) as (s' & Hs' & Hch & Hfr).
  - split; [done |]. rewrite Hf. intros c. cbn. rewrite elem_of_nil. tauto.
  - intros done x rest s0 Hl [Hch Hfr].
    assert (Hx : x ∈ ForEachChunk) by (rewrite Hl; apply elem_of_app; right; by left).
    destruct (has_metadata (chunks s) x (chunks_ok_retagged _ _ Hr Hok) Hx) as [m Hm].
    unfold CollectIgnoredCb, LsanMetadata. rewrite Hch, Hm, Ok_bind.
    assert (Hm' : allocated m = true -> tag m = kIgnored <-> ignored (GetUserBegin x)).
    { intros Ha. destruct (Ht _ _ Hm Ha) as [[? ?] | [-> ?]]; [done |]. split; [done | tauto]. }
    destruct (allocated m && bool_decide (tag m = kIgnored)) eqn:Hig; eexists; (split; [done |]).
    + apply andb_true_iff in Hig as [Ha Hig%bool_decide_eq_true]. split; [done |]. cbn. intros c.
      rewrite elem_of_cons, Hfr, done_snoc. apply Hm' in Hig; [| done]. naive_solver.
    + split; [done |]. intros c. rewrite Hfr, done_snoc.
      split; [tauto |]. intros [[? | ->] Hi]; [tauto |]. exfalso. pose proof Hi as (m1 & Hm1 & Ha1 & _).
      destruct (retagged_Some _ _ _ _ Hr Hm1) as (m2 & Hm2 & Hsa & _). rewrite Hm in Hm2. injection Hm2 as <-. rewrite Ha1 in Hsa.
      apply andb_false_iff in Hig as [? | Hig%bool_decide_eq_false]; [congruence |]. by apply Hig, Hm'.
  - exists s'. split; [done |]. split; rewrite ?Hch; try done.
    + intros c m Hm Ha. right. by apply Ht.
    + intros c m Hm Ha Hre. destruct (Ht c m Hm Ha) as [[? _] | [? _]]; congruence.
    + intros c (_ & Hi)%Hfr. split; [by apply live_ignored |]. destruct Hi as (m & ? & ? & _). by exists m.
    + intros c Hu (m & Hm & Hs). rewrite Hch in Hm. left. apply Hfr.
      assert (Ha : allocated m = true).
      { apply (in_use_retagged _ _ Hr) in Hu as (m' & Hm' & ?). rewrite Hm in Hm'. by injection Hm' as <-. }
      destruct (Ht c m Hm Ha) as [[_ Hi] | [Hd _]]; [| destruct Hs; congruence]. split; [| done].
      destruct Hu as (m0 & Hm0 & Ha0). by apply (every_chunk h c m0).
Qed.

(** ** Roots *)

Hypothesis (Hw : world_ok regions).

Lemma roots_phase (f : marks -> result marks) (l : list (accessor * Range)) (s : marks) : marks_from h f l ->
  (forall ar, ar ∈ l -> ar ∈ roots regions) -> inv (fun _ => False) s ->
  exists s', f s = Ok s' /\ inv (fun _ => False) s' /\ (forall c, pointed h l c -> stopped s' c) /\
    (forall c, stopped s c -> stopped s' c) /\ (forall c, reachable_tag s c -> reachable_tag s' c).
Proof using Hok Hw.
  intros Hf Hl Hinv. destruct (Hf (fun a r Hin => w_roots _ Hw a r (Hl _ Hin)) s (i_ret _ _ Hinv)) as (s' & new & Hs' & E).
  assert (HP : forall c, pointed h l c -> live c /\ in_use c).
  { intros c (ar & Har & Hp). split; [apply live_root; exists ar; auto | by apply points_from_in_use in Hp]. }
  destruct (inv_effect _ _ _ _ E _ Hinv HP) as [Hinv' Hstop]. exists s'. split_and!; try done.
  - apply (stopped_effect _ _ _ _ E).
  - apply (reachable_effect _ _ _ _ E).
Qed.

Lemma thread_phase (s : marks) : inv (fun _ => False) s ->
  exists s', ProcessThreadRegistry s = Ok s' /\ inv (fun _ => False) s' /\ (forall c, thread_ptr c -> reachable_tag s' c) /\
    (forall c, stopped s c -> stopped s' c).
Proof using Hok.
  intros Hinv. unfold ProcessThreadRegistry.
  destruct (for_each_spec (fun s ptr =>
    chunk ← PointsIntoChunk (chunks s) ptr;
    if chunk =? 0 then Ok s
    else
      m ← LsanMetadata (chunks s) chunk;
      if negb (allocated m) then Ok s
      else Ok (Marks (set_tag (chunks s) chunk kReachable) (chunk :: frontier s)))
    (fun done s' => inv (fun _ => False) s' /\ (forall p c, p ∈ done -> PointsIntoChunk h p = Ok c -> c <> 0 -> reachable_tag s' c) /\
      (forall c, stopped s c -> stopped s' c))
    GetAdditionalThreadContextPtrsLocked s) as (s' & Hs' & Hinv' & Hp & Hst).
  - split; [done |]. split; [intros p c []%not_elem_of_nil | done].
  - intros done p rest s0 Hl (Hi0 & Hp0 & Hst0). pose proof Hi0 as [Hr Ht Hlv Hf Hc].
    destruct (points_into_chunk h p Hok) as (c & Hpc & Hm). rewrite (points_into_retagged h), Hpc, Ok_bind by done.
    destruct (Z.eqb_spec c 0) as [-> | H0].
    { exists s0. split; [done |]. split; [done |]. split; [| done]. intros q d [Hq | ->%list_elem_of_singleton]%elem_of_app; [by apply Hp0 |]. congruence. }
    destruct (Hm H0) as (m0 & Hm0 & Ha0). destruct (retagged_Some _ _ _ _ Hr Hm0) as (m & Hmm & Hsa & _).
    unfold LsanMetadata. rewrite Hmm, Ok_bind, <- Hsa, Ha0. cbn [negb]. eexists. split; [done |].
    assert (Hptr : thread_ptr c) by (exists p; split; [rewrite Hl; apply elem_of_app; right; by left | done]).
    assert (Hset : forall d, set_tag (chunks s0) c kReachable !! d = if decide (d = c) then Some (with_tag kReachable m) else chunks s0 !! d).
    { intros d. rewrite set_tag_lookup. case_decide; [subst; by rewrite Hmm | done]. }
    assert (Hmono : forall d, stopped s0 d -> stopped (Marks (set_tag (chunks s0) c kReachable) (c :: frontier s0)) d).
    { intros d (md & Hmd & Hsd). unfold stopped. cbn. rewrite Hset. case_decide; [eexists; split; [done |]; by left | by exists md]. }
    split; [| split].
    + split; cbn.
      * apply retagged_trans with (chunks s0); [done |]. apply rtc_once. by exists c, kReachable.
      * intros d md. rewrite Hset. case_decide; [intros [= <-] _; by left | apply Ht].
      * intros d md. rewrite Hset. case_decide as Hd; [| apply Hlv]. intros _ _ _. subst d. split; [by apply live_thread | done].
      * intros d [-> | Hd]%elem_of_cons; [| by apply Hf]. split; [by apply live_thread | by exists m0].
      * intros d Hu (md & Hmd & Hsd). rewrite elem_of_cons. cbn in Hmd. rewrite Hset in Hmd. case_decide as Hd; [by left; left |].
        destruct (Hc d Hu) as [? | [[] | Hcl]]; [by exists md | by left; right |]. right. right. intros e He. by apply Hmono, Hcl.
    + intros q d [Hq | ->%list_elem_of_singleton]%elem_of_app Hd Hd0.
      * destruct (Hp0 q d Hq Hd Hd0) as (md & Hmd & Hsd). unfold reachable_tag. cbn. rewrite Hset. case_decide; [by eexists | by exists md].
      * rewrite Hpc in Hd. injection Hd as <-. unfold reachable_tag. cbn. rewrite Hset, decide_True by done. by eexists.
    + intros d Hd. by apply Hmono, Hst0.
  - exists s'. split_and!; try done. intros c (p & Hin & Hpc & H0). by apply (Hp p).
Qed.

(** ** The flood fill *)

Definition weight (s : marks) : nat := length (frontier s) + unmarked_count (chunks s).

Lemma flood_phase (fuel : nat) (s : marks) : (weight s < fuel)%nat -> inv (fun _ => False) s ->
  exists s', flood kReachable s fuel = Ok s' /\ inv (fun _ => False) s' /\ frontier s' = [] /\
    (forall c, stopped s c -> stopped s' c) /\ (forall c, reachable_tag s c -> reachable_tag s' c).
Proof using Hok.
  revert s. induction fuel as [| fuel IH]; intros s Hf Hinv; [lia |]. cbn [flood].
  destruct (frontier s) as [| n rest] eqn:Hfr; [by exists s |].
  destruct (i_frontier _ _ Hinv n) as [Hlive Huse]; [rewrite Hfr; by left |].
  apply (in_use_retagged _ _ (i_ret _ _ Hinv)) in Huse as Hm. destruct Hm as (m & Hm & Ha).
  unfold LsanMetadata. rewrite Hm, Ok_bind.
  destruct (chunk_scannable _ _ _ (i_ret _ _ Hinv) Hm) as [Hscan Heq].
  unfold ScanRangeForPointers.
  destruct (ScanForPointers_effect h n (n +w requested_size m) true kReachable Direct (Marks (chunks s) rest) Hok (i_ret _ _ Hinv) ltac:(by left) Hscan)
    as (s1 & new & -> & E). rewrite Ok_bind.
  assert (HP : forall c, points_from h Direct n (n +w requested_size m) c <-> points_to n c).
  { intros c. rewrite Heq. destruct (retagged_Some_back _ _ _ _ (i_ret _ _ Hinv) Hm) as (m0 & Hm0 & _ & Hsz & _). rewrite <- Hsz. split.
    - intros Hp. by exists m0.
    - intros (m1 & Hm1 & Hp). rewrite Hm0 in Hm1. by injection Hm1 as <-. }
  assert (Hinv0 : inv (fun c => c = n) (Marks (chunks s) rest)).
  { destruct Hinv as [Hr Ht Hl Hfi Hc]. split; try done.
    - intros c Hin. apply Hfi. rewrite Hfr. by right.
    - intros c Hu Hs. destruct (Hc c Hu Hs) as [Hin | [[] | Hcl]]; [| by right; right]. rewrite Hfr in Hin.
      apply elem_of_cons in Hin as [-> | Hin]; [by right; left | by left]. }
  destruct (inv_effect _ _ _ _ E _ Hinv0) as [Hinv1 Hstop1].
  { intros c Hc. split; [| by apply points_from_in_use in Hc]. apply HP in Hc. by apply (live_step n). }
  destruct (IH s1) as (s' & Hs' & Hinv' & Hfr' & Hmono & Hre).
  - unfold weight in *. rewrite (e_frontier _ _ _ _ _ _ E), length_app. pose proof (e_weight _ _ _ _ _ _ E eq_refl eq_refl) as Hwt.
    rewrite Hfr in Hf. cbn in *. lia.
  - destruct Hinv1 as [Hr Ht Hl Hfi Hc]. split; try done. intros c Hu Hs. destruct (Hc c Hu Hs) as [? | [-> | ?]]; [by left | | by right; right].
    right. right. intros d Hd. by apply Hstop1, HP.
  - exists s'. split_and!; try done; intros c Hc'; [apply Hmono; by apply (stopped_effect _ _ _ _ E) | apply Hre; by apply (reachable_effect _ _ _ _ E)].
Qed.

Lemma FloodFillTag_ok (s : marks) : inv (fun _ => False) s ->
  exists s', FloodFillTag kReachable s = Ok s' /\ inv (fun _ => False) s' /\ frontier s' = [] /\
    (forall c, stopped s c -> stopped s' c) /\ (forall c, reachable_tag s c -> reachable_tag s' c).
Proof using Hok.
  intros Hinv. apply flood_phase; [| done]. unfold flood_fuel, weight, unmarked_count.
  pose proof (map_size_filter (fun kv : Z * ChunkMetadata => ~ stops (tag kv.2)) (chunks s)). lia.
Qed.

(** What is marked in the end. *)
Record classified (s : marks) : Prop := {
  c_ret : retagged h (chunks s);
  c_frontier : frontier s = [];
  c_tag c m : chunks s !! c = Some m -> allocated m = true ->
    (tag m = kReachable /\ live c /\ (ignored c -> thread_ptr c)) \/
    (tag m = kIgnored /\ ignored c /\ ~ thread_ptr c) \/
    (tag m = kDirectlyLeaked /\ ~ live c);
}.

Lemma all_classified (s : marks) : inv (fun _ => False) s -> frontier s = [] ->
  (forall c, pointed h (roots regions) c -> stopped s c) -> (forall c, thread_ptr c -> reachable_tag s c) -> classified s.
Proof using Hok.
  intros [Hr Ht Hl Hf Hc] Hfr Hroot Hptr.
  assert (Hstop : forall c, live c -> stopped s c).
  { induction 1 as [c Hi | c Hp | c Hp | d c _ IH Hu Hd].
    - pose proof Hi as (m0 & Hm0 & Ha0 & _). destruct (retagged_Some _ _ _ _ Hr Hm0) as (m & Hm & Hsa & _). rewrite Ha0 in Hsa. exists m. split; [done |].
      destruct (Ht c m Hm (eq_sym Hsa)) as [? | [[? _] | [_ Hn]]]; [by left | by right | by destruct (Hn Hi)].
    - by apply Hroot.
    - destruct (Hptr c Hp) as (m & Hm & ?). exists m. split; [done | by left].
    - destruct (Hc d Hu IH) as [Hin | [[] | Hcl]]; [rewrite Hfr in Hin; by apply not_elem_of_nil in Hin | by apply Hcl]. }
  split; [done | done |]. intros c m Hm Ha. destruct (Ht c m Hm Ha) as [Hre | [[Hig Hi] | [Hdl Hni]]].
  - left. split; [done |]. by apply (Hl c m).
  - right. left. split; [done |]. split; [done |]. intros Hp. destruct (Hptr c Hp) as (m' & Hm' & Hre). rewrite Hm in Hm'. injection Hm' as <-. congruence.
  - right. right. split; [done |]. intros Hlive. destruct (Hstop c Hlive) as (m' & Hm' & Hs). rewrite Hm in Hm'. injection Hm' as <-. destruct Hs; congruence.
Qed.

(** ** Indirect leaks *)

(** [c] is pointed to from one of the leaked chunks [l]. *)
Definition from_leaked (l : list Z) (c : Z) : Prop := exists d, d ∈ l /\ in_use d /\ ~ live d /\ points_to d c.

Record leaks_marked (l : list Z) (s0 s : marks) : Prop := {
  lm_ret : retagged h (chunks s);
  lm_tag c m : chunks s !! c = Some m -> allocated m = true ->
    (stops (tag m) /\ chunks s0 !! c = Some m) \/
    (~ live c /\ (tag m = kIndirectlyLeaked /\ from_leaked l c \/ tag m = kDirectlyLeaked /\ ~ from_leaked l c));
}.

Lemma indirect_phase (s0 : marks) : classified s0 ->
  exists s, for_each MarkIndirectlyLeakedCb s0 ForEachChunk = Ok s /\ leaks_marked (GetUserBegin <$> ForEachChunk) s0 s.
Proof using Hok.
  intros [Hr0 _ Ht0].
  apply (for_each_spec MarkIndirectlyLeakedCb (fun done s => leaks_marked (GetUserBegin <$> done) s0 s)).
  - split; [done |]. intros c m Hm Ha. destruct (Ht0 c m Hm Ha) as [(? & _) | [(? & _) | (? & ?)]]; [left; split; [by left | done] | left; split; [by right | done] |].
    right. split; [done |]. right. split; [done |]. intros (d & []%not_elem_of_nil & _).
  - intros done x rest s Hl [Hr Ht].
    assert (Hx : x ∈ ForEachChunk) by (rewrite Hl; apply elem_of_app; right; by left).
    destruct (has_metadata (chunks s) x (chunks_ok_retagged _ _ Hr Hok) Hx) as [m Hm].
    unfold MarkIndirectlyLeakedCb, LsanMetadata. rewrite Hm, Ok_bind. set (n := GetUserBegin x) in *.
    assert (Hfrom : forall c, from_leaked (GetUserBegin <$> (done ++ [x])) c <-> from_leaked (GetUserBegin <$> done) c \/ (in_use n /\ ~ live n /\ points_to n c)).
    { intros c. split.
      - intros (d & [Hin | ->]%done_snoc & Hd); [left; by exists d | by right].
      - intros [(d & Hin & Hd) | Hn]; [exists d | exists n]; (split; [apply done_snoc; by auto | done]). }
    assert (Hskip : (forall c, in_use n -> ~ live n -> points_to n c -> False) -> leaks_marked (GetUserBegin <$> (done ++ [x])) s0 s).
    { intros Hno. split; [done |]. intros c mc Hmc Hac. destruct (Ht c mc Hmc Hac) as [? | [? Hcase]]; [by left | right]. split; [done |].
      rewrite Hfrom. specialize (Hno c). tauto. }
    destruct (allocated m && bool_decide (tag m <> kReachable)) eqn:Hgo; cycle 1.
    { exists s. split; [done |]. apply Hskip. intros c Hu Hnl _. apply (in_use_retagged _ _ Hr) in Hu as (m' & Hm' & Ha). rewrite Hm in Hm'. injection Hm' as <-.
      rewrite Ha in Hgo. apply bool_decide_eq_false in Hgo. destruct (Ht n m Hm Ha) as [[_ Hs0] | [_ [[Htag _] | [Htag _]]]]; [| by rewrite Htag in Hgo; apply Hgo | by rewrite Htag in Hgo; apply Hgo].
      destruct (Ht0 n m Hs0 Ha) as [(_ & ? & _) | [(Htag & _) | (Htag & _)]]; [done | rewrite Htag in Hgo; by apply Hgo | rewrite Htag in Hgo; by apply Hgo]. }
    apply andb_true_iff in Hgo as [Ha Htag%bool_decide_eq_true].
    destruct (chunk_scannable _ _ _ Hr Hm) as [Hscan Heq]. unfold ScanRangeForPointers.
    destruct (ScanForPointers_effect h n (n +w requested_size m) false kIndirectlyLeaked Direct s Hok Hr ltac:(by right) Hscan) as (s1 & new & -> & E).
    exists s1. split; [done |]. rewrite Heq in E.
    assert (HP : forall c, points_from h Direct n (n + requested_size m) c <-> points_to n c).
    { intros c. destruct (retagged_Some_back _ _ _ _ Hr Hm) as (m0 & Hm0 & _ & Hsz & _). rewrite <- Hsz. split.
      - intros Hp. by exists m0.
      - intros (m1 & Hm1 & Hp). rewrite Hm0 in Hm1. by injection Hm1 as <-. }
    assert (Hu : in_use n) by (apply (in_use_retagged _ _ Hr); by exists m).
    assert (Hnew : forall c, c ∈ new <-> points_to n c /\ unmarked (chunks s) c) by (intros c; rewrite (e_new _ _ _ _ _ _ E), HP; done).
    assert (Hnl : forall c, c ∈ new -> ~ live n).
    { intros c Hc Hlive. apply Hnew in Hc as [Hp (mc & Hmc & Hun)]. assert (Hlc : live c) by by apply (live_step n).
      assert (Hac : allocated mc = true).
      { pose proof (points_from_in_use _ _ _ _ (proj2 (HP c) Hp)) as Huc. apply (in_use_retagged _ _ Hr) in Huc as (m' & Hm' & ?). rewrite Hmc in Hm'. by injection Hm' as <-. }
      destruct (Ht c mc Hmc Hac) as [[? _] | [? _]]; done. }
    split; [apply retagged_trans with (chunks s); [done | apply (e_retagged _ _ _ _ _ _ E)] |].
    intros c mc. rewrite (e_chunks _ _ _ _ _ _ E). case_decide as Hin.
    + pose proof (proj1 (Hnew c) Hin) as [Hp (mc' & Hmc' & Hun)]. rewrite Hmc'. cbn. intros [= <-] Hac. cbn in Hac. right.
      destruct (Ht c mc' Hmc' Hac) as [[? _] | [Hnlc _]]; [done |]. split; [done |]. left. split; [done |]. apply Hfrom. right. split; [done |]. split; [by apply (Hnl c) | done].
    + intros Hmc Hac. destruct (Ht c mc Hmc Hac) as [? | [Hnlc Hcase]]; [by left | right]. split; [done |]. rewrite Hfrom.
      assert (Hno : ~ (in_use n /\ ~ live n /\ points_to n c)).
      { intros (_ & _ & Hp). apply Hin, Hnew. split; [done |]. exists mc. split; [done |]. intros [Hs | Hs]; destruct Hcase as [[? _] | [? _]]; congruence. }
      tauto.
Qed.

Lemma roots_cases (ar : accessor * Range) : ar ∈ roots regions <->
  ar ∈ pair Direct <$> (if use_globals flags then writable_segments ≫= global_roots else []) \/ ar ∈ threads_roots \/ ar ∈ pair Direct <$> region_roots regions.
Proof using Type. unfold roots, threads_roots. rewrite !elem_of_app. tauto. Qed.

Lemma ClassifyAllChunks_ok : exists s0 s, ClassifyAllChunks suppressed regions (Marks h []) = Ok s /\
  classified s0 /\ leaks_marked (GetUserBegin <$> ForEachChunk) s0 s.
Proof using Hok Hpre Hsup Hw.
  unfold ClassifyAllChunks. destruct ignore_phase as (s1 & -> & H1). rewrite Ok_bind.
  destruct (collect_phase s1 H1) as (s2 & -> & H2). rewrite Ok_bind.
  destruct (roots_phase _ _ s2 (ProcessGlobalRegions_marks h Hok regions Hw)) as (s3 & -> & H3 & P3 & M3 & R3); [intros ar Hin; apply roots_cases; by left | done |]. rewrite Ok_bind.
  rewrite ProcessThreads_eq.
  destruct (roots_phase _ _ s3 (scan_threads_marks h Hok regions Hw)) as (s4 & -> & H4 & P4 & M4 & R4); [intros ar Hin; apply roots_cases; by right; left | done |]. rewrite Ok_bind.
  destruct (thread_phase s4 H4) as (s5 & -> & H5 & P5 & M5). rewrite Ok_bind.
  destruct (roots_phase _ _ s5 (ProcessRootRegions_marks h Hok regions Hw)) as (s6 & -> & H6 & P6 & M6 & R6); [intros ar Hin; apply roots_cases; by right; right | done |]. rewrite Ok_bind.
  destruct (FloodFillTag_ok s6 H6) as (s7 & -> & H7 & F7 & M7 & R7). rewrite Ok_bind.
  destruct (FloodFillTag_ok s7 H7) as (s8 & -> & H8 & F8 & M8 & R8). rewrite Ok_bind.
  assert (Hcl : classified s8).
  { apply all_classified; try done.
    - intros c (ar & Har & Hp). apply roots_cases in Har as [Har | [Har | Har]].
      + apply M8, M7, M6, M5, M4, P3. by exists ar.
      + apply M8, M7, M6, M5, P4. by exists ar.
      + apply M8, M7, P6. by exists ar.
    - intros c Hc. by apply R8, R7, R6, P5. }
  destruct (indirect_phase s8 Hcl) as (s9 & -> & H9). by exists s8, s9.
Qed.

(** ** Collecting and cleaning up *)

Definition indirect (c : Z) : Prop := exists d, in_use d /\ ~ live d /\ points_to d c.

Lemma from_leaked_all (c : Z) : from_leaked (GetUserBegin <$> ForEachChunk) c <-> indirect c.
Proof using Hok.
  split; intros (d & H); [exists d; tauto |]. exists d. split; [| done]. destruct H as ((m & Hm & Ha) & _). by apply (every_chunk h d m).
Qed.

(** The tags when the leaks are collected. *)
Definition final (h' : heap) : Prop := retagged h h' /\ forall c m, h' !! c = Some m -> allocated m = true ->
  (tag m = kReachable /\ live c /\ (ignored c -> thread_ptr c)) \/ (tag m = kIgnored /\ live c /\ ignored c /\ ~ thread_ptr c) \/
  (~ live c /\ (tag m = kIndirectlyLeaked /\ indirect c \/ tag m = kDirectlyLeaked /\ ~ indirect c)).

Lemma final_ok (s0 s : marks) : classified s0 -> leaks_marked (GetUserBegin <$> ForEachChunk) s0 s -> final (chunks s).
Proof using Hok.
  intros [_ _ Ht0] [Hr Ht]. split; [done |]. intros c m Hm Ha. destruct (Ht c m Hm Ha) as [[Hs Hm0] | [Hn Hcase]].
  - destruct (Ht0 c m Hm0 Ha) as [? | [(? & ? & ?) | (Htag & _)]]; [by left | right; left; split_and!; try done; by apply live_ignored |].
    destruct Hs; congruence.
  - right. right. rewrite from_leaked_all in Hcase. done.
Qed.

Definition leak_of (h' : heap) (l : LeakedChunk) : Prop := exists m, h' !! chunk_ l = Some m /\ allocated m = true /\
  leaked_stack_id l = stack_trace_id m /\ leaked_size l = requested_size m /\ leaked_tag l = tag m /\ (tag m = kDirectlyLeaked \/ tag m = kIndirectlyLeaked).

Lemma collect_leaks (h' : heap) : retagged h h' -> exists leaks, for_each (CollectLeaksCb h') [] ForEachChunk = Ok leaks /\
  NoDup (chunk_ <$> leaks) /\ (forall l, l ∈ leaks -> leak_of h' l) /\
  (forall c m, h' !! c = Some m -> allocated m = true -> tag m = kDirectlyLeaked \/ tag m = kIndirectlyLeaked -> c ∈ chunk_ <$> leaks).
Proof using Hok.
  intros Hr. pose proof (chunks_ok_retagged _ _ Hr Hok) as Hok'.
  destruct (for_each_spec (CollectLeaksCb h') (fun done leaks => NoDup (chunk_ <$> leaks) /\ (forall l, l ∈ leaks -> leak_of h' l /\ chunk_ l ∈ GetUserBegin <$> done) /\
    (forall c m, c ∈ GetUserBegin <$> done -> h' !! c = Some m -> allocated m = true -> tag m = kDirectlyLeaked \/ tag m = kIndirectlyLeaked -> c ∈ chunk_ <$> leaks))
    ForEachChunk []) as (leaks & Hl & Hnd & Hin & Hall).
  - split; [constructor |]. split; [intros l []%not_elem_of_nil | intros c m []%not_elem_of_nil].
  - intros done x rest leaks Hl (Hnd & Hin & Hall).
    assert (Hx : x ∈ ForEachChunk) by (rewrite Hl; apply elem_of_app; right; by left).
    destruct (has_metadata h' x Hok' Hx) as [m Hm]. unfold CollectLeaksCb, LsanMetadata. rewrite Hm, Ok_bind.
    assert (Hfresh : ~ GetUserBegin x ∈ GetUserBegin <$> done).
    { pose proof each_once as Hndx. rewrite Hl, fmap_app in Hndx. apply NoDup_app in Hndx as (_ & Hndx & _). intros Hinx. apply (Hndx _ Hinx). by left. }
    assert (Hskip : (allocated m = true -> ~ (tag m = kDirectlyLeaked \/ tag m = kIndirectlyLeaked)) -> exists leaks', Ok leaks = Ok leaks' /\
      NoDup (chunk_ <$> leaks') /\ (forall l, l ∈ leaks' -> leak_of h' l /\ chunk_ l ∈ GetUserBegin <$> (done ++ [x])) /\
      (forall c m, c ∈ GetUserBegin <$> (done ++ [x]) -> h' !! c = Some m -> allocated m = true -> tag m = kDirectlyLeaked \/ tag m = kIndirectlyLeaked -> c ∈ chunk_ <$> leaks')).
    { intros Hno. exists leaks. split; [done |]. split; [done |]. split.
      - intros l Hli. destruct (Hin l Hli). split; [done |]. apply done_snoc. by left.
      - intros c mc [Hc | ->]%done_snoc Hmc Hac Htag; [by apply (Hall c mc) |]. rewrite Hm in Hmc. injection Hmc as <-. by destruct (Hno Hac). }
    destruct (allocated m) eqn:Ha; cbn [negb]; [| apply Hskip; done].
    case_bool_decide as Htag; [| apply Hskip; done].
    eexists. split; [done |]. rewrite fmap_app. split; [| split].
    + apply NoDup_app. split; [done |]. split; [| apply NoDup_singleton].
      intros c Hc ->%list_elem_of_singleton. apply list_elem_of_fmap in Hc as (l & Hlc & Hli). cbn in Hlc. apply Hfresh. rewrite Hlc. by apply Hin.
    + intros l [Hli | ->%list_elem_of_singleton]%elem_of_app.
      * destruct (Hin l Hli). split; [done |]. apply done_snoc. by left.
      * split; [by exists m | apply done_snoc; by right].
    + intros c mc [Hc | ->]%done_snoc Hmc Hac Ht; apply elem_of_app; [left; by apply (Hall c mc) | right; by left].
  - exists leaks. split; [done |]. split; [done |]. split; [intros l Hli; by apply Hin |].
    intros c m Hm Ha. apply Hall; try done. by apply (every_chunk h' c m).
Qed.

Lemma reset_tags (h' : heap) : retagged h h' -> exists h2, for_each ResetTagsCb h' ForEachChunk = Ok h2 /\ retagged h h2 /\
  forall c m m2, h' !! c = Some m -> allocated m = true -> h2 !! c = Some m2 ->
    tag m2 = if bool_decide (tag m = kIgnored) then kIgnored else kDirectlyLeaked.
Proof using Hok.
  intros Hr.
  destruct (for_each_spec ResetTagsCb (fun done h2 => retagged h' h2 /\ forall c m, h' !! c = Some m -> allocated m = true ->
    h2 !! c = Some (if decide (c ∈ GetUserBegin <$> done /\ tag m <> kIgnored) then with_tag kDirectlyLeaked m else m)) ForEachChunk h') as (h2 & Hh2 & Hr2 & Hc2).
  - split; [done |]. intros c m Hm _. rewrite decide_False; [done |]. intros [[]%not_elem_of_nil _].
  - intros done x rest h2 Hl [Hr2 Hc2].
    assert (Hx : x ∈ ForEachChunk) by (rewrite Hl; apply elem_of_app; right; by left).
    pose proof (retagged_trans _ _ _ Hr Hr2) as Hr'.
    destruct (has_metadata h2 x (chunks_ok_retagged _ _ Hr' Hok) Hx) as [m Hm]. unfold ResetTagsCb, LsanMetadata. rewrite Hm, Ok_bind.
    destruct (retagged_Some_back _ _ _ _ Hr2 Hm) as (m0 & Hm0 & Hsa & _).
    assert (Hfresh : ~ GetUserBegin x ∈ GetUserBegin <$> done).
    { pose proof each_once as Hndx. rewrite Hl, fmap_app in Hndx. apply NoDup_app in Hndx as (_ & Hndx & _). intros Hinx. apply (Hndx _ Hinx). by left. }
    assert (Hsame : allocated m0 = true -> m = m0).
    { intros Ha. specialize (Hc2 _ _ Hm0 Ha). rewrite decide_False in Hc2 by tauto. congruence. }
    destruct (allocated m && bool_decide (tag m <> kIgnored)) eqn:Hgo; (eexists; split; [done |]).
    + apply andb_true_iff in Hgo as [Ha Htag%bool_decide_eq_true]. split; [apply retagged_trans with h2; [done | apply rtc_once; by eexists _, _] |].
      intros c mc Hmc Hac. rewrite set_tag_lookup, (Hc2 c mc Hmc Hac). pose proof (done_snoc done x c) as Hsn.
      destruct (decide (c = GetUserBegin x)) as [-> | Hne]; [| repeat case_decide; try done; tauto].
      rewrite Hm0 in Hmc. injection Hmc as <-. rewrite (decide_False (P := GetUserBegin x ∈ GetUserBegin <$> done /\ _)) by tauto.
      rewrite decide_True; [done |]. rewrite <- (Hsame Hac). tauto.
    + split; [done |]. intros c mc Hmc Hac. rewrite (Hc2 c mc Hmc Hac). f_equal. pose proof (done_snoc done x c) as Hsn.
      destruct (decide (c = GetUserBegin x)) as [-> | Hne]; [| repeat case_decide; try done; tauto].
      rewrite Hm0 in Hmc. injection Hmc as <-. rewrite (Hsame Hac), Hac in Hgo. apply bool_decide_eq_false in Hgo. repeat case_decide; try done; tauto.
  - exists h2. split; [done |]. split; [by apply retagged_trans with h' |]. intros c m m2 Hm Ha Hm2.
    rewrite (Hc2 c m Hm Ha) in Hm2. injection Hm2 as <-.
    pose proof (every_chunk h' c m (chunks_ok_retagged _ _ Hr Hok) Hm Ha) as Hin.
    case_bool_decide as Htag; case_decide as Hd; cbn; tauto.
Qed.

Lemma ReportUnsuspendedThreads_ok : exists b, ReportUnsuspendedThreads = Ok b /\
  (b = true <-> forall t, t ∈ GetRunningThreadsLocked -> t ∈ thread_id <$> suspended_threads).
Proof using Type.
  unfold ReportUnsuspendedThreads. destruct (Sort_spec Z.ltb (thread_id <$> suspended_threads)) as (v & -> & Hperm & Hsorted). rewrite Ok_bind.
  destruct (for_each_spec (fun succeeded os_id =>
    i ← InternalLowerBound Z.ltb v os_id;
    Ok (if bool_decide (v !! i = Some os_id) then succeeded else false))
    (fun done b => b = true <-> forall t, t ∈ done -> t ∈ thread_id <$> suspended_threads) GetRunningThreadsLocked true) as (b & Hb & Hiff).
  - split; [intros _ t []%not_elem_of_nil | done].
  - intros done x rest b _ Hb. destruct (find_sorted v x Hsorted) as (i & -> & Hi). rewrite Ok_bind. eexists. split; [done |].
    assert (Hin : v !! i = Some x <-> x ∈ thread_id <$> suspended_threads) by (by rewrite Hi, Hperm). clear Hi.
    setoid_rewrite elem_of_app. setoid_rewrite list_elem_of_singleton. case_bool_decide as Hx.
    + rewrite Hb. apply Hin in Hx. split; [intros H t [Ht | ->]; [by apply H | done] | intros H t Ht; apply H; by left].
    + split; [done |]. intros H. exfalso. apply Hx, Hin, H. by right.
  - by exists b.
Qed.
End classify.
