(* ===== verification/LsanAllocator.v ===== *)
(** * The chunks of standalone LeakSanitizer: lsan_allocator.cpp

    What lsan_allocator.cpp adds to the allocator: metadata per block, the
    chunk lookup of the leak check and __lsan_ignore_object.  The allocator
    below it is the class [BlockAllocator]; with it the file is an instance of
    the interface [LsanAllocator] the leak check is proved against. *)

From S2P Require Import Prelude Words Memory Sorting Ranges Lsan LsanScan.

(** The blocks that are handed out, found by an address inside them. *)
Class BlockAllocator : Type := { GetBlockBegin : Z -> Z; blocks : list Z }.
Class BlockAllocatorSpec (B : BlockAllocator) : Prop := {
  block_begin p : GetBlockBegin p = 0 \/ GetBlockBegin p ∈ blocks;
  blocks_once : NoDup blocks;
  block_not_null b : b ∈ blocks -> 0 < b;
}.

Section allocator.
Context {B : BlockAllocator} (mem : memory).

Definition Metadata (h : heap) (p : Z) : option ChunkMetadata := h !! p.

(** [DisabledInThisThread] and the id of the stack are given. *)
Definition RegisterAllocation (h : heap) (disabled : bool) (stack_id p size : Z) : result heap :=
  if p =? 0 then Ok h
  else
    _ ← check (bool_decide (is_Some (Metadata h p)));
    Ok (<[p := Chunk true (if disabled then kIgnored else kDirectlyLeaked) (size mod 18014398509481984) stack_id]> h).
Definition RegisterDeallocation (h : heap) (p : Z) : result heap :=
  if p =? 0 then Ok h
  else
    m ← match Metadata h p with Some m => Ok m | None => Die CheckFailed end;
    Ok (<[p := Chunk false (tag m) (requested_size m) (stack_trace_id m)]> h).

Definition IsItaniumABIArrayCookie (chunk_beg chunk_size addr : Z) : bool :=
  (chunk_size =? 8) && (chunk_beg +w chunk_size =? addr) && (load64 mem chunk_beg =? 0).

Definition allocator_PointsIntoChunk (h : heap) (addr : Z) : result Z :=
  let chunk := GetBlockBegin addr in
  if chunk =? 0 then Ok 0
  else if addr <? chunk then Ok 0
  else
    m ← LsanMetadata h chunk;
    if negb (allocated m) then Ok 0
    else if addr <? chunk +w requested_size m then Ok chunk
    else if IsItaniumABIArrayCookie chunk (requested_size m) addr then Ok chunk
    else Ok 0.

Definition GetMallocBegin (h : heap) (p : Z) : Z :=
  if p =? 0 then 0
  else
    let beg := GetBlockBegin p in
    if beg =? 0 then 0
    else match Metadata h beg with
         | Some m => if negb (allocated m) then 0 else if requested_size m =? 0 then 0 else beg
         | None => 0
         end.
Definition GetMallocUsableSize (h : heap) (p : Z) : Z :=
  if p =? 0 then 0 else match Metadata h p with Some m => requested_size m | None => 0 end.

Inductive IgnoreObjectResult : Type := kIgnoreObjectSuccess | kIgnoreObjectAlreadyIgnored | kIgnoreObjectInvalid.
Definition IgnoreObject (h : heap) (p : Z) : result (heap * IgnoreObjectResult) :=
  let chunk := GetBlockBegin p in
  if (chunk =? 0) || (p <? chunk) then Ok (h, kIgnoreObjectInvalid)
  else
    m ← LsanMetadata h chunk;
    if allocated m && (p <? chunk +w requested_size m) then
      if bool_decide (tag m = kIgnored) then Ok (h, kIgnoreObjectAlreadyIgnored)
      else Ok (set_tag h chunk kIgnored, kIgnoreObjectSuccess)
    else Ok (h, kIgnoreObjectInvalid).

(** The tool for the leak check: the thread functions are those of the
    registry. *)
Definition lsan_tool (f : Flags) (ranges : Z -> option thread_ranges) (ptrs running : list Z) (global : Z * Z) : LsanTool := {|
  flags := f;
  WordIsPoisoned := fun _ => false;
  GetThreadRangesLocked := ranges;
  GetThreadExtraStackRangesLocked := fun _ => [];
  GetAdditionalThreadContextPtrsLocked := ptrs;
  GetRunningThreadsLocked := running;
  GetAllocatorGlobalRange := global;
  PointsIntoChunk := allocator_PointsIntoChunk;
  GetUserBegin := fun chunk => chunk;
  ForEachChunk := blocks;
|}.

(** Every block has metadata and only blocks have. *)
Definition blocks_ok (h : heap) : Prop :=
  (forall b, b ∈ blocks -> is_Some (h !! b)) /\
  forall c m, h !! c = Some m -> c ∈ blocks /\ 0 <= requested_size m /\ c + requested_size m + 16 < word_modulus.

(** A lookup that finds a chunk finds one in use that holds the address, or
    ends at it. *)
Lemma PointsIntoChunk_spec (h : heap) (p : Z) `{!BlockAllocatorSpec B} : blocks_ok h ->
  exists c, allocator_PointsIntoChunk h p = Ok c /\
  (c <> 0 -> exists m, h !! c = Some m /\ allocated m = true /\ c <= p <= c + requested_size m).
Proof.
  intros [Hb Hm]. unfold allocator_PointsIntoChunk. destruct (Z.eqb_spec (GetBlockBegin p) 0) as [_ | H0]; [by exists 0 |].
  destruct (block_begin p) as [| Hin]; [done |]. destruct (Z.ltb_spec p (GetBlockBegin p)) as [_ | Hle]; [by exists 0 |].
  destruct (Hb _ Hin) as [m Hmm]. unfold LsanMetadata. rewrite Hmm, Ok_bind. destruct (Hm _ _ Hmm) as (_ & Hs & Hw).
  pose proof (block_not_null _ Hin). rewrite wrap_small by (unfold is_uptr; lia).
  destruct (allocated m) eqn:Ha; cbn [negb]; [| by exists 0].
  destruct (Z.ltb_spec p (GetBlockBegin p + requested_size m)); [exists (GetBlockBegin p); split; [done |]; intros _; exists m; split_and!; try done; lia |].
  destruct (IsItaniumABIArrayCookie _ _ _) eqn:Hc; [| by exists 0]. exists (GetBlockBegin p). split; [done |]. intros _. exists m.
  unfold IsItaniumABIArrayCookie in Hc. rewrite wrap_small in Hc by (unfold is_uptr; lia). zb. split_and!; try done; lia.
Qed.

(** The answers of IgnoreObject. *)
Lemma IgnoreObject_spec (h : heap) (p : Z) `{!BlockAllocatorSpec B} : blocks_ok h ->
  exists h' r, IgnoreObject h p = Ok (h', r) /\
  match r with
  | kIgnoreObjectInvalid => h' = h /\ ~ exists m, h !! GetBlockBegin p = Some m /\ allocated m = true /\ GetBlockBegin p <= p < GetBlockBegin p + requested_size m
  | kIgnoreObjectAlreadyIgnored => h' = h /\ exists m, h !! GetBlockBegin p = Some m /\ allocated m = true /\ tag m = kIgnored
  | kIgnoreObjectSuccess => h' = set_tag h (GetBlockBegin p) kIgnored /\
      exists m, h !! GetBlockBegin p = Some m /\ allocated m = true /\ GetBlockBegin p <= p < GetBlockBegin p + requested_size m
  end.
Proof.
  intros [Hb Hm]. unfold IgnoreObject. destruct (Z.eqb_spec (GetBlockBegin p) 0) as [H0 | H0]; cbn [orb].
  { eexists _, _. split; [done |]. split; [done |]. rewrite H0. intros (m & Hmm & _). destruct (Hm _ _ Hmm) as (Hin & _). apply block_not_null in Hin. lia. }
  destruct (Z.ltb_spec p (GetBlockBegin p)) as [Hlt | Hle].
  { eexists _, _. split; [done |]. split; [done |]. intros (m & _ & _ & ?). lia. }
  destruct (block_begin p) as [| Hin]; [done |]. destruct (Hb _ Hin) as [m Hmm]. unfold LsanMetadata. rewrite Hmm, Ok_bind.
  destruct (Hm _ _ Hmm) as (_ & Hs & Hw). pose proof (block_not_null _ Hin). rewrite wrap_small by (unfold is_uptr; lia).
  destruct (allocated m) eqn:Ha; cbn [andb].
  - destruct (Z.ltb_spec p (GetBlockBegin p + requested_size m)).
    + case_bool_decide; eexists _, _; (split; [done |]); split; try done; exists m; split_and!; try done; lia.
    + eexists _, _. split; [done |]. split; [done |]. intros (m' & Hm' & _ & ?). injection Hm' as <-. lia.
  - eexists _, _. split; [done |]. split; [done |]. intros (m' & Hm' & ? & _). injection Hm' as <-. congruence.
Qed.
End allocator.

(** ** The interface of the leak check *)

Section instance.
Context {B : BlockAllocator} {BS : BlockAllocatorSpec B} (mem : memory) (f : Flags) (ranges : Z -> option thread_ranges)
  (ptrs running : list Z) (global : Z * Z).

#[export] Instance lsan_allocator : LsanAllocator (lsan_tool mem f ranges ptrs running global).
Proof.
  refine {| chunks_ok := blocks_ok |}.
  - intros h c t [Hb Hm]. split.
    + intros b Hin. rewrite set_tag_lookup. destruct (Hb b Hin) as [m ->]. case_decide; by eexists.
    + intros d m. rewrite set_tag_lookup. case_decide; [| apply Hm]. destruct (h !! d) as [m0 |] eqn:Hm0; [| done]. intros [= <-]. exact (Hm d m0 Hm0).
  - intros h p Hok. destruct (PointsIntoChunk_spec mem h p Hok) as (c & Hc & Hin). exists c. split; [exact Hc |].
    intros H0. destruct (Hin H0) as (m & ? & ? & _). by exists m.
  - intros h c t p. cbn. unfold allocator_PointsIntoChunk. destruct (GetBlockBegin p =? 0); [done |]. destruct (p <? GetBlockBegin p); [done |].
    unfold LsanMetadata. rewrite set_tag_lookup. case_decide; [| done]. by destruct (h !! GetBlockBegin p).
  - intros h c m [_ Hm] Hc _. cbn. rewrite list_fmap_id. by destruct (Hm c m Hc).
  - cbn. rewrite list_fmap_id. apply blocks_once.
  - intros h x [Hb _] Hx. by apply Hb.
  - intros h c m [_ Hm] Hc. destruct (Hm c m Hc) as (Hin & ? & ?). split; [by apply block_not_null | done].
Defined.
End instance.
