(* ===== verification/LsanCheck.v ===== *)
(** * What the leak check reports

    The theorem about CheckForLeaksCallback against the interface
    [LsanAllocator], and a run of it over the chunks of lsan_allocator.cpp. *)

From S2P Require Import Prelude Words Memory Sorting Ranges Lsan LsanScan LsanRoots LsanSpecs LsanAllocator.

(** Everything there is to know about one check. *)
Lemma leak_check_spec {T : LsanTool} {W : World} {A : LsanAllocator T}
  (regions : RootRegions) (suppressed : list Z) (h : heap) (thread_suspend_fail : Z) :
  chunks_ok h -> pre_check h -> sorted Z.ltb suppressed -> world_ok regions ->
  (thread_suspend_fail <> 0 /\ thread_suspend_fail <> 2) \/ (forall t, t ∈ GetRunningThreadsLocked -> t ∈ thread_id <$> suspended_threads) ->
  exists h' leaks, CheckForLeaksCallback thread_suspend_fail suppressed regions h = Ok (h', leaks, true) /\
  NoDup (chunk_ <$> leaks) /\
  (forall c, c ∈ chunk_ <$> leaks <-> in_use h c /\ ~ live regions suppressed h c) /\
  (forall l, l ∈ leaks -> exists m, h !! chunk_ l = Some m /\ leaked_stack_id l = stack_trace_id m /\ leaked_size l = requested_size m /\
    (leaked_tag l = kIndirectlyLeaked /\ indirect regions suppressed h (chunk_ l) \/
     leaked_tag l = kDirectlyLeaked /\ ~ indirect regions suppressed h (chunk_ l))) /\
  retagged h h' /\ chunks_ok h' /\ pre_check h' /\
  forall c, in_use h c -> exists m m', h !! c = Some m /\ h' !! c = Some m' /\ same_chunk m m' /\
    (tag m' = kIgnored <-> ignored suppressed h c /\ ~ thread_ptr h c).
Proof.
  intros Hok Hpre Hsup Hw Hthreads. unfold CheckForLeaksCallback.
  destruct ReportUnsuspendedThreads_ok as (b & -> & Hb). rewrite Ok_bind.
  assert (H0 : negb b && (thread_suspend_fail =? 0) = false /\ negb b && (thread_suspend_fail =? 2) = false).
  { destruct Hthreads as [[H1 H2] | H]; [rewrite (proj2 (Z.eqb_neq _ _) H1), (proj2 (Z.eqb_neq _ _) H2), !andb_false_r; done | by rewrite (proj2 Hb H)]. }
  destruct H0 as [-> ->].
  destruct (ClassifyAllChunks_ok regions suppressed h Hok Hpre Hsup Hw) as (s0 & s & -> & Hcl & Hlm). rewrite Ok_bind.
  destruct (final_ok regions suppressed h Hok s0 s Hcl Hlm) as [Hr Hfin].
  destruct (collect_leaks h Hok (chunks s) Hr) as (leaks & -> & Hnd & Hleak & Hall). rewrite Ok_bind.
  destruct (reset_tags h Hok (chunks s) Hr) as (h2 & -> & Hr2 & Hreset). rewrite Ok_bind.
  exists h2, leaks. split; [done |]. split; [done |]. split_and!.
  - intros c. split.
    + intros (l & -> & Hl)%list_elem_of_fmap. destruct (Hleak l Hl) as (m & Hm & Ha & _ & _ & _ & Htag).
      split; [apply (in_use_retagged _ _ _ Hr); by exists m |].
      destruct (Hfin _ m Hm Ha) as [(Ht & _) | [(Ht & _) | (Hn & _)]]; [destruct Htag; congruence.. | done].
    + intros [Hu Hn]. apply (in_use_retagged _ _ _ Hr) in Hu as (m & Hm & Ha).
      destruct (Hfin c m Hm Ha) as [(_ & ? & _) | [(_ & ? & _) | (_ & Hcase)]]; [done | done |]. apply (Hall c m Hm Ha). tauto.
  - intros l Hl. destruct (Hleak l Hl) as (m & Hm & Ha & Hst & Hsz & Htg & Htag).
    destruct (retagged_Some_back _ _ _ _ Hr Hm) as (m0 & Hm0 & _ & Hs1 & Hs2). exists m0. split; [done |]. split; [congruence |]. split; [congruence |].
    rewrite Htg. destruct (Hfin _ m Hm Ha) as [(Ht & _) | [(Ht & _) | (_ & Hcase)]]; [destruct Htag; congruence.. | tauto].
  - done.
  - by apply (chunks_ok_retagged h).
  - intros c m2 Hm2 Ha2. destruct (retagged_Some_back _ _ _ _ Hr2 Hm2) as (m0 & Hm0 & Hsa & _).
    destruct (retagged_Some _ _ _ _ Hr Hm0) as (m & Hm & Hsa' & _). rewrite (Hreset c m m2 Hm ltac:(congruence) Hm2). case_bool_decide; tauto.
  - intros c Hu. pose proof Hu as (m0 & Hm0 & Ha0). destruct (retagged_Some _ _ _ _ Hr2 Hm0) as (m2 & Hm2 & Hsame).
    destruct (retagged_Some _ _ _ _ Hr Hm0) as (m & Hm & Hsa & _). exists m0, m2. split; [done |]. split; [done |]. split; [done |].
    rewrite (Hreset c m m2 Hm ltac:(congruence) Hm2).
    destruct (Hfin c m Hm ltac:(congruence)) as [(Ht & _ & Hp) | [(Ht & _ & Hp) | (Hn & Hcase)]].
    + rewrite bool_decide_false by congruence. split; [done |]. intros [Hi Hnp]. by destruct (Hnp (Hp Hi)).
    + rewrite bool_decide_true by congruence. tauto.
    + rewrite bool_decide_false by (destruct Hcase as [[? _] | [? _]]; congruence). split; [done |]. intros [Hi _]. destruct Hn. by apply live_ignored.
Qed.


(** ** An example

    Chunks A .. G of 32 bytes.  A global points to A and A to B; C and D leak,
    and C points to D; E is ignored and points to F; G is ignored too, and the
    argument of a thread points to it. *)

Definition at_block (p : Z) : Z := if (65536 <=? p) && (p <? 65536 + 7 * 64) then p - p mod 64 else 0.
Definition sample_blocks : list Z := (fun k => 65536 + 64 * k) <$> seqZ 0 7.
#[export] Instance sample_allocator : BlockAllocator := {| GetBlockBegin := at_block; blocks := sample_blocks |}.

#[export] Instance sample_allocator_spec : BlockAllocatorSpec sample_allocator.
Proof.
  split.
  - intros p. cbn. unfold at_block. destruct ((65536 <=? p) && (p <? 65536 + 7 * 64)) eqn:Hp; [right | by left].
    zb. unfold sample_blocks. apply list_elem_of_fmap. exists ((p - 65536) / 64). rewrite elem_of_seqZ. zlia.
  - cbn. apply NoDup_fmap_2; [intros x y; lia | apply NoDup_seqZ].
  - cbn. intros b Hb. unfold sample_blocks in Hb. apply list_elem_of_fmap in Hb as (k & -> & Hk). apply elem_of_seqZ in Hk. lia.
Qed.

Definition sample_memory : memory :=
  store64 (store64 (store64 (store64 (fun _ => 0) 4096 65544) 65544 65600) 65680 65740) 65800 65860.
Definition sample_chunk (t : ChunkTag) (id : Z) : ChunkMetadata := Chunk true t 32 id.
Definition sample_heap : heap := list_to_map (zip sample_blocks
  [sample_chunk kDirectlyLeaked 1; sample_chunk kDirectlyLeaked 2; sample_chunk kDirectlyLeaked 3; sample_chunk kDirectlyLeaked 4;
   sample_chunk kIgnored 5; sample_chunk kDirectlyLeaked 6; sample_chunk kIgnored 7]).

#[export] Instance sample_tool : LsanTool := lsan_tool sample_memory SetDefaults (fun _ => None) [65920] [] (0, 0).
#[export] Instance sample_instance : LsanAllocator sample_tool := lsan_allocator sample_memory SetDefaults (fun _ => None) [65920] [] (0, 0).
#[export] Instance sample_world : World := {|
  memory_ := sample_memory; readable := fun _ _ => true; accessible := fun _ => true; page_size := 4096;
  writable_segments := [MkRange 4096 4112]; mapped_regions := []; caller_tid := 0; caller_sp := 0; suspended_threads := [];
|}.

(** C and D are found, and G has lost its mark. *)
Example sample_leaks :
  (fun '(h, leaks, ok) => (leaks, (fun b => tag <$> h !! b) <$> sample_blocks, ok)) <$> CheckForLeaksCallback 1 [] ∅ sample_heap =
  Ok ([Leaked 65664 3 32 kDirectlyLeaked; Leaked 65728 4 32 kIndirectlyLeaked],
      [Some kDirectlyLeaked; Some kDirectlyLeaked; Some kDirectlyLeaked; Some kDirectlyLeaked; Some kIgnored; Some kDirectlyLeaked; Some kDirectlyLeaked], true).
Proof. vm_compute. reflexivity. Qed.

Lemma sample_heap_is : map_to_list sample_heap ≡ₚ zip sample_blocks
  [sample_chunk kDirectlyLeaked 1; sample_chunk kDirectlyLeaked 2; sample_chunk kDirectlyLeaked 3; sample_chunk kDirectlyLeaked 4;
   sample_chunk kIgnored 5; sample_chunk kDirectlyLeaked 6; sample_chunk kIgnored 7].
Proof. unfold sample_heap. apply map_to_list_to_map. cbn. apply (blocks_once (B := sample_allocator)). Qed.

Lemma sample_lookup (c : Z) (m : ChunkMetadata) : sample_heap !! c = Some m ->
  c ∈ sample_blocks /\ requested_size m = 32 /\ (tag m = kDirectlyLeaked \/ tag m = kIgnored).
Proof.
  intros Hm. apply elem_of_map_to_list in Hm. rewrite sample_heap_is in Hm. split.
  - apply elem_of_zip_l in Hm. done.
  - cbn in Hm. repeat (apply elem_of_cons in Hm as [Hm | Hm]; [injection Hm as -> ->; cbn; tauto |]). by apply not_elem_of_nil in Hm.
Qed.

Lemma sample_in_use (b : Z) : b ∈ sample_blocks -> is_Some (sample_heap !! b).
Proof.
  intros Hb. unfold sample_blocks in Hb. apply list_elem_of_fmap in Hb as (k & -> & Hk). apply elem_of_seqZ in Hk.
  assert (Hcase : k = 0 \/ k = 1 \/ k = 2 \/ k = 3 \/ k = 4 \/ k = 5 \/ k = 6) by lia.
  destruct Hcase as [-> | [-> | [-> | [-> | [-> | [-> | ->]]]]]]; vm_compute; by eexists.
Qed.

Lemma sample_world_ok : world_ok ∅.
Proof.
  split.
  - reflexivity.
  - intros r Hr. cbn in Hr. apply list_elem_of_singleton in Hr as ->. cbn. lia.
  - intros os_id r [=].
  - intros r [Hr | Hr]; by apply not_elem_of_nil in Hr.
  - intros a r Hr. assert (Hroots : roots ∅ = [(Direct, MkRange 4096 4112)]) by (vm_compute; reflexivity).
    rewrite Hroots in Hr. apply list_elem_of_singleton in Hr. injection Hr as -> ->. split; [cbn; lia |]. split; [cbn; unfold word_modulus; lia |].
    split; [cbn; unfold word_modulus; lia | by exists Direct].
Qed.


(** ** An ignored chunk that a thread context refers to

    ProcessThreadRegistry overwrites its kIgnored tag and the clean-up turns
    the new tag into kDirectlyLeaked: once the thread is gone, the chunk that
    was to be ignored is reported. *)
Definition later_tool : LsanTool := lsan_tool sample_memory SetDefaults (fun _ => None) [] [] (0, 0).

Lemma thread_context_forgets_ignored :
  tag <$> sample_heap !! 65920 = Some kIgnored /\
  exists h' leaks h2 leaks2, CheckForLeaksCallback 1 [] ∅ sample_heap = Ok (h', leaks, true) /\
    CheckForLeaksCallback (T := later_tool) 1 [] ∅ h' = Ok (h2, leaks2, true) /\
    ~ 65920 ∈ chunk_ <$> leaks /\ 65920 ∈ chunk_ <$> leaks2.
Proof.
  split; [vm_compute; reflexivity |].
  assert (Hrun : ('(h1, leaks, ok) ← CheckForLeaksCallback 1 [] ∅ sample_heap;
     '(_, leaks2, ok2) ← CheckForLeaksCallback (T := later_tool) 1 [] ∅ h1;
     Ok (chunk_ <$> (leaks : list LeakedChunk), chunk_ <$> (leaks2 : list LeakedChunk), ok, ok2)) = Ok ([65664; 65728], [65664; 65728; 65920], true, true)) by (vm_compute; reflexivity).
  apply bind_Ok in Hrun as ([[h1 leaks] ok] & H1 & Hrun). apply bind_Ok in Hrun as ([[h2 leaks2] ok2] & H2 & Hrun).
  injection Hrun as Hl1 Hl2 -> ->. clear - H1 H2 Hl1 Hl2. exists h1, leaks, h2, leaks2.
  split; [exact H1 |]. split; [exact H2 |]. rewrite Hl1, Hl2. rewrite !elem_of_cons, !elem_of_nil. lia.
Qed.
