(* ===== verification/LeakReport.v ===== *)
(** * From leaked chunks to a report: LeakReport and CheckForLeaksOnce

    AddLeakedChunks counts the leaked chunks by stack trace and kind,
    ApplySuppressions marks what is suppressed, and the check is repeated
    while new stacks are suppressed. *)

From S2P Require Import Prelude Words Memory Sorting Ranges Lsan LsanScan LsanRoots LsanSpecs LsanAllocator LsanCheck.

Record Leak : Type := MkLeak {
  id : Z; hit_count : Z; total_size : Z; leak_stack_id : Z; is_directly_leaked : bool; is_suppressed : bool;
}.
Record LeakedObject : Type := Object { leak_id : Z; addr : Z; object_size : Z }.
Record LeakReport : Type := Report { next_id_ : Z; leaks_ : list Leak; leaked_objects_ : list LeakedObject }.
Definition no_leaks : LeakReport := Report 0 [] [].
Definition kMaxLeaksConsidered : nat := 5000.

Record suppressions : Type := Suppressions { suppressed_stacks_sorted : bool; suppressed_stacks : list Z }.

Section report.
Context {T : LsanTool} {W : World}.
(** The id of the stack cut to [resolution] frames (StackDepotGet and
    StackDepotPut), and whether a stack is invalid or matches a rule
    (SuppressInvalid, SuppressByRule). *)
Context (prefix_id : Z -> Z -> Z) (suppress_stack : Z -> bool).

Definition report_stack_id (stack_trace_id : Z) : Z :=
  if negb (resolution flags =? 0) then prefix_id (resolution flags) stack_trace_id else stack_trace_id.

(** The search through [leaks_], which counts the chunk where it fits. *)
Fixpoint count_leak (stack_id leaked_size : Z) (directly : bool) (leaks : list Leak) : option (list Leak * Z) :=
  match leaks with
  | [] => None
  | l :: rest =>
      if (leak_stack_id l =? stack_id) && Bool.eqb (is_directly_leaked l) directly then
        Some (MkLeak (id l) (hit_count l +w 1) (total_size l +w leaked_size) (leak_stack_id l) (is_directly_leaked l) (is_suppressed l) :: rest, id l)
      else
        match count_leak stack_id leaked_size directly rest with
        | Some (rest, i) => Some (l :: rest, i)
        | None => None
        end
  end.

Fixpoint AddLeakedChunks (r : LeakReport) (chunks : list LeakedChunk) : result LeakReport :=
  match chunks with
  | [] => Ok r
  | leak :: chunks =>
      _ ← check (bool_decide (leaked_tag leak = kDirectlyLeaked \/ leaked_tag leak = kIndirectlyLeaked));
      let stack_id := report_stack_id (leaked_stack_id leak) in
      let directly := bool_decide (leaked_tag leak = kDirectlyLeaked) in
      let object i := if report_objects flags then leaked_objects_ r ++ [Object i (chunk_ leak) (leaked_size leak)] else leaked_objects_ r in
      match count_leak stack_id (leaked_size leak) directly (leaks_ r) with
      | Some (leaks, i) => AddLeakedChunks (Report (next_id_ r) leaks (object i)) chunks
      | None =>
          if (length (leaks_ r) =? kMaxLeaksConsidered)%nat then Ok r
          else
            let l := MkLeak (next_id_ r) 1 (leaked_size leak) stack_id directly false in
            AddLeakedChunks (Report (to_u32 (next_id_ r + 1)) (leaks_ r ++ [l]) (object (next_id_ r))) chunks
      end
  end.

(** GetSortedSuppressedStacks *)
Definition GetSortedSuppressedStacks (c : suppressions) : result (suppressions * list Z) :=
  if suppressed_stacks_sorted c then Ok (c, suppressed_stacks c)
  else
    v ← SortAndDedup Z.ltb (suppressed_stacks c);
    Ok (Suppressions true v, v).

Definition Suppress (c : suppressions) (stack_id : Z) : suppressions * bool :=
  if suppress_stack stack_id then (Suppressions false (suppressed_stacks c ++ [stack_id]), true) else (c, false).

Fixpoint apply_to (c : suppressions) (leaks : list Leak) : suppressions * list Leak * Z :=
  match leaks with
  | [] => (c, [], 0)
  | l :: rest =>
      let '(c, s) := Suppress c (leak_stack_id l) in
      let '(c, rest, n) := apply_to c rest in
      if s then (c, MkLeak (id l) (hit_count l) (total_size l) (leak_stack_id l) (is_directly_leaked l) true :: rest, n +w 1)
      else (c, l :: rest, n)
  end.
Definition ApplySuppressions (c : suppressions) (r : LeakReport) : suppressions * LeakReport * Z :=
  let '(c, leaks, n) := apply_to c (leaks_ r) in (c, Report (next_id_ r) leaks (leaked_objects_ r), n).

Definition UnsuppressedLeakCount (r : LeakReport) : Z :=
  foldl (fun result l => if negb (is_suppressed l) then result +w 1 else result) 0 (leaks_ r).
Definition IndirectUnsuppressedLeakCount (r : LeakReport) : Z :=
  foldl (fun result l => if negb (is_suppressed l) && negb (is_directly_leaked l) then result +w 1 else result) 0 (leaks_ r).

(** [LeakComparator] orders the report. *)
Definition LeakComparator (leak1 leak2 : Leak) : bool :=
  if Bool.eqb (is_directly_leaked leak1) (is_directly_leaked leak2) then total_size leak2 <? total_size leak1 else is_directly_leaked leak1.

(** One run: the check itself, the report and the number of new suppressions.
    A failed stop of the world ends the process. *)
Definition leak_round (fail : Z) (regions : RootRegions) (h : heap) (c : suppressions) : result (heap * suppressions * LeakReport * Z) :=
  '(c, stacks) ← GetSortedSuppressedStacks c;
  '(h, leaks, success) ← CheckForLeaksCallback fail stacks regions h;
  if negb success then Die (Reported "LeakSanitizer has encountered a fatal error")
  else
    r ← AddLeakedChunks no_leaks leaks;
    let '(c, r, n) := ApplySuppressions c r in
    Ok (h, c, r, n).

(** The loop of CheckForLeaksOnce from round [8 - rounds] on; the answer is
    that of PrintResults. *)
Fixpoint check_rounds (fail : Z) (regions : RootRegions) (h : heap) (c : suppressions) (rounds : nat)
  : result (heap * suppressions * LeakReport * bool) :=
  '(h, c, r, n) ← leak_round fail regions h c;
  let done := Ok (h, c, r, negb (UnsuppressedLeakCount r =? 0)) in
  if n =? 0 then done
  else if IndirectUnsuppressedLeakCount r =? 0 then done
  else match rounds with O => done | S rounds => check_rounds fail regions h c rounds end.
Definition CheckForLeaksOnce (fail : Z) (regions : RootRegions) (h : heap) (c : suppressions)
  : result (heap * suppressions * LeakReport * bool) := check_rounds fail regions h c 8.

(** [tries] times; leaks count only if every try finds some. *)
Fixpoint check_tries (fail : Z) (regions : RootRegions) (h : heap) (c : suppressions) (tries : nat) (leaking : nat)
  : result (heap * suppressions * nat) :=
  match tries with
  | O => Ok (h, c, leaking)
  | S tries =>
      '(h, c, _, leaks) ← CheckForLeaksOnce fail regions h c;
      check_tries fail regions h c tries (if leaks : bool then S leaking else leaking)
  end.
Definition CheckForLeaks (fail : Z) (regions : RootRegions) (h : heap) (c : suppressions) (tries : nat)
  : result (heap * suppressions * bool) :=
  '(h, c, leaking) ← check_tries fail regions h c tries 0;
  Ok (h, c, (leaking =? tries)%nat).
End report.

(** ** What is counted *)

Section spec.
Context {T : LsanTool} (prefix_id : Z -> Z -> Z).

Definition chunk_key (x : LeakedChunk) : Z * bool :=
  (report_stack_id prefix_id (leaked_stack_id x), bool_decide (leaked_tag x = kDirectlyLeaked)).
Definition leak_key (l : Leak) : Z * bool := (leak_stack_id l, is_directly_leaked l).

Fixpoint count_of (k : Z * bool) (xs : list LeakedChunk) : Z :=
  match xs with [] => 0 | x :: xs => (if decide (chunk_key x = k) then 1 else 0) + count_of k xs end.
Fixpoint bytes_of (k : Z * bool) (xs : list LeakedChunk) : Z :=
  match xs with [] => 0 | x :: xs => (if decide (chunk_key x = k) then leaked_size x else 0) + bytes_of k xs end.

(** The report accounts for the chunks [xs]. *)
Record counts (xs : list LeakedChunk) (r : LeakReport) : Prop := {
  c_once : NoDup (leak_key <$> leaks_ r);
  c_all x : x ∈ xs -> chunk_key x ∈ leak_key <$> leaks_ r;
  c_some l : l ∈ leaks_ r -> exists x, x ∈ xs /\ chunk_key x = leak_key l;
  c_sums l : l ∈ leaks_ r -> hit_count l = wrap (count_of (leak_key l) xs) /\ total_size l = wrap (bytes_of (leak_key l) xs) /\ is_suppressed l = false;
}.

Lemma count_of_snoc (k : Z * bool) (xs : list LeakedChunk) (x : LeakedChunk) :
  count_of k (xs ++ [x]) = count_of k xs + (if decide (chunk_key x = k) then 1 else 0).
Proof using Type. induction xs as [| y xs IH]; cbn; [lia |]. rewrite IH. lia. Qed.
Lemma bytes_of_snoc (k : Z * bool) (xs : list LeakedChunk) (x : LeakedChunk) :
  bytes_of k (xs ++ [x]) = bytes_of k xs + (if decide (chunk_key x = k) then leaked_size x else 0).
Proof using Type. induction xs as [| y xs IH]; cbn; [lia |]. rewrite IH. lia. Qed.
Lemma count_of_none (k : Z * bool) (xs : list LeakedChunk) : (forall x, x ∈ xs -> chunk_key x <> k) -> count_of k xs = 0 /\ bytes_of k xs = 0.
Proof using Type.
  induction xs as [| x xs IH]; intros H; [done |]. cbn. rewrite !decide_False by (apply H; by left).
  destruct IH as [-> ->]; [intros y Hy; apply H; by right | done].
Qed.

(** The leak that counts one more chunk. *)
Definition bump (sz : Z) (l : Leak) : Leak :=
  MkLeak (id l) (hit_count l +w 1) (total_size l +w sz) (leak_stack_id l) (is_directly_leaked l) (is_suppressed l).

Lemma count_leak_spec (sid sz : Z) (directly : bool) (leaks : list Leak) :
  match count_leak sid sz directly leaks with
  | Some (leaks', i) => exists l1 l l2, leaks = l1 ++ l :: l2 /\ leak_key l = (sid, directly) /\ leaks' = l1 ++ bump sz l :: l2 /\ i = id l
  | None => ~ (sid, directly) ∈ leak_key <$> leaks
  end.
Proof using Type.
  induction leaks as [| l leaks IH]; cbn [count_leak fmap list_fmap]; [apply not_elem_of_nil |].
  destruct ((leak_stack_id l =? sid) && Bool.eqb (is_directly_leaked l) directly) eqn:Hk.
  - apply andb_true_iff in Hk as [H1%Z.eqb_eq H2%eqb_prop].
    exists [], l, leaks. split; [done |]. split; [unfold leak_key; congruence | done].
  - assert (Hne : leak_key l <> (sid, directly)).
    { unfold leak_key. intros [= H1 H2]. rewrite H1, H2, Z.eqb_refl, eqb_reflx in Hk. done. }
    destruct (count_leak sid sz directly leaks) as [[leaks' i] |].
    + destruct IH as (l1 & l0 & l2 & -> & Hl0 & -> & ->). by exists (l :: l1), l0, l2.
    + rewrite elem_of_cons. intros [Heq | Hin]; [by symmetry in Heq | done].
Qed.

Lemma bump_key (sz : Z) (l : Leak) : leak_key (bump sz l) = leak_key l.
Proof using Type. done. Qed.

(** One more chunk of a known kind. *)
Lemma counts_bump (xs : list LeakedChunk) (x : LeakedChunk) (l1 l2 : list Leak) (l : Leak) (n n' : Z) (os os' : list LeakedObject) :
  counts xs (Report n (l1 ++ l :: l2) os) -> leak_key l = chunk_key x ->
  counts (xs ++ [x]) (Report n' (l1 ++ bump (leaked_size x) l :: l2) os').
Proof using Type.
  intros [Hnd Hall Hsome Hsums] Hk. cbn in *.
  assert (Hkeys : leak_key <$> (l1 ++ bump (leaked_size x) l :: l2) = leak_key <$> (l1 ++ l :: l2)) by (by rewrite !fmap_app).
  assert (Hother : forall l', l' ∈ l1 \/ l' ∈ l2 -> leak_key l' <> leak_key l).
  { rewrite fmap_app in Hnd. cbn in Hnd. apply NoDup_app in Hnd as (_ & Hdis & [Hn2 _]%NoDup_cons).
    intros l' [Hin | Hin] Heq.
    - apply (Hdis (leak_key l')); [by apply list_elem_of_fmap_2 | rewrite Heq; by left].
    - apply Hn2. rewrite <- Heq. by apply list_elem_of_fmap_2. }
  split; cbn; rewrite ?Hkeys; try done.
  - intros y [Hy | ->%list_elem_of_singleton]%elem_of_app; [by apply Hall |]. rewrite <- Hk, fmap_app, elem_of_app. right. by left.
  - intros l' Hl'. assert (Hsome' : exists l0, l0 ∈ l1 ++ l :: l2 /\ leak_key l0 = leak_key l').
    { rewrite elem_of_app, elem_of_cons in Hl'. destruct Hl' as [Hl' | [-> | Hl']].
      - exists l'. rewrite elem_of_app. auto.
      - exists l. rewrite elem_of_app, elem_of_cons. auto.
      - exists l'. rewrite elem_of_app, elem_of_cons. auto. }
    destruct Hsome' as (l0 & Hl0 & <-). destruct (Hsome l0 Hl0) as (y & Hy & Heq). exists y. rewrite elem_of_app. auto.
  - intros l' Hl'. rewrite count_of_snoc, bytes_of_snoc. rewrite elem_of_app, elem_of_cons in Hl'.
    assert (Hcase : l' = bump (leaked_size x) l \/ (l' ∈ l1 \/ l' ∈ l2)) by tauto. destruct Hcase as [-> | Hin].
    + destruct (Hsums l) as (H1 & H2 & H3); [rewrite elem_of_app, elem_of_cons; auto |]. rewrite bump_key. rewrite !decide_True by done. cbn.
      rewrite H1, H2. rewrite !wrap_add_l. done.
    + rewrite !decide_False by (rewrite <- Hk; intros Heq; by apply (Hother l')). rewrite !Z.add_0_r. apply Hsums.
      rewrite elem_of_app, elem_of_cons. tauto.
Qed.

(** The first chunk of its kind. *)
Lemma counts_new (xs : list LeakedChunk) (x : LeakedChunk) (leaks : list Leak) (n n' i : Z) (os os' : list LeakedObject) :
  counts xs (Report n leaks os) -> ~ chunk_key x ∈ leak_key <$> leaks -> is_uptr (leaked_size x) ->
  counts (xs ++ [x]) (Report n' (leaks ++ [MkLeak i 1 (leaked_size x) (chunk_key x).1 (chunk_key x).2 false]) os').
Proof using Type.
  intros [Hnd Hall Hsome Hsums] Hk Hsz. cbn in *. set (l := MkLeak _ _ _ _ _ _).
  assert (Hl : leak_key l = chunk_key x) by done.
  split; cbn.
  - rewrite fmap_app. apply NoDup_app. split; [done |]. split; [| apply NoDup_singleton]. intros k Hin ->%list_elem_of_singleton. by apply Hk.
  - intros y. rewrite fmap_app, !elem_of_app. intros [Hy | ->%list_elem_of_singleton]; [left; by apply Hall | right; by left].
  - intros l' [Hl' | ->%list_elem_of_singleton]%elem_of_app.
    + destruct (Hsome l' Hl') as (y & Hy & Heq). exists y. rewrite elem_of_app. auto.
    + exists x. rewrite elem_of_app. split; [right; by left | done].
  - intros l' [Hl' | ->%list_elem_of_singleton]%elem_of_app; rewrite count_of_snoc, bytes_of_snoc.
    + rewrite !decide_False; [rewrite !Z.add_0_r; by apply Hsums | |]; intros Heq; apply Hk; rewrite Heq; by apply list_elem_of_fmap_2.
    + rewrite Hl, !decide_True by done. destruct (count_of_none (chunk_key x) xs) as [-> ->].
      { intros y Hy Heq. apply Hk. rewrite <- Heq. by apply Hall. }
      cbn. split; [done |]. split; [by rewrite wrap_small | done].
Qed.

Definition leaked_chunk (x : LeakedChunk) : Prop :=
  (leaked_tag x = kDirectlyLeaked \/ leaked_tag x = kIndirectlyLeaked) /\ is_uptr (leaked_size x).

Lemma AddLeakedChunks_spec (xs : list LeakedChunk) (done_ : list LeakedChunk) (r : LeakReport) :
  counts done_ r -> (length (leaks_ r) <= kMaxLeaksConsidered)%nat -> (forall x, x ∈ xs -> leaked_chunk x) ->
  exists r', AddLeakedChunks prefix_id r xs = Ok r' /\ (length (leaks_ r') <= kMaxLeaksConsidered)%nat /\
  ((length (leaks_ r') < kMaxLeaksConsidered)%nat -> counts (done_ ++ xs) r') /\
  (forall l, l ∈ leaks_ r' -> is_suppressed l = false).
Proof using Type.
  revert done_ r. induction xs as [| x xs IH]; intros done_ r Hc Hlen Hx.
  { exists r. split; [done |]. split; [done |]. rewrite app_nil_r. split; [done |]. intros l Hl. by apply (c_sums _ _ Hc). }
  destruct (Hx x ltac:(by left)) as [Htag Hsz]. cbn [AddLeakedChunks]. rewrite check_true by (by apply bool_decide_true). rewrite Ok_bind. cbv zeta.
  destruct r as [n leaks os]. cbn [leaks_ next_id_ leaked_objects_] in *.
  pose proof (count_leak_spec (report_stack_id prefix_id (leaked_stack_id x)) (leaked_size x) (bool_decide (leaked_tag x = kDirectlyLeaked)) leaks) as Hspec.
  replace (done_ ++ x :: xs) with ((done_ ++ [x]) ++ xs) by (by rewrite <- app_assoc).
  destruct (count_leak _ _ _ leaks) as [[leaks' i] |].
  - destruct Hspec as (l1 & l & l2 & -> & Hk & -> & _). apply IH; [by apply (counts_bump done_ x l1 l2 l n n os) | | intros y Hy; apply Hx; by right].
    cbn. rewrite length_app in *. done.
  - destruct (Nat.eqb_spec (length leaks) kMaxLeaksConsidered) as [Hfull | Hfull].
    + eexists. split; [done |]. cbn. split; [lia |]. split; [lia |]. intros l Hl. by apply (c_sums _ _ Hc).
    + apply IH; [by apply (counts_new done_ x leaks n _ n os) | | intros y Hy; apply Hx; by right].
      cbn. rewrite length_app. cbn. lia.
Qed.

Lemma no_leaks_counts : counts [] no_leaks.
Proof using Type. split; cbn; [constructor | intros x []%not_elem_of_nil..]. Qed.
End spec.

(** C18. A report that is not full is exact: AddLeakedChunks returns for any
    leaked chunks, the report never has more than kMaxLeaksConsidered entries,
    and if it has fewer there is one entry for each pair of stack (cut to the
    resolution) and kind that occurs, no other, with the number of chunks of
    that pair and the sum of their sizes, as 64-bit words. *)
Theorem leak_report_exact {T : LsanTool} (prefix_id : Z -> Z -> Z) (xs : list LeakedChunk) :
  (forall x, x ∈ xs -> leaked_chunk x) ->
  exists r, AddLeakedChunks prefix_id no_leaks xs = Ok r /\ (length (leaks_ r) <= kMaxLeaksConsidered)%nat /\
  ((length (leaks_ r) < kMaxLeaksConsidered)%nat ->
    NoDup (leak_key <$> leaks_ r) /\
    (forall k, k ∈ leak_key <$> leaks_ r <-> k ∈ chunk_key prefix_id <$> xs) /\
    forall l, l ∈ leaks_ r -> hit_count l = wrap (count_of prefix_id (leak_key l) xs) /\ total_size l = wrap (bytes_of prefix_id (leak_key l) xs)).
Proof.
  intros Hx. destruct (AddLeakedChunks_spec prefix_id xs [] no_leaks (no_leaks_counts prefix_id)) as (r & Hr & Hlen & Hc & _); [cbn; lia | done |].
  exists r. split; [done |]. split; [done |]. intros Hlt. destruct (Hc Hlt) as [Hnd Hall Hsome Hsums]. split; [done |]. split.
  - intros k. split.
    + intros (l & -> & Hl)%list_elem_of_fmap. destruct (Hsome l Hl) as (x & Hin & <-). by apply list_elem_of_fmap_2.
    + intros (x & -> & Hin)%list_elem_of_fmap. by apply Hall.
  - intros l Hl. destruct (Hsums l Hl) as (? & ? & _). done.
Qed.

(** ** Suppressions *)

Section once.
Context {T : LsanTool} {W : World} {A : LsanAllocator T} (prefix_id : Z -> Z -> Z) (suppress_stack : Z -> bool).

Lemma apply_to_spec (leaks : list Leak) (c : suppressions) : (forall l, l ∈ leaks -> is_suppressed l = false) ->
  exists c' leaks' n, apply_to suppress_stack c leaks = (c', leaks', n) /\
  leak_key <$> leaks' = leak_key <$> leaks /\ (forall l, l ∈ leaks' -> is_suppressed l = suppress_stack (leak_stack_id l)) /\
  (forall s, s ∈ suppressed_stacks c' -> s ∈ suppressed_stacks c \/ suppress_stack s = true) /\
  (suppressed_stacks_sorted c' = true -> c' = c) /\ length leaks' = length leaks.
Proof using Type.
  revert c. induction leaks as [| l leaks IH]; intros c Hl; cbn [apply_to].
  { exists c, [], 0. split; [done |]. split; [done |]. split; [intros l []%not_elem_of_nil |]. split; [by left | done]. }
  unfold Suppress. assert (Hrest : forall l0, l0 ∈ leaks -> is_suppressed l0 = false) by (intros l0 H0; apply Hl; by right).
  destruct (suppress_stack (leak_stack_id l)) eqn:Hs.
  - destruct (IH (Suppressions false (suppressed_stacks c ++ [leak_stack_id l])) Hrest) as (c' & leaks' & n & -> & Hk & Hsup & Hst & Hsorted & Hlen).
    eexists _, _, _. split; [done |]. cbn. split; [by rewrite Hk |]. split; [| split; [| split; [| by rewrite Hlen]]].
    + intros l' [-> | Hl']%elem_of_cons; [done | by apply Hsup].
    + intros s Hin. destruct (Hst s Hin) as [Hin' | ?]; [| by right]. cbn in Hin'. apply elem_of_app in Hin' as [? | ->%list_elem_of_singleton]; [by left | by right].
    + intros Hso. specialize (Hsorted Hso). subst c'. discriminate Hso.
  - destruct (IH c Hrest) as (c' & leaks' & n & -> & Hk & Hsup & Hst & Hsorted & Hlen).
    eexists _, _, _. split; [done |]. cbn. split; [by rewrite Hk |]. split; [| split; [done | split; [done | by rewrite Hlen]]].
    intros l' [-> | Hl']%elem_of_cons; [rewrite Hs; apply Hl; by left | by apply Hsup].
Qed.

Lemma unsuppressed_count (leaks : list Leak) (n : Z) : 0 <= n -> n + Z.of_nat (length leaks) < word_modulus ->
  let m := foldl (fun result l => if negb (is_suppressed l) then result +w 1 else result) n leaks in
  n <= m /\ (n < m <-> exists l, l ∈ leaks /\ is_suppressed l = false).
Proof using Type.
  revert n. induction leaks as [| l leaks IH]; intros n Hn Hlen; cbn in *.
  { split; [lia |]. split; [lia | intros (l & []%not_elem_of_nil & _)]. }
  setoid_rewrite elem_of_cons. destruct (is_suppressed l) eqn:Hs; cbn [negb].
  - destruct (IH n Hn ltac:(lia)) as [H1 H2]. split; [done |]. rewrite H2. split.
    + intros (l' & ? & ?). by exists l'; auto.
    + intros (l' & [-> | ?] & ?); [congruence | by exists l'].
  - rewrite wrap_small by (unfold is_uptr; lia). destruct (IH (n + 1) ltac:(lia) ltac:(lia)) as [H1 H2]. split; [lia |]. split; [intros _; exists l; auto | lia].
Qed.

(** [sorted] is set only while the stacks are. *)
Definition suppressions_ok (c : suppressions) : Prop := suppressed_stacks_sorted c = true -> sorted Z.ltb (suppressed_stacks c).

Lemma sorted_stacks (c : suppressions) : suppressions_ok c -> exists c' v, GetSortedSuppressedStacks c = Ok (c', v) /\
  suppressed_stacks c' = v /\ suppressed_stacks_sorted c' = true /\ sorted Z.ltb v /\ forall s, s ∈ v -> s ∈ suppressed_stacks c.
Proof using Type.
  intros Hc. unfold GetSortedSuppressedStacks. destruct (suppressed_stacks_sorted c) eqn:Hs.
  { exists c, (suppressed_stacks c). split; [done |]. split; [done |]. split; [done |]. split; [by apply Hc | done]. }
  destruct (SortAndDedup_spec Z.ltb less_strict_weak (suppressed_stacks c)) as (v & -> & Hinc & Hin & _). rewrite Ok_bind.
  exists (Suppressions true v), v. split; [done |]. split; [done |]. split; [done |]. split; [| done].
  intros k l [Hkl Hlen] _ x y Hx Hy. specialize (Hinc k l x y Hkl Hx Hy). apply Z.ltb_lt in Hinc. apply Z.ltb_ge. lia.
Qed.

(** What the last round of a check has seen. *)
Definition last_round (regions : RootRegions) (h : heap) (c : suppressions) (r : LeakReport) : Prop :=
  exists hl stacks, retagged h hl /\ pre_check hl /\
  (forall s, s ∈ stacks -> s ∈ suppressed_stacks c \/ suppress_stack s = true) /\
  (forall l, l ∈ leaks_ r -> is_suppressed l = suppress_stack (leak_stack_id l)) /\
  ((length (leaks_ r) < kMaxLeaksConsidered)%nat -> forall x m, hl !! x = Some m -> allocated m = true -> ~ live regions stacks hl x ->
    exists l, l ∈ leaks_ r /\ leak_stack_id l = report_stack_id prefix_id (stack_trace_id m)).

Lemma leak_round_ok (regions : RootRegions) (fail : Z) (h : heap) (c : suppressions) :
  chunks_ok h -> pre_check h -> suppressions_ok c -> world_ok regions ->
  (fail <> 0 /\ fail <> 2) \/ (forall t, t ∈ GetRunningThreadsLocked -> t ∈ thread_id <$> suspended_threads) ->
  exists h' c' r n, leak_round prefix_id suppress_stack fail regions h c = Ok (h', c', r, n) /\
  retagged h h' /\ chunks_ok h' /\ pre_check h' /\ suppressions_ok c' /\
  (forall s, s ∈ suppressed_stacks c' -> s ∈ suppressed_stacks c \/ suppress_stack s = true) /\
  (UnsuppressedLeakCount r <> 0 <-> exists l, l ∈ leaks_ r /\ is_suppressed l = false) /\ last_round regions h c r.
Proof using Type.
  intros Hok Hpre Hc Hw Hthreads. unfold leak_round. destruct (sorted_stacks c Hc) as (c1 & v & -> & Hv & Hso & Hsorted & Hsub). rewrite Ok_bind.
  destruct (leak_check_spec regions v h fail Hok Hpre Hsorted Hw Hthreads) as (h1 & leaks & -> & _ & Hin & Hleak & Hr1 & Hok1 & Hpre1 & _).
  rewrite Ok_bind. cbn [negb].
  assert (Hleaked : forall l, l ∈ leaks -> leaked_chunk l).
  { intros l Hl. destruct (Hleak l Hl) as (m & Hm & _ & Hsz & Htag). split; [tauto |].
    destruct (chunk_range h (chunk_ l) m Hok Hm) as (? & ? & ?). rewrite Hsz. unfold is_uptr. lia. }
  destruct (AddLeakedChunks_spec prefix_id leaks [] no_leaks (no_leaks_counts prefix_id)) as (r & -> & Hlen & Hcounts & Hfresh); [cbn; lia | done |].
  rewrite Ok_bind. unfold ApplySuppressions.
  destruct (apply_to_spec (leaks_ r) c1 Hfresh) as (c2 & leaks2 & n & -> & Hkeys & Hsupp & Hst & Hsame & Hlen2).
  eexists h1, c2, _, n. split; [reflexivity |]. split; [done |]. split; [done |]. split; [done |]. cbn [leaks_]. split; [| split; [| split]].
  - intros H. specialize (Hsame H). subst c2. by rewrite Hv.
  - intros s Hs. destruct (Hst s Hs) as [H1 | ?]; [left; apply Hsub; by rewrite <- Hv | by right].
  - unfold UnsuppressedLeakCount. cbn [leaks_].
    destruct (unsuppressed_count leaks2 0) as [H1 H2]; [lia | unfold kMaxLeaksConsidered in *; unfold word_modulus; lia |]. rewrite <- H2. lia.
  - exists h, v. split; [done |]. split; [done |]. split; [intros s Hs; left; by apply Hsub |]. split; [done |].
    cbn [leaks_]. rewrite Hlen2. intros Hlt x m Hm Ha Hnl. destruct (Hcounts Hlt) as [_ Hall _ _].
    assert (Hx : x ∈ chunk_ <$> leaks) by (apply Hin; split; [by exists m | done]).
    apply list_elem_of_fmap in Hx as (lc & -> & Hlc). destruct (Hleak lc Hlc) as (m' & Hm' & Hid & _). rewrite Hm in Hm'. injection Hm' as <-.
    specialize (Hall lc Hlc). rewrite <- Hkeys in Hall. apply list_elem_of_fmap in Hall as (l & Hl & Hll). exists l. split; [done |].
    unfold chunk_key, leak_key in Hl. injection Hl as Hl _. by rewrite <- Hl, Hid.
Qed.

Lemma check_rounds_ok (regions : RootRegions) (fail : Z) (rounds : nat) (h : heap) (c : suppressions) :
  chunks_ok h -> pre_check h -> suppressions_ok c -> world_ok regions ->
  (fail <> 0 /\ fail <> 2) \/ (forall t, t ∈ GetRunningThreadsLocked -> t ∈ thread_id <$> suspended_threads) ->
  exists h' c' r b, check_rounds prefix_id suppress_stack fail regions h c rounds = Ok (h', c', r, b) /\
  retagged h h' /\ chunks_ok h' /\ pre_check h' /\ suppressions_ok c' /\
  (b = true <-> exists l, l ∈ leaks_ r /\ is_suppressed l = false) /\ last_round regions h c r.
Proof using Type.
  intros Hok Hpre Hc Hw Hthreads. revert h c Hok Hpre Hc. induction rounds as [| rounds IH]; intros h c Hok Hpre Hc; cbn [check_rounds];
    destruct (leak_round_ok regions fail h c Hok Hpre Hc Hw Hthreads) as (h1 & c2 & r & n & -> & Hr1 & Hok1 & Hpre1 & Hc2 & Hst & Hb & Hlast);
    rewrite Ok_bind; cbv zeta;
    (assert (Hdone : exists h' c' r' b, Ok (h1, c2, r, negb (UnsuppressedLeakCount r =? 0)) = Ok (h', c', r', b) /\
      retagged h h' /\ chunks_ok h' /\ pre_check h' /\ suppressions_ok c' /\
      (b = true <-> exists l, l ∈ leaks_ r' /\ is_suppressed l = false) /\ last_round regions h c r')
      by (eexists _, _, _, _; split; [reflexivity |]; split_and!; try done; by rewrite negb_true_iff, Z.eqb_neq);
     destruct (n =? 0); [exact Hdone |]; destruct (IndirectUnsuppressedLeakCount r =? 0); [exact Hdone |]; try exact Hdone).
  destruct (IH h1 c2 Hok1 Hpre1 Hc2) as (h' & c' & r' & b & Hrun & Hr' & Hok' & Hpre' & Hc' & Hb' & (hl & stacks & L1 & L2 & L3 & L4)).
  exists h', c', r', b. split; [exact Hrun |]. split_and!; try done; [by apply retagged_trans with h1 |].
  exists hl, stacks. split; [by apply retagged_trans with h1 |]. split; [done |]. split; [| done].
  intros s Hs. destruct (L3 s Hs) as [Hs' | ?]; [by apply Hst | by right].
Qed.
End once.


(** ** Examples *)

Definition sample_leak (c id : Z) (t : ChunkTag) : LeakedChunk := Leaked c id 32 t.
Definition sample_leaked : list LeakedChunk :=
  [sample_leak 1 7 kDirectlyLeaked; sample_leak 2 8 kIndirectlyLeaked; sample_leak 3 7 kDirectlyLeaked; sample_leak 4 7 kIndirectlyLeaked].
Example sample_report : (fun r => (fun l => (leak_stack_id l, hit_count l, total_size l, is_directly_leaked l)) <$> leaks_ r) <$>
  AddLeakedChunks (fun _ s => s) no_leaks sample_leaked =
  Ok [(7, 2, 64, true); (8, 1, 32, false); (7, 1, 32, false)].
Proof. vm_compute. reflexivity. Qed.

Lemma leak_report_exact_witness :
  exists r, AddLeakedChunks (fun _ s => s) no_leaks sample_leaked = Ok r /\ (length (leaks_ r) <= kMaxLeaksConsidered)%nat /\
  ((length (leaks_ r) < kMaxLeaksConsidered)%nat ->
    NoDup (leak_key <$> leaks_ r) /\
    (forall k, k ∈ leak_key <$> leaks_ r <-> k ∈ chunk_key (fun _ s => s) <$> sample_leaked) /\
    forall l, l ∈ leaks_ r -> hit_count l = wrap (count_of (fun _ s => s) (leak_key l) sample_leaked) /\ total_size l = wrap (bytes_of (fun _ s => s) (leak_key l) sample_leaked)).
Proof.
  apply (leak_report_exact (fun _ s => s) sample_leaked). intros x Hx. unfold sample_leaked in Hx. rewrite !elem_of_cons, elem_of_nil in Hx.
  destruct Hx as [-> | [-> | [-> | [-> | []]]]]; (split; [cbn; tauto | cbn; unfold is_uptr, word_modulus; lia]).
Defined.

Lemma sample_chunks_ok : chunks_ok sample_heap.
Proof.
  split.
  - intros b Hb. by apply sample_in_use.
  - intros c m Hm. destruct (sample_lookup c m Hm) as (Hin & -> & _). split; [exact Hin |].
    unfold sample_blocks in Hin. apply list_elem_of_fmap in Hin as (k & -> & Hk). apply elem_of_seqZ in Hk. unfold word_modulus. lia.
Qed.

(** Stack 3 is suppressed, so D is reachable in the second run. *)
Example sample_check : (fun '(_, c, r, b) => (suppressed_stacks c, (fun l => (leak_stack_id l, is_suppressed l)) <$> leaks_ r, b)) <$>
  CheckForLeaksOnce (fun _ s => s) (fun s => s =? 3) 1 ∅ sample_heap (Suppressions true []) = Ok ([3], [], false).
Proof. vm_compute. reflexivity. Qed.

