(* ===== verification/HeapAllocator.v ===== *)
(** * The interface of an allocator of blocks

    What the ASan allocator and LeakSanitizer ask of the allocator below them:
    the primary allocator, the secondary one and their combination
    (sanitizer_allocator_combined.h) all have the operations [HeapAllocator]
    and keep the promises [HeapAllocatorSpec].  Calls of the template parameter
    [MapUnmapCallback] are returned as a list of events, in order; the client
    carries them out. *)

From S2P Require Import Prelude ShadowMapping Memory ShadowWrites SizeClassMap.

(** The calls of [MapUnmapCallback]. *)
Inductive map_event : Type :=
| OnMap (p size : Z)
| OnMapSecondary (p size user_begin user_size : Z)
| OnUnmap (p size : Z).

Definition event_range (e : map_event) : Z * Z :=
  match e with OnMap p n | OnMapSecondary p n _ _ | OnUnmap p n => (p, n) end.
Definition in_event (e : map_event) (a : Z) : Prop := fst (event_range e) <= a < fst (event_range e) + snd (event_range e).
Definition is_OnMap (e : map_event) : Prop := match e with OnMap _ _ => True | _ => False end.

(** [allocate st t m size alignment] returns the block (0 when there is none),
    the callbacks made, and the state and memory afterwards; the state of the
    allocator includes the caches, and [t] names the one that the caller
    passes: that of a thread, or the fallback cache. *)
Class HeapAllocator : Type := {
  astate : Type;
  allocate : astate -> option Z -> memory -> Z -> Z -> result (Z * list map_event * astate * memory);
  deallocate : astate -> option Z -> memory -> Z -> result (list map_event * astate * memory);
  block_begin : astate -> Z -> result Z;
  actual_size : astate -> Z -> result Z;
  from_primary : Z -> bool;
}.

(** ** What an allocation does

    [blocks] maps the beginning of each block in use to its size; [owned] are
    the addresses that the allocator has mapped. *)

Definition in_blocks (blocks : gmap Z Z) (a : Z) : Prop := exists p n, blocks !! p = Some n /\ p <= a < p + n.

Section outcomes.
Context (M : mapping).

Record allocated (blocks blocks' : gmap Z Z) (owned owned' : Z -> Prop) (m m' : memory) (size p : Z)
  (primary : bool) (es : list map_event) : Prop := {
  alloc_block : p <> 0 -> exists n, size <= n /\ blocks !! p = None /\ blocks' = <[p := n]> blocks;
  alloc_null : p = 0 -> blocks' = blocks;
  alloc_owned : forall a, owned' a <-> owned a \/ exists e, In e es /\ in_event e a;
  alloc_mapped : forall e, In e es -> granules_ok M (fst (event_range e)) (snd (event_range e)) /\ forall a, in_event e a -> ~ owned a;
  alloc_memory : forall a, m' a = m a \/ owned' a /\ ~ in_blocks blocks a;
  alloc_bytes : bytes_ok m -> bytes_ok m';
  (** Memory of the primary allocator is mapped ahead; a secondary block has
      a mapping of its own, filled with zeros. *)
  alloc_events : if primary || (p =? 0) then Forall is_OnMap es
    else exists mb ms n, es = [OnMapSecondary mb ms p size] /\ blocks' !! p = Some n /\ mb <= p /\ p + n <= mb + ms /\
      p + size <= mb + ms /\ forall a, p <= a < p + n -> m' a = 0;
}.

Record deallocated_block (blocks blocks' : gmap Z Z) (owned owned' : Z -> Prop) (m m' : memory) (p n : Z)
  (primary : bool) (es : list map_event) : Prop := {
  dealloc_block : blocks' = delete p blocks;
  dealloc_memory : forall a, m' a = m a \/ (owned a \/ owned' a) /\ ~ in_blocks blocks' a;
  dealloc_bytes : bytes_ok m -> bytes_ok m';
  (** Returning a block to the primary may map more of a free array. *)
  dealloc_events : if primary then Forall is_OnMap es /\ (forall a, owned' a <-> owned a \/ exists e, In e es /\ in_event e a) /\
      forall e, In e es -> granules_ok M (fst (event_range e)) (snd (event_range e)) /\ forall a, in_event e a -> ~ owned a
    else exists mb ms, es = [OnUnmap mb ms] /\ granules_ok M mb ms /\ mb <= p /\ p + n <= mb + ms /\
      (forall a, mb <= a < mb + ms -> owned a) /\ forall a, owned' a <-> owned a /\ ~ (mb <= a < mb + ms);
}.

End outcomes.

(** [largest] is the largest size that is served from the primary allocator;
    [fits] are the sizes this allocator may be asked for. *)
Class HeapAllocatorSpec (M : mapping) (largest : Z) (A : HeapAllocator) : Type := {
  alloc_inv : astate -> Prop;
  blocks : astate -> gmap Z Z;
  owned : astate -> Z -> Prop;
  (** There is room for one more block in the allocator's fixed tables. *)
  room : astate -> Prop;
  fits : Z -> bool;

  owned_mem st a : alloc_inv st -> owned st a -> 8 <= a < 2 ^ 62 /\ AddrIsInMem M a = true;
  owned_granule st a b : alloc_inv st -> owned st a -> a / 8 = b / 8 -> owned st b;
  block_shape st p n : alloc_inv st -> blocks st !! p = Some n ->
    0 < n /\ p mod 8 = 0 /\ n mod 8 = 0 /\ forall a, p <= a < p + n -> owned st a;
  block_found st p n a : alloc_inv st -> blocks st !! p = Some n -> p <= a < p + n ->
    block_begin st a = Ok p /\ from_primary a = from_primary p;
  block_size st p n : alloc_inv st -> blocks st !! p = Some n -> actual_size st p = Ok n;
  blocks_disjoint st p n q k : alloc_inv st -> blocks st !! p = Some n -> blocks st !! q = Some k -> p <> q ->
    p + n <= q \/ q + k <= p;

  allocate_spec st t m size alignment : alloc_inv st -> room st -> 0 < size <= 2 ^ 41 -> fits size = true ->
    alignment = 1 \/ alignment = 8 ->
    exists p es st' m', allocate st t m size alignment = Ok (p, es, st', m') /\ alloc_inv st' /\
      allocated M (blocks st) (blocks st') (owned st) (owned st') m m' size p (from_primary p) es /\
      (p <> 0 -> from_primary p = (size <=? largest));
  deallocate_spec st t m p n : alloc_inv st -> blocks st !! p = Some n ->
    exists es st' m', deallocate st t m p = Ok (es, st', m') /\ alloc_inv st' /\
      deallocated_block M (blocks st) (blocks st') (owned st) (owned st') m m' p n (from_primary p) es;
}.

(** ** The primary allocator, as the combined one sees it *)

(** [cache->Allocate(&primary, class_id)] and [cache->Deallocate], the cache
    being that of the caller [t], and the queries of the primary allocator. *)
Class PrimaryAllocator : Type := {
  pstate : Type;
  cache_Allocate : pstate -> option Z -> memory -> Z -> result (Z * list map_event * pstate * memory);
  cache_Deallocate : pstate -> option Z -> memory -> Z -> Z -> result (list map_event * pstate * memory);
  primary_PointerIsMine : Z -> bool;
  primary_GetSizeClass : Z -> Z;
  primary_GetBlockBegin : pstate -> Z -> result Z;
  primary_GetActuallyAllocatedSize : pstate -> Z -> result Z;
}.

Class PrimaryAllocatorSpec (M : mapping) (P : size_class_params) (A : PrimaryAllocator) : Type := {
  primary_inv : pstate -> Prop;
  primary_blocks : pstate -> gmap Z Z;
  primary_owned : pstate -> Z -> Prop;
  primary_room : pstate -> Prop;

  primary_mem st a : primary_inv st -> primary_owned st a -> 8 <= a < 2 ^ 62 /\ AddrIsInMem M a = true;
  primary_mine st a : primary_inv st -> primary_owned st a -> primary_PointerIsMine a = true;
  primary_granule st a b : primary_inv st -> primary_owned st a -> a / 8 = b / 8 -> primary_owned st b;
  primary_shape st p n : primary_inv st -> primary_blocks st !! p = Some n ->
    0 < n /\ p mod 8 = 0 /\ n mod 8 = 0 /\ forall a, p <= a < p + n -> primary_owned st a;
  primary_found st p n a : primary_inv st -> primary_blocks st !! p = Some n -> p <= a < p + n ->
    primary_GetBlockBegin st a = Ok p;
  primary_size st p n : primary_inv st -> primary_blocks st !! p = Some n -> primary_GetActuallyAllocatedSize st p = Ok n;
  primary_disjoint st p n q k : primary_inv st -> primary_blocks st !! p = Some n -> primary_blocks st !! q = Some k -> p <> q ->
    p + n <= q \/ q + k <= p;
  primary_allocate st t m class_id : primary_inv st -> primary_room st -> 1 <= class_id <= kLargestClassID P ->
    exists p es st' m', cache_Allocate st t m class_id = Ok (p, es, st', m') /\ primary_inv st' /\
      allocated M (primary_blocks st) (primary_blocks st') (primary_owned st) (primary_owned st') m m'
        (Size P class_id) p true es;
  primary_deallocate st t m p n : primary_inv st -> primary_blocks st !! p = Some n ->
    exists es st' m', cache_Deallocate st t m (primary_GetSizeClass p) p = Ok (es, st', m') /\ primary_inv st' /\
      deallocated_block M (primary_blocks st) (primary_blocks st') (primary_owned st) (primary_owned st') m m' p n true es;
}.
