(* ===== verification/LargeMmap.v ===== *)
(** * The secondary allocator: LargeMmapAllocator of sanitizer_allocator_secondary.h

    Every block has a mapping of its own with a header in the page before it.
    The array of chunks is a list, sorted only when a search needs it; headers
    live in a map from their addresses.  What the operating system's mmap
    returns is a parameter.  Statistics and locks are left out. *)

From S2P Require Import Prelude Words ShadowMapping Memory ShadowWrites HeapAllocator Sorting.

Definition kMaxNumChunks : Z := Z.shiftl 1 20.

(** [Header]; a reference to one is its address. *)
Record Header : Type := MkHeader { map_beg : Z; map_size : Z; h_used : Z; chunk_idx : nat }.

Record LargeMmapAllocator : Type := MkLarge { headers : gmap Z Header; chunks : list Z; chunks_sorted : bool }.

Definition empty_large : LargeMmapAllocator := MkLarge ∅ [] false.

(** [MmapOrDieOnFatalError]: the address of a new mapping, 0 when there is
    none, given the mappings of the allocator. *)
Class PageMapper : Type := { page_size_ : Z; mmap_pages : gmap Z Header -> Z -> Z }.

Section large.
Context `{!PageMapper}.

Definition RoundUpMapSize (size : Z) : result Z := r ← RoundUpTo size page_size_; Ok (r +w page_size_).

Definition GetHeader (p : Z) : result Z := _ ← check (IsAligned p page_size_); Ok (p -w page_size_).
Definition GetUser (h : Z) : result Z := _ ← check (IsAligned h page_size_); Ok (h +w page_size_).

Definition large_Allocate (st : LargeMmapAllocator) (m : memory) (size alignment : Z)
  : result (Z * list map_event * LargeMmapAllocator * memory) :=
  _ ← check (IsPowerOfTwo alignment);
  map_size ← RoundUpMapSize size;
  let map_size := if page_size_ <? alignment then map_size +w alignment else map_size in
  if map_size <? size then Ok (0, [], st, m)
  else
    let map_beg := mmap_pages (headers st) map_size in
    if map_beg =? 0 then Ok (0, [], st, m)
    else
      _ ← check (IsAligned map_beg page_size_);
      let map_end := map_beg +w map_size in
      let m := memset m map_beg 0 map_size in
      let res := map_beg +w page_size_ in
      let res := if negb (Z.land res (alignment -w 1) =? 0)
                 then res +w (alignment - Z.land res (alignment -w 1)) else res in
      _ ← check (IsAligned res alignment);
      _ ← check (IsAligned res page_size_);
      _ ← check (map_beg <=? res +w size);
      _ ← check (res +w size <=? map_end);
      h ← GetHeader res;
      size_log ← MostSignificantSetBitIndex map_size;
      _ ← check (size_log <? 64);
      _ ← check (Z.of_nat (length (chunks st)) <? kMaxNumChunks);
      let idx := length (chunks st) in
      Ok (res, [OnMapSecondary map_beg map_size res size],
          MkLarge (<[h := MkHeader map_beg map_size size idx]> (headers st)) (chunks st ++ [h]) false, m).

Definition large_Deallocate (st : LargeMmapAllocator) (m : memory) (p : Z)
  : result (list map_event * LargeMmapAllocator * memory) :=
  h ← GetHeader p;
  H ← get_or_die (headers st !! h);
  let idx := chunk_idx H in
  c ← get_or_die (chunks st !! idx);
  _ ← check (c =? h);
  _ ← check (bool_decide (idx < length (chunks st))%nat);
  let n := (length (chunks st) - 1)%nat in
  moved ← get_or_die (chunks st !! n);
  let cs := take n (<[idx := moved]> (chunks st)) in
  M ← get_or_die (headers st !! moved);
  let hs := <[moved := MkHeader (map_beg M) (map_size M) (h_used M) idx]> (headers st) in
  Ok ([OnUnmap (map_beg H) (map_size H)], MkLarge (delete h hs) cs false, m).

Fixpoint total_loop (st : LargeMmapAllocator) (i : nat) (cs : list Z) (res : Z) : result Z :=
  match cs with
  | [] => Ok res
  | h :: cs =>
      H ← get_or_die (headers st !! h);
      _ ← check (bool_decide (chunk_idx H = i));
      r ← RoundUpMapSize (h_used H);
      total_loop st (S i) cs (res +w r)
  end.
Definition TotalMemoryUsed (st : LargeMmapAllocator) : result Z := total_loop st 0 (chunks st) 0.

Definition large_actual_size (st : LargeMmapAllocator) (p : Z) : result Z :=
  h ← GetHeader p;
  H ← get_or_die (headers st !! h);
  RoundUpTo (h_used H) page_size_.

(** The linear search for the nearest chunk at or below [p]. *)
Definition nearest (p : Z) (cs : list Z) : Z :=
  foldl (fun nearest_chunk ch =>
    if p <? ch then nearest_chunk
    else if p - ch <? p - nearest_chunk then ch else nearest_chunk) 0 cs.

Definition large_GetBlockBegin (st : LargeMmapAllocator) (p : Z) : result Z :=
  let nearest_chunk := nearest p (chunks st) in
  if nearest_chunk =? 0 then Ok 0
  else
    h ← get_or_die (headers st !! nearest_chunk);
    _ ← check (map_beg h <=? nearest_chunk);
    _ ← check (nearest_chunk <? map_beg h +w map_size h);
    _ ← check (nearest_chunk <=? p);
    if map_beg h +w map_size h <=? p then Ok 0 else GetUser nearest_chunk.

Definition large_PointerIsMine (st : LargeMmapAllocator) (p : Z) : result bool :=
  b ← large_GetBlockBegin st p; Ok (negb (b =? 0)).

(** [for (i = 0; i < n_chunks_; i++) chunks[i]->chunk_idx = i;] *)
Fixpoint renumber (hs : gmap Z Header) (i : nat) (cs : list Z) : result (gmap Z Header) :=
  match cs with
  | [] => Ok hs
  | h :: cs =>
      H ← get_or_die (hs !! h);
      renumber (<[h := MkHeader (map_beg H) (map_size H) (h_used H) i]> hs) (S i) cs
  end.

Definition EnsureSortedChunks (st : LargeMmapAllocator) : result LargeMmapAllocator :=
  if chunks_sorted st then Ok st
  else
    cs ← Sort Z.ltb (chunks st);
    hs ← renumber (headers st) 0 cs;
    Ok (MkLarge hs cs true).

(** [while (end - beg >= 2)]: the number of chunks left is the measure. *)
Fixpoint narrow (cs : list Z) (p beg last : Z) (fuel : nat) : result (Z * Z) :=
  if 2 <=? last - beg then
    match fuel with
    | O => Die OutOfFuel
    | S fuel =>
        let mid := (beg + last) / 2 in
        c ← get_or_die (cs !! Z.to_nat mid);
        if p <? c then narrow cs p beg (mid - 1) fuel else narrow cs p mid last fuel
    end
  else Ok (beg, last).

Definition large_GetBlockBeginFastLocked (st : LargeMmapAllocator) (p : Z) : result (Z * LargeMmapAllocator) :=
  let n := Z.of_nat (length (chunks st)) in
  if n =? 0 then Ok (0, st)
  else
    st ← EnsureSortedChunks st;
    min_mmap ← get_or_die (chunks st !! 0%nat);
    last ← get_or_die (chunks st !! Z.to_nat (n - 1));
    L ← get_or_die (headers st !! last);
    let max_mmap := last +w map_size L in
    if (p <? min_mmap) || (max_mmap <=? p) then Ok (0, st)
    else
      '(beg, last) ← narrow (chunks st) p 0 (n - 1) (length (chunks st));
      beg ← (if beg <? last then
               _ ← check (beg + 1 =? last);
               c ← get_or_die (chunks st !! Z.to_nat last);
               Ok (if c <=? p then last else beg)
             else Ok beg);
      h ← get_or_die (chunks st !! Z.to_nat beg);
      H ← get_or_die (headers st !! h);
      if (map_beg H +w map_size H <=? p) || (p <? map_beg H) then Ok (0, st)
      else u ← GetUser h; Ok (u, st).

(** The blocks that [ForEachChunk] visits, in its order. *)
Fixpoint visit (st : LargeMmapAllocator) (i : nat) (cs : list Z) : result (list Z) :=
  match cs with
  | [] => Ok []
  | t :: cs =>
      u ← GetUser t;
      H ← get_or_die (headers st !! t);
      _ ← check (bool_decide (chunk_idx H = i));
      us ← visit st (S i) cs;
      Ok (u :: us)
  end.
Definition large_ForEachChunk (st : LargeMmapAllocator) : result (list Z * LargeMmapAllocator) :=
  st ← EnsureSortedChunks st;
  us ← visit st 0 (chunks st);
  Ok (us, st).

End large.
