(* ===== verification/LargeMmapSpecs.v ===== *)
(** * What the secondary allocator promises

    [LargeMmapAllocator] keeps the promises of [HeapAllocatorSpec] over any
    mmap that returns fresh pages; its two searches for the block of an address
    agree. *)

From S2P Require Import Prelude Words ShadowMapping Memory Poisoning ShadowWrites HeapAllocator Sorting LargeMmap.

(** The documented behaviour of [mmap]: whole pages that no mapping of the
    allocator covers, inside [area]. *)
Class PageMapperSpec (P : PageMapper) (M : mapping) (area : Z -> Prop) : Prop := {
  page_pow2 : pow2_word page_size_;
  page_bounds : 8 <= page_size_ <= 2 ^ 30;
  area_mem a : area a -> 8 <= a < 2 ^ 62 /\ AddrIsInMem M a = true;
  mmap_fresh hs n : 0 < n -> n mod page_size_ = 0 ->
    let p := mmap_pages hs n in
    p = 0 \/ 0 < p /\ p mod page_size_ = 0 /\ (forall a, p <= a < p + n -> area a) /\
      forall h H, hs !! h = Some H -> p + n <= map_beg H \/ map_beg H + map_size H <= p;
}.

Section specs.
Context (P : PageMapper) (M : mapping) (area : Z -> Prop) `{!WfMapping M, !PageMapperSpec P M area}.

Definition rounded (size : Z) : Z := (size + page_size_ - 1) / page_size_ * page_size_.

Record header_ok (h : Z) (H : Header) : Prop := {
  header_aligned : h mod page_size_ = 0 /\ map_beg H mod page_size_ = 0 /\ map_size H mod page_size_ = 0;
  header_inside : 0 < map_beg H <= h /\ 0 < h_used H <= 2 ^ 41 /\ h + page_size_ + rounded (h_used H) <= map_beg H + map_size H;
  header_area : forall a, map_beg H <= a < map_beg H + map_size H -> area a;
}.

Definition increasing (cs : list Z) : Prop := forall i j x y, (i < j)%nat -> cs !! i = Some x -> cs !! j = Some y -> x < y.

Record large_inv (st : LargeMmapAllocator) : Prop := {
  large_headers : forall h H, headers st !! h = Some H -> header_ok h H /\ chunks st !! chunk_idx H = Some h;
  large_chunks : forall i h, chunks st !! i = Some h -> exists H, headers st !! h = Some H /\ chunk_idx H = i;
  large_disjoint : forall h H k K, headers st !! h = Some H -> headers st !! k = Some K -> h <> k ->
    map_beg H + map_size H <= map_beg K \/ map_beg K + map_size K <= map_beg H;
  large_sorted : chunks_sorted st = true -> increasing (chunks st);
}.

Definition large_blocks (st : LargeMmapAllocator) : gmap Z Z :=
  kmap (fun h => h + page_size_) ((fun H => rounded (h_used H)) <$> headers st).
Definition large_owned (st : LargeMmapAllocator) (a : Z) : Prop :=
  exists h H, headers st !! h = Some H /\ map_beg H <= a < map_beg H + map_size H.
Definition large_room (st : LargeMmapAllocator) : Prop := Z.of_nat (length (chunks st)) < kMaxNumChunks.

(** ** Rounding *)

Lemma page_divides_granule (a : Z) : a mod page_size_ = 0 -> a mod 8 = 0.
Proof.
  pose proof page_bounds as Hb. destruct page_pow2 as (n & Hn & Hp). rewrite Hp in *.
  assert (3 <= n). { destruct (Z.le_gt_cases 3 n); [done |]. pose proof (Z.pow_lt_mono_r 2 n 3). lia. }
  replace n with (3 + (n - 3)) by lia. rewrite Z.pow_add_r by lia. change (2 ^ 3) with 8.
  intros Ha. apply Z.mod_divide in Ha as [k ->]; [| lia].
  replace (k * (8 * 2 ^ (n - 3))) with (k * 2 ^ (n - 3) * 8) by lia. apply Z.mod_mul. lia.
Qed.

Lemma rounded_spec (size : Z) : 0 < size -> size <= rounded size < size + page_size_ /\ rounded size mod page_size_ = 0.
Proof.
  pose proof page_bounds. intros Hs. unfold rounded. split; [| apply Z.mod_mul; lia].
  pose proof (Z.mod_pos_bound (size + page_size_ - 1) page_size_). 
  pose proof (Z.div_mod (size + page_size_ - 1) page_size_). lia.
Qed.

Lemma same_multiple (a b p : Z) : a < b + p -> b < a + p -> a mod p = 0 -> b mod p = 0 -> a = b.
Proof.
  intros H1 H2 Ha Hb. assert (0 < p) by lia. apply Z.mod_divide in Ha as [j ->], Hb as [k ->]; [| lia | lia].
  f_equal. nia.
Qed.

Lemma RoundUpTo_rounded (size : Z) : 0 < size <= 2 ^ 41 -> RoundUpTo size page_size_ = Ok (rounded size).
Proof.
  pose proof page_bounds as Hb. change (2 ^ 41) with 2199023255552. change (2 ^ 30) with 1073741824 in Hb. intros Hs.
  destruct (RoundUpTo_nowrap size page_size_) as (y & -> & Hy & Hy0); [lia | apply page_pow2 | unfold word_modulus; lia |].
  f_equal. pose proof (rounded_spec size ltac:(lia)) as [Hr Hr0]. apply (same_multiple _ _ page_size_); [lia.. | done | done].
Qed.

Lemma large_blocks_lookup (st : LargeMmapAllocator) (p n : Z) :
  large_blocks st !! p = Some n <-> exists H, headers st !! (p - page_size_) = Some H /\ n = rounded (h_used H).
Proof.
  unfold large_blocks. rewrite lookup_kmap_Some by (intros x y Hxy; lia). split.
  - intros (h & -> & Hh). rewrite lookup_fmap in Hh. replace (h + page_size_ - page_size_) with h by lia.
    destruct (headers st !! h) as [H |]; [| done]. exists H. by injection Hh.
  - intros (H & HH & ->). exists (p - page_size_). split; [lia |]. by rewrite lookup_fmap, HH.
Qed.

Lemma large_owned_mem (st : LargeMmapAllocator) (a : Z) : large_inv st -> large_owned st a ->
  8 <= a < 2 ^ 62 /\ AddrIsInMem M a = true.
Proof. intros I (h & H & HH & Ha). apply area_mem, (header_area _ _ (proj1 (large_headers _ I h H HH))), Ha. Qed.

Lemma large_owned_granule (st : LargeMmapAllocator) (a b : Z) : large_inv st -> large_owned st a -> a / 8 = b / 8 -> large_owned st b.
Proof.
  intros I (h & H & HH & Ha) Hab. exists h, H. split; [done |].
  destruct (large_headers _ I h H HH) as [[(_ & H1%page_divides_granule & H2%page_divides_granule) _ _] _]. zlia.
Qed.

Lemma large_block_shape (st : LargeMmapAllocator) (p n : Z) : large_inv st -> large_blocks st !! p = Some n ->
  0 < n /\ p mod 8 = 0 /\ n mod 8 = 0 /\ forall a, p <= a < p + n -> large_owned st a.
Proof.
  intros I (H & HH & ->)%large_blocks_lookup.
  destruct (large_headers _ I _ H HH) as [[(H1 & _) (H2 & H3 & H4) _] _]. pose proof page_bounds.
  destruct (rounded_spec (h_used H)) as [R1 R2]; [lia |]. split_and!; [lia | | by apply page_divides_granule |].
  - apply page_divides_granule. replace p with (p - page_size_ + 1 * page_size_) by lia. by rewrite Z.mod_add by lia.
  - intros a Ha. exists (p - page_size_), H. split; [done | lia].
Qed.

Lemma large_blocks_disjoint (st : LargeMmapAllocator) (p n q k : Z) : large_inv st ->
  large_blocks st !! p = Some n -> large_blocks st !! q = Some k -> p <> q -> p + n <= q \/ q + k <= p.
Proof.
  intros I (H & HH & ->)%large_blocks_lookup (K & HK & ->)%large_blocks_lookup Hne.
  destruct (large_headers _ I _ H HH) as [[_ (H2 & H3 & H4) _] _].
  destruct (large_headers _ I _ K HK) as [[_ (K2 & K3 & K4) _] _].
  pose proof (large_disjoint _ I _ _ _ _ HH HK ltac:(lia)). pose proof page_bounds.
  destruct (rounded_spec (h_used H)), (rounded_spec (h_used K)); lia.
Qed.

Lemma GetHeader_ok (p : Z) : 0 < p < word_modulus -> p mod page_size_ = 0 -> GetHeader p = Ok (p - page_size_).
Proof.
  intros Hp Hm. pose proof page_bounds. unfold GetHeader.
  rewrite IsAligned_spec by apply page_pow2. rewrite Hm, Z.eqb_refl. step. f_equal. apply wrap_small.
  pose proof (Z.mod_small p page_size_). unfold is_uptr, word_modulus in *. lia.
Qed.

Lemma GetUser_ok (h : Z) : 0 <= h < 2 ^ 63 -> h mod page_size_ = 0 -> GetUser h = Ok (h + page_size_).
Proof.
  change (2 ^ 63) with 9223372036854775808. intros Hh Hm. pose proof page_bounds as Hb. change (2 ^ 30) with 1073741824 in Hb.
  unfold GetUser. rewrite IsAligned_spec by apply page_pow2. rewrite Hm, Z.eqb_refl. step. f_equal. apply wrap_small.
  unfold is_uptr, word_modulus. lia.
Qed.

Lemma header_bound (h : Z) (H : Header) : header_ok h H -> map_beg H + map_size H <= 2 ^ 62 /\ page_size_ <= map_beg H.
Proof.
  intros [(H1 & H2 & _) (H3 & H4 & H5) H6]. pose proof page_bounds. destruct (rounded_spec (h_used H)) as [R _]; [lia |].
  destruct (area_mem (map_beg H + map_size H - 1)) as [Ha _]; [apply H6; lia |].
  split; [lia |]. pose proof (Z.mod_small (map_beg H) page_size_). lia.
Qed.

(** ** Allocation *)

Lemma aligned_test (a alignment : Z) : alignment = 1 \/ alignment = 8 -> a mod page_size_ = 0 ->
  Z.land a (alignment -w 1) = 0 /\ IsAligned a alignment = true /\ IsPowerOfTwo alignment = true.
Proof.
  intros Hal Ha%page_divides_granule.
  assert (Hp : pow2_word alignment) by (destruct Hal as [-> | ->]; [by exists 0 | by exists 3]).
  assert (Hm : a mod alignment = 0) by (destruct Hal as [-> | ->]; [apply Z.mod_1_r | done]).
  pose proof (IsAligned_spec a alignment Hp) as Hi. rewrite Hm, Z.eqb_refl in Hi.
  split; [by apply Z.eqb_eq | split; [done | by apply IsPowerOfTwo_pow2]].
Qed.

Lemma RoundUpMapSize_ok (size : Z) : 0 < size <= 2 ^ 41 -> RoundUpMapSize size = Ok (rounded size + page_size_).
Proof.
  intros Hs. unfold RoundUpMapSize. rewrite RoundUpTo_rounded by done. step. f_equal. apply wrap_small.
  destruct (rounded_spec size); [lia |]. pose proof page_bounds as Hb.
  change (2 ^ 30) with 1073741824 in Hb. change (2 ^ 41) with 2199023255552 in Hs. unfold is_uptr, word_modulus. lia.
Qed.

(** A new mapping [b, b+ms) with its chunk after the first page. *)
Lemma large_inv_insert (st : LargeMmapAllocator) (b ms size : Z) : large_inv st -> 0 < size <= 2 ^ 41 ->
  0 < b -> b mod page_size_ = 0 -> ms = rounded size + page_size_ -> (forall a, b <= a < b + ms -> area a) ->
  (forall h H, headers st !! h = Some H -> b + ms <= map_beg H \/ map_beg H + map_size H <= b) ->
  headers st !! b = None /\
  large_inv (MkLarge (<[b := MkHeader b ms size (length (chunks st))]> (headers st)) (chunks st ++ [b]) false).
Proof.
  intros I Hs Hb Hbm -> Harea Hd. destruct (rounded_spec size) as [R1 R2]; [lia |]. pose proof page_bounds as Hp.
  assert (Hnone : headers st !! b = None).
  { destruct (headers st !! b) as [H |] eqn:HH; [| done].
    destruct (large_headers _ I b H HH) as [[_ (H2 & H3 & H4) _] _]. destruct (rounded_spec (h_used H)) as [R _]; [lia |].
    destruct (Hd b H HH); lia. }
  split; [done |].
  assert (Hchunk : forall i h, chunks st !! i = Some h -> h <> b).
  { intros i h Hi ->. destruct (large_chunks _ I i b Hi) as (H & HH & _). congruence. }
  split; cbn [headers chunks chunks_sorted]; [| | | done].
  - intros h H HH. destruct (decide (h = b)) as [-> | Hne].
    + rewrite lookup_insert_eq in HH. injection HH as <-. split; [| cbn; apply list_lookup_middle; done].
      split; cbn [map_beg map_size h_used]; [| lia | done].
      split_and!; [done | done |]. rewrite <- Zplus_mod_idemp_r, Z_mod_same_full, Z.add_0_r. done.
    + rewrite lookup_insert_ne in HH by done. destruct (large_headers _ I h H HH) as [Hok Hi]. split; [done |].
      rewrite lookup_app_l; [done | by apply lookup_lt_Some in Hi].
  - intros i h Hi. apply lookup_app_Some in Hi as [Hi | [Hlen Hi]].
    + destruct (large_chunks _ I i h Hi) as (H & HH & Hidx). exists H. split; [| done].
      rewrite lookup_insert_ne; [done |]. intros <-. by apply (Hchunk i b).
    + apply list_lookup_singleton_Some in Hi as [Hi <-]. eexists. rewrite lookup_insert_eq. split; [done |]. cbn. lia.
  - intros h H k K HH HK Hne.
    assert (Hcase : forall x X, <[b := MkHeader b (rounded size + page_size_) size (length (chunks st))]> (headers st) !! x = Some X ->
      x = b /\ map_beg X = b /\ map_size X = rounded size + page_size_ \/ x <> b /\ headers st !! x = Some X).
    { intros x X HX. destruct (decide (x = b)) as [-> | Hx].
      - rewrite lookup_insert_eq in HX. injection HX as <-. by left.
      - rewrite lookup_insert_ne in HX by done. by right. }
    destruct (Hcase h H HH) as [(-> & -> & ->) | [Hh HH']], (Hcase k K HK) as [(-> & -> & ->) | [Hk HK']]; [done | | |].
    + destruct (Hd k K HK'); lia.
    + destruct (Hd h H HH'); lia.
    + by apply (large_disjoint _ I h H k K).
Qed.

(** What the client of the allocator sees of a new mapping. *)
Lemma new_mapping_allocated (st : LargeMmapAllocator) (m : memory) (b ms size : Z) : large_inv st -> 0 < size <= 2 ^ 41 ->
  0 < b -> b mod page_size_ = 0 -> ms = rounded size + page_size_ -> (forall a, b <= a < b + ms -> area a) ->
  (forall h H, headers st !! h = Some H -> b + ms <= map_beg H \/ map_beg H + map_size H <= b) ->
  let st' := MkLarge (<[b := MkHeader b ms size (length (chunks st))]> (headers st)) (chunks st ++ [b]) false in
  allocated M (large_blocks st) (large_blocks st') (large_owned st) (large_owned st') m (memset m b 0 ms)
    size (b + page_size_) false [OnMapSecondary b ms (b + page_size_) size].
Proof.
  intros I Hs Hb Hbm Heq Harea Hd st'. pose proof page_bounds as Hp. destruct (rounded_spec size) as [R1 R2]; [lia |].
  destruct (large_inv_insert st b ms size I Hs Hb Hbm Heq Harea Hd) as [Hnone _].
  assert (Hms : ms mod page_size_ = 0) by (subst ms; by rewrite <- Zplus_mod_idemp_r, Z_mod_same_full, Z.add_0_r).
  assert (Hend : b + ms <= 2 ^ 62 /\ 8 <= b).
  { destruct (area_mem (b + ms - 1)) as [? _]; [apply Harea; lia |]. destruct (area_mem b) as [? _]; [apply Harea; lia | lia]. }
  change (2 ^ 62) with 4611686018427387904 in Hend.
  assert (Hblk : large_blocks st' =
    <[b + page_size_ := rounded size]> (large_blocks st)).
  { unfold large_blocks, st'. cbn [headers]. rewrite fmap_insert, kmap_insert by (intros x y Hxy; lia). done. }
  assert (Hfresh : forall a, b <= a < b + ms -> ~ large_owned st a).
  { intros a Ha (h & H & HH & Ha2). destruct (Hd h H HH); lia. }
  assert (Hown : forall a, large_owned st' a <-> large_owned st a \/ b <= a < b + ms).
  { intros a. unfold large_owned, st'; cbn [headers]. split.
    - intros (h & H & HH & Ha). destruct (decide (h = b)) as [-> | Hne].
      + rewrite lookup_insert_eq in HH. injection HH as <-. by right.
      + rewrite lookup_insert_ne in HH by done. left. eauto.
    - intros [(h & H & HH & Ha) | Ha].
      + exists h, H. split; [| done]. rewrite lookup_insert_ne; [done | congruence].
      + exists b. eexists. rewrite lookup_insert_eq. by split. }
  split; cbn [orb].
  - intros _. exists (rounded size). split; [lia |]. split; [| done].
    destruct (large_blocks st !! (b + page_size_)) eqn:E; [| done].
    apply large_blocks_lookup in E as (H & HH & _). replace (b + page_size_ - page_size_) with b in HH by lia. congruence.
  - lia.
  - intros a. rewrite Hown. split; [intros [? | Ha]; [by left |] | intros [? | (e & [<- | []] & Ha)]; [by left | by right]].
    right. eexists. split; [by left | exact Ha].
  - intros e [<- | []]. cbn [event_range fst snd]. split; [| exact Hfresh].
    split; [split; by apply page_divides_granule | change (2 ^ 63) with 9223372036854775808; lia | |]; apply area_mem, Harea; lia.
  - intros a. destruct (decide (b <= a < b + ms)) as [Ha | Ha].
    + right. split; [apply Hown; by right |]. intros (q & n & Hq & Ha2). apply (Hfresh a Ha).
      by apply (proj2 (proj2 (proj2 (large_block_shape st q n I Hq)))).
    + left. apply memset_out. lia.
  - apply bytes_ok_memset.
  - replace (b + page_size_ =? 0) with false by (symmetry; apply Z.eqb_neq; lia).
    exists b, ms, (rounded size). split; [done |]. split; [by rewrite Hblk, lookup_insert_eq |]. split_and!; try lia.
    intros a Ha. rewrite memset_in by lia. done.
Qed.

Lemma large_allocate_spec (st : LargeMmapAllocator) (m : memory) (size alignment : Z) :
  large_inv st -> large_room st -> 0 < size <= 2 ^ 41 -> alignment = 1 \/ alignment = 8 ->
  exists p es st' m', large_Allocate st m size alignment = Ok (p, es, st', m') /\ large_inv st' /\
    allocated M (large_blocks st) (large_blocks st') (large_owned st) (large_owned st') m m' size p false es.
Proof.
  intros I Hroom Hs Hal. destruct (rounded_spec size) as [R1 R2]; [lia |]. pose proof page_bounds as Hp.
  assert (Hs' := Hs). assert (Hp' := Hp). change (2 ^ 41) with 2199023255552 in Hs'. change (2 ^ 30) with 1073741824 in Hp'.
  unfold large_Allocate. destruct (aligned_test 0 alignment Hal) as (_ & _ & Hpow); [by apply Z.mod_0_l; lia |].
  rewrite Hpow, RoundUpMapSize_ok by done. step. set (ms := rounded size + page_size_) in *.
  rewrite (proj2 (Z.ltb_ge page_size_ alignment)) by lia. rewrite (proj2 (Z.ltb_ge ms size)) by lia.
  assert (Hms : ms mod page_size_ = 0) by (unfold ms; by rewrite <- Zplus_mod_idemp_r, Z_mod_same_full, Z.add_0_r).
  destruct (mmap_fresh (headers st) ms ltac:(lia) Hms) as [-> | (Hb & Hbm & Harea & Hd)].
  { eexists 0, [], st, m. split; [done |]. split; [done |]. split; try done.
    - intros a. split; [by left | intros [? | (e & [] & _)]; done].
    - by left.
    - by constructor. }
  set (b := mmap_pages (headers st) ms) in *. rewrite (proj2 (Z.eqb_neq b 0)) by lia.
  destruct (large_inv_insert st b ms size I Hs Hb Hbm eq_refl Harea Hd) as [Hnone I'].
  assert (Hend : b + ms <= 2 ^ 62 /\ 8 <= b).
  { destruct (area_mem (b + ms - 1)) as [? _]; [apply Harea; lia |]. destruct (area_mem b) as [? _]; [apply Harea; lia | lia]. }
  change (2 ^ 62) with 4611686018427387904 in Hend.
  rewrite (IsAligned_spec b) by apply page_pow2. rewrite Hbm, Z.eqb_refl. step.
  rewrite (wrap_small (b + page_size_)) by (unfold is_uptr, word_modulus; lia).
  assert (Hres : (b + page_size_) mod page_size_ = 0) by (by rewrite <- Zplus_mod_idemp_r, Z_mod_same_full, Z.add_0_r).
  destruct (aligned_test _ alignment Hal Hres) as (-> & Hali & _). cbn [Z.eqb negb]. rewrite Hali. step.
  rewrite (IsAligned_spec (b + page_size_)) by apply page_pow2. rewrite Hres, Z.eqb_refl. step.
  rewrite (wrap_small (b + page_size_ + size)), (wrap_small (b + ms)) by (unfold is_uptr, word_modulus; lia).
  rewrite !(check_true (_ <=? _)) by (apply Z.leb_le; lia). step.
  rewrite GetHeader_ok by (done || (unfold word_modulus; lia)). step.
  replace (b + page_size_ - page_size_) with b by lia.
  rewrite MostSignificantSetBitIndex_spec by lia. step.
  rewrite (check_true (_ <? 64)).
  2:{ apply Z.ltb_lt, Z.log2_lt_pow2; [lia |]. change (2 ^ 64) with 18446744073709551616. lia. }
  unfold large_room in Hroom. rewrite (check_true (_ <? kMaxNumChunks)) by (by apply Z.ltb_lt). step.
  eexists _, _, _, _. split; [done |]. split; [exact I' |].
  apply (new_mapping_allocated st m b ms size I Hs Hb Hbm eq_refl Harea Hd).
Qed.

(** ** Deallocation *)

Lemma chunks_index (st : LargeMmapAllocator) (i j : nat) (h : Z) : large_inv st ->
  chunks st !! i = Some h -> chunks st !! j = Some h -> i = j.
Proof.
  intros I Hi Hj. destruct (large_chunks _ I i h Hi) as (H & HH & <-), (large_chunks _ I j h Hj) as (K & HK & <-). congruence.
Qed.

(** The last chunk takes the place of the removed one. *)
Lemma swap_out (cs : list Z) (idx i : nat) (h moved : Z) : cs !! idx = Some h -> cs !! (length cs - 1)%nat = Some moved ->
  take (length cs - 1) (<[idx := moved]> cs) !! i =
  if decide (i < length cs - 1)%nat then if decide (i = idx) then Some moved else cs !! i else None.
Proof.
  intros Hh Hm. case_decide as Hi; [| rewrite lookup_take_ge by lia; done].
  rewrite lookup_take_lt by lia. case_decide as He; [subst i; apply list_lookup_insert_eq; lia |].
  by apply list_lookup_insert_ne.
Qed.

Lemma large_inv_delete (st : LargeMmapAllocator) (h moved : Z) (H K : Header) : large_inv st ->
  headers st !! h = Some H -> chunks st !! (length (chunks st) - 1)%nat = Some moved -> headers st !! moved = Some K ->
  large_inv (MkLarge
    (delete h (<[moved := MkHeader (map_beg K) (map_size K) (h_used K) (chunk_idx H)]> (headers st)))
    (take (length (chunks st) - 1) (<[chunk_idx H := moved]> (chunks st))) false).
Proof.
  intros I HH Hm HK. destruct (large_headers _ I h H HH) as [_ Hidx].
  destruct (large_headers _ I moved K HK) as [HokK HidxK].
  pose proof (chunks_index st _ _ _ I HidxK Hm) as HKn. pose proof (lookup_lt_Some _ _ _ Hidx) as Hlt.
  set (K' := MkHeader _ _ _ _). set (n := (length (chunks st) - 1)%nat) in *.
  assert (Hlook : forall k X, delete h (<[moved := K']> (headers st)) !! k = Some X ->
    k <> h /\ exists X0, headers st !! k = Some X0 /\ map_beg X = map_beg X0 /\ map_size X = map_size X0 /\ h_used X = h_used X0 /\
      (k = moved /\ chunk_idx X = chunk_idx H /\ chunk_idx H <> n \/ k <> moved /\ X = X0)).
  { intros k X HX. apply lookup_delete_Some in HX as [Hk HX]. split; [done |].
    destruct (decide (k = moved)) as [-> | Hne].
    - rewrite lookup_insert_eq in HX. injection HX as <-. exists K. split_and!; try done. left. split_and!; try done.
      intros He. apply Hk. rewrite He in Hidx. congruence.
    - rewrite lookup_insert_ne in HX by done. exists X. split_and!; try done. by right. }
  split; cbn [headers chunks chunks_sorted]; [| | | done].
  - intros k X HX. destruct (Hlook k X HX) as (Hk & X0 & HX0 & E1 & E2 & E3 & Hcase).
    destruct (large_headers _ I k X0 HX0) as [Hok Hi]. split.
    + destruct Hok as [A B C]. split; rewrite ?E1, ?E2, ?E3; done.
    + unfold n. rewrite swap_out with (h := h) by done. fold n. destruct Hcase as [(-> & -> & Hne) | [Hne ->]].
      * rewrite decide_True by lia. by rewrite decide_True.
      * pose proof (lookup_lt_Some _ _ _ Hi). assert (chunk_idx X0 <> n) by (intros E; rewrite E in Hi; congruence).
        rewrite decide_True by lia. rewrite decide_False; [done |]. intros E. rewrite E in Hi. congruence.
  - intros i k Hi. unfold n in Hi. rewrite swap_out with (h := h) in Hi by done. fold n in Hi. case_decide as Hin; [| done]. case_decide as Hii.
    + injection Hi as <-. exists K'. split; [| done]. rewrite lookup_delete_ne; [apply lookup_insert_eq |].
      intros E. rewrite <- E in Hm. pose proof (chunks_index st _ _ _ I Hidx Hm). lia.
    + destruct (large_chunks _ I i k Hi) as (X & HX & Hx). exists X. split; [| done].
      rewrite lookup_delete_ne, lookup_insert_ne; [done | |]; intros ->.
      * pose proof (chunks_index st _ _ _ I Hi Hm). lia.
      * pose proof (chunks_index st _ _ _ I Hi Hidx). lia.
  - intros k X l Y HX HY Hne. destruct (Hlook k X HX) as (_ & X0 & HX0 & -> & -> & _).
    destruct (Hlook l Y HY) as (_ & Y0 & HY0 & -> & -> & _). by apply (large_disjoint _ I k X0 l Y0).
Qed.

Lemma large_deallocate_spec (st : LargeMmapAllocator) (m : memory) (p n : Z) :
  large_inv st -> large_blocks st !! p = Some n ->
  exists es st' m', large_Deallocate st m p = Ok (es, st', m') /\ large_inv st' /\
    deallocated_block M (large_blocks st) (large_blocks st') (large_owned st) (large_owned st') m m' p n false es.
Proof.
  intros I (H & HH & ->)%large_blocks_lookup. destruct (large_headers _ I _ H HH) as [Hok Hidx].
  destruct (header_bound _ _ Hok) as [Hend Hbeg]. destruct Hok as [(A1 & A2 & A3) (B1 & B2 & B3) C].
  pose proof page_bounds as Hp. destruct (rounded_spec (h_used H)) as [R1 R2]; [lia |].
  change (2 ^ 62) with 4611686018427387904 in Hend.
  assert (Hpp : p mod page_size_ = 0).
  { replace p with (p - page_size_ + 1 * page_size_) by lia. by rewrite Z.mod_add by lia. }
  unfold large_Deallocate. rewrite GetHeader_ok by (done || (unfold word_modulus; lia)). step.
  rewrite HH. step. rewrite Hidx. step. rewrite Z.eqb_refl. step. pose proof (lookup_lt_Some _ _ _ Hidx) as Hlt.
  rewrite (check_true (bool_decide _)) by (by apply bool_decide_eq_true). step.
  destruct (lookup_lt_is_Some_2 (chunks st) (length (chunks st) - 1)) as [moved Hm]; [lia |]. rewrite Hm. step.
  destruct (large_chunks _ I _ _ Hm) as (K & HK & _). rewrite HK. step.
  eexists _, _, m. split; [done |]. split; [by apply (large_inv_delete st (p - page_size_) moved H K) |].
  set (h := p - page_size_) in *. set (K' := MkHeader _ _ _ _). set (st' := MkLarge _ _ _).
  assert (Hown : forall a, large_owned st' a <-> large_owned st a /\ ~ (map_beg H <= a < map_beg H + map_size H)).
  { intros a. unfold large_owned, st'; cbn [headers]. split.
    - intros (k & X & HX & Ha). apply lookup_delete_Some in HX as [Hk HX].
      assert (Hex : exists X0, headers st !! k = Some X0 /\ map_beg X0 = map_beg X /\ map_size X0 = map_size X).
      { destruct (decide (k = moved)) as [-> | Hne]; [rewrite lookup_insert_eq in HX; injection HX as <-; by exists K |].
        rewrite lookup_insert_ne in HX by done. by exists X. }
      destruct Hex as (X0 & HX0 & E1 & E2). split; [exists k, X0; split; [done | lia] |].
      destruct (large_disjoint _ I k X0 h H HX0 HH); [congruence | lia | lia].
    - intros [(k & X & HX & Ha) Hna]. exists k. rewrite lookup_delete_ne by congruence.
      destruct (decide (k = moved)) as [-> | Hne]; [rewrite lookup_insert_eq; eexists; split; [done |] |].
      + cbn. assert (X = K) as -> by congruence. done.
      + rewrite lookup_insert_ne by done. by exists X. }
  split.
  - unfold large_blocks, st'; cbn [headers]. replace p with (h + page_size_) by (unfold h; lia).
    rewrite fmap_delete, kmap_delete by (intros x y Hxy; lia). f_equal. f_equal.
    rewrite fmap_insert. cbn. apply insert_id. by rewrite lookup_fmap, HK.
  - by left.
  - done.
  - exists (map_beg H), (map_size H). split; [done |]. split.
    { split; [split; by apply page_divides_granule | change (2 ^ 63) with 9223372036854775808; lia | |]; apply area_mem, C; lia. }
    split_and!; [lia | lia | | exact Hown]. intros a Ha. exists h, H. by split.
Qed.

(** ** Finding the block of an address *)

(** The chunk with the greatest address at or below [p]. *)
Definition nearest_chunk (cs : list Z) (p h : Z) : Prop := h ∈ cs /\ h <= p /\ forall c, c ∈ cs -> c <= p -> c <= h.

Lemma nearest_spec (p : Z) (cs : list Z) : 0 <= p -> (forall c, c ∈ cs -> 0 < c) ->
  nearest p cs = 0 /\ (forall c, c ∈ cs -> p < c) \/ nearest p cs <> 0 /\ nearest_chunk cs p (nearest p cs).
Proof.
  intros Hp Hpos. unfold nearest. set (f := fun _ _ => _).
  assert (Hloop : forall l acc, 0 <= acc <= p -> (forall c, c ∈ l -> 0 < c) ->
    acc <= foldl f acc l <= p /\ (foldl f acc l = acc \/ foldl f acc l ∈ l) /\ forall c, c ∈ l -> c <= p -> c <= foldl f acc l).
  { induction l as [| c l IH]; intros acc Ha Hl; cbn [foldl]; [split_and!; [lia | lia | by left | by intros c ?%not_elem_of_nil] |].
    assert (Hc : 0 < c) by (apply Hl; left). set (acc' := f acc c).
    assert (Hacc : acc <= acc' <= p /\ (acc' = acc \/ acc' = c) /\ (c <= p -> c <= acc')).
    { unfold acc', f. destruct (Z.ltb_spec p c); [lia |]. destruct (Z.ltb_spec (p - c) (p - acc)); lia. }
    destruct (IH acc') as (I1 & I2 & I3); [lia | intros x Hx; apply Hl; by right |]. split; [lia |]. split.
    - destruct I2 as [I2 | I2]; [rewrite I2; destruct Hacc as (_ & [-> | ->] & _); [by left | right; left] | by right; right].
    - intros x [-> | Hx]%elem_of_cons Hxp; [lia | by apply I3]. }
  destruct (Hloop cs 0 ltac:(lia) Hpos) as (H1 & [H2 | H2] & H3).
  - left. split; [done |]. intros c Hc. destruct (Z.le_gt_cases c p); [| lia]. pose proof (H3 c Hc). pose proof (Hpos c Hc). lia.
  - right. pose proof (Hpos _ H2). split; [lia |]. split; [done |]. split; [lia | done].
Qed.

(** What a search for [p] answers: the block after the header at or before
    [p] in whose mapping [p] lies. *)
Definition found (hs : gmap Z Header) (p b : Z) : Prop :=
  (exists h H, hs !! h = Some H /\ h <= p < map_beg H + map_size H /\ b = h + page_size_) \/
  b = 0 /\ forall h H, hs !! h = Some H -> ~ (h <= p < map_beg H + map_size H).

Lemma chunk_header (st : LargeMmapAllocator) (h : Z) : large_inv st -> h ∈ chunks st -> exists H, headers st !! h = Some H /\ header_ok h H.
Proof.
  intros I (i & Hi)%list_elem_of_lookup. destruct (large_chunks _ I i h Hi) as (H & HH & _). exists H. split; [done |].
  apply (large_headers _ I h H HH).
Qed.

Lemma header_chunk (st : LargeMmapAllocator) (h : Z) (H : Header) : large_inv st -> headers st !! h = Some H -> h ∈ chunks st.
Proof. intros I HH. apply list_elem_of_lookup. exists (chunk_idx H). apply (large_headers _ I h H HH). Qed.

(** The end of both searches, at the nearest chunk. *)
Lemma nearest_found (st : LargeMmapAllocator) (p h : Z) (H : Header) : large_inv st -> nearest_chunk (chunks st) p h ->
  headers st !! h = Some H -> found (headers st) p (if map_beg H + map_size H <=? p then 0 else h + page_size_).
Proof.
  intros I (Hin & Hle & Hmax) HH. destruct (large_headers _ I h H HH) as [[_ B _] _].
  destruct (Z.leb_spec (map_beg H + map_size H) p); [| left; exists h, H; split; [done | lia]].
  right. split; [done |]. intros k K HK Hk. pose proof (Hmax k (header_chunk _ _ _ I HK) ltac:(lia)).
  assert (k <> h) by (intros ->; assert (K = H) as -> by congruence; lia).
  destruct (large_headers _ I k K HK) as [[_ BK _] _]. pose proof page_bounds.
  destruct (rounded_spec (h_used K)), (rounded_spec (h_used H)); try lia.
  destruct (large_disjoint _ I h H k K HH HK); [congruence | lia | lia].
Qed.

Lemma nothing_found (st : LargeMmapAllocator) (p : Z) : large_inv st -> (forall c, c ∈ chunks st -> p < c) -> found (headers st) p 0.
Proof. intros I Hall. right. split; [done |]. intros h H HH. pose proof (Hall h (header_chunk _ _ _ I HH)). lia. Qed.

Lemma large_GetBlockBegin_spec (st : LargeMmapAllocator) (p : Z) : large_inv st -> 0 <= p ->
  exists b, large_GetBlockBegin st p = Ok b /\ found (headers st) p b.
Proof.
  intros I Hp. unfold large_GetBlockBegin.
  destruct (nearest_spec p (chunks st) Hp) as [[-> Hall] | [Hne Hn]].
  { intros c Hc. destruct (chunk_header st c I Hc) as (H & _ & [_ B _]). lia. }
  { exists 0. split; [done | by apply nothing_found]. }
  rewrite (proj2 (Z.eqb_neq _ 0) Hne). destruct Hn as (Hin & Hle & Hmax).
  destruct (chunk_header st _ I Hin) as (H & HH & Hok). rewrite HH. step.
  destruct (header_bound _ _ Hok) as [Hend Hbeg]. pose proof Hok as [(A1 & _) (B1 & B2 & B3) _]. pose proof page_bounds.
  destruct (rounded_spec (h_used H)); [lia |]. change (2 ^ 62) with 4611686018427387904 in Hend.
  rewrite (wrap_small (map_beg H + map_size H)) by (unfold is_uptr, word_modulus; lia).
  rewrite (check_true (map_beg H <=? _)) by (apply Z.leb_le; lia). rewrite (check_true (_ <? _)) by (apply Z.ltb_lt; lia).
  rewrite (check_true (_ <=? p)) by (by apply Z.leb_le). step.
  rewrite GetUser_ok by (done || (change (2 ^ 63) with 9223372036854775808; lia)).
  pose proof (nearest_found st p _ H I (conj Hin (conj Hle Hmax)) HH) as Hf.
  destruct (_ <=? p); by eexists.
Qed.

Lemma found_unique (st : LargeMmapAllocator) (p b c : Z) : large_inv st -> found (headers st) p b -> found (headers st) p c -> b = c.
Proof.
  intros I [(h & H & HH & Hh & ->) | [-> Hb]] [(k & K & HK & Hk & ->) | [-> Hc]]; [| | | done].
  - destruct (decide (h = k)) as [-> | Hne]; [done |].
    destruct (large_headers _ I h H HH) as [[_ B _] _], (large_headers _ I k K HK) as [[_ BK _] _].
    destruct (large_disjoint _ I h H k K HH HK Hne); lia.
  - by destruct (Hc h H HH).
  - by destruct (Hb k K HK).
Qed.

(** ** The sorted array *)

Definition same_but_index (X Y : Header) : Prop := map_beg X = map_beg Y /\ map_size X = map_size Y /\ h_used X = h_used Y.

(** The headers at the same addresses, up to their places in the array. *)
Definition same_headers (hs hs' : gmap Z Header) : Prop := forall h,
  match hs' !! h, hs !! h with
  | Some Y, Some X => same_but_index Y X
  | None, None => True
  | _, _ => False
  end.

Lemma same_headers_some (hs hs' : gmap Z Header) (h : Z) (X : Header) : same_headers hs hs' -> hs !! h = Some X ->
  exists Y, hs' !! h = Some Y /\ same_but_index Y X.
Proof. intros Hs HX. specialize (Hs h). rewrite HX in Hs. destruct (hs' !! h) as [Y |]; [by exists Y | done]. Qed.

Lemma same_headers_back (hs hs' : gmap Z Header) (h : Z) (Y : Header) : same_headers hs hs' -> hs' !! h = Some Y ->
  exists X, hs !! h = Some X /\ same_but_index Y X.
Proof. intros Hs HY. specialize (Hs h). rewrite HY in Hs. destruct (hs !! h) as [X |]; [by exists X | done]. Qed.

Lemma same_headers_refl (hs : gmap Z Header) : same_headers hs hs.
Proof. intros h. by destruct (hs !! h). Qed.

Lemma found_same (hs hs' : gmap Z Header) (p b : Z) : same_headers hs hs' -> found hs' p b -> found hs p b.
Proof.
  intros Hs [(h & H & HH & Hh & ->) | [-> Hb]].
  - destruct (same_headers_back _ _ _ _ Hs HH) as (X & HX & E1 & E2 & _). left. exists h, X. split; [done | lia].
  - right. split; [done |]. intros h X HX Hh. destruct (same_headers_some _ _ _ _ Hs HX) as (Y & HY & E1 & E2 & _).
    apply (Hb h Y HY). lia.
Qed.

Lemma renumber_spec (cs : list Z) : forall (hs : gmap Z Header) (i : nat), NoDup cs ->
  (forall h, h ∈ cs -> is_Some (hs !! h)) ->
  exists hs', renumber hs i cs = Ok hs' /\ same_headers hs hs' /\ (forall h, h ∉ cs -> hs' !! h = hs !! h) /\
    forall j h, cs !! j = Some h -> exists H, hs' !! h = Some H /\ chunk_idx H = (i + j)%nat.
Proof.
  induction cs as [| c cs IH]; intros hs i Hnd Hall; cbn [renumber].
  { exists hs. split_and!; [done | apply same_headers_refl | done | by intros j h ?]. }
  apply NoDup_cons in Hnd as [Hc Hnd]. destruct (Hall c ltac:(left)) as [H HH]. rewrite HH. step.
  set (hs1 := <[c := _]> hs).
  destruct (IH hs1 (S i) Hnd) as (hs' & -> & Hs & Hout & Hidx).
  { intros h Hh. unfold hs1. destruct (decide (h = c)) as [-> |]; [rewrite lookup_insert_eq; by eexists |].
    rewrite lookup_insert_ne by done. apply Hall. by right. }
  exists hs'. split; [done |]. split; [| split].
  - intros h. specialize (Hs h). unfold hs1 in Hs. destruct (decide (h = c)) as [-> | Hne].
    + rewrite lookup_insert_eq in Hs. rewrite HH. by destruct (hs' !! c).
    + by rewrite lookup_insert_ne in Hs.
  - intros h Hh. apply not_elem_of_cons in Hh as [Hhc Hh]. rewrite Hout by done. unfold hs1. by rewrite lookup_insert_ne.
  - intros [| j] h Hj; cbn in Hj.
    + injection Hj as <-. rewrite Hout by done. unfold hs1. rewrite lookup_insert_eq. eexists. split; [done |]. cbn. lia.
    + destruct (Hidx j h Hj) as (X & HX & E). exists X. split; [done | lia].
Qed.

Lemma chunks_nodup (st : LargeMmapAllocator) : large_inv st -> NoDup (chunks st).
Proof. intros I. apply NoDup_alt. intros i j h. by apply chunks_index. Qed.

Lemma EnsureSortedChunks_spec (st : LargeMmapAllocator) : large_inv st ->
  exists st', EnsureSortedChunks st = Ok st' /\ large_inv st' /\ same_headers (headers st) (headers st') /\
    chunks st' ≡ₚ chunks st /\ increasing (chunks st').
Proof.
  intros I. unfold EnsureSortedChunks. destruct (chunks_sorted st) eqn:Hsorted.
  { exists st. split_and!; try done; [apply same_headers_refl | by apply large_sorted]. }
  destruct (Sort_spec Z.ltb (chunks st)) as (cs & -> & Hperm & Hs). step.
  assert (Hnd : NoDup cs) by (rewrite Hperm; by apply chunks_nodup).
  destruct (renumber_spec cs (headers st) 0 Hnd) as (hs & -> & Hsame & _ & Hidx).
  { intros h Hh. rewrite Hperm in Hh. destruct (chunk_header st h I Hh) as (H & HH & _). by exists H. }
  step. eexists. split; [done |]. cbn [headers chunks].
  assert (Hss : increasing cs).
  { intros i j x y Hij Hx Hy.
    assert (x <> y) by (intros ->; pose proof (proj1 (NoDup_alt cs) Hnd i j y Hx Hy); lia).
    pose proof (lookup_lt_Some _ _ _ Hy). pose proof (Hs i j ltac:(lia) ltac:(lia) x y Hx Hy) as Hlt. zb. lia. }
  split; [| by split_and!]. split; cbn [headers chunks chunks_sorted]; [| | | done].
  - intros h Y HY. destruct (same_headers_back _ _ _ _ Hsame HY) as (X & HX & E1 & E2 & E3).
    destruct (large_headers _ I h X HX) as [[A B C] _]. split; [split; rewrite ?E1, ?E2, ?E3; done |].
    pose proof (header_chunk st h X I HX) as Hin. rewrite <- Hperm in Hin. apply list_elem_of_lookup in Hin as [j Hj].
    destruct (Hidx j h Hj) as (Z0 & HZ & E). assert (Z0 = Y) as -> by congruence. by rewrite E.
  - intros i h Hi. destruct (Hidx i h Hi) as (Y & HY & E). by exists Y.
  - intros h Y k W HY HW Hne. destruct (same_headers_back _ _ _ _ Hsame HY) as (X & HX & E1 & E2 & _).
    destruct (same_headers_back _ _ _ _ Hsame HW) as (V & HV & F1 & F2 & _). rewrite E1, E2, F1, F2.
    by apply (large_disjoint _ I h X k V).
Qed.

(** The binary search keeps the nearest chunk between its bounds. *)
Record between (cs : list Z) (p beg last : Z) : Prop := {
  between_bounds : 0 <= beg <= last /\ last < Z.of_nat (length cs);
  between_low : forall c, cs !! Z.to_nat beg = Some c -> c <= p;
  between_high : forall j c, last < Z.of_nat j -> cs !! j = Some c -> p < c;
}.

Lemma sorted_lookup (cs : list Z) (i j : nat) (x y : Z) : increasing cs -> cs !! i = Some x -> cs !! j = Some y ->
  (i <= j)%nat -> x <= y.
Proof.
  intros Hs Hx Hy Hij. destruct (decide (i = j)) as [-> | Hne]; [assert (x = y) by congruence; lia |].
  pose proof (Hs i j x y ltac:(lia) Hx Hy). lia.
Qed.

Lemma narrow_spec (cs : list Z) (p : Z) (fuel : nat) : increasing cs -> forall beg last, between cs p beg last ->
  last - beg <= Z.of_nat fuel ->
  exists beg' last', narrow cs p beg last fuel = Ok (beg', last') /\ between cs p beg' last' /\ last' - beg' < 2.
Proof.
  intros Hs. induction fuel as [| fuel IH]; intros beg last [[B1 B2] L H] Hf; cbn [narrow];
    (destruct (Z.leb_spec 2 (last - beg)); [| exists beg, last; split_and!; [done | by split | lia]]); [lia |].
  set (mid := (beg + last) / 2). assert (Hmid : beg + 1 <= mid < last) by (unfold mid; zlia).
  destruct (lookup_lt_is_Some_2 cs (Z.to_nat mid)) as [c Hc]; [lia |]. rewrite Hc. step.
  destruct (Z.ltb_spec p c); apply IH; try lia.
  - split; [lia | done |]. intros j x Hj Hx. pose proof (sorted_lookup cs (Z.to_nat mid) j c x Hs Hc Hx ltac:(lia)). lia.
  - split; [lia | | done]. intros x Hx. rewrite Hc in Hx. by injection Hx as <-.
Qed.

(** The choice after the loop. *)
Lemma between_nearest (cs : list Z) (p beg last h : Z) : increasing cs -> between cs p beg last ->
  last - beg < 2 -> 
  (if beg <? last then _ ← check (beg + 1 =? last); c ← get_or_die (cs !! Z.to_nat last); Ok (if c <=? p then last else beg)
   else Ok beg) = Ok h ->
  exists c, cs !! Z.to_nat h = Some c /\ nearest_chunk cs p c.
Proof.
  intros Hs [[B1 B2] L H] Hd Hh.
  assert (Hpick : forall i c, 0 <= i -> cs !! Z.to_nat i = Some c -> c <= p ->
    (forall j x, i < Z.of_nat j -> cs !! j = Some x -> p < x) -> nearest_chunk cs p c).
  { intros i c Hi Hc Hcp Hhi. split; [by apply list_elem_of_lookup_2 in Hc |]. split; [done |].
    intros x (j & Hj)%list_elem_of_lookup Hxp. destruct (Z.le_gt_cases (Z.of_nat j) i).
    - apply (sorted_lookup cs j (Z.to_nat i) x c Hs Hj Hc). lia.
    - pose proof (Hhi j x ltac:(lia) Hj). lia. }
  destruct (lookup_lt_is_Some_2 cs (Z.to_nat beg)) as [cb Hcb]; [lia |].
  destruct (lookup_lt_is_Some_2 cs (Z.to_nat last)) as [cl Hcl]; [lia |].
  destruct (Z.ltb_spec beg last).
  - rewrite (proj2 (Z.eqb_eq (beg + 1) last)) in Hh by lia. rewrite Hcl in Hh. cbn in Hh. destruct (Z.leb_spec cl p).
    + injection Hh as <-. exists cl. split; [done |]. apply (Hpick last); [lia | done..].
    + injection Hh as <-. exists cb. split; [done |]. apply (Hpick beg); [lia | done | by apply L |].
      intros j x Hj Hx. destruct (decide (Z.of_nat j = last)) as [<- | Hne]; [| apply (H j x); [lia | done]].
      rewrite Nat2Z.id in Hcl. congruence.
  - injection Hh as <-. exists cb. split; [done |]. apply (Hpick beg); [lia | done | by apply L |].
    intros j x Hj Hx. apply (H j x); [lia | done].
Qed.

Lemma large_fast_spec (st : LargeMmapAllocator) (p : Z) : large_inv st -> 0 <= p ->
  exists b st', large_GetBlockBeginFastLocked st p = Ok (b, st') /\ found (headers st) p b /\
    large_inv st' /\ same_headers (headers st) (headers st').
Proof.
  intros I Hp. unfold large_GetBlockBeginFastLocked. destruct (Z.eqb_spec (Z.of_nat (length (chunks st))) 0) as [Hn | Hn].
  { exists 0, st. split_and!; [done | | done | apply same_headers_refl]. apply nothing_found; [done |].
    destruct (chunks st); [by intros c ?%not_elem_of_nil | cbn in Hn; lia]. }
  destruct (EnsureSortedChunks_spec st I) as (st' & -> & I' & Hsame & Hperm & Hs). step.
  rewrite <- (Permutation_length Hperm). pose proof (Permutation_length Hperm) as Hlen. set (cs := chunks st') in *.
  assert (Hret : forall b, found (headers st') p b -> found (headers st) p b /\ large_inv st' /\ same_headers (headers st) (headers st'))
    by (intros b Hb; split_and!; [by apply (found_same _ _ _ _ Hsame) | done | done]).
  destruct (lookup_lt_is_Some_2 cs 0) as [c0 Hc0]; [lia |]. rewrite Hc0. step.
  destruct (lookup_lt_is_Some_2 cs (Z.to_nat (Z.of_nat (length cs) - 1))) as [cl Hcl]; [lia |]. rewrite Hcl. step.
  destruct (chunk_header st' cl I') as (L & HL & HokL); [by apply list_elem_of_lookup_2 in Hcl |]. rewrite HL. step.
  destruct (header_bound _ _ HokL) as [Hend Hbeg]. pose proof HokL as [_ (B1 & B2 & B3) _]. pose proof page_bounds.
  change (2 ^ 62) with 4611686018427387904 in Hend. destruct (rounded_spec (h_used L)); [lia |].
  rewrite (wrap_small (cl + map_size L)) by (unfold is_uptr, word_modulus; lia).
  destruct (Z.ltb_spec p c0) as [Hlow | Hlow]; cbn [orb].
  { exists 0, st'. split; [done |]. apply Hret, nothing_found; [done |]. intros c (j & Hj)%list_elem_of_lookup.
    pose proof (sorted_lookup cs 0 j c0 c Hs Hc0 Hj ltac:(lia)). lia. }
  destruct (Z.leb_spec (cl + map_size L) p) as [Hhigh | Hhigh].
  { exists 0, st'. split; [done |]. apply Hret.
    assert (Hnear : nearest_chunk cs p cl).
    { split; [by apply list_elem_of_lookup_2 in Hcl |]. split; [lia |]. intros c (j & Hj)%list_elem_of_lookup _.
      apply (sorted_lookup cs j _ c cl Hs Hj Hcl). apply lookup_lt_Some in Hj. lia. }
    pose proof (nearest_found st' p cl L I' Hnear HL) as Hf. by rewrite (proj2 (Z.leb_le _ p)) in Hf by lia. }
  destruct (narrow_spec cs p (length cs) Hs 0 (Z.of_nat (length cs) - 1)) as (beg & last & -> & Hbt & Hd).
  { split; [lia | intros c Hc; change (Z.to_nat 0) with 0%nat in Hc; assert (c = c0) by congruence; lia |].
    intros j c Hj Hc%lookup_lt_Some. lia. }
  { lia. }
  step. pose proof Hbt as [[D1 D2] _ _].
  destruct (lookup_lt_is_Some_2 cs (Z.to_nat last)) as [cx Hcx]; [lia |].
  match goal with |- context [(if beg <? last then ?x else ?y) ≫= _] => destruct (if beg <? last then x else y) as [i | d] eqn:Hi end.
  2:{ destruct (Z.ltb_spec beg last); [| done]. rewrite (proj2 (Z.eqb_eq (beg + 1) last)), Hcx in Hi by lia. done. }
  destruct (between_nearest cs p beg last i Hs Hbt Hd Hi) as (h & Hh & Hnear). rewrite Ok_bind, Hh. step.
  destruct (chunk_header st' h I') as (X & HX & HokX); [apply Hnear |]. rewrite HX. step.
  destruct (header_bound _ _ HokX) as [HendX HbegX]. pose proof HokX as [(A1 & _) (C1 & C2 & C3) _].
  change (2 ^ 62) with 4611686018427387904 in HendX. destruct (rounded_spec (h_used X)); [lia |].
  rewrite (wrap_small (map_beg X + map_size X)) by (unfold is_uptr, word_modulus; lia).
  pose proof (nearest_found st' p h X I' Hnear HX) as Hf. destruct Hnear as (_ & Hle & _).
  rewrite (proj2 (Z.ltb_ge p (map_beg X))), orb_false_r by lia.
  destruct (_ <=? p); [exists 0, st'; split; [done | by apply Hret] |].
  rewrite GetUser_ok by (done || (change (2 ^ 63) with 9223372036854775808; lia)). step.
  exists (h + page_size_), st'. split; [done | by apply Hret].
Qed.

(** ** The other operations *)

Lemma large_block_found (st : LargeMmapAllocator) (p n a : Z) : large_inv st -> large_blocks st !! p = Some n ->
  p <= a < p + n -> large_GetBlockBegin st a = Ok p.
Proof.
  intros I (H & HH & ->)%large_blocks_lookup Ha. destruct (large_headers _ I _ H HH) as [Hok _].
  destruct (header_bound _ _ Hok). destruct Hok as [_ (B1 & B2 & B3) _]. pose proof page_bounds.
  destruct (large_GetBlockBegin_spec st a I) as (b & -> & Hb); [lia |]. f_equal. apply (found_unique st a b p I Hb).
  left. exists (p - page_size_), H. split; [done | lia].
Qed.

Lemma large_block_size (st : LargeMmapAllocator) (p n : Z) : large_inv st -> large_blocks st !! p = Some n ->
  large_actual_size st p = Ok n.
Proof.
  intros I (H & HH & ->)%large_blocks_lookup. destruct (large_headers _ I _ H HH) as [Hok _].
  destruct (header_bound _ _ Hok) as [Hend Hbeg]. destruct Hok as [(A1 & _) (B1 & B2 & B3) _]. pose proof page_bounds.
  change (2 ^ 62) with 4611686018427387904 in Hend. destruct (rounded_spec (h_used H)); [lia |].
  assert (Hpp : p mod page_size_ = 0).
  { replace p with (p - page_size_ + 1 * page_size_) by lia. by rewrite Z.mod_add by lia. }
  unfold large_actual_size. rewrite GetHeader_ok by (done || (unfold word_modulus; lia)). step. rewrite HH. step.
  by apply RoundUpTo_rounded.
Qed.

Lemma visit_spec (st : LargeMmapAllocator) (cs : list Z) : large_inv st -> forall i, (forall j h, cs !! j = Some h -> chunks st !! (i + j)%nat = Some h) ->
  visit st i cs = Ok (map (fun h => h + page_size_) cs).
Proof.
  intros I. induction cs as [| h cs IH]; intros i Hi; cbn [visit map]; [done |].
  pose proof (Hi 0%nat h eq_refl) as Hh. rewrite Nat.add_0_r in Hh. destruct (large_chunks _ I i h Hh) as (H & HH & Hidx).
  destruct (large_headers _ I h H HH) as [Hok _]. destruct (header_bound _ _ Hok) as [Hend Hbeg]. destruct Hok as [(A1 & _) (B1 & B2 & B3) _].
  pose proof page_bounds. change (2 ^ 62) with 4611686018427387904 in Hend. destruct (rounded_spec (h_used H)); [lia |].
  rewrite GetUser_ok by (done || (change (2 ^ 63) with 9223372036854775808; lia)). step. rewrite HH. step.
  rewrite (check_true (bool_decide _)) by (by apply bool_decide_eq_true). step. rewrite IH; [done |].
  intros j x Hj. replace (S i + j)%nat with (i + S j)%nat by lia. by apply Hi.
Qed.

(** [ForEachChunk] visits every block once, by increasing address. *)
Lemma large_ForEachChunk_spec (st : LargeMmapAllocator) : large_inv st ->
  exists us st', large_ForEachChunk st = Ok (us, st') /\ increasing us /\ (forall p, p ∈ us <-> is_Some (large_blocks st !! p)) /\
    large_inv st' /\ same_headers (headers st) (headers st').
Proof.
  intros I. destruct (EnsureSortedChunks_spec st I) as (st' & He & I' & Hsame & Hperm & Hs).
  unfold large_ForEachChunk. rewrite He. step. rewrite (visit_spec st' (chunks st') I' 0) by (intros j h Hj; exact Hj). step.
  eexists _, st'. split; [done |]. split; [| split; [| done]].
  - intros i j x y Hij Hx Hy. rewrite list_lookup_fmap in Hx, Hy.
    destruct (chunks st' !! i) as [a |] eqn:Ha; [| done]. destruct (chunks st' !! j) as [b |] eqn:Hb; [| done].
    injection Hx as <-. injection Hy as <-. pose proof (Hs i j a b Hij Ha Hb). lia.
  - intros p. split.
    + intros (h & -> & Hh)%list_elem_of_fmap. rewrite Hperm in Hh. destruct (chunk_header st h I Hh) as (H & HH & _).
      exists (rounded (h_used H)). apply large_blocks_lookup. exists H. by replace (h + page_size_ - page_size_) with h by lia.
    + intros [n (H & HH & _)%large_blocks_lookup]. apply list_elem_of_fmap. exists (p - page_size_). split; [lia |].
      rewrite Hperm. by apply (header_chunk st _ H).
Qed.
End specs.

(** ** The allocator as an instance of the interface *)

#[export] Instance large_heap `{!PageMapper} : HeapAllocator := {|
  astate := LargeMmapAllocator;
  allocate st _ m size alignment := large_Allocate st m size alignment;
  deallocate st _ m p := large_Deallocate st m p;
  block_begin := large_GetBlockBegin;
  actual_size := large_actual_size;
  from_primary := fun _ => false;
|}.

#[export] Instance large_heap_spec (P : PageMapper) (M : mapping) (area : Z -> Prop) (largest : Z)
  `{!WfMapping M, !PageMapperSpec P M area} : HeapAllocatorSpec M largest large_heap.
Proof.
  refine {| alloc_inv := large_inv P area : @astate large_heap -> Prop; blocks := large_blocks P; owned := large_owned; room := large_room;
            fits size := largest <? size |}.
  - intros st a. by apply large_owned_mem.
  - intros st a b. by apply large_owned_granule with (M := M) (area := area).
  - intros st p n. by apply large_block_shape with (M := M).
  - intros st p n a I Hp Ha. split; [by apply (large_block_found P M area st p n a) | done].
  - intros st p n. by apply large_block_size with (M := M).
  - intros st p n q k. by apply large_blocks_disjoint with (M := M).
  - intros st t m size alignment I Hr Hs Hf Ha. zb.
    destruct (large_allocate_spec P M area st m size alignment I Hr Hs Ha) as (p & es & st' & m' & He & I' & Hal).
    exists p, es, st', m'. split_and!; [done | done | done |]. intros _. symmetry. apply Z.leb_gt. exact Hf.
  - intros st t m p n I Hp. by apply large_deallocate_spec.
Defined.

(** An mmap that hands out the first pages after all mappings, up to a limit. *)
Definition top_of (hs : gmap Z Header) : Z := map_fold (fun _ H t => Z.max (map_beg H + map_size H) t) 0x700000000000 hs.

#[export] Instance bump_pages : PageMapper := {|
  page_size_ := 4096;
  mmap_pages hs n := let p := (top_of hs + 4095) / 4096 * 4096 in if p + n <=? 0x7f0000000000 then p else 0;
|}.

Definition bump_area (a : Z) : Prop := 0x700000000000 <= a < 0x7f0000000000.

Lemma top_of_spec (hs : gmap Z Header) : 0x700000000000 <= top_of hs /\
  forall h H, hs !! h = Some H -> map_beg H + map_size H <= top_of hs.
Proof.
  unfold top_of. apply (map_fold_weak_ind (fun t hs => 0x700000000000 <= t /\
    forall h H, hs !! h = Some H -> map_beg H + map_size H <= t)).
  - split; [lia | intros h H; by rewrite lookup_empty].
  - intros h H hs' t Hn [Ht Hall]. split; [lia |]. intros k K HK. destruct (decide (k = h)) as [-> | Hne].
    + rewrite lookup_insert_eq in HK. injection HK as <-. lia.
    + rewrite lookup_insert_ne in HK by done. pose proof (Hall k K HK). lia.
Qed.

#[export] Instance bump_pages_spec : PageMapperSpec bump_pages linux_x86_64 bump_area.
Proof.
  split.
  - by exists 12.
  - cbn. lia.
  - unfold bump_area. intros a Ha. split; [change (2 ^ 62) with 4611686018427387904; lia |].
    unfold AddrIsInMem. rewrite (proj2 (proj1 (high_regions linux_x86_64 a))); [by rewrite orb_true_r |].
    change (kHighMemBeg linux_x86_64) with 0x10007fff8000. change (kHighMemEnd linux_x86_64) with 0x7fffffffffff. lia.
  - intros hs n Hn Hnm. cbn [mmap_pages bump_pages page_size_] in *. cbv zeta. destruct (top_of_spec hs) as [Ht Hall].
    destruct (Z.leb_spec ((top_of hs + 4095) / 4096 * 4096 + n) 0x7f0000000000); [right | by left].
    split_and!; [zlia | zlia | intros a Ha; unfold bump_area; zlia |]. intros k K HK. right. pose proof (Hall k K HK). zlia.
Qed.


(** Two blocks, the later mapping first in the array. *)
Definition two_blocks : LargeMmapAllocator := MkLarge
  (<[0x700000100000 := MkHeader 0x700000100000 0x19000 98000 0]> {[0x700000000000 := MkHeader 0x700000000000 0x3000 5000 1]})
  [0x700000100000; 0x700000000000] false.

Lemma two_blocks_lookup (h : Z) (H : Header) : headers two_blocks !! h = Some H ->
  h = 0x700000100000 /\ H = MkHeader 0x700000100000 0x19000 98000 0 \/ h = 0x700000000000 /\ H = MkHeader 0x700000000000 0x3000 5000 1.
Proof.
  cbn [headers two_blocks]. intros [[<- <-] | [_ [<- <-]%lookup_singleton_Some]]%lookup_insert_Some; [by left | by right].
Qed.

Lemma two_blocks_inv : large_inv bump_pages bump_area two_blocks.
Proof.
  assert (Hok : forall h H, headers two_blocks !! h = Some H -> header_ok bump_pages bump_area h H /\ chunks two_blocks !! chunk_idx H = Some h).
  { intros h H [[-> ->] | [-> ->]]%two_blocks_lookup; (split; [| reflexivity]);
      (split; [by split_and! | split_and!; vm_compute; congruence | cbn; unfold bump_area; intros a Ha; lia]). }
  split; [exact Hok | | | done].
  - intros [| [| i]] h Hi; [| | done]; injection Hi as <-; (eexists; split; [vm_compute; reflexivity | reflexivity]).
  - intros h H k K [[-> ->] | [-> ->]]%two_blocks_lookup [[-> ->] | [-> ->]]%two_blocks_lookup Hne; cbn; try lia; done.
Qed.

