(* ===== verification/CombinedAllocator.v ===== *)
(** * The combined allocator: sanitizer_allocator_combined.h

    Small blocks come from a primary allocator with size classes, through the
    cache of the calling thread, and the others from the secondary one.  The
    primary allocator is an interface ([PrimaryAllocator]); the secondary one
    is [LargeMmapAllocator].  The combination keeps the promises of
    [HeapAllocatorSpec] for all sizes. *)

From S2P Require Import Prelude Words ShadowMapping Memory ShadowWrites SizeClassMap HeapAllocator LargeMmap LargeMmapSpecs.

(** Its state next to that of the secondary one. *)
Record combined_state {A : PrimaryAllocator} : Type := Combined { primary_ : pstate; secondary_ : LargeMmapAllocator }.
Arguments combined_state : clear implicits.

Section combined.
Context (P : size_class_params) (A : PrimaryAllocator) `{!PageMapper}.

Definition CanAllocate (size alignment : Z) : bool := (size <=? kMaxSize P) && (alignment <=? kMaxSize P).

Definition combined_Allocate (st : combined_state A) (t : option Z) (m : memory) (size alignment : Z)
  : result (Z * list map_event * combined_state A * memory) :=
  let size := if size =? 0 then 1 else size in
  if size +w alignment <? size then Ok (0, [], st, m)
  else
    let original_size := size in
    size ← (if 8 <? alignment then RoundUpTo size alignment else Ok size);
    '(res, es, st, m) ←
      (if CanAllocate size alignment then
         class_id ← ClassID P size;
         '(res, es, s, m) ← cache_Allocate (primary_ st) t m class_id;
         Ok (res, es, Combined _ s (secondary_ st), m)
       else
         '(res, es, s, m) ← large_Allocate (secondary_ st) m original_size alignment;
         Ok (res, es, Combined _ (primary_ st) s, m));
    _ ← (if 8 <? alignment then check (Z.land res (alignment -w 1) =? 0) else Ok tt);
    Ok (res, es, st, m).

Definition combined_Deallocate (st : combined_state A) (t : option Z) (m : memory) (p : Z)
  : result (list map_event * combined_state A * memory) :=
  if p =? 0 then Ok ([], st, m)
  else if primary_PointerIsMine p then
    '(es, s, m) ← cache_Deallocate (primary_ st) t m (primary_GetSizeClass p) p;
    Ok (es, Combined _ s (secondary_ st), m)
  else
    '(es, s, m) ← large_Deallocate (secondary_ st) m p;
    Ok (es, Combined _ (primary_ st) s, m).

Definition combined_PointerIsMine (st : combined_state A) (p : Z) : result bool :=
  if primary_PointerIsMine p then Ok true else large_PointerIsMine (secondary_ st) p.

Definition FromPrimary (p : Z) : bool := primary_PointerIsMine p.

Definition combined_GetBlockBegin (st : combined_state A) (p : Z) : result Z :=
  if primary_PointerIsMine p then primary_GetBlockBegin (primary_ st) p
  else large_GetBlockBegin (secondary_ st) p.

Definition combined_GetBlockBeginFastLocked (st : combined_state A) (p : Z) : result (Z * combined_state A) :=
  if primary_PointerIsMine p then b ← primary_GetBlockBegin (primary_ st) p; Ok (b, st)
  else
    '(b, s) ← large_GetBlockBeginFastLocked (secondary_ st) p;
    Ok (b, Combined _ (primary_ st) s).

Definition combined_GetActuallyAllocatedSize (st : combined_state A) (p : Z) : result Z :=
  if primary_PointerIsMine p then primary_GetActuallyAllocatedSize (primary_ st) p
  else large_actual_size (secondary_ st) p.

Definition combined_Reallocate (st : combined_state A) (t : option Z) (m : memory) (p new_size alignment : Z)
  : result (Z * list map_event * combined_state A * memory) :=
  if p =? 0 then combined_Allocate st t m new_size alignment
  else if new_size =? 0 then
    '(es, st, m) ← combined_Deallocate st t m p;
    Ok (0, es, st, m)
  else
    mine ← combined_PointerIsMine st p;
    _ ← check mine;
    old_size ← combined_GetActuallyAllocatedSize st p;
    let memcpy_size := Z.min new_size old_size in
    '(new_p, es, st, m) ← combined_Allocate st t m new_size alignment;
    let m := if negb (new_p =? 0) then internal_memcpy m new_p p memcpy_size else m in
    '(es', st, m) ← combined_Deallocate st t m p;
    Ok (new_p, es ++ es', st, m).

#[export] Instance combined_heap : HeapAllocator := {|
  astate := combined_state A;
  allocate := combined_Allocate;
  deallocate := combined_Deallocate;
  block_begin := combined_GetBlockBegin;
  actual_size := combined_GetActuallyAllocatedSize;
  from_primary := FromPrimary;
|}.

End combined.

(** ** Two allocators with separate memory *)

Section union.
Context (M : mapping).

Lemma in_blocks_union (b B : gmap Z Z) (a : Z) : b ##ₘ B -> in_blocks (b ∪ B) a <-> in_blocks b a \/ in_blocks B a.
Proof.
  intros Hd. unfold in_blocks. split.
  - intros (p & n & Hp & Ha). apply lookup_union_Some in Hp as [Hp | Hp]; [left | right | done]; by exists p, n.
  - intros [(p & n & Hp & Ha) | (p & n & Hp & Ha)]; exists p, n; (split; [apply lookup_union_Some; [done | tauto] | done]).
Qed.

(** What one allocator does, seen next to another that owns [O]. *)
Lemma allocated_union (b b' B : gmap Z Z) (o o' O : Z -> Prop) (m m' : memory) (size p : Z) (primary : bool)
  (es : list map_event) : 0 < size ->
  allocated M b b' o o' m m' size p primary es -> (forall a, o' a -> ~ O a) -> (forall a, in_blocks B a -> O a) ->
  (forall q n, B !! q = Some n -> 0 < n) -> (forall a, in_blocks b' a -> o' a) -> b ##ₘ B ->
  allocated M (b ∪ B) (b' ∪ B) (fun a => o a \/ O a) (fun a => o' a \/ O a) m m' size p primary es.
Proof.
  intros Hs [A1 A2 A3 A4 A5 A6 A7] Hsep HB HBn Hb' Hd.
  assert (Hp : p <> 0 -> B !! p = None).
  { intros Hp. destruct (A1 Hp) as (n & Hn & _ & Hb'n). destruct (B !! p) as [k |] eqn:Hk; [| done]. exfalso.
    pose proof (HBn _ _ Hk). apply (Hsep p); [apply Hb' | apply HB]; [exists p, n; rewrite Hb'n, lookup_insert_eq | exists p, k];
      (split; [done | lia]). }
  split.
  - intros Hne. destruct (A1 Hne) as (n & Hn & Hnone & ->). exists n. split; [done |]. split.
    + apply lookup_union_None. split; [done | by apply Hp].
    + by rewrite insert_union_l.
  - intros He. by rewrite A2.
  - intros a. rewrite A3. tauto.
  - intros e He. destruct (A4 e He) as [Hg Hn]. split; [done |]. intros a Ha [Ho | HO]; [by apply (Hn a) |].
    apply (Hsep a); [apply A3; right; by exists e | done].
  - intros a. destruct (A5 a) as [| [Ho Hn]]; [by left |]. right. split; [by left |].
    rewrite in_blocks_union by done. intros [? | ?%HB]; [done | by apply (Hsep a)].
  - exact A6.
  - destruct (primary || (p =? 0)); [done |]. destruct A7 as (mb & ms & n & ? & ? & Hrest). exists mb, ms, n.
    split; [done |]. split; [by apply lookup_union_Some_l | done].
Qed.

Lemma deallocated_union (b b' B : gmap Z Z) (o o' O : Z -> Prop) (m m' : memory) (p n : Z) (primary : bool)
  (es : list map_event) :
  deallocated_block M b b' o o' m m' p n primary es -> b !! p = Some n -> (forall a, o a -> ~ O a) -> (forall a, o' a -> ~ O a) ->
  (forall a, in_blocks B a -> O a) -> b ##ₘ B ->
  deallocated_block M (b ∪ B) (b' ∪ B) (fun a => o a \/ O a) (fun a => o' a \/ O a) m m' p n primary es.
Proof.
  intros [D1 D2 D3 D4] Hp Hsep Hsep' HB Hd. assert (HBp : B !! p = None) by (by apply (map_disjoint_Some_l b B p n)).
  assert (Hd' : b' ##ₘ B) by (rewrite D1; by apply map_disjoint_delete_l).
  split.
  - rewrite D1, delete_union. f_equal. symmetry. by apply delete_id.
  - intros a. destruct (D2 a) as [| [Ho Hn]]; [by left |]. right. split; [tauto |].
    rewrite in_blocks_union by done. intros [? | ?%HB]; [done |]. destruct Ho; [by apply (Hsep a) | by apply (Hsep' a)].
  - exact D3.
  - destruct primary.
    + destruct D4 as (Hes & Ho & Hm). split_and!; [done | intros a; rewrite Ho; tauto |].
      intros e He. destruct (Hm e He) as [Hg Hn]. split; [done |]. intros a Ha [H | HO]; [by apply (Hn a) |].
      apply (Hsep' a); [apply Ho; right; by exists e | done].
    + destruct D4 as (mb & ms & -> & Hg & H1 & H2 & Hin & Ho). exists mb, ms. split_and!; try done.
      * intros a Ha. left. by apply Hin.
      * intros a. rewrite Ho. split; [| tauto]. intros [[? ?] | HO]; [tauto |]. split; [by right |].
        intros Ha. by apply (Hsep a (Hin a Ha)).
Qed.

(** The kind of a block is of no matter when there is none. *)
Lemma allocated_kind (b b' : gmap Z Z) (o o' : Z -> Prop) (m m' : memory) (size p : Z) (k k' : bool) (es : list map_event) :
  (p <> 0 -> k' = k) -> allocated M b b' o o' m m' size p k es -> allocated M b b' o o' m m' size p k' es.
Proof.
  intros Hk [A1 A2 A3 A4 A5 A6 A7]. split; try done.
  destruct (Z.eqb_spec p 0) as [-> | Hp]; [by rewrite orb_true_r in * | by rewrite Hk].
Qed.
End union.

(** ** The combination keeps the promises of the interface *)

Section combined_specs.
Context (M : mapping) (P : size_class_params) (A : PrimaryAllocator) (mapper : PageMapper) (area : Z -> Prop).
Context `{!WfMapping M, !WfSizeClassMap P, !PageMapperSpec mapper M area, AS : !PrimaryAllocatorSpec M P A}.
(** Mappings of the secondary allocator lie outside the primary's space. *)
Context (area_separate : forall a, area a -> primary_PointerIsMine a = false) (large_classes : 8 <= kMaxSize P).

Record combined_inv (st : combined_state A) : Prop := {
  combined_primary : primary_inv (primary_ st);
  combined_secondary : large_inv mapper area (secondary_ st);
}.
Definition combined_blocks (st : combined_state A) : gmap Z Z := primary_blocks (primary_ st) ∪ large_blocks mapper (secondary_ st).
Definition combined_owned (st : combined_state A) (a : Z) : Prop := primary_owned (primary_ st) a \/ large_owned (secondary_ st) a.
Definition combined_room (st : combined_state A) : Prop := primary_room (primary_ st) /\ large_room (secondary_ st).

Lemma large_not_mine (s : LargeMmapAllocator) (a : Z) : large_inv mapper area s -> large_owned s a -> primary_PointerIsMine a = false.
Proof. intros I (h & H & HH & Ha). apply area_separate, (header_area _ _ _ _ (proj1 (large_headers _ _ _ I h H HH))), Ha. Qed.

Lemma owners_separate (s : pstate) (l : LargeMmapAllocator) (a : Z) : primary_inv s -> large_inv mapper area l ->
  primary_owned s a -> ~ large_owned l a.
Proof. intros I J Ha Hb. pose proof (primary_mine s a I Ha). pose proof (large_not_mine l a J Hb). congruence. Qed.

Lemma primary_block_owned (s : pstate) (a : Z) : primary_inv s -> in_blocks (primary_blocks s) a -> primary_owned s a.
Proof. intros I (p & n & Hp & Ha). by apply (primary_shape s p n I Hp). Qed.
Lemma large_block_owned (s : LargeMmapAllocator) (a : Z) : large_inv mapper area s -> in_blocks (large_blocks mapper s) a -> large_owned s a.
Proof. intros I (p & n & Hp & Ha). by apply (large_block_shape mapper M area s p n I Hp). Qed.

Lemma blocks_separate (s : pstate) (l : LargeMmapAllocator) : primary_inv s -> large_inv mapper area l ->
  primary_blocks s ##ₘ large_blocks mapper l.
Proof.
  intros I J. apply map_disjoint_spec. intros p n k Hp Hq.
  destruct (primary_shape s p n I Hp) as (Hn & _ & _ & H1). destruct (large_block_shape mapper M area l p k J Hq) as (Hk & _ & _ & H2).
  apply (owners_separate s l p I J); [apply H1; lia | apply H2; lia].
Qed.

Lemma block_cases (st : combined_state A) (p n : Z) : combined_inv st -> combined_blocks st !! p = Some n ->
  primary_blocks (primary_ st) !! p = Some n /\ (forall a, p <= a < p + n -> primary_PointerIsMine a = true) \/
  large_blocks mapper (secondary_ st) !! p = Some n /\ (forall a, p <= a < p + n -> primary_PointerIsMine a = false).
Proof.
  intros [I J] Hp. unfold combined_blocks in Hp. apply lookup_union_Some in Hp; [| by apply blocks_separate].
  destruct Hp as [Hp | Hp]; [left | right]; (split; [done |]); intros a Ha.
  - apply (primary_mine _ _ I). by apply (primary_shape _ p n I Hp).
  - apply (large_not_mine _ _ J). by apply (large_block_shape mapper M area _ p n J Hp).
Qed.

Lemma combined_block_shape (st : combined_state A) (p n : Z) : combined_inv st -> combined_blocks st !! p = Some n ->
  0 < n /\ p mod 8 = 0 /\ n mod 8 = 0 /\ forall a, p <= a < p + n -> combined_owned st a.
Proof.
  intros C Hp. pose proof C as [I J]. destruct (block_cases st p n C Hp) as [[H _] | [H _]].
  - destruct (primary_shape _ p n I H) as (? & ? & ? & Ho). split_and!; try done. intros a Ha. left. by apply Ho.
  - destruct (large_block_shape mapper M area _ p n J H) as (? & ? & ? & Ho). split_and!; try done. intros a Ha. right. by apply Ho.
Qed.

Lemma combined_disjoint (st : combined_state A) (p n q k : Z) : combined_inv st -> combined_blocks st !! p = Some n ->
  combined_blocks st !! q = Some k -> p <> q -> p + n <= q \/ q + k <= p.
Proof.
  intros C Hp Hq Hne. pose proof C as [I J].
  destruct (combined_block_shape st p n C Hp) as (Hn & _), (combined_block_shape st q k C Hq) as (Hk & _).
  destruct (block_cases st p n C Hp) as [[H1 H2] | [H1 H2]], (block_cases st q k C Hq) as [[K1 K2] | [K1 K2]].
  - by apply (primary_disjoint _ p n q k I).
  - destruct (Z.le_gt_cases (p + n) q), (Z.le_gt_cases (q + k) p); try lia. exfalso.
    pose proof (H2 (Z.max p q) ltac:(lia)). pose proof (K2 (Z.max p q) ltac:(lia)). congruence.
  - destruct (Z.le_gt_cases (p + n) q), (Z.le_gt_cases (q + k) p); try lia. exfalso.
    pose proof (H2 (Z.max p q) ltac:(lia)). pose proof (K2 (Z.max p q) ltac:(lia)). congruence.
  - by apply (large_blocks_disjoint mapper M area _ p n q k J).
Qed.

Lemma combined_allocate_primary (st : combined_state A) (m : memory) (size c : Z) (s' : pstate) (m' : memory)
  (p : Z) (es : list map_event) : combined_inv st -> 1 <= size <= Size P c ->
  primary_inv s' -> allocated M (primary_blocks (primary_ st)) (primary_blocks s') (primary_owned (primary_ st)) (primary_owned s')
    m m' (Size P c) p true es ->
  let st' := Combined A s' (secondary_ st) in
  combined_inv st' /\ allocated M (combined_blocks st) (combined_blocks st') (combined_owned st) (combined_owned st') m m' size p true es /\
  (p <> 0 -> primary_PointerIsMine p = true).
Proof.
  intros [I J] Hs I' Hal st'. split; [by split |]. split.
  - assert (Hu := allocated_union M _ _ (large_blocks mapper (secondary_ st)) _ _ (large_owned (secondary_ st)) m m' (Size P c) p true es
      ltac:(lia) Hal (fun a => owners_separate _ _ a I' J) (fun a => large_block_owned _ a J)
      (fun q n Hq => proj1 (large_block_shape mapper M area _ q n J Hq)) (fun a => primary_block_owned _ a I') (blocks_separate _ _ I J)).
    destruct Hu as [A1 A2 A3 A4 A5 A6 A7]. split; try done.
    intros Hp. destruct (A1 Hp) as (n & Hn & Hrest). exists n. split; [lia | done].
  - intros Hp. destruct (alloc_block _ _ _ _ _ _ _ _ _ _ _ Hal Hp) as (n & Hn & _ & Hb). apply (primary_mine s' p I').
    apply (primary_shape s' p n I'); [by rewrite Hb, lookup_insert_eq | lia].
Qed.

(** The two halves of the state in the other order. *)
Lemma blocks_comm (st : combined_state A) : combined_inv st ->
  combined_blocks st = large_blocks mapper (secondary_ st) ∪ primary_blocks (primary_ st).
Proof. intros [I J]. apply map_union_comm. by apply blocks_separate. Qed.

Lemma combined_allocate_secondary (st : combined_state A) (m : memory) (size : Z) (s' : LargeMmapAllocator) (m' : memory)
  (p : Z) (es : list map_event) : combined_inv st -> 0 < size ->
  large_inv mapper area s' -> allocated M (large_blocks mapper (secondary_ st)) (large_blocks mapper s') (large_owned (secondary_ st))
    (large_owned s') m m' size p false es ->
  let st' := Combined A (primary_ st) s' in
  combined_inv st' /\ allocated M (combined_blocks st) (combined_blocks st') (combined_owned st) (combined_owned st') m m' size p false es /\
  (p <> 0 -> primary_PointerIsMine p = false).
Proof.
  intros C Hs J' Hal st'. pose proof C as [I J]. assert (C' : combined_inv st') by (by split). split; [done |]. split.
  - rewrite (blocks_comm st C), (blocks_comm st' C').
    assert (Hu := allocated_union M _ _ (primary_blocks (primary_ st)) _ _ (primary_owned (primary_ st)) m m' size p false es
      Hs Hal (fun a Ha Hb => owners_separate _ _ a I J' Hb Ha)
      (fun a => primary_block_owned _ a I)
      (fun q n Hq => proj1 (primary_shape _ q n I Hq)) (fun a => large_block_owned _ a J')
      (map_disjoint_sym _ _ (blocks_separate _ _ I J))).
    destruct Hu as [A1 A2 A3 A4 A5 A6 A7]. unfold combined_owned. split; try done.
    + intros a. specialize (A3 a). cbn in *. tauto.
    + intros e He. destruct (A4 e He) as [Hg Hn]. split; [done |]. intros a Ha Ho. apply (Hn a Ha). cbn in *. tauto.
    + intros a. destruct (A5 a) as [| [Ho Hn]]; [by left | right]. cbn in *. tauto.
  - intros Hp. destruct (alloc_block _ _ _ _ _ _ _ _ _ _ _ Hal Hp) as (n & Hn & _ & Hb). apply (large_not_mine s' p J').
    apply (large_block_shape mapper M area s' p n J'); [by rewrite Hb, lookup_insert_eq | lia].
Qed.

Lemma combined_allocate_spec (st : combined_state A) (t : option Z) (m : memory) (size alignment : Z) :
  combined_inv st -> combined_room st -> 0 < size <= 2 ^ 41 -> alignment = 1 \/ alignment = 8 ->
  exists p es st' m', combined_Allocate P A st t m size alignment = Ok (p, es, st', m') /\ combined_inv st' /\
    allocated M (combined_blocks st) (combined_blocks st') (combined_owned st) (combined_owned st') m m' size p
      (FromPrimary A p) es /\
    (p <> 0 -> FromPrimary A p = (size <=? kMaxSize P)).
Proof.
  intros C [R1 R2] Hs Hal. pose proof C as [I J]. unfold combined_Allocate, FromPrimary.
  assert (Hs' := Hs). change (2 ^ 41) with 2199023255552 in Hs'.
  rewrite (proj2 (Z.eqb_neq size 0)) by lia. rewrite (wrap_small (size + alignment)) by (unfold is_uptr, word_modulus; lia).
  rewrite (proj2 (Z.ltb_ge _ size)) by lia. rewrite (proj2 (Z.ltb_ge 8 alignment)) by lia. rewrite Ok_bind.
  unfold CanAllocate. rewrite (proj2 (Z.leb_le alignment _)), andb_true_r by lia.
  destruct (Z.leb_spec size (kMaxSize P)) as [Hsmall | Hbig].
  - destruct (ClassID_spec P size) as (c & -> & Hc & Hsc & _); [lia |]. rewrite Ok_bind.
    destruct (primary_allocate (primary_ st) t m c I R1 Hc) as (p & es & s' & m' & -> & I' & Hp). step.
    destruct (combined_allocate_primary st m size c s' m' p es C ltac:(lia) I' Hp) as (C' & Hp' & Hk).
    exists p, es, (Combined A s' (secondary_ st)), m'. split; [done |]. split; [done |]. split; [| exact Hk].
    by apply (allocated_kind _ _ _ _ _ _ _ _ _ true).
  - destruct (large_allocate_spec mapper M area (secondary_ st) m size alignment J R2 Hs Hal) as (p & es & s' & m' & -> & J' & Hp). step.
    destruct (combined_allocate_secondary st m size s' m' p es C ltac:(lia) J' Hp) as (C' & Hp' & Hk).
    exists p, es, (Combined A (primary_ st) s'), m'. split; [done |]. split; [done |]. split; [| exact Hk].
    by apply (allocated_kind _ _ _ _ _ _ _ _ _ false).
Qed.

Lemma combined_deallocate_spec (st : combined_state A) (t : option Z) (m : memory) (p n : Z) :
  combined_inv st -> combined_blocks st !! p = Some n ->
  exists es st' m', combined_Deallocate A st t m p = Ok (es, st', m') /\ combined_inv st' /\
    deallocated_block M (combined_blocks st) (combined_blocks st') (combined_owned st) (combined_owned st') m m' p n (FromPrimary A p) es.
Proof.
  intros C Hp. pose proof C as [I J]. destruct (combined_block_shape st p n C Hp) as (Hn & _ & _ & Ho).
  assert (Hp0 : 8 <= p).
  { destruct (Ho p ltac:(lia)) as [H | H]; [by apply (primary_mem _ p I) | by apply (large_owned_mem mapper M area _ p J)]. }
  unfold combined_Deallocate, FromPrimary. rewrite (proj2 (Z.eqb_neq p 0)) by lia.
  destruct (block_cases st p n C Hp) as [[H Hm] | [H Hm]]; rewrite (Hm p) by lia.
  - destruct (primary_deallocate (primary_ st) t m p n I H) as (es & s' & m' & -> & I' & Hd). step.
    eexists es, _, m'. split; [done |]. split; [by split |].
    exact (deallocated_union M _ _ (large_blocks mapper (secondary_ st)) _ _ (large_owned (secondary_ st)) m m' p n true es Hd H
      (fun a => owners_separate _ _ a I J) (fun a => owners_separate _ _ a I' J) (fun a => large_block_owned _ a J) (blocks_separate _ _ I J)).
  - destruct (large_deallocate_spec mapper M area (secondary_ st) m p n J H) as (es & s' & m' & -> & J' & Hd). step.
    assert (C' : combined_inv (Combined A (primary_ st) s')) by (by split).
    eexists es, _, m'. split; [done |]. split; [done |]. rewrite (blocks_comm st C), (blocks_comm _ C').
    assert (Hu := deallocated_union M _ _ (primary_blocks (primary_ st)) _ _ (primary_owned (primary_ st)) m m' p n false es Hd H
      (fun a Ha Hb => owners_separate _ _ a I J Hb Ha) (fun a Ha Hb => owners_separate _ _ a I J' Hb Ha)
      (fun a => primary_block_owned _ a I) (map_disjoint_sym _ _ (blocks_separate _ _ I J))).
    destruct Hu as [D1 D2 D3 (mb & ms & D4 & D5 & D6 & D7 & D8 & D9)]. unfold combined_owned. split; try done.
    + intros a. destruct (D2 a) as [| [Ho2 Hn2]]; [by left | right]. cbn in *. tauto.
    + exists mb, ms. split_and!; try done; intros a; [intros Ha; specialize (D8 a Ha); cbn in *; tauto |].
      specialize (D9 a). cbn in *. tauto.
Qed.

#[export] Instance combined_heap_spec : HeapAllocatorSpec M (kMaxSize P) (combined_heap P A).
Proof.
  refine {| alloc_inv := combined_inv : @astate (combined_heap P A) -> Prop; blocks := combined_blocks; owned := combined_owned;
            room := combined_room; fits _ := true |}.
  - intros st a [I J] [H | H]; [by apply (primary_mem _ a I) | by apply (large_owned_mem mapper M area _ a J)].
  - intros st a b [I J] [H | H] Hab; [left; by apply (primary_granule _ a b I) | right; by apply (large_owned_granule mapper M area _ a b J)].
  - apply combined_block_shape.
  - intros st p n a C Hp Ha. pose proof C as [I J]. cbn [block_begin combined_heap from_primary].
    unfold combined_GetBlockBegin, FromPrimary. destruct (combined_block_shape st p n C Hp) as (Hn & _).
    destruct (block_cases st p n C Hp) as [[H Hm] | [H Hm]]; rewrite (Hm a Ha), (Hm p) by lia.
    + split; [by apply (primary_found _ p n a I) | done].
    + split; [by apply (large_block_found mapper M area _ p n a J) | done].
  - intros st p n C Hp. pose proof C as [I J]. cbn [actual_size combined_heap]. unfold combined_GetActuallyAllocatedSize.
    destruct (combined_block_shape st p n C Hp) as (Hn & _).
    destruct (block_cases st p n C Hp) as [[H Hm] | [H Hm]]; rewrite (Hm p) by lia.
    + by apply (primary_size _ p n I).
    + by apply (large_block_size mapper M area _ p n J).
  - apply combined_disjoint.
  - intros st t m size alignment C R Hs _. by apply combined_allocate_spec.
  - intros st t m p n. by apply combined_deallocate_spec.
Defined.
End combined_specs.
