(* ===== verification/PackedCounters.v ===== *)
(** * Packed counters: PackedCounterArray of sanitizer_allocator_primary64.h

    Counters of a few bits each, packed into 64-bit words.  As long as no
    counter passes the maximum that the array was made for, it is an array of
    integers. *)

From S2P Require Import Prelude Words.

Record PackedCounterArray : Type := MkCounters {
  counters_n : Z; counter_size_bits_log : Z; counter_mask : Z; packing_ratio_log : Z; bit_offset_mask : Z;
  buffer : list Z;
}.

Definition kMaxCounterBits : Z := 64.

(** The constructor.  [MapPackedCounterArrayBuffer] resizes a vector, whose
    new elements are zero. *)
Definition new_counters (num_counters max_value : Z) : result PackedCounterArray :=
  _ ← check (0 <? num_counters);
  _ ← check (0 <? max_value);
  msb ← MostSignificantSetBitIndex max_value;
  counter_size_bits ← RoundUpToPowerOfTwo (msb + 1);
  _ ← check (counter_size_bits <=? kMaxCounterBits);
  bits_log ← Log2 counter_size_bits;
  let mask := Z.shiftr (word_modulus - 1) (kMaxCounterBits - counter_size_bits) in
  let packing_ratio := Z.shiftr kMaxCounterBits bits_log in
  _ ← check (0 <? packing_ratio);
  ratio_log ← Log2 packing_ratio;
  count ← RoundUpTo num_counters (wshl 1 ratio_log);
  Ok (MkCounters num_counters bits_log mask ratio_log (packing_ratio - 1) (replicate (Z.to_nat (Z.shiftr count ratio_log)) 0)).

Definition GetCount (c : PackedCounterArray) : Z := counters_n c.

Definition word_of (c : PackedCounterArray) (i : Z) : nat := Z.to_nat (Z.shiftr i (packing_ratio_log c)).
Definition offset_of (c : PackedCounterArray) (i : Z) : Z := Z.shiftl (Z.land i (bit_offset_mask c)) (counter_size_bits_log c).

Definition counter_Get (c : PackedCounterArray) (i : Z) : result Z :=
  w ← get_or_die (buffer c !! word_of c i);
  Ok (Z.land (Z.shiftr w (offset_of c i)) (counter_mask c)).

Definition counter_Inc (c : PackedCounterArray) (i : Z) : result PackedCounterArray :=
  w ← get_or_die (buffer c !! word_of c i);
  Ok (MkCounters (counters_n c) (counter_size_bits_log c) (counter_mask c) (packing_ratio_log c) (bit_offset_mask c)
        (<[word_of c i := w +w wshl 1 (offset_of c i)]> (buffer c))).

(** [for (uptr i = from; i <= to; i++) Inc(i);], [k] turns to go. *)
Fixpoint inc_loop (c : PackedCounterArray) (i : Z) (k : nat) : result PackedCounterArray :=
  match k with
  | O => Ok c
  | S k => c ← counter_Inc c i; inc_loop c (i + 1) k
  end.
Definition counter_IncRange (c : PackedCounterArray) (from last : Z) : result PackedCounterArray :=
  inc_loop c from (Z.to_nat (last - from + 1)).

(** ** Fields of a word *)

Definition field (w b j : Z) : Z := w / 2 ^ (j * b) mod 2 ^ b.

Lemma field_add_same (w b k : Z) : 0 <= b -> 0 <= k -> field w b k < 2 ^ b - 1 -> field (w + 2 ^ (k * b)) b k = field w b k + 1.
Proof.
  intros Hb Hk Hf. unfold field in *. pose proof (Z.pow_pos_nonneg 2 (k * b) ltac:(lia) ltac:(nia)).
  replace (w + 2 ^ (k * b)) with (w + 1 * 2 ^ (k * b)) by lia. rewrite Z.div_add by lia.
  set (q := w / _) in *. pose proof (Z.pow_pos_nonneg 2 b ltac:(lia) Hb).
  rewrite <- (Zplus_mod_idemp_l q). apply Z.mod_small. pose proof (Z.mod_pos_bound q (2 ^ b)). lia.
Qed.

Lemma field_add_below (w b j k : Z) : 0 <= b -> 0 <= j < k -> field (w + 2 ^ (k * b)) b j = field w b j.
Proof.
  intros Hb Hj. unfold field. pose proof (Z.pow_pos_nonneg 2 (j * b) ltac:(lia) ltac:(nia)).
  replace (k * b) with (j * b + (b + (k - j - 1) * b)) by lia.
  rewrite !Z.pow_add_r by nia. set (x := 2 ^ ((k - j - 1) * b)).
  replace (w + 2 ^ (j * b) * (2 ^ b * x)) with (w + x * 2 ^ b * 2 ^ (j * b)) by lia.
  rewrite Z.div_add by lia. pose proof (Z.pow_pos_nonneg 2 b ltac:(lia) Hb). by rewrite Z.mod_add by lia.
Qed.

Lemma field_add_above (w b j k : Z) : 0 <= b -> 0 <= k < j -> 0 <= w -> field w b k < 2 ^ b - 1 ->
  (w + 2 ^ (k * b)) / 2 ^ (j * b) = w / 2 ^ (j * b).
Proof.
  intros Hb Hk Hw Hf. unfold field in Hf.
  replace (j * b) with ((k * b + b) + (j - k - 1) * b) by lia. rewrite Z.pow_add_r by nia.
  pose proof (Z.pow_pos_nonneg 2 (k * b) ltac:(lia) ltac:(nia)) as H1. pose proof (Z.pow_pos_nonneg 2 b ltac:(lia) Hb) as H2.
  pose proof (Z.pow_pos_nonneg 2 ((j - k - 1) * b) ltac:(lia) ltac:(nia)) as H3.
  rewrite (Z.pow_add_r 2 (k * b) b) by nia. rewrite <- !Z.div_div by nia. f_equal.
  replace (w + 2 ^ (k * b)) with (w + 1 * 2 ^ (k * b)) by lia. rewrite Z.div_add by lia.
  set (q := w / 2 ^ (k * b)) in *. pose proof (Z.div_mod q (2 ^ b) ltac:(lia)). pose proof (Z.mod_pos_bound q (2 ^ b) ltac:(lia)).
  symmetry. apply (Z.div_unique _ _ _ (q mod 2 ^ b + 1)); lia.
Qed.

Lemma field_add_other (w b j k : Z) : 0 <= b -> 0 <= j -> 0 <= k -> j <> k -> 0 <= w -> field w b k < 2 ^ b - 1 ->
  field (w + 2 ^ (k * b)) b j = field w b j.
Proof.
  intros Hb Hj Hk Hne Hw Hf. destruct (Z.lt_ge_cases j k); [apply field_add_below; lia |].
  unfold field at 1. rewrite field_add_above by lia. done.
Qed.

(** Adding to a field that is not full keeps the word below [2 ^ 64]. *)
Lemma field_add_range (w b k r : Z) : 0 <= b -> 0 <= k < r -> 0 <= w < 2 ^ (r * b) -> field w b k < 2 ^ b - 1 ->
  0 <= w + 2 ^ (k * b) < 2 ^ (r * b).
Proof.
  intros Hb Hk Hw Hf. pose proof (Z.pow_pos_nonneg 2 (k * b) ltac:(lia) ltac:(nia)). split; [lia |].
  pose proof (Z.pow_pos_nonneg 2 (r * b) ltac:(lia) ltac:(nia)).
  pose proof (field_add_above w b r k Hb ltac:(lia) ltac:(lia) Hf) as He. rewrite (Z.div_small w) in He by lia.
  apply Z.div_small_iff in He; lia.
Qed.

(** ** The array as counters *)

(** The counters of [c] are [f 0], ..., [f (n - 1)], each at most [max] when
    nothing overflowed; [2 ^ k] bits each. *)
Record packed (c : PackedCounterArray) (n max : Z) (f : Z -> Z) : Prop := {
  packed_shape : exists k, 0 <= k <= 6 /\ max < 2 ^ (2 ^ k) /\
    c = MkCounters n k (2 ^ (2 ^ k) - 1) (6 - k) (2 ^ (6 - k) - 1) (buffer c) /\
    n <= Z.of_nat (length (buffer c)) * 2 ^ (6 - k) /\
    forall i w, 0 <= i < n -> buffer c !! Z.to_nat (i / 2 ^ (6 - k)) = Some w ->
      field w (2 ^ k) (i mod 2 ^ (6 - k)) = f i;
  packed_words : forall j w, buffer c !! j = Some w -> is_uptr w;
}.

Lemma packed_word (c : PackedCounterArray) (k n i : Z) : 0 <= k <= 6 -> 0 <= i < n ->
  c = MkCounters n k (2 ^ (2 ^ k) - 1) (6 - k) (2 ^ (6 - k) - 1) (buffer c) ->
  n <= Z.of_nat (length (buffer c)) * 2 ^ (6 - k) ->
  word_of c i = Z.to_nat (i / 2 ^ (6 - k)) /\ offset_of c i = i mod 2 ^ (6 - k) * 2 ^ k /\
  exists w, buffer c !! Z.to_nat (i / 2 ^ (6 - k)) = Some w.
Proof.
  intros Hk Hi Hc Hlen. pose proof (Z.pow_pos_nonneg 2 (6 - k) ltac:(lia) ltac:(lia)) as Hr. rewrite Hc.
  unfold word_of, offset_of. cbn [packing_ratio_log bit_offset_mask counter_size_bits_log buffer].
  rewrite Z.shiftr_div_pow2, Z.shiftl_mul_pow2 by lia.
  replace (2 ^ (6 - k) - 1) with (Z.ones (6 - k)) by (rewrite Z.ones_equiv; lia). rewrite Z.land_ones by lia.
  split; [done |]. split; [done |]. apply lookup_lt_is_Some_2.
  pose proof (Z.div_lt_upper_bound i (2 ^ (6 - k)) (Z.of_nat (length (buffer c))) Hr ltac:(lia)).
  pose proof (Z.div_pos i (2 ^ (6 - k)) ltac:(lia) Hr). lia.
Qed.

Lemma counter_Get_spec (c : PackedCounterArray) (n max : Z) (f : Z -> Z) (i : Z) : packed c n max f -> 0 <= i < n ->
  counter_Get c i = Ok (f i).
Proof.
  intros [(k & Hk & Hm & Hc & Hlen & Hf) Hw] Hi. destruct (packed_word c k n i Hk Hi Hc Hlen) as (H1 & H2 & w & Hwi).
  unfold counter_Get. rewrite H1, H2, Hwi. step. f_equal. rewrite <- (Hf i w Hi Hwi). unfold field.
  pose proof (Z.pow_pos_nonneg 2 k ltac:(lia) ltac:(lia)). pose proof (Z.mod_pos_bound i (2 ^ (6 - k)) ltac:(lia)).
  rewrite Z.shiftr_div_pow2 by nia. rewrite Hc. cbn [counter_mask].
  replace (2 ^ 2 ^ k - 1) with (Z.ones (2 ^ k)) by (rewrite Z.ones_equiv; lia). by rewrite Z.land_ones by lia.
Qed.

Lemma counter_Inc_spec (c : PackedCounterArray) (n max : Z) (f : Z -> Z) (i : Z) : packed c n max f -> 0 <= i < n ->
  0 <= f i < max -> exists c', counter_Inc c i = Ok c' /\ packed c' n max (fun j => if j =? i then f i + 1 else f j).
Proof.
  intros [(k & Hk & Hm & Hc & Hlen & Hf) Hw] Hi Hfi. destruct (packed_word c k n i Hk Hi Hc Hlen) as (H1 & H2 & w & Hwi).
  set (r := 2 ^ (6 - k)) in *. set (b := 2 ^ k) in *.
  assert (Hr : 0 < r) by (apply Z.pow_pos_nonneg; lia). assert (Hb : 0 < b) by (apply Z.pow_pos_nonneg; lia).
  assert (Hrb : r * b = 64) by (unfold r, b; rewrite <- Z.pow_add_r by lia; by replace (6 - k + k) with 6 by lia).
  pose proof (Z.mod_pos_bound i r Hr) as Hmod. pose proof (Hf i w Hi Hwi) as Hfield.
  assert (Hlt : field w b (i mod r) < 2 ^ b - 1) by lia.
  assert (Hw0 : 0 <= w < 2 ^ (r * b)) by (rewrite Hrb; rewrite <- word_modulus_pow; by apply (Hw _ _ Hwi)).
  pose proof (field_add_range w b (i mod r) r ltac:(lia) Hmod Hw0 Hlt) as Hrange.
  rewrite Hrb in Hrange, Hw0. rewrite <- word_modulus_pow in Hrange.
  unfold counter_Inc. rewrite H1, H2, Hwi. step. eexists. split; [done |].
  rewrite wshl_1 by nia. rewrite wrap_small by (unfold is_uptr; lia).
  pose proof (lookup_lt_Some _ _ _ Hwi) as Hin. split; cbn [buffer].
  - exists k. fold r b. split_and!; [lia | lia | done | f_equal; by rewrite Hc | by rewrite length_insert |].
    intros j x Hj Hx. destruct (decide (Z.to_nat (j / r) = Z.to_nat (i / r))) as [He | Hne].
    + rewrite He, list_lookup_insert_eq in Hx by done. injection Hx as <-.
      assert (Hdiv : j / r = i / r) by (apply Z2Nat.inj; [apply Z.div_pos; lia | apply Z.div_pos; lia | done]).
      destruct (Z.eqb_spec j i) as [-> | Hji].
      * rewrite field_add_same by lia. by rewrite Hfield.
      * pose proof (Z.mod_pos_bound j r Hr). rewrite field_add_other; try lia.
        -- apply Hf; [done |]. by rewrite He.
        -- intros Hm'. apply Hji. rewrite (Z.div_mod j r), (Z.div_mod i r), Hdiv, Hm' by lia. done.
    + rewrite list_lookup_insert_ne in Hx by done. destruct (Z.eqb_spec j i) as [-> | Hji]; [done | by apply Hf].
  - intros j x Hx. destruct (decide (j = Z.to_nat (i / r))) as [-> | Hne].
    + rewrite list_lookup_insert_eq in Hx by done. injection Hx as <-. exact Hrange.
    + rewrite list_lookup_insert_ne in Hx by done. by apply (Hw j).
Qed.

Lemma packed_ext (c : PackedCounterArray) (n max : Z) (f g : Z -> Z) : (forall i, 0 <= i < n -> f i = g i) ->
  packed c n max f -> packed c n max g.
Proof.
  intros He [(k & H1 & H2 & H3 & H4 & H5) Hw]. split; [| done]. exists k. split_and!; try done; [lia | lia |].
  intros i w Hi Hwi. rewrite <- He by done. by apply H5.
Qed.

Lemma inc_loop_spec (n max : Z) (k : nat) : forall (c : PackedCounterArray) (f : Z -> Z) (from : Z), packed c n max f ->
  0 <= from -> from + Z.of_nat k <= n -> (forall i, from <= i < from + Z.of_nat k -> 0 <= f i < max) ->
  exists c', inc_loop c from k = Ok c' /\
    packed c' n max (fun j => if (from <=? j) && (j <? from + Z.of_nat k) then f j + 1 else f j).
Proof.
  induction k as [| k IH]; intros c f from Hp H0 Hn Hlt; cbn [inc_loop].
  - exists c. split; [done |]. apply (packed_ext c n max f); [| done]. intros i Hi.
    destruct (_ && _) eqn:E; [zb; lia | done].
  - destruct (counter_Inc_spec c n max f from Hp ltac:(lia) ltac:(apply Hlt; lia)) as (c1 & -> & Hp1). step.
    destruct (IH c1 _ (from + 1) Hp1 ltac:(lia) ltac:(lia)) as (c2 & -> & Hp2).
    { intros i Hi. rewrite (proj2 (Z.eqb_neq i from)) by lia. apply Hlt. lia. }
    exists c2. split; [done |]. refine (packed_ext _ _ _ _ _ _ Hp2). intros i Hi.
    destruct (Z.eqb_spec i from) as [-> | Hne].
    + rewrite (proj2 (Z.leb_gt (from + 1) from)) by lia. cbn [andb].
      rewrite (proj2 (Z.leb_le from from)), (proj2 (Z.ltb_lt from _)) by lia. done.
    + destruct ((from + 1 <=? i) && _) eqn:E1, ((from <=? i) && _) eqn:E2; try done; zb; lia.
Qed.

Lemma counter_IncRange_spec (c : PackedCounterArray) (n max : Z) (f : Z -> Z) (from last : Z) : packed c n max f ->
  0 <= from <= last -> last < n -> (forall i, from <= i <= last -> 0 <= f i < max) ->
  exists c', counter_IncRange c from last = Ok c' /\
    packed c' n max (fun j => if (from <=? j) && (j <=? last) then f j + 1 else f j).
Proof.
  intros Hp H1 H2 Hlt. unfold counter_IncRange.
  destruct (inc_loop_spec n max (Z.to_nat (last - from + 1)) c f from Hp) as (c' & -> & Hp'); [lia | lia | intros i Hi; apply Hlt; lia |].
  exists c'. split; [done |]. apply (packed_ext c' n max (fun j => if (from <=? j) && (j <? from + Z.of_nat (Z.to_nat (last - from + 1))) then f j + 1 else f j)); [| done].
  intros i Hi. destruct ((from <=? i) && (i <? _)) eqn:E1, ((from <=? i) && (i <=? last)) eqn:E2; try done; zb; lia.
Qed.

Lemma new_counters_spec (n max : Z) : 0 < n -> n < 2 ^ 63 -> 0 < max < 2 ^ 63 ->
  exists c, new_counters n max = Ok c /\ packed c n max (fun _ => 0).
Proof.
  intros Hn Hn63 Hm. unfold new_counters. rewrite (check_true (0 <? n)), (check_true (0 <? max)) by (apply Z.ltb_lt; lia). step.
  rewrite MostSignificantSetBitIndex_spec by lia. step.
  pose proof (Z.log2_nonneg max) as Hl0. assert (Hl : Z.log2 max < 63) by (apply Z.log2_lt_pow2; lia).
  pose proof (Z.log2_spec max ltac:(lia)) as [_ Hmax].
  destruct (RoundUpToPowerOfTwo_spec (Z.log2 max + 1)) as (k & -> & Hk & Hle & Hk'); [lia |]. step.
  assert (Hk6 : 0 <= k <= 6).
  { split; [lia |]. destruct Hk' as [-> | Hk']; [lia |]. assert (2 ^ (k - 1) < 2 ^ 6) by (change (2 ^ 6) with 64; lia).
    apply Z.pow_lt_mono_r_iff in H; lia. }
  assert (Hb : 2 ^ k <= 64) by (change 64 with (2 ^ 6); apply Z.pow_le_mono_r; lia).
  assert (Hr : 2 ^ (6 - k) * 2 ^ k = 64) by (rewrite <- Z.pow_add_r by lia; by replace (6 - k + k) with 6 by lia).
  pose proof (Z.pow_pos_nonneg 2 (6 - k) ltac:(lia) ltac:(lia)) as Hr0. pose proof (Z.pow_pos_nonneg 2 k ltac:(lia) ltac:(lia)) as Hb0.
  unfold kMaxCounterBits. rewrite (check_true (_ <=? 64)) by (apply Z.leb_le; lia). step.
  rewrite Log2_pow2 by lia. step. rewrite (Z.shiftr_div_pow2 64 k) by lia.
  assert (Hratio : 64 / 2 ^ k = 2 ^ (6 - k)) by (rewrite <- Hr; apply Z.div_mul; lia). rewrite Hratio.
  rewrite (check_true (0 <? _)) by (apply Z.ltb_lt; lia). step. rewrite Log2_pow2 by lia. step. rewrite wshl_1 by lia.
  assert (Hr64 : 2 ^ (6 - k) <= 64) by nia. change (2 ^ 63) with 9223372036854775808 in *.
  destruct (RoundUpTo_nowrap n (2 ^ (6 - k))) as (y & -> & Hy & Hy0); [lia | by exists (6 - k); split; [lia |] | unfold word_modulus; lia |].
  step. eexists. split; [done |].
  assert (Hmask : Z.shiftr (word_modulus - 1) (64 - 2 ^ k) = 2 ^ 2 ^ k - 1).
  { rewrite Z.shiftr_div_pow2 by lia. rewrite word_modulus_pow. replace (2 ^ 64) with (2 ^ 2 ^ k * 2 ^ (64 - 2 ^ k)).
    - pose proof (Z.pow_pos_nonneg 2 (64 - 2 ^ k) ltac:(lia) ltac:(lia)).
      replace (2 ^ 2 ^ k * 2 ^ (64 - 2 ^ k) - 1) with ((2 ^ 2 ^ k - 1) * 2 ^ (64 - 2 ^ k) + (2 ^ (64 - 2 ^ k) - 1)) by lia.
      rewrite Z.div_add_l by lia. rewrite Z.div_small by lia. lia.
    - rewrite <- Z.pow_add_r by lia. f_equal. lia. }
  rewrite Hmask, Z.shiftr_div_pow2 by lia. split; cbn [buffer].
  - exists k. split_and!; [lia | lia | | done | |].
    + pose proof (Z.pow_le_mono_r 2 (Z.succ (Z.log2 max)) (2 ^ k) ltac:(lia) ltac:(lia)). lia.
    + rewrite length_replicate, Z2Nat.id by (apply Z.div_pos; lia).
      pose proof (Z.div_mod y (2 ^ (6 - k)) ltac:(lia)). lia.
    + intros i w Hi Hw. apply lookup_replicate in Hw as [-> _]. unfold field. by rewrite Zdiv_0_l, Zmod_0_l.
  - intros j w Hw. apply lookup_replicate in Hw as [-> _]. unfold is_uptr, word_modulus. lia.
Qed.
