(* ===== verification/ReleaseToOS.v ===== *)
(** * Returning free pages: ReleaseFreeMemoryToOS of sanitizer_allocator_primary64.h

    From the array of free chunks of a region the primary allocator finds the
    pages that hold free chunks only and gives them back to the operating
    system.  Chunks are 4-byte offsets in units of 16 bytes.  The theorem: a
    page is released exactly when every chunk that touches it is free. *)

From S2P Require Import Prelude Words PackedCounters.

Definition kCompactPtrScale : Z := 4.

(** [FreePagesRangeTracker]; [ranges] are the calls of
    [ReleasePageRangeToOS], latest first. *)
Record tracker : Type := Tracker {
  in_the_range : bool; current_page : Z; current_range_start_page : Z; ranges : list (Z * Z)
}.

Section release.
Context (page_size : Z).

Definition CloseOpenedRange (page_size_scaled_log : Z) (t : tracker) : tracker :=
  if in_the_range t then
    Tracker false (current_page t) (current_range_start_page t)
      ((Z.shiftl (current_range_start_page t) page_size_scaled_log, Z.shiftl (current_page t) page_size_scaled_log) :: ranges t)
  else t.

Definition NextPage (page_size_scaled_log : Z) (t : tracker) (freed : bool) : tracker :=
  let t :=
    if freed then
      if negb (in_the_range t) then Tracker true (current_page t) (current_page t) (ranges t) else t
    else CloseOpenedRange page_size_scaled_log t in
  Tracker (in_the_range t) (current_page t + 1) (current_range_start_page t) (ranges t).

(** [full_pages_chunk_count_max] and [same_chunk_count_per_page] *)
Definition chunks_of_full_page (chunk_size : Z) : result (Z * bool) :=
  if (chunk_size <=? page_size) && (page_size mod chunk_size =? 0) then Ok (page_size / chunk_size, true)
  else if (chunk_size <=? page_size) && negb (page_size mod chunk_size =? 0) &&
          (chunk_size mod (page_size mod chunk_size) =? 0) then Ok (page_size / chunk_size + 1, true)
  else if chunk_size <=? page_size then Ok (page_size / chunk_size + 2, false)
  else if (page_size <? chunk_size) && (chunk_size mod page_size =? 0) then Ok (1, true)
  else if page_size <? chunk_size then Ok (2, false)
  else Die Unreachable.

Definition count_chunk (chunk_size chunk_size_scaled page_size_scaled_log : Z) (c : PackedCounterArray) (chunk : Z)
  : result PackedCounterArray :=
  if (chunk_size <=? page_size) && (page_size mod chunk_size =? 0) then
    counter_Inc c (Z.shiftr chunk page_size_scaled_log)
  else
    counter_IncRange c (Z.shiftr chunk page_size_scaled_log)
      (Z.shiftr (chunk + chunk_size_scaled - 1) page_size_scaled_log).

(** The loop over pages that have the same number of chunks. *)
Fixpoint same_count_loop (c : PackedCounterArray) (full_pages_chunk_count_max log i : Z) (t : tracker) (k : nat) : result tracker :=
  match k with
  | O => Ok t
  | S k =>
      n ← counter_Get c i;
      same_count_loop c full_pages_chunk_count_max log (i + 1) (NextPage log t (n =? full_pages_chunk_count_max)) k
  end.

(** The number of chunks on a page and the next [current_boundary]. *)
Definition chunks_on_page (pn pnc chunk_size_scaled prev_page_boundary page_boundary current_boundary : Z) : Z * Z :=
  if current_boundary <? page_boundary then
    let chunks_per_page := if prev_page_boundary <? current_boundary then pn + 1 else pn in
    let current_boundary := current_boundary + pnc in
    if current_boundary <? page_boundary then (chunks_per_page + 1, current_boundary + chunk_size_scaled)
    else (chunks_per_page, current_boundary)
  else (pn, current_boundary).

Fixpoint general_loop (c : PackedCounterArray) (page_size_scaled pn pnc chunk_size_scaled log prev_page_boundary current_boundary i : Z)
  (t : tracker) (k : nat) : result tracker :=
  match k with
  | O => Ok t
  | S k =>
      let page_boundary := prev_page_boundary + page_size_scaled in
      let '(chunks_per_page, current_boundary) :=
        chunks_on_page pn pnc chunk_size_scaled prev_page_boundary page_boundary current_boundary in
      n ← counter_Get c i;
      general_loop c page_size_scaled pn pnc chunk_size_scaled log page_boundary current_boundary (i + 1)
        (NextPage log t (n =? chunks_per_page)) k
  end.

Definition ReleaseFreeMemoryToOS (free_array : list Z) (chunk_size allocated_pages_count : Z) : result (list (Z * Z)) :=
  '(full_pages_chunk_count_max, same_chunk_count_per_page) ← chunks_of_full_page chunk_size;
  counters ← new_counters allocated_pages_count full_pages_chunk_count_max;
  let chunk_size_scaled := Z.shiftr chunk_size kCompactPtrScale in
  let page_size_scaled := Z.shiftr page_size kCompactPtrScale in
  page_size_scaled_log ← Log2 page_size_scaled;
  counters ← for_each (count_chunk chunk_size chunk_size_scaled page_size_scaled_log) counters free_array;
  let t := Tracker false 0 0 [] in
  let n := Z.to_nat (GetCount counters) in
  t ← (if (same_chunk_count_per_page : bool) then
         same_count_loop counters full_pages_chunk_count_max page_size_scaled_log 0 t n
       else
         let pn := if chunk_size <? page_size then page_size_scaled / chunk_size_scaled else 1 in
         general_loop counters page_size_scaled pn (pn * chunk_size_scaled) chunk_size_scaled page_size_scaled_log 0 0 0 t n);
  Ok (rev (ranges (CloseOpenedRange page_size_scaled_log t))).

End release.

(** ** Chunks and pages

    Sizes in units of 16 bytes: pages of [ps], chunks of [cs].  Chunk [k]
    occupies [[k * cs, (k + 1) * cs)]. *)

Section tiling.
Context (ps cs : Z) (Hps : 0 < ps) (Hcs : 0 < cs).

(** The chunks that touch page [i] are [first_chunk i], ..., [last_chunk i]. *)
Definition first_chunk (i : Z) : Z := i * ps / cs.
Definition last_chunk (i : Z) : Z := ((i + 1) * ps - 1) / cs.
Definition chunks_touching (i : Z) : Z := last_chunk i - first_chunk i + 1.
Definition touches (k i : Z) : Prop := k * cs < (i + 1) * ps /\ i * ps < (k + 1) * cs.

Lemma touches_iff (k i : Z) : touches k i <-> first_chunk i <= k <= last_chunk i.
Proof.
  unfold touches, first_chunk, last_chunk.
  pose proof (Z.div_mod (i * ps) cs ltac:(lia)). pose proof (Z.mod_pos_bound (i * ps) cs Hcs).
  pose proof (Z.div_mod ((i + 1) * ps - 1) cs ltac:(lia)). pose proof (Z.mod_pos_bound ((i + 1) * ps - 1) cs Hcs).
  set (a := i * ps / cs) in *. set (b := ((i + 1) * ps - 1) / cs) in *. split; nia.
Qed.

Lemma touches_pages (k i : Z) : touches k i <-> k * cs / ps <= i <= (k * cs + cs - 1) / ps.
Proof.
  unfold touches.
  pose proof (Z.div_mod (k * cs) ps ltac:(lia)). pose proof (Z.mod_pos_bound (k * cs) ps Hps).
  pose proof (Z.div_mod (k * cs + cs - 1) ps ltac:(lia)). pose proof (Z.mod_pos_bound (k * cs + cs - 1) ps Hps).
  set (a := k * cs / ps) in *. set (b := (k * cs + cs - 1) / ps) in *. split; nia.
Qed.

Lemma first_nonneg (i : Z) : 0 <= i -> 0 <= first_chunk i.
Proof. intros Hi. apply Z.div_pos; nia. Qed.

(** [ceil x]: the first multiple of [cs] at or after [x] is [ceil x * cs]. *)
Definition ceil (x : Z) : Z := (x + cs - 1) / cs.

Lemma ceil_spec (x : Z) : ceil x * cs - cs < x <= ceil x * cs.
Proof.
  unfold ceil. pose proof (Z.div_mod (x + cs - 1) cs ltac:(lia)). pose proof (Z.mod_pos_bound (x + cs - 1) cs Hcs). nia.
Qed.

Lemma ceil_unique (x q : Z) : q * cs - cs < x <= q * cs -> ceil x = q.
Proof. pose proof (ceil_spec x). nia. Qed.

Lemma last_ceil (i : Z) : last_chunk i = ceil ((i + 1) * ps) - 1.
Proof.
  unfold last_chunk, ceil. replace ((i + 1) * ps + cs - 1) with ((i + 1) * ps - 1 + 1 * cs) by lia.
  rewrite Z.div_add by lia. lia.
Qed.

Lemma first_ceil (i : Z) : first_chunk i = if i * ps <? ceil (i * ps) * cs then ceil (i * ps) - 1 else ceil (i * ps).
Proof.
  pose proof (ceil_spec (i * ps)). unfold first_chunk. destruct (Z.ltb_spec (i * ps) (ceil (i * ps) * cs)).
  - symmetry. apply (Z.div_unique _ _ _ (i * ps - (ceil (i * ps) - 1) * cs)); lia.
  - symmetry. apply (Z.div_unique _ _ _ 0); lia.
Qed.

(** Whole chunks on every page. *)
Lemma touching_divides (i : Z) : ps mod cs = 0 -> chunks_touching i = ps / cs.
Proof.
  intros H. apply Z.mod_divide in H as [q Hq]; [| lia]. unfold chunks_touching, first_chunk, last_chunk. rewrite Hq.
  rewrite (Z.div_mul q) by lia. replace (i * (q * cs)) with (i * q * cs) by lia. rewrite Z.div_mul by lia.
  replace ((i + 1) * (q * cs) - 1) with ((cs - 1) + ((i + 1) * q - 1) * cs) by lia.
  rewrite Z.div_add, Z.div_small by lia. lia.
Qed.

(** Chunks that cross the pages by multiples of the remainder. *)
Lemma touching_even (i : Z) : ps mod cs <> 0 -> cs mod (ps mod cs) = 0 -> chunks_touching i = ps / cs + 1.
Proof.
  intros Hr Hd. pose proof (Z.mod_pos_bound ps cs Hcs). pose proof (Z.div_mod ps cs ltac:(lia)) as Hdm.
  set (r := ps mod cs) in *. set (q := ps / cs) in *. apply Z.mod_divide in Hd as [d Hd]; [| lia].
  assert (Ho : exists x, (i * ps) mod cs = x * r /\ 0 <= x < d).
  { exists ((i * ps) mod cs / r). pose proof (Z.mod_pos_bound (i * ps) cs Hcs).
    assert (Hm : (i * ps) mod cs mod r = 0).
    { rewrite Hdm. replace (i * (cs * q + r)) with (i * r + (i * q) * cs) by lia. rewrite Z.mod_add by lia.
      rewrite Hd. rewrite Z.mul_mod_distr_r by nia. apply Z.mod_mul. lia. }
    apply Z.mod_divide in Hm as [x Hx]; [| lia]. rewrite Hx, Z.div_mul by lia. split; [done |]. nia. }
  destruct Ho as (x & Hx & Hxd). unfold chunks_touching, first_chunk, last_chunk.
  pose proof (Z.div_mod (i * ps) cs ltac:(lia)) as Hf. rewrite Hx in Hf. set (f := i * ps / cs) in *.
  assert (Hl : ((i + 1) * ps - 1) / cs = f + q).
  { symmetry. apply (Z.div_unique _ _ _ (x * r + r - 1)); nia. }
  rewrite Hl. lia.
Qed.

(** With whole chunks on a page, no chunk crosses a page boundary. *)
Lemma one_page (k : Z) : ps mod cs = 0 -> (k * cs + cs - 1) / ps = k * cs / ps.
Proof.
  intros Hd. apply Z.mod_divide in Hd as [q Hq]; [| lia]. assert (Hq0 : 0 < q) by nia.
  rewrite Hq, (Z.mul_comm q cs), <- !Z.div_div by lia. rewrite Z.div_mul by lia.
  replace (k * cs + cs - 1) with (cs - 1 + k * cs) by lia. by rewrite Z.div_add, (Z.div_small (cs - 1) cs) by lia.
Qed.

(** Chunks of whole pages. *)
Lemma touching_pages (i : Z) : cs mod ps = 0 -> chunks_touching i = 1.
Proof.
  intros H. apply Z.mod_divide in H as [q Hq]; [| lia]. unfold chunks_touching, first_chunk, last_chunk.
  assert (Hdiv : ((i + 1) * ps - 1) / cs = i * ps / cs).
  { pose proof (Z.div_mod i q ltac:(nia)). pose proof (Z.mod_pos_bound i q ltac:(nia)).
    transitivity (i / q); [symmetry; apply (Z.div_unique _ _ _ ((i mod q) * ps + ps - 1)) |
      apply (Z.div_unique _ _ _ ((i mod q) * ps))]; rewrite Hq; nia. }
  rewrite Hdiv. lia.
Qed.

Lemma touching_bound (i : Z) : 1 <= chunks_touching i /\
  (cs <= ps -> chunks_touching i <= ps / cs + 2) /\ (ps < cs -> chunks_touching i <= 2).
Proof.
  unfold chunks_touching, first_chunk, last_chunk.
  pose proof (Z.div_mod (i * ps) cs ltac:(lia)). pose proof (Z.mod_pos_bound (i * ps) cs Hcs).
  pose proof (Z.div_mod ((i + 1) * ps - 1) cs ltac:(lia)). pose proof (Z.mod_pos_bound ((i + 1) * ps - 1) cs Hcs).
  pose proof (Z.div_mod ps cs ltac:(lia)). pose proof (Z.mod_pos_bound ps cs Hcs).
  set (a := i * ps / cs) in *. set (b := ((i + 1) * ps - 1) / cs) in *. set (q := ps / cs) in *. split; [| split]; nia.
Qed.

(** One turn of the general loop: with [current_boundary] at the first chunk
    boundary of the page, it counts the chunks of the page and moves to the
    first boundary of the next. *)
Lemma chunks_on_page_spec (i : Z) : 0 <= i -> 
  let pn := if cs <? ps then ps / cs else 1 in
  (cs < ps -> ps mod cs <> 0) -> cs <> ps ->
  chunks_on_page pn (pn * cs) cs (i * ps) (i * ps + ps) (ceil (i * ps) * cs) =
    (chunks_touching i, ceil ((i + 1) * ps) * cs).
Proof.
  intros Hi pn Hr Hne. unfold chunks_on_page, chunks_touching. rewrite last_ceil, first_ceil.
  pose proof (ceil_spec (i * ps)) as HA. pose proof (ceil_spec ((i + 1) * ps)) as HB. set (A := ceil (i * ps)) in *.
  replace (i * ps + ps) with ((i + 1) * ps) by lia.
  assert (Hpn : 1 <= pn /\ (pn * cs < ps \/ pn = 1 /\ ps < cs) /\ ps < (pn + 1) * cs).
  { unfold pn. destruct (Z.ltb_spec cs ps); [| lia]. pose proof (Z.div_mod ps cs ltac:(lia)). pose proof (Z.mod_pos_bound ps cs Hcs).
    specialize (Hr ltac:(lia)). nia. }
  destruct (Z.ltb_spec (A * cs) ((i + 1) * ps)).
  - destruct (Z.ltb_spec (A * cs + pn * cs) ((i + 1) * ps)).
    + rewrite (ceil_unique ((i + 1) * ps) (A + pn + 1)) by nia.
      destruct (Z.ltb_spec (i * ps) (A * cs)); f_equal; lia.
    + rewrite (ceil_unique ((i + 1) * ps) (A + pn)) by nia.
      destruct (Z.ltb_spec (i * ps) (A * cs)); f_equal; lia.
  - assert (pn = 1) by nia. rewrite (ceil_unique ((i + 1) * ps) A) by nia.
    rewrite (proj2 (Z.ltb_lt (i * ps) (A * cs))) by nia. f_equal; lia.
Qed.
End tiling.

(** ** Counting the free chunks of a page *)

Section counting.
Context (ps cs : Z) (Hps : 0 < ps) (Hcs : 0 < cs).

#[local] Instance touches_dec (k i : Z) : Decision (touches ps cs k i).
Proof. unfold touches. apply _. Defined.

(** How many of the chunks [ks] touch page [i]. *)
Definition count (ks : list Z) (i : Z) : Z := Z.of_nat (length (filter (fun k => touches ps cs k i) ks)).

Lemma count_snoc (ks : list Z) (k i : Z) :
  count (ks ++ [k]) i = if decide (touches ps cs k i) then count ks i + 1 else count ks i.
Proof.
  unfold count. rewrite filter_app, length_app. destruct (decide (touches ps cs k i)) as [H | H].
  - rewrite filter_cons_True by done. cbn. lia.
  - rewrite filter_cons_False by done. cbn. lia.
Qed.

Lemma touching_among (ks : list Z) (i : Z) : NoDup ks ->
  filter (fun k => touches ps cs k i) ks ⊆+ seqZ (first_chunk ps cs i) (chunks_touching ps cs i).
Proof.
  intros Hnd. apply NoDup_submseteq; [by apply NoDup_filter |].
  intros k Hk. apply list_elem_of_filter in Hk as [Hk _]. apply (touches_iff ps cs Hcs) in Hk.
  apply elem_of_seqZ. unfold chunks_touching. lia.
Qed.

Lemma count_bound (ks : list Z) (i : Z) : NoDup ks -> 0 <= count ks i <= chunks_touching ps cs i.
Proof.
  intros Hnd. pose proof (submseteq_length _ _ (touching_among ks i Hnd)) as H.
  pose proof (touching_bound ps cs Hps Hcs i) as [? _]. rewrite length_seqZ in H. unfold count. lia.
Qed.

(** The count of a page is the number of chunks that touch it exactly when all
    of them are in the list. *)
Lemma count_full (ks : list Z) (i : Z) : NoDup ks ->
  count ks i = chunks_touching ps cs i <-> (forall k, touches ps cs k i -> k ∈ ks).
Proof.
  intros Hnd. pose proof (touching_bound ps cs Hps Hcs i) as [H1 _]. split.
  - intros Hc k Hk. assert (Hp : filter (fun k => touches ps cs k i) ks ≡ₚ seqZ (first_chunk ps cs i) (chunks_touching ps cs i)).
    { apply submseteq_length_Permutation; [by apply touching_among |]. rewrite length_seqZ. unfold count in Hc. lia. }
    assert (Hin : k ∈ filter (fun k => touches ps cs k i) ks).
    { rewrite Hp. apply elem_of_seqZ. apply (touches_iff ps cs Hcs) in Hk. unfold chunks_touching. lia. }
    by apply list_elem_of_filter in Hin as [_ ?].
  - intros Hall. assert (Hs : seqZ (first_chunk ps cs i) (chunks_touching ps cs i) ⊆+ filter (fun k => touches ps cs k i) ks).
    { apply NoDup_submseteq; [apply NoDup_seqZ |]. intros k Hk. apply elem_of_seqZ in Hk.
      assert (Ht : touches ps cs k i) by (apply (touches_iff ps cs Hcs); unfold chunks_touching in Hk; lia).
      apply list_elem_of_filter. auto. }
    apply submseteq_length in Hs. rewrite length_seqZ in Hs. pose proof (count_bound ks i Hnd). unfold count in *. lia.
Qed.

End counting.

(** ** The range tracker *)

Section tracker_spec.
Context (lg n : Z) (full : Z -> bool) (Hlg : 0 <= lg).

(** Both loops call [NextPage] with the pages in order. *)
Fixpoint pages_loop (i : Z) (t : tracker) (k : nat) : tracker :=
  match k with
  | O => t
  | S k => pages_loop (i + 1) (NextPage lg t (full i)) k
  end.

(** Range [r] is pages [[a, b)]. *)
Definition pages_of (r : Z * Z) (a b : Z) : Prop := r = (Z.shiftl a lg, Z.shiftl b lg).
Definition in_ranges (rs : list (Z * Z)) (j : Z) : Prop := exists r a b, r ∈ rs /\ pages_of r a b /\ a <= j < b.
Definition ranges_below (rs : list (Z * Z)) (i : Z) : Prop := forall r, r ∈ rs -> exists a b, pages_of r a b /\ 0 <= a < b /\ b <= i.

(** After the pages below [i]: the full ones are those of the ranges and of the
    range that is open. *)
Record tracked (t : tracker) (i : Z) : Prop := {
  tracked_page : current_page t = i;
  tracked_below : ranges_below (ranges t) i;
  tracked_open : in_the_range t = true -> 0 <= current_range_start_page t < i;
  tracked_full : forall j, 0 <= j < i -> full j = true <->
    in_ranges (ranges t) j \/ in_the_range t = true /\ current_range_start_page t <= j;
}.

Lemma in_ranges_cons (r : Z * Z) (a b : Z) (rs : list (Z * Z)) (j : Z) : pages_of r a b ->
  in_ranges (r :: rs) j <-> a <= j < b \/ in_ranges rs j.
Proof.
  intros Hr. split.
  - intros (r' & x & y & Hin & Hp & Hj). apply elem_of_cons in Hin as [-> | Hin]; [| right; by exists r', x, y].
    left. unfold pages_of in *. rewrite Hr in Hp. injection Hp as E1 E2.
    rewrite !Z.shiftl_mul_pow2 in E1, E2 by done. pose proof (Z.pow_pos_nonneg 2 lg ltac:(lia) Hlg). nia.
  - intros [Hj | (r' & x & y & Hin & Hp & Hj)]; [exists r, a, b | exists r', x, y]; (split; [| done]).
    + by left.
    + by right.
Qed.

Lemma below_weaken (rs : list (Z * Z)) (i j : Z) : ranges_below rs i -> i <= j -> ranges_below rs j.
Proof. intros H Hij r Hr. destruct (H r Hr) as (a & b & ? & ? & ?). exists a, b. split; [done | lia]. Qed.

Lemma in_below (rs : list (Z * Z)) (i j : Z) : ranges_below rs i -> in_ranges rs j -> j < i.
Proof.
  intros H (r & a & b & Hin & Hp & Hj). destruct (H r Hin) as (x & y & Hp' & ? & ?).
  unfold pages_of in *. rewrite Hp in Hp'. injection Hp' as E1 E2.
  rewrite !Z.shiftl_mul_pow2 in E1, E2 by done. pose proof (Z.pow_pos_nonneg 2 lg ltac:(lia) Hlg). nia.
Qed.

Lemma CloseOpenedRange_tracked (t : tracker) (i : Z) : 0 <= i -> tracked t i ->
  let t' := CloseOpenedRange lg t in
  current_page t' = i /\ in_the_range t' = false /\ ranges_below (ranges t') i /\
  forall j, 0 <= j < i -> full j = true <-> in_ranges (ranges t') j.
Proof.
  intros Hi [Hp Hb Ho Hf]. unfold CloseOpenedRange. destruct (in_the_range t) eqn:E; cbn.
  - specialize (Ho eq_refl). rewrite Hp. split_and!; [done | done | |].
    + intros r Hr. apply elem_of_cons in Hr as [-> | Hr]; [| by apply Hb].
      exists (current_range_start_page t), i. split; [done | lia].
    + intros j Hj. rewrite (Hf j Hj). rewrite (in_ranges_cons _ (current_range_start_page t) i) by done.
      split; [intros [? | [_ ?]]; [by right | left; lia] | intros [? | ?]; [right; split; [done | lia] | by left]].
  - rewrite E. split_and!; [done | done | done |]. intros j Hj. rewrite (Hf j Hj).
    split; [intros [? | [? _]]; done | by left].
Qed.

Lemma NextPage_tracked (t : tracker) (i : Z) : 0 <= i -> tracked t i -> tracked (NextPage lg t (full i)) (i + 1).
Proof.
  intros Hi Ht. unfold NextPage. destruct (full i) eqn:Ei.
  - destruct Ht as [Hp Hb Ho Hf]. destruct (in_the_range t) eqn:E; cbn [negb]; split; cbn; try lia;
      try (by apply (below_weaken _ i); [| lia]); rewrite ?E; try lia.
    + intros j Hj. destruct (decide (j = i)) as [Hji | Hne]; [rewrite Hji; clear j Hj Hji |].
      * rewrite Ei. specialize (Ho eq_refl). split; [intros _; right; split; [done | lia] | done].
      * rewrite (Hf j) by lia. done.
    + intros j Hj. destruct (decide (j = i)) as [Hji | Hne]; [rewrite Hji; clear j Hj Hji |].
      * rewrite Ei, Hp. split; [intros _; right; split; [done | lia] | done].
      * rewrite (Hf j) by lia. split; [intros [? | [? _]]; [by left | done] | intros [? | [_ ?]]; [by left | lia]].
  - destruct (CloseOpenedRange_tracked t i Hi Ht) as (Hp & Hin & Hb & Hf). rewrite Hp, Hin. split; cbn; try done.
    + by apply (below_weaken _ i); [| lia].
    + intros j Hj. destruct (decide (j = i)) as [Hji | Hne]; [rewrite Hji; clear j Hj Hji |].
      * rewrite Ei. split; [done |]. intros [H | [? _]]; [| done]. apply (in_below _ _ _ Hb) in H. lia.
      * rewrite (Hf j) by lia. split; [by left | intros [? | [? _]]; done].
Qed.

Lemma pages_loop_tracked (k : nat) : forall i t, 0 <= i -> tracked t i -> tracked (pages_loop i t k) (i + Z.of_nat k).
Proof.
  induction k as [| k IH]; intros i t Hi Ht; cbn [pages_loop].
  - by replace (i + Z.of_nat 0) with i by lia.
  - replace (i + Z.of_nat (S k)) with (i + 1 + Z.of_nat k) by lia. apply IH; [lia |]. by apply NextPage_tracked.
Qed.

(** The ranges at the end are pages below [n], and their pages are the full ones. *)
Lemma released_spec : 0 <= n ->
  let rs := rev (ranges (CloseOpenedRange lg (pages_loop 0 (Tracker false 0 0 []) (Z.to_nat n)))) in
  ranges_below rs n /\ forall j, 0 <= j < n -> full j = true <-> in_ranges rs j.
Proof.
  intros Hn. assert (Ht : tracked (Tracker false 0 0 []) 0).
  { split; cbn; try done; [intros r Hr; by apply elem_of_nil in Hr | lia]. }
  apply (pages_loop_tracked (Z.to_nat n)) in Ht; [| lia]. replace (0 + _) with n in Ht by lia.
  apply CloseOpenedRange_tracked in Ht as (_ & _ & Hb & Hf); [| done]. split.
  - intros r Hr. apply Hb. apply list_elem_of_In. apply in_rev. by apply list_elem_of_In.
  - intros j Hj. rewrite (Hf j Hj). unfold in_ranges. split; intros (r & a & b & Hin & H); exists r, a, b; (split; [| done]);
      apply list_elem_of_In; apply list_elem_of_In in Hin; [by apply in_rev in Hin | by apply in_rev].
Qed.
End tracker_spec.

(** ** The function *)

Section release_spec.
Context (lg cs n : Z) (Hlg : 0 <= lg < 40) (Hcs : 0 < cs < 2 ^ 40) (Hn : 0 < n < 2 ^ 60).
Let ps : Z := 2 ^ lg.
Let page_size : Z := 16 * ps.
Let chunk_size : Z := 16 * cs.

Lemma ps_pos : 0 < ps.
Proof. unfold ps. apply Z.pow_pos_nonneg; lia. Qed.
#[local] Hint Resolve ps_pos : core.

Lemma ps_small : ps < 2 ^ 40.
Proof. unfold ps. apply Z.pow_lt_mono_r; lia. Qed.

Lemma scaled_mod_zero (a b : Z) : 0 < b -> (16 * a mod (16 * b) =? 0) = (a mod b =? 0).
Proof. intros Hb. rewrite Z.mul_mod_distr_l by lia. destruct (Z.eqb_spec (a mod b) 0), (Z.eqb_spec (16 * (a mod b)) 0); try done; lia. Qed.

Lemma scaled_ltb : (chunk_size <? page_size) = (cs <? ps).
Proof. unfold chunk_size, page_size. destruct (Z.ltb_spec cs ps), (Z.ltb_spec (16 * cs) (16 * ps)); try done; lia. Qed.

(** The case analysis of the chunk size against the page size. *)
Lemma chunks_of_full_page_spec : exists max same, chunks_of_full_page page_size chunk_size = Ok (max, same) /\
  0 < max < 2 ^ 63 /\ (forall i, 0 <= i -> chunks_touching ps cs i <= max) /\
  (same = true -> forall i, 0 <= i -> chunks_touching ps cs i = max) /\
  (same = false -> cs <> ps /\ (cs < ps -> ps mod cs <> 0)).
Proof.
  pose proof ps_pos as Hp. pose proof ps_small as Hp'. destruct Hcs as [Hc Hc'].
  unfold chunks_of_full_page, page_size, chunk_size. change (2 ^ 63) with 9223372036854775808. change (2 ^ 40) with 1099511627776 in *.
  assert (Hq : 0 <= ps / cs <= ps) by (split; [apply Z.div_pos; lia | apply Z.div_le_upper_bound; nia]).
  rewrite Z.div_mul_cancel_l, !scaled_mod_zero, Z.mul_mod_distr_l by lia.
  destruct (Z.leb_spec (16 * cs) (16 * ps)) as [Hle | Hlt]; cbn [andb].
  - assert (1 <= ps / cs) by (apply Z.div_le_lower_bound; lia).
    destruct (Z.eqb_spec (ps mod cs) 0) as [Hm | Hm]; cbn [andb negb].
    + do 2 eexists. split_and!; [done | lia | lia | | | done]; intros; rewrite touching_divides by done; lia.
    + pose proof (Z.mod_pos_bound ps cs Hc). rewrite scaled_mod_zero by lia.
      destruct (Z.eqb_spec (cs mod (ps mod cs)) 0) as [He | He].
      * do 2 eexists. split_and!; [done | lia | lia | | | done]; intros; rewrite touching_even by done; lia.
      * do 2 eexists. split_and!; [done | lia | lia | | done |].
        -- intros i _. apply (touching_bound ps cs Hp Hc i). lia.
        -- intros _. split; [| done]. intros Heq. rewrite Heq, Z_mod_same_full in Hm. done.
  - rewrite (proj2 (Z.ltb_lt _ _)) by lia. cbn [andb]. destruct (Z.eqb_spec (cs mod ps) 0) as [Hm | Hm].
    + do 2 eexists. split_and!; [done | lia | lia | | | done]; intros; rewrite touching_pages by done; lia.
    + do 2 eexists. split_and!; [done | lia | lia | | done |].
      * intros i _. apply (touching_bound ps cs Hp Hc i). lia.
      * intros _. split; lia.
Qed.

(** Counting one chunk. *)
Lemma count_chunk_spec (c : PackedCounterArray) (max : Z) (f : Z -> Z) (k : Z) : packed c n max f -> 0 <= k ->
  (k * cs + cs - 1) / ps < n -> (forall i, 0 <= i -> touches ps cs k i -> 0 <= f i < max) ->
  exists c', count_chunk page_size chunk_size cs lg c (k * cs) = Ok c' /\
    packed c' n max (fun i => if decide (touches ps cs k i) then f i + 1 else f i).
Proof.
  intros Hc Hk Hlast Hf. pose proof ps_pos as Hp. destruct Hcs as [Hc0 _]. unfold count_chunk, page_size, chunk_size.
  pose proof (touches_pages ps cs Hp k) as Ht.
  assert (Hle : k * cs / ps <= (k * cs + cs - 1) / ps) by (apply Z.div_le_mono; lia).
  assert (H0 : 0 <= k * cs / ps) by (apply Z.div_pos; nia).
  rewrite scaled_mod_zero by lia. rewrite !Z.shiftr_div_pow2 by lia. fold ps.
  destruct ((16 * cs <=? 16 * ps) && (ps mod cs =? 0)) eqn:E.
  - apply andb_prop in E as [_ Hd%Z.eqb_eq]. assert (He : (k * cs + cs - 1) / ps = k * cs / ps).
    { by apply one_page. }
    destruct (counter_Inc_spec c n max f (k * cs / ps) Hc ltac:(lia)) as (c' & -> & Hc'); [apply Hf; [done | apply Ht; lia] |].
    exists c'. split; [done |]. refine (packed_ext _ _ _ _ _ _ Hc'). intros i _. cbv beta.
    assert (Ht' : touches ps cs k i <-> i = k * cs / ps) by (rewrite Ht, He; lia).
    destruct (decide _) as [H%Ht' | H]; [by rewrite H, Z.eqb_refl |].
    rewrite (proj2 (Z.eqb_neq _ _)); [done | by rewrite <- Ht'].
  - destruct (counter_IncRange_spec c n max f (k * cs / ps) ((k * cs + cs - 1) / ps) Hc ltac:(lia) ltac:(lia)) as (c' & -> & Hc').
    { intros i Hi. apply Hf; [lia | by apply Ht]. }
    exists c'. split; [done |]. refine (packed_ext _ _ _ _ _ _ Hc'). intros i _. cbv beta.
    clear E. destruct (decide _) as [H | H]; rewrite Ht in H; destruct (_ && _) eqn:E1; try done; zb; lia.
Qed.

(** Counting all of them. *)
Lemma count_all (max : Z) (ks done_ : list Z) : forall c, packed c n max (count ps cs done_) ->
  NoDup (done_ ++ ks) -> (forall i, 0 <= i -> chunks_touching ps cs i <= max) ->
  (forall k, k ∈ ks -> 0 <= k /\ (k * cs + cs - 1) / ps < n) ->
  exists c', for_each (count_chunk page_size chunk_size cs lg) c (map (fun k => k * cs) ks) = Ok c' /\
    packed c' n max (count ps cs (done_ ++ ks)).
Proof.
  revert done_. induction ks as [| k ks IH]; intros done_ c Hc Hnd Hmax Hin; cbn [map for_each].
  - exists c. split; [done |]. by rewrite app_nil_r.
  - assert (Hsplit : done_ ++ k :: ks = (done_ ++ [k]) ++ ks) by by rewrite <- app_assoc. rewrite Hsplit in *.
    assert (Hnd1 : NoDup (done_ ++ [k])) by by apply NoDup_app in Hnd as [? _].
    destruct (Hin k) as [Hk Hl]; [by left |]. destruct Hcs as [Hc0 _].
    destruct (count_chunk_spec c max _ k Hc Hk Hl) as (c1 & -> & Hc1).
    { intros i Hi Ht. pose proof (count_bound ps cs ps_pos Hc0 _ i Hnd1) as Hb. rewrite count_snoc in Hb.
      destruct (decide _); [| done]. pose proof (Hmax i Hi). unfold count. unfold count in Hb. lia. }
    step. apply IH; try done; [| intros x Hx; apply Hin; by right].
    refine (packed_ext _ _ _ _ _ _ Hc1). intros i _. by rewrite count_snoc.
Qed.

(** The loops over the pages. *)
Lemma same_count_loop_spec (c : PackedCounterArray) (max : Z) (f : Z -> Z) (k : nat) : packed c n max f -> forall i t, 0 <= i ->
  i + Z.of_nat k <= n ->
  same_count_loop c max lg i t k = Ok (pages_loop lg (fun j => f j =? max) i t k).
Proof.
  intros Hc. induction k as [| k IH]; intros i t Hi Hk; cbn [same_count_loop pages_loop]; [done |].
  rewrite (counter_Get_spec c n max f i Hc) by lia. rewrite Ok_bind. apply IH; lia.
Qed.

Lemma general_loop_spec (c : PackedCounterArray) (max : Z) (f : Z -> Z) (k : nat) : packed c n max f ->
  cs <> ps -> (cs < ps -> ps mod cs <> 0) -> 
  let pn := if cs <? ps then ps / cs else 1 in
  forall i t, 0 <= i -> i + Z.of_nat k <= n ->
  general_loop c ps pn (pn * cs) cs lg (i * ps) (ceil cs (i * ps) * cs) i t k =
    Ok (pages_loop lg (fun j => f j =? chunks_touching ps cs j) i t k).
Proof.
  intros Hc Hne Hr pn. induction k as [| k IH]; intros i t Hi Hk; cbn [general_loop pages_loop]; [done |].
  destruct Hcs as [Hc0 _]. unfold pn. rewrite (chunks_on_page_spec ps cs ps_pos Hc0 i Hi Hr Hne). fold pn.
  rewrite (counter_Get_spec c n max f i Hc) by lia. rewrite Ok_bind.
  replace (i * ps + ps) with ((i + 1) * ps) by lia. apply IH; lia.
Qed.

Lemma pages_loop_ext (f g : Z -> bool) (k : nat) : forall i t, (forall j, i <= j < i + Z.of_nat k -> f j = g j) ->
  pages_loop lg f i t k = pages_loop lg g i t k.
Proof.
  induction k as [| k IH]; intros i t H; cbn [pages_loop]; [done |]. rewrite (H i) by lia. apply IH. intros j Hj. apply H. lia.
Qed.

Lemma packed_GetCount (c : PackedCounterArray) (max : Z) (f : Z -> Z) : packed c n max f -> GetCount c = n.
Proof. intros [(k & _ & _ & Hc & _) _]. unfold GetCount. rewrite Hc. done. Qed.

Lemma scaled_sizes : Z.shiftr chunk_size kCompactPtrScale = cs /\ Z.shiftr page_size kCompactPtrScale = ps /\ Log2 ps = Ok lg.
Proof.
  unfold chunk_size, page_size, kCompactPtrScale. rewrite !Z.shiftr_div_pow2 by lia. change (2 ^ 4) with 16.
  rewrite !(Z.mul_comm 16), !Z.div_mul by lia. split_and!; [done | done |]. unfold ps. apply Log2_pow2. lia.
Qed.

(** For free chunks [ks] of a region whose chunks end before page [n]: the
    ranges released are pages below [n], and page [j] is among them exactly
    when all the chunks that touch it are free. *)
Lemma ReleaseFreeMemoryToOS_spec (ks : list Z) : NoDup ks ->
  (forall k, k ∈ ks -> 0 <= k /\ (k * cs + cs - 1) / ps < n) ->
  exists rs, ReleaseFreeMemoryToOS page_size (map (fun k => k * cs) ks) chunk_size n = Ok rs /\
    ranges_below lg rs n /\
    forall j, 0 <= j < n -> in_ranges lg rs j <-> (forall k, touches ps cs k j -> k ∈ ks).
Proof.
  intros Hnd Hin. destruct chunks_of_full_page_spec as (max & same & Hmax & Hpos & Hle & Hsame & Hgen).
  destruct scaled_sizes as (Hs1 & Hs2 & Hs3). destruct Hcs as [Hc0 _]. pose proof ps_pos as Hp.
  unfold ReleaseFreeMemoryToOS. rewrite Hmax, Ok_bind, Hs1, Hs2, Hs3.
  destruct (new_counters_spec n max) as (c0 & -> & Hc); [lia | lia | lia |]. rewrite !Ok_bind.
  destruct (count_all max ks [] c0) as (c & -> & Hcnt); [by refine (packed_ext _ _ _ _ _ _ Hc) | done | done | done |].
  rewrite Ok_bind. rewrite (packed_GetCount c max _ Hcnt). cbn [app] in Hcnt.
  set (full := fun j => count ps cs ks j =? chunks_touching ps cs j).
  assert (Hloop : (if same then same_count_loop c max lg 0 (Tracker false 0 0 []) (Z.to_nat n)
      else let pn := if chunk_size <? page_size then ps / cs else 1 in
        general_loop c ps pn (pn * cs) cs lg 0 0 0 (Tracker false 0 0 []) (Z.to_nat n)) =
    Ok (pages_loop lg full 0 (Tracker false 0 0 []) (Z.to_nat n))).
  { destruct same.
    - rewrite (same_count_loop_spec c max _ _ Hcnt) by lia. f_equal. apply pages_loop_ext. intros j Hj.
      unfold full. by rewrite Hsame by lia.
    - destruct (Hgen eq_refl) as [Hne Hr]. rewrite scaled_ltb.
      pose proof (general_loop_spec c max _ (Z.to_nat n) Hcnt Hne Hr 0 (Tracker false 0 0 []) ltac:(lia) ltac:(lia)) as Hg.
      rewrite Z.mul_0_l, (ceil_unique cs Hc0 0 0) in Hg by lia. exact Hg. }
  cbv zeta in Hloop |- *. rewrite Hloop, Ok_bind. eexists. split; [done |].
  destruct (released_spec lg n full ltac:(lia) ltac:(lia)) as [Hb Hf]. split; [exact Hb |].
  intros j Hj. rewrite <- (Hf j Hj). unfold full. rewrite Z.eqb_eq. by apply count_full.
Qed.
End release_spec.

(** C3. The memory returned to the operating system is exactly the pages with
    no chunk in use: for pages of [16 * 2 ^ lg] bytes and chunks of [16 * cs]
    bytes, any size against the page, and an array of distinct free chunks that
    end before page [n], the function terminates without failing a check; the
    ranges it releases are whole pages below [n]; and page [j] is among them
    if and only if every chunk that has a byte on it is in the array. *)
Theorem release_exactly_free_pages (lg cs n : Z) (ks : list Z) (Hlg : 0 <= lg < 40) (Hcs : 0 < cs < 2 ^ 40) (Hn : 0 < n < 2 ^ 60)
  (Hnd : NoDup ks) (Hks : forall k, k ∈ ks -> 0 <= k /\ (k * cs + cs - 1) / 2 ^ lg < n) :
  exists rs, ReleaseFreeMemoryToOS (16 * 2 ^ lg) (map (fun k => k * cs) ks) (16 * cs) n = Ok rs /\
    ranges_below lg rs n /\
    forall j, 0 <= j < n -> in_ranges lg rs j <-> (forall k, touches (2 ^ lg) cs k j -> k ∈ ks).
Proof. by apply ReleaseFreeMemoryToOS_spec. Qed.

(** Chunks of 1536 bytes, five of which touch three pages; the last is in use. *)
Lemma release_exactly_free_pages_witness :
  exists rs, ReleaseFreeMemoryToOS 4096 [288; 0; 192; 96] 1536 3 = Ok rs /\
    ranges_below 8 rs 3 /\
    forall j, 0 <= j < 3 -> in_ranges 8 rs j <-> (forall k, touches 256 96 k j -> k ∈ [3; 0; 2; 1]).
Proof.
  apply (release_exactly_free_pages 8 96 3 [3; 0; 2; 1]); [lia | lia | lia | apply (bool_decide_unpack _); by vm_compute |].
  intros k Hk. repeat (apply elem_of_cons in Hk as [-> | Hk]; [by split; vm_compute |]). by apply elem_of_nil in Hk.
Defined.

Example released_ranges : ReleaseFreeMemoryToOS 4096 [288; 0; 192; 96] 1536 3 = Ok [(0, 256)].
Proof. vm_compute. reflexivity. Qed.
