(* ===== verification/Primary64.v ===== *)
(** * The primary allocator: SizeClassAllocator64 and its per-thread caches

    sanitizer_allocator_primary64.h and sanitizer_allocator_local_cache.h.  The
    space is divided into one region per size class; a region has chunks in
    order, an array of free ones, and caches of the threads take and return
    chunks in groups.  The free array is kept as a list; statistics that are
    only printed and locks are left out (each entry point is one step).  Sums of
    sizes within a region are below 2^37 and are written without wrap-around. *)

From S2P Require Import Prelude Words ShadowMapping Memory SizeClassMap HeapAllocator PackedCounters ReleaseToOS.

(** [Rand], [RandN] and [RandomShuffle] of sanitizer_allocator.h: the state
    after and the number. *)
Definition Rand (state : Z) : Z * Z := let state := to_u32 (to_u32 (state * 1103515245) + 12345) in (state, Z.shiftr state 16).
Definition RandN (state n : Z) : Z * Z := let '(state, r) := Rand state in (state, r mod n).

Definition Swap (a : list Z) (i j : nat) : list Z :=
  match a !! i, a !! j with Some x, Some y => <[j := x]> (<[i := y]> a) | _, _ => a end.

Fixpoint shuffle_loop (a : list Z) (state : Z) (i : nat) : list Z * Z :=
  match i with
  | O => (a, state)
  | S i' => let '(state, j) := RandN state (Z.of_nat i + 1) in shuffle_loop (Swap a i (Z.to_nat j)) state i'
  end.
Definition RandomShuffle (a : list Z) (rand_state : Z) : list Z * Z :=
  if (length a <=? 1)%nat then (a, rand_state) else shuffle_loop a rand_state (length a - 1).

(** ** State *)

Record Stats : Type := MkStats { n_allocated : Z; n_freed : Z }.
Record ReleaseToOsInfo : Type := MkRelease {
  n_freed_at_last_release : Z; num_releases : Z; last_release_at_ns : Z; last_released_bytes : Z
}.

(** [num_freed_chunks] is the length of [free_array]. *)
Record RegionInfo : Type := MkRegion {
  free_array : list Z; mapped_free_array : Z;
  allocated_user : Z; allocated_meta : Z; mapped_user : Z; mapped_meta : Z;
  rand_state : Z; exhausted : bool; stats : Stats; rtoi : ReleaseToOsInfo;
}.
Definition num_freed_chunks (r : RegionInfo) : Z := Z.of_nat (length (free_array r)).

(** The array of regions lies in fresh memory. *)
Definition zero_region : RegionInfo := MkRegion [] 0 0 0 0 0 0 false (MkStats 0 0) (MkRelease 0 0 0 0).

Definition with_free_array (r : RegionInfo) (l : list Z) : RegionInfo :=
  MkRegion l (mapped_free_array r) (allocated_user r) (allocated_meta r) (mapped_user r) (mapped_meta r) (rand_state r) (exhausted r) (stats r) (rtoi r).
Definition with_mapped_free_array (r : RegionInfo) (n : Z) : RegionInfo :=
  MkRegion (free_array r) n (allocated_user r) (allocated_meta r) (mapped_user r) (mapped_meta r) (rand_state r) (exhausted r) (stats r) (rtoi r).
Definition with_mapped_user (r : RegionInfo) (n : Z) : RegionInfo :=
  MkRegion (free_array r) (mapped_free_array r) (allocated_user r) (allocated_meta r) n (mapped_meta r) (rand_state r) (exhausted r) (stats r) (rtoi r).
Definition with_mapped_meta (r : RegionInfo) (n : Z) : RegionInfo :=
  MkRegion (free_array r) (mapped_free_array r) (allocated_user r) (allocated_meta r) (mapped_user r) n (rand_state r) (exhausted r) (stats r) (rtoi r).
Definition with_rand_state (r : RegionInfo) (s : Z) : RegionInfo :=
  MkRegion (free_array r) (mapped_free_array r) (allocated_user r) (allocated_meta r) (mapped_user r) (mapped_meta r) s (exhausted r) (stats r) (rtoi r).
Definition with_exhausted (r : RegionInfo) (b : bool) : RegionInfo :=
  MkRegion (free_array r) (mapped_free_array r) (allocated_user r) (allocated_meta r) (mapped_user r) (mapped_meta r) (rand_state r) b (stats r) (rtoi r).
Definition with_stats (r : RegionInfo) (s : Stats) : RegionInfo :=
  MkRegion (free_array r) (mapped_free_array r) (allocated_user r) (allocated_meta r) (mapped_user r) (mapped_meta r) (rand_state r) (exhausted r) s (rtoi r).
Definition with_rtoi (r : RegionInfo) (i : ReleaseToOsInfo) : RegionInfo :=
  MkRegion (free_array r) (mapped_free_array r) (allocated_user r) (allocated_meta r) (mapped_user r) (mapped_meta r) (rand_state r) (exhausted r) (stats r) i.
Definition with_allocated (r : RegionInfo) (user meta : Z) : RegionInfo :=
  MkRegion (free_array r) (mapped_free_array r) user meta (mapped_user r) (mapped_meta r) (rand_state r) (exhausted r) (stats r) (rtoi r).

(** [os_calls] counts the calls of the operating system made so far. *)
Record SizeClassAllocator64 : Type := MkPrimary {
  regions : gmap Z RegionInfo; release_to_os_interval_ms_ : Z; os_calls : Z
}.

(** The allocator, the byte memory and the callbacks made so far, in order. *)
Record world : Type := World { alloc_ : SizeClassAllocator64; mem_ : memory; log_ : list map_event }.

Definition region (w : world) (class_id : Z) : RegionInfo := default zero_region (regions (alloc_ w) !! class_id).
Definition set_region (w : world) (class_id : Z) (r : RegionInfo) : world :=
  World (MkPrimary (<[class_id := r]> (regions (alloc_ w))) (release_to_os_interval_ms_ (alloc_ w)) (os_calls (alloc_ w))) (mem_ w) (log_ w).
Definition os_call (w : world) : world :=
  World (MkPrimary (regions (alloc_ w)) (release_to_os_interval_ms_ (alloc_ w)) (os_calls (alloc_ w) + 1)) (mem_ w) (log_ w).
Definition set_mem (w : world) (m : memory) : world := World (alloc_ w) m (log_ w).
Definition emit_event (w : world) (e : map_event) : world := World (alloc_ w) (mem_ w) (log_ w ++ [e]).

(** The template parameters, and what [Init] fixes once: where the space is
    when [kSpaceBeg] does not say, and whether the user mapped it. *)
Record primary_params : Type := PrimaryParams {
  kSpaceBeg : Z; kSpaceSize : Z; kMetadataSize : Z; kRandomShuffleChunks : bool;
  NonConstSpaceBeg : Z; PremappedHeap : bool;
}.

(** The operating system: [address_range.Map] and [MonotonicNanoTime], which
    may answer differently at every call, and the size of a page. *)
Class PrimaryOS : Type := {
  GetPageSizeCached : Z;
  address_range_Map : Z -> Z -> Z -> Z;
  MonotonicNanoTime : Z -> Z;
}.

Definition kUserMapSize : Z := Z.shiftl 1 18.
Definition kMetaMapSize : Z := Z.shiftl 1 16.
Definition kFreeArrayMapSize : Z := Z.shiftl 1 18.

Section primary.
Context (P : size_class_params) (A : primary_params) `{!PrimaryOS}.

Definition kRegionSize : Z := kSpaceSize A / kNumClassesRounded P.
Definition kFreeArraySize : Z := kRegionSize / 8.
Definition kUsingConstantSpaceBeg : bool := negb (kSpaceBeg A =? word_modulus - 1).
Definition SpaceBeg : Z := if kUsingConstantSpaceBeg then kSpaceBeg A else NonConstSpaceBeg A.
Definition SpaceEnd : Z := SpaceBeg +w kSpaceSize A.

Definition PointerToCompactPtr (base ptr : Z) : Z := to_u32 (Z.shiftr (ptr -w base) kCompactPtrScale).
Definition CompactPtrToPointer (base ptr32 : Z) : Z := base +w Z.shiftl ptr32 kCompactPtrScale.

Definition GetRegionBeginBySizeClass (class_id : Z) : Z := SpaceBeg +w kRegionSize * class_id.
Definition GetMetadataEnd (region_beg : Z) : Z := region_beg +w (kRegionSize - kFreeArraySize).
Definition GetFreeArray (region_beg : Z) : Z := GetMetadataEnd region_beg.

Definition PointerIsMine (p : Z) : bool :=
  if kUsingConstantSpaceBeg && (kSpaceBeg A mod kSpaceSize A =? 0) then p / kSpaceSize A =? kSpaceBeg A / kSpaceSize A
  else (SpaceBeg <=? p) && (p <? SpaceEnd).

Definition GetRegionBegin (p : Z) : Z :=
  if kUsingConstantSpaceBeg then Z.land p (wnot (kRegionSize - 1))
  else Z.land (p -w SpaceBeg) (wnot (kRegionSize - 1)) +w SpaceBeg.

Definition GetSizeClass (p : Z) : Z :=
  if kUsingConstantSpaceBeg && (kSpaceBeg A mod kSpaceSize A =? 0) then (p / kRegionSize) mod kNumClassesRounded P
  else ((p -w SpaceBeg) / kRegionSize) mod kNumClassesRounded P.

Definition GetChunkIdx (chunk size : Z) : Z :=
  let chunk := if negb kUsingConstantSpaceBeg then chunk -w SpaceBeg else chunk in
  let offset := chunk mod kRegionSize in
  if negb (Z.shiftr offset 32 =? 0) then offset / size else to_u32 offset / to_u32 size.

Definition GetBlockBegin (w : world) (p : Z) : Z :=
  let class_id := GetSizeClass p in
  if kNumClasses P <=? class_id then 0
  else
    let size := Size P class_id in
    if size =? 0 then 0
    else
      let beg := GetChunkIdx p size * size in
      if beg + size <=? mapped_user (region w class_id) then GetRegionBegin p +w beg else 0.

Definition GetActuallyAllocatedSize (p : Z) : result Z :=
  _ ← check (PointerIsMine p); Ok (Size P (GetSizeClass p)).

Definition GetMetaData (p : Z) : result Z :=
  _ ← check (negb (kMetadataSize A =? 0));
  let class_id := GetSizeClass p in
  let size := Size P class_id in
  if size =? 0 then Ok 0
  else Ok (GetMetadataEnd (GetRegionBeginBySizeClass class_id) -w (1 + GetChunkIdx p size) * kMetadataSize A).

Definition TotalMemoryUsed (w : world) : Z :=
  foldl (fun res i => res +w allocated_user (region w i)) 0 (seqZ 0 (kNumClasses P)).

(** ** Mapping *)

Definition MapWithCallback (w : world) (beg size : Z) : result (bool * world) :=
  if PremappedHeap A then Ok ((NonConstSpaceBeg A <=? beg) && (beg +w size <=? NonConstSpaceBeg A +w kSpaceSize A), w)
  else
    let mapped := address_range_Map (os_calls (alloc_ w)) beg size in
    let w := os_call w in
    if mapped =? 0 then Ok (false, w)
    else
      _ ← check (beg =? mapped);
      Ok (true, emit_event (set_mem w (memset (mem_ w) beg 0 size)) (OnMap beg size)).

Definition EnsureFreeArraySpace (w : world) (class_id num_freed_chunks : Z) : result (bool * world) :=
  let needed_space := num_freed_chunks * 4 in
  let r := region w class_id in
  if mapped_free_array r <? needed_space then
    new_mapped_free_array ← RoundUpTo needed_space kFreeArrayMapSize;
    _ ← check (new_mapped_free_array <=? kFreeArraySize);
    let current_map_end := GetFreeArray (GetRegionBeginBySizeClass class_id) +w mapped_free_array r in
    '(ok, w) ← MapWithCallback w current_map_end (new_mapped_free_array - mapped_free_array r);
    if negb (ok : bool) then Ok (false, w)
    else Ok (true, set_region w class_id (with_mapped_free_array (region w class_id) new_mapped_free_array))
  else Ok (true, w).

Definition IsRegionExhausted (r : RegionInfo) (additional_map_size : Z) : bool * RegionInfo :=
  if mapped_user r + mapped_meta r + additional_map_size <=? kRegionSize - kFreeArraySize then (false, r)
  else (true, if negb (exhausted r) then with_exhausted r true else r).

(** ** Populating the free array

    The steps of [PopulateFreeArray]; each says whether to go on, and the last
    returns the user bytes mapped for the statistics. *)

(** The first time a region is used. *)
Definition first_mapping (w : world) (class_id : Z) : world :=
  let w := if negb kUsingConstantSpaceBeg && kRandomShuffleChunks A
           then set_region w class_id (with_rand_state (region w class_id) (to_u32 (Z.shiftr (GetRegionBeginBySizeClass class_id) 12)))
           else w in
  if 0 <=? release_to_os_interval_ms_ (alloc_ w) then
    let now := MonotonicNanoTime (os_calls (alloc_ w)) in
    let w := os_call w in
    let i := rtoi (region w class_id) in
    set_region w class_id (with_rtoi (region w class_id)
      (MkRelease (n_freed_at_last_release i) (num_releases i) now (last_released_bytes i)))
  else w.

Definition map_user_memory (w : world) (class_id requested_count : Z) : result (bool * Z * world) :=
  let region_beg := GetRegionBeginBySizeClass class_id in
  let size := Size P class_id in
  let r := region w class_id in
  let total_user_bytes := allocated_user r + requested_count * size in
  if mapped_user r <? total_user_bytes then
    let w := if mapped_user r =? 0 then first_mapping w class_id else w in
    user_map_size ← RoundUpTo (total_user_bytes - mapped_user r) kUserMapSize;
    let '(full, r) := IsRegionExhausted (region w class_id) user_map_size in
    let w := set_region w class_id r in
    if (full : bool) then Ok (false, 0, w)
    else
      '(ok, w) ← MapWithCallback w (region_beg +w mapped_user r) user_map_size;
      if negb (ok : bool) then Ok (false, 0, w)
      else Ok (true, user_map_size, set_region w class_id (with_mapped_user (region w class_id) (mapped_user r + user_map_size)))
  else Ok (true, 0, w).

Definition map_metadata (w : world) (class_id new_chunks_count : Z) : result (bool * world) :=
  if negb (kMetadataSize A =? 0) then
    let r := region w class_id in
    let total_meta_bytes := allocated_meta r + new_chunks_count * kMetadataSize A in
    meta_map_size ← (if mapped_meta r <? total_meta_bytes then RoundUpTo (total_meta_bytes - mapped_meta r) kMetaMapSize else Ok 0);
    if negb (meta_map_size =? 0) then
      let '(full, r) := IsRegionExhausted r meta_map_size in
      let w := set_region w class_id r in
      if (full : bool) then Ok (false, w)
      else
        '(ok, w) ← MapWithCallback w (GetMetadataEnd (GetRegionBeginBySizeClass class_id) - mapped_meta r -w meta_map_size) meta_map_size;
        if negb (ok : bool) then Ok (false, w)
        else Ok (true, set_region w class_id (with_mapped_meta (region w class_id) (mapped_meta r + meta_map_size)))
    else Ok (true, w)
  else Ok (true, w).

(** [free_array[total_freed_chunks - 1 - i] = PointerToCompactPtr(0, chunk)],
    [chunk] advancing by [size]: the new entries in the order of the array. *)
Fixpoint new_entries (chunk size : Z) (k : nat) : list Z :=
  match k with
  | O => []
  | S k => new_entries (chunk + size) size k ++ [PointerToCompactPtr 0 chunk]
  end.

Definition PopulateFreeArray (w : world) (class_id requested_count : Z) : result (bool * Z * world) :=
  let size := Size P class_id in
  '(ok, mapped, w) ← map_user_memory w class_id requested_count;
  if negb (ok : bool) then Ok (false, mapped, w)
  else
    let r := region w class_id in
    let new_chunks_count := (mapped_user r - allocated_user r) / size in
    '(ok, w) ← map_metadata w class_id new_chunks_count;
    if negb (ok : bool) then Ok (false, mapped, w)
    else
      '(ok, w) ← EnsureFreeArraySpace w class_id (num_freed_chunks (region w class_id) + new_chunks_count);
      if negb (ok : bool) then Ok (false, mapped, w)
      else
        let r := region w class_id in
        let entries := new_entries (allocated_user r) size (Z.to_nat new_chunks_count) in
        let '(entries, rand) := if kRandomShuffleChunks A then RandomShuffle entries (rand_state r) else (entries, rand_state r) in
        let user := allocated_user r + new_chunks_count * size in
        _ ← check (user <=? mapped_user r);
        let meta := allocated_meta r + new_chunks_count * kMetadataSize A in
        _ ← check (meta <=? mapped_meta r);
        Ok (true, mapped, set_region w class_id
          (with_exhausted (with_rand_state (with_allocated (with_free_array r (free_array r ++ entries)) user meta) rand) false)).

(** ** Releasing pages *)

(** [ReleaseMemoryPagesToOS] of sanitizer_posix_libcdep.cpp: pages that
    madvise drops read as zero afterwards. *)
Definition ReleaseMemoryPagesToOS (m : memory) (beg last : Z) : result memory :=
  beg_aligned ← RoundUpTo beg GetPageSizeCached;
  let end_aligned := RoundDownTo last GetPageSizeCached in
  if beg_aligned <? end_aligned then Ok (memset m beg_aligned 0 (end_aligned - beg_aligned)) else Ok m.

(** [MemoryMapper]: the memory, and the ranges and bytes released. *)
Definition ReleasePageRangeToOS (class_id : Z) (s : memory * Z * Z) (range : Z * Z) : result (memory * Z * Z) :=
  let '(m, ranges, bytes) := s in
  let region_base := GetRegionBeginBySizeClass class_id in
  let from_page := CompactPtrToPointer region_base (to_u32 (fst range)) in
  let to_page := CompactPtrToPointer region_base (to_u32 (snd range)) in
  m ← ReleaseMemoryPagesToOS m from_page to_page;
  Ok (m, ranges + 1, bytes +w (to_page -w from_page)).

Definition MaybeReleaseToOS (w : world) (class_id : Z) (force : bool) : result world :=
  let chunk_size := Size P class_id in
  let r := region w class_id in
  let n := num_freed_chunks r in
  if n * chunk_size <? GetPageSizeCached then Ok w
  else if (n_freed (stats r) -w n_freed_at_last_release (rtoi r)) *w chunk_size <? GetPageSizeCached then Ok w
  else
    let interval_ms := release_to_os_interval_ms_ (alloc_ w) in
    if negb force && (interval_ms <? 0) then Ok w
    else
      let now := MonotonicNanoTime (os_calls (alloc_ w)) in
      let w := if negb force then os_call w else w in
      if negb force && (now <? last_release_at_ns (rtoi r) +w interval_ms * 1000000) then Ok w
      else
        pages ← RoundUpTo (allocated_user r) GetPageSizeCached;
        rs ← ReleaseFreeMemoryToOS GetPageSizeCached (free_array r) chunk_size (pages / GetPageSizeCached);
        '(m, ranges, bytes) ← for_each (ReleasePageRangeToOS class_id) (mem_ w, 0, 0) rs;
        let i := rtoi r in
        let i := if negb (ranges =? 0) then MkRelease (n_freed (stats r)) (num_releases i +w ranges) (last_release_at_ns i) bytes else i in
        let now := MonotonicNanoTime (os_calls (alloc_ w)) in
        let i := MkRelease (n_freed_at_last_release i) (num_releases i) now (last_released_bytes i) in
        Ok (set_region (os_call (set_mem w m)) class_id (with_rtoi r i)).

Definition ForceReleaseToOS (w : world) : result world :=
  for_each (fun w class_id => MaybeReleaseToOS w class_id true) w (seqZ 1 (kNumClasses P - 1)).

(** ** Groups of chunks *)

Definition ReturnToAllocator (w : world) (class_id : Z) (chunks : list Z) : result world :=
  let n := Z.of_nat (length chunks) in
  '(ok, w) ← EnsureFreeArraySpace w class_id (num_freed_chunks (region w class_id) + n);
  if negb (ok : bool) then Die (Reported "exhausted the free list space")
  else
    let r := region w class_id in
    let s := stats r in
    let w := set_region w class_id
      (with_stats (with_free_array r (free_array r ++ chunks)) (MkStats (n_allocated s) (n_freed s +w n))) in
    MaybeReleaseToOS w class_id false.

(** The chunks, or nothing when there is no memory; the bytes mapped. *)
Definition GetFromAllocator (w : world) (class_id n_chunks : Z) : result (option (list Z) * Z * world) :=
  '(ok, mapped, w) ←
    (if num_freed_chunks (region w class_id) <? n_chunks then
       '(ok, mapped, w) ← PopulateFreeArray w class_id (n_chunks - num_freed_chunks (region w class_id));
       if negb (ok : bool) then Ok (false, mapped, w)
       else _ ← check (n_chunks <=? num_freed_chunks (region w class_id)); Ok (true, mapped, w)
     else Ok (true, 0, w));
  if negb (ok : bool) then Ok (None, mapped, w)
  else
    let r := region w class_id in
    let base_idx := Z.to_nat (num_freed_chunks r - n_chunks) in
    let s := stats r in
    Ok (Some (drop base_idx (free_array r)), mapped,
        set_region w class_id (with_stats (with_free_array r (take base_idx (free_array r)))
          (MkStats (n_allocated s +w n_chunks) (n_freed s)))).

(** All chunks of the classes, in order; the loop over a region has one turn
    per chunk. *)
Fixpoint chunk_loop (chunk chunk_size last : Z) (fuel : nat) : result (list Z) :=
  if chunk <? last then
    match fuel with
    | O => Die OutOfFuel
    | S fuel => l ← chunk_loop (chunk + chunk_size) chunk_size last fuel; Ok (chunk :: l)
    end
  else Ok [].

Definition region_chunks (w : world) (acc : list Z) (class_id : Z) : result (list Z) :=
  let region_beg := GetRegionBeginBySizeClass class_id in
  let last := region_beg + allocated_user (region w class_id) in
  l ← chunk_loop region_beg (Size P class_id) last (Z.to_nat (allocated_user (region w class_id) / Size P class_id));
  Ok (acc ++ l).
Definition ForEachChunk (w : world) : result (list Z) := for_each (region_chunks w) [] (seqZ 1 (kNumClasses P - 1)).

End primary.

(** ** Local caches *)

Record PerClass : Type := MkPerClass { max_count : Z; class_size : Z; cached : list Z }.
Record AllocatorStats : Type := MkAllocatorStats { AllocatorStatAllocated : Z; AllocatorStatMapped : Z }.
Record LocalCache : Type := MkCache { per_class : gmap Z PerClass; cache_stats : AllocatorStats }.

(** Caches are zero-initialised. *)
Definition empty_class : PerClass := MkPerClass 0 0 [].
Definition empty_cache : LocalCache := MkCache ∅ (MkAllocatorStats 0 0).
Definition class_of (k : LocalCache) (class_id : Z) : PerClass := default empty_class (per_class k !! class_id).
Definition set_class (k : LocalCache) (class_id : Z) (c : PerClass) : LocalCache :=
  MkCache (<[class_id := c]> (per_class k)) (cache_stats k).
Definition stat_add (k : LocalCache) (allocated mapped : Z) : LocalCache :=
  MkCache (per_class k) (MkAllocatorStats (AllocatorStatAllocated (cache_stats k) +w allocated) (AllocatorStatMapped (cache_stats k) +w mapped)).

Section caches.
Context (P : size_class_params) (A : primary_params) `{!PrimaryOS}.

Definition init_class (k : LocalCache) (i : Z) : LocalCache :=
  let size := Size P i in
  set_class k i (MkPerClass (2 * MaxCachedHint P size) size (cached (class_of k i))).
Definition InitCache (k : LocalCache) (class_id : Z) : LocalCache :=
  if negb (max_count (class_of k class_id) =? 0) then k
  else foldl init_class k (seqZ 1 (kNumClasses P - 1)).

Definition Refill (w : world) (k : LocalCache) (class_id : Z) : result (bool * world * LocalCache) :=
  let k := InitCache k class_id in
  let c := class_of k class_id in
  '(got, mapped, w) ← GetFromAllocator P A w class_id (max_count c / 2);
  let k := stat_add k 0 mapped in
  match got with
  | None => Ok (false, w, k)
  | Some chunks => Ok (true, w, set_class k class_id (MkPerClass (max_count c) (class_size c) chunks))
  end.

Definition cache_allocate (w : world) (k : LocalCache) (class_id : Z) : result (Z * world * LocalCache) :=
  _ ← check (negb (class_id =? 0));
  _ ← check (class_id <? kNumClasses P);
  '(ok, w, k) ←
    (if bool_decide (cached (class_of k class_id) = []) then Refill w k class_id else Ok (true, w, k));
  if negb (ok : bool) then Ok (0, w, k)
  else
    let c := class_of k class_id in
    let count := (length (cached c) - 1)%nat in
    chunk ← get_or_die (cached c !! count);
    let k := set_class k class_id (MkPerClass (max_count c) (class_size c) (take count (cached c))) in
    let k := stat_add k (class_size c) 0 in
    Ok (CompactPtrToPointer (GetRegionBeginBySizeClass P A class_id) chunk, w, k).

Definition Drain (w : world) (k : LocalCache) (class_id : Z) (count : Z) : result (world * LocalCache) :=
  let c := class_of k class_id in
  _ ← check (count <=? Z.of_nat (length (cached c)));
  let first_idx_to_drain := Z.to_nat (Z.of_nat (length (cached c)) - count) in
  let k := set_class k class_id (MkPerClass (max_count c) (class_size c) (take first_idx_to_drain (cached c))) in
  w ← ReturnToAllocator P A w class_id (drop first_idx_to_drain (cached c));
  Ok (w, k).

Definition DrainHalfMax (w : world) (k : LocalCache) (class_id : Z) : result (world * LocalCache) :=
  Drain w k class_id (max_count (class_of k class_id) / 2).

Definition cache_deallocate (w : world) (k : LocalCache) (class_id p : Z) : result (world * LocalCache) :=
  _ ← check (negb (class_id =? 0));
  _ ← check (class_id <? kNumClasses P);
  let k := InitCache k class_id in
  let c := class_of k class_id in
  '(w, k) ← (if Z.of_nat (length (cached c)) =? max_count c then DrainHalfMax w k class_id else Ok (w, k));
  let chunk := PointerToCompactPtr (GetRegionBeginBySizeClass P A class_id) p in
  let c := class_of k class_id in
  let k := set_class k class_id (MkPerClass (max_count c) (class_size c) (cached c ++ [chunk])) in
  Ok (w, stat_add k (- class_size c) 0).

(** [while (c->count > 0) Drain(..., c->count)]: after the first turn the
    cache of the class is empty. *)
Definition DrainAll (w : world) (k : LocalCache) : result (world * LocalCache) :=
  for_each (fun s i =>
    let '(w, k) := (s : world * LocalCache) in
    let count := Z.of_nat (length (cached (class_of k i))) in
    if 0 <? count then Drain w k i count else Ok (w, k)) (w, k) (seqZ 1 (kNumClasses P - 1)).

(** ** The allocator with the caches of all threads *)

Record primary_state : Type := PrimaryState { primary_alloc : SizeClassAllocator64; caches : gmap (option Z) LocalCache }.
Definition cache_of (st : primary_state) (t : option Z) : LocalCache := default empty_cache (caches st !! t).

#[export] Instance primary64 : PrimaryAllocator := {|
  pstate := primary_state;
  cache_Allocate st t m class_id :=
    '(p, w, k) ← cache_allocate (World (primary_alloc st) m []) (cache_of st t) class_id;
    Ok (p, log_ w, PrimaryState (alloc_ w) (<[t := k]> (caches st)), mem_ w);
  cache_Deallocate st t m class_id p :=
    '(w, k) ← cache_deallocate (World (primary_alloc st) m []) (cache_of st t) class_id p;
    Ok (log_ w, PrimaryState (alloc_ w) (<[t := k]> (caches st)), mem_ w);
  primary_PointerIsMine := PointerIsMine A;
  primary_GetSizeClass := GetSizeClass P A;
  primary_GetBlockBegin st p := Ok (GetBlockBegin P A (World (primary_alloc st) (fun _ => 0) []) p);
  primary_GetActuallyAllocatedSize st p := GetActuallyAllocatedSize P A p;
|}.

End caches.
