(* ===== verification/Primary64Specs.v ===== *)
(** * What the primary allocator promises

    [SizeClassAllocator64] with its caches keeps the promises of
    [PrimaryAllocatorSpec]: blocks are the chunks of the regions that are
    neither in the free array of their region nor in the cache of a thread. *)

From S2P Require Import Prelude Words ShadowMapping Memory ShadowWrites SizeClassMap HeapAllocator PackedCounters ReleaseToOS Primary64.

(** What start-up establishes: the space is aligned, a power of two regions of
    at most 2^36 bytes, in application memory; the size classes are multiples of
    16; and what mmap is documented to do.  Address space of free arrays is
    set aside by [Init], so that mapping it does not fail. *)
Class PrimarySetting (M : mapping) (P : size_class_params) (A : primary_params) (OS : PrimaryOS) : Prop := {
  setting_sizes : 4 <= kMinSizeLog P /\ 3 + kNumBits P <= kMidSizeLog P;
  setting_classes : kNumClasses P <= 256;
  setting_space : exists s, kRegionSize P A = 2 ^ s /\ 21 <= s <= 36 /\ kMaxSizeLog P <= s /\
    kSpaceSize A = kRegionSize P A * kNumClassesRounded P;
  setting_beg : 8 <= SpaceBeg A /\ SpaceBeg A + kSpaceSize A <= 2 ^ 62 /\
    (if kUsingConstantSpaceBeg A then SpaceBeg A mod kRegionSize P A = 0 else True);
  setting_memory a : SpaceBeg A <= a < SpaceBeg A + kSpaceSize A -> AddrIsInMem M a = true;
  setting_page : exists l, GetPageSizeCached = 16 * 2 ^ l /\ 0 <= l <= 14 /\ SpaceBeg A mod GetPageSizeCached = 0;
  setting_metadata : 0 <= kMetadataSize A < 2 ^ 12;
  setting_mapping : PremappedHeap A = false;
  setting_map k beg size : address_range_Map k beg size = 0 \/ address_range_Map k beg size = beg;
  setting_free_array k c beg size : 1 <= c <= kLargestClassID P ->
    GetFreeArray P A (GetRegionBeginBySizeClass P A c) <= beg ->
    beg + size <= GetFreeArray P A (GetRegionBeginBySizeClass P A c) + kFreeArraySize P A ->
    address_range_Map k beg size <> 0;
}.

(** ** The space *)

Section space.
Context (M : mapping) (P : size_class_params) (A : primary_params) (OS : PrimaryOS).
Context `{!WfSizeClassMap P, !PrimarySetting M P A OS}.

Notation R := (kRegionSize P A).
Definition Reg (c : Z) : Z := SpaceBeg A + R * c.
(** The size of a chunk in units of 16 bytes. *)
Definition units (c : Z) : Z := Size P c / 16.
Definition in_classes (c : Z) : Prop := 1 <= c <= kLargestClassID P.

#[local] Instance in_classes_dec (c : Z) : Decision (in_classes c).
Proof. unfold in_classes. apply _. Defined.

Lemma region_size : exists s, R = 2 ^ s /\ 21 <= s <= 36 /\ kMaxSizeLog P <= s.
Proof. destruct setting_space as (s & ? & ? & ? & _). by exists s. Qed.

Lemma region_bounds : 2 ^ 21 <= R <= 2 ^ 36 /\ R mod 2 ^ 21 = 0.
Proof.
  destruct region_size as (s & -> & Hs & _). split; [split; apply Z.pow_le_mono_r; lia |].
  replace s with (21 + (s - 21)) by lia. rewrite Z.pow_add_r, Z.mul_comm by lia. apply Z.mod_mul. lia.
Qed.

Lemma region_numbers : 2097152 <= R <= 68719476736 /\ R mod 2097152 = 0 /\ kFreeArraySize P A = R / 8.
Proof. pose proof region_bounds as [H1 H2]. done. Qed.

Lemma rounded_classes : kNumClasses P <= kNumClassesRounded P <= 256 /\ 32 <= kNumClassesRounded P.
Proof.
  pose proof setting_classes. unfold kNumClassesRounded.
  destruct (Z.leb_spec (kNumClasses P) 32), (Z.leb_spec (kNumClasses P) 64), (Z.leb_spec (kNumClasses P) 128); lia.
Qed.

Lemma space_size : kSpaceSize A = R * kNumClassesRounded P.
Proof. destruct setting_space as (s & _ & _ & _ & H). exact H. Qed.

(** An offset into a region. *)
Lemma region_inside (c o : Z) : in_classes c -> 0 <= o <= R -> SpaceBeg A <= Reg c + o <= SpaceBeg A + kSpaceSize A.
Proof.
  intros [Hc1 Hc2] Ho. rewrite space_size. pose proof rounded_classes. pose proof region_numbers. unfold Reg, kLargestClassID in *. nia.
Qed.

Lemma region_word (c o : Z) : in_classes c -> 0 <= o <= R -> 8 <= Reg c + o < 2 ^ 63.
Proof.
  intros Hc Ho. pose proof (region_inside c o Hc Ho). pose proof setting_beg as (H1 & H2 & _).
  change (2 ^ 62) with 4611686018427387904 in *. change (2 ^ 63) with 9223372036854775808. lia.
Qed.

Lemma GetRegionBegin_Reg (c : Z) : in_classes c -> GetRegionBeginBySizeClass P A c = Reg c.
Proof.
  intros Hc. unfold GetRegionBeginBySizeClass. fold (Reg c). pose proof region_numbers.
  pose proof (region_word c 0 Hc ltac:(lia)). apply wrap_small. unfold is_uptr, word_modulus.
  change (2 ^ 63) with 9223372036854775808 in *. lia.
Qed.

Lemma GetFreeArray_Reg (c : Z) : in_classes c -> GetFreeArray P A (Reg c) = Reg c + (R - R / 8).
Proof.
  intros Hc. unfold GetFreeArray, GetMetadataEnd. pose proof region_numbers as (? & ? & ->).
  pose proof (region_word c (R - R / 8) Hc ltac:(zlia)). apply wrap_small. unfold is_uptr, word_modulus.
  change (2 ^ 63) with 9223372036854775808 in *. lia.
Qed.

(** Regions do not overlap. *)
Lemma region_unique (c d o q : Z) : 0 <= o < R -> 0 <= q < R -> Reg c + o = Reg d + q -> c = d /\ o = q.
Proof. unfold Reg. pose proof region_numbers. intros. assert (c = d) by nia. subst d. lia. Qed.

Lemma rounded_pow2 : exists k, kNumClassesRounded P = 2 ^ k /\ 5 <= k <= 8.
Proof.
  unfold kNumClassesRounded. destruct (_ <=? 32); [by exists 5 |]. destruct (_ <=? 64); [by exists 6 |].
  destruct (_ <=? 128); [by exists 7 | by exists 8].
Qed.

(** The queries of an address find its region. *)
Lemma region_div (c o : Z) : kUsingConstantSpaceBeg A = true -> 0 <= o < R ->
  exists b, SpaceBeg A = R * b /\ (Reg c + o) / R = b + c /\ (Reg c + o) mod R = o.
Proof.
  intros Hk Ho. destruct setting_beg as (_ & _ & H). rewrite Hk in H.
  apply Z.mod_divide in H as [b Hb]; [| lia]. exists b. split; [lia |]. unfold Reg. rewrite Hb.
  replace (b * R + R * c + o) with (o + (b + c) * R) by lia. by rewrite Z.div_add, Z.div_small, Z.mod_add, Z.mod_small by lia.
Qed.

Lemma PointerIsMine_Reg (c o : Z) : in_classes c -> 0 <= o < R -> PointerIsMine A (Reg c + o) = true.
Proof.
  intros Hc Ho. pose proof (region_inside c o Hc ltac:(lia)) as Hin. pose proof (region_inside c (o + 1) Hc ltac:(lia)) as Hin'.
  pose proof setting_beg as (H1 & H2 & _). change (2 ^ 62) with 4611686018427387904 in *.
  unfold PointerIsMine. destruct (kUsingConstantSpaceBeg A && _) eqn:E.
  - apply andb_true_iff in E as [Hk Hm%Z.eqb_eq]. unfold SpaceBeg in *. rewrite Hk in *.
    assert (Hs : 0 < kSpaceSize A) by lia.
    apply Z.mod_divide in Hm as [b Hb]; [| lia]. rewrite Hb in *. rewrite Z.div_mul by lia. apply Z.eqb_eq.
    symmetry. apply (Z.div_unique _ _ _ (Reg c + o - b * kSpaceSize A)); lia.
  - unfold SpaceEnd. rewrite wrap_small by (unfold is_uptr, word_modulus; lia).
    apply andb_true_iff. split; [apply Z.leb_le | apply Z.ltb_lt]; lia.
Qed.

Lemma GetSizeClass_Reg (c o : Z) : in_classes c -> 0 <= o < R -> GetSizeClass P A (Reg c + o) = c.
Proof.
  intros Hc Ho. pose proof rounded_classes as [Hr1 Hr2]. assert (Hcr : 0 <= c < kNumClassesRounded P) by (unfold in_classes, kLargestClassID in Hc; lia).
  unfold GetSizeClass. destruct (kUsingConstantSpaceBeg A && _) eqn:E.
  - apply andb_true_iff in E as [Hk Hm%Z.eqb_eq]. destruct (region_div c o Hk Ho) as (b & Hb & -> & _).
    unfold SpaceBeg in Hb. rewrite Hk in Hb. rewrite Hb, space_size in Hm.
    pose proof region_numbers. rewrite Z.mul_mod_distr_l in Hm by lia.
    assert (Hbm : b mod kNumClassesRounded P = 0) by nia.
    rewrite <- Z.add_mod_idemp_l, Hbm by lia. by apply Z.mod_small.
  - replace (Reg c + o - SpaceBeg A) with (o + c * R) by (unfold Reg; lia).
    pose proof region_numbers. rewrite wrap_small by (unfold is_uptr, word_modulus; nia).
    rewrite Z.div_add, Z.div_small, Z.add_0_l by lia. by apply Z.mod_small.
Qed.

Lemma land_region (x : Z) : is_uptr x -> Z.land x (wnot (R - 1)) = x - x mod R.
Proof. intros Hx. destruct region_size as (s & -> & Hs & _). apply land_wnot_pow2; [done | lia]. Qed.

Lemma GetRegionBegin_Reg_o (c o : Z) : in_classes c -> 0 <= o < R -> GetRegionBegin P A (Reg c + o) = Reg c.
Proof.
  intros Hc Ho. pose proof (region_word c o Hc ltac:(lia)) as Hw.
  pose proof region_numbers as (Hn & _). change (2 ^ 63) with 9223372036854775808 in *.
  pose proof (region_inside c o Hc ltac:(lia)). pose proof setting_beg as (? & _).
  unfold GetRegionBegin. destruct (kUsingConstantSpaceBeg A) eqn:Hk.
  - rewrite land_region by (unfold is_uptr, word_modulus; lia).
    destruct (region_div c o Hk Ho) as (b & _ & _ & ->). lia.
  - replace (Reg c + o - SpaceBeg A) with (o + c * R) by (unfold Reg; lia).
    assert (Hoc : is_uptr (o + c * R)) by (unfold is_uptr, word_modulus; unfold Reg in *; lia).
    rewrite (wrap_small (o + c * R)), land_region, Z.mod_add, Z.mod_small by (done || lia).
    pose proof (region_word c 0 Hc ltac:(lia)). change (2 ^ 63) with 9223372036854775808 in *.
    rewrite wrap_small; [unfold Reg; lia |]. unfold is_uptr, word_modulus. unfold Reg in *. lia.
Qed.

Lemma GetChunkIdx_Reg (c o size : Z) : in_classes c -> 0 <= o < R -> 0 < size < 2 ^ 32 -> GetChunkIdx P A (Reg c + o) size = o / size.
Proof.
  intros Hc Ho Hsz. pose proof (region_word c o Hc ltac:(lia)) as Hw.
  pose proof region_numbers as (Hn & _). pose proof (region_inside c o Hc ltac:(lia)). pose proof setting_beg as (? & _).
  change (2 ^ 63) with 9223372036854775808 in *. change (2 ^ 32) with 4294967296 in Hsz.
  assert (Ho' : (if negb (kUsingConstantSpaceBeg A) then Reg c + o -w SpaceBeg A else Reg c + o) mod R = o).
  { destruct (kUsingConstantSpaceBeg A) eqn:Hk; cbn [negb].
    - destruct (region_div c o Hk Ho) as (b & _ & _ & ->). done.
    - rewrite wrap_small by (unfold is_uptr, word_modulus; lia).
      replace (Reg c + o - SpaceBeg A) with (o + c * R) by (unfold Reg; lia). rewrite Z.mod_add, Z.mod_small by lia. done. }
  unfold GetChunkIdx. rewrite Ho'. rewrite Z.shiftr_div_pow2 by lia. change (2 ^ 32) with 4294967296.
  destruct (Z.eqb_spec (o / 4294967296) 0) as [Hd | Hd]; cbn [negb]; [| done].
  unfold to_u32. rewrite (Z.mod_small o), (Z.mod_small size) by zlia. done.
Qed.

(** ** Sizes *)

Lemma Size_units (c : Z) : in_classes c -> Size P c = 16 * units c /\ 0 < units c.
Proof.
  intros [Hc1 Hc2]. assert (H16 : Size P c mod 16 = 0).
  { pose proof setting_sizes as [Hs1 Hs2]. pose proof (params P) as (Hp1 & Hp2 & Hp3).
    pose proof (kLargestClassID_eq P) as Hl. rewrite <- (kMidClass_pow P) in Hl.
    assert (Hpow : forall l k, 4 <= l -> (2 ^ l * k) mod 16 = 0).
    { intros l k Hk. replace l with (4 + (l - 4)) by lia. rewrite Z.pow_add_r by lia. change (2 ^ 4) with 16.
      replace (16 * 2 ^ (l - 4) * k) with (2 ^ (l - 4) * k * 16) by lia. apply Z.mod_mul. lia. }
    destruct (Z.le_gt_cases c (kMidClass P)).
    - rewrite (Size_small P) by (unfold kBatchClassID, kLargestClassID in *; lia). apply Hpow. lia.
    - set (q := 2 ^ (kNumBits P - 1)) in *. assert (Hq : 0 < q) by (apply Z.pow_pos_nonneg; lia).
      set (d := c - kMidClass P). pose proof (Z.div_mod d q ltac:(lia)). pose proof (Z.mod_pos_bound d q Hq).
      assert (Hd : 0 <= d / q) by (apply Z.div_pos; lia).
      assert (Hdz : d / q <= kMaxSizeLog P - kMidSizeLog P) by nia.
      replace c with (kMidClass P + (kMidSizeLog P + d / q - kMidSizeLog P) * q + d mod q) by lia.
      unfold q. rewrite (Size_pow P) by (fold q; nia). fold q.
      replace (2 ^ (kMidSizeLog P + d / q)) with (2 ^ (kMidSizeLog P + d / q) * 1) by lia.
      rewrite Z.add_mod, !Hpow by lia. done. }
  pose proof (Size_step P c ltac:(lia)) as Hst. unfold units. apply Z.mod_divide in H16 as [k Hk]; [| lia].
  rewrite Hk, Z.div_mul by lia. split; [lia |].
  assert (0 <= Size P (c - 1)).
  { destruct (Z.eq_dec c 1) as [-> |]; [change (1 - 1) with 0; by rewrite (Size_0 P) |]. pose proof (Size_mono P 0 (c - 1) ltac:(lia) ltac:(lia)) as Hm.
    rewrite (Size_0 P) in Hm. lia. }
  lia.
Qed.

Lemma Size_bound (c : Z) : in_classes c -> 16 <= Size P c <= 2 ^ 30 /\ Size P c <= R.
Proof.
  intros Hc. destruct (Size_units c Hc) as [Hs Hu]. destruct Hc as [Hc1 Hc2].
  assert (Hmax : Size P c <= kMaxSize P).
  { rewrite <- (Size_largest P). destruct (Z.eq_dec c (kLargestClassID P)) as [-> |]; [done |].
    pose proof (Size_mono P c (kLargestClassID P) ltac:(lia) ltac:(lia)). lia. }
  rewrite kMaxSize_pow in Hmax. destruct region_size as (s & -> & Hs' & Hs''). pose proof (wf_max P).
  pose proof (Z.pow_le_mono_r 2 (kMaxSizeLog P) s). pose proof (Z.pow_le_mono_r 2 (kMaxSizeLog P) 30). lia.
Qed.

(** ** States of a region

    The chunks of region [c] are numbered; a free chunk [j] is the entry
    [j * units c] of an array. *)

Definition made (c : Z) (r : RegionInfo) : Z := allocated_user r / Size P c.
Definition entry (c j : Z) : Z := j * units c.

Record region_ok (c : Z) (r : RegionInfo) : Prop := {
  ok_user : 0 <= allocated_user r <= mapped_user r /\ allocated_user r mod Size P c = 0;
  ok_mapped : mapped_user r mod 2 ^ 18 = 0 /\ mapped_user r <= R / 2 /\ mapped_user r + mapped_meta r <= R - R / 8;
  ok_meta : 0 <= allocated_meta r <= mapped_meta r /\ mapped_meta r mod 2 ^ 16 = 0;
  ok_free_array : mapped_free_array r mod 2 ^ 18 = 0 /\ 4 * num_freed_chunks r <= mapped_free_array r <= R / 8;
}.

(** The offsets that a region has mapped. *)
Definition region_owns (r : RegionInfo) (o : Z) : Prop :=
  0 <= o < mapped_user r \/ R - R / 8 - mapped_meta r <= o < R - R / 8 + mapped_free_array r.

Lemma region_owns_bound (c : Z) (r : RegionInfo) (o : Z) : region_ok c r -> region_owns r o -> 0 <= o < R.
Proof. intros [H1 H2 H3 H4] Ho. pose proof region_numbers. unfold region_owns, num_freed_chunks in *. zlia. Qed.

(** [F] are the entries of the chunks that are free, wherever they are kept. *)
Definition entries_ok (c : Z) (r : RegionInfo) (F : list Z) : Prop :=
  NoDup F /\ forall x, x ∈ F -> exists j, x = entry c j /\ 0 <= j < made c r.

Definition free_chunks (X : Z -> list Z) (w : world) (c : Z) : list Z := free_array (region w c) ++ X c.

(** [X]: the free chunks that are not in the free arrays. *)
Record wf_world (X : Z -> list Z) (w : world) : Prop := {
  wf_region : forall c, in_classes c -> region_ok c (region w c);
  wf_entries : forall c, in_classes c -> entries_ok c (region w c) (free_chunks X w c);
}.

(** Chunk [j] of class [c] is in use. *)
Definition live (X : Z -> list Z) (w : world) (c j : Z) : Prop :=
  in_classes c /\ 0 <= j < made c (region w c) /\ entry c j ∉ free_chunks X w c.
Definition in_live (X : Z -> list Z) (w : world) (a : Z) : Prop :=
  exists c j, live X w c j /\ Reg c + j * Size P c <= a < Reg c + (j + 1) * Size P c.
Definition world_owns (w : world) (a : Z) : Prop := exists c, in_classes c /\ region_owns (region w c) (a - Reg c).

Lemma made_bound (c : Z) (r : RegionInfo) (j : Z) : in_classes c -> region_ok c r -> 0 <= j < made c r ->
  0 <= j * Size P c /\ (j + 1) * Size P c <= allocated_user r.
Proof.
  intros Hc [[H1 H2] _ _ _] Hj. destruct (Size_bound c Hc) as [Hs _]. unfold made in Hj.
  pose proof (Z.div_mod (allocated_user r) (Size P c) ltac:(lia)). nia.
Qed.

Lemma made_units (c : Z) (r : RegionInfo) : in_classes c -> region_ok c r ->
  allocated_user r = made c r * Size P c /\ 0 <= made c r /\ 32 * made c r <= R.
Proof.
  intros Hc [[H1 H2] [_ [H3 _]] _ _]. destruct (Size_bound c Hc) as [Hs _]. unfold made.
  pose proof (Z.div_mod (allocated_user r) (Size P c) ltac:(lia)).
  pose proof (Z.div_pos (allocated_user r) (Size P c) ltac:(lia) ltac:(lia)).
  pose proof region_numbers as [? _]. split_and!; [lia | lia |]. assert (R / 2 * 2 <= R) by zlia. nia.
Qed.

Lemma live_owned (X : Z -> list Z) (w : world) (a : Z) : wf_world X w -> in_live X w a -> world_owns w a.
Proof.
  intros [W _] (c & j & (Hc & Hj & _) & Ha). exists c. split; [done |]. left.
  destruct (made_bound c _ j Hc (W c Hc) Hj) as [H1 H2]. pose proof (ok_user _ _ (W c Hc)). lia.
Qed.

Lemma entry_inj (c j k : Z) : in_classes c -> entry c j = entry c k -> j = k.
Proof. intros Hc. destruct (Size_units c Hc). unfold entry. nia. Qed.

(** ** Steps that do not change which chunks are in use

    Mapping, filling a free array, moving free chunks and releasing pages:
    the memory that changes is not that of a chunk in use. *)

Record quiet (X : Z -> list Z) (w : world) (X' : Z -> list Z) (w' : world) (es : list map_event) : Prop := {
  quiet_wf : wf_world X' w';
  quiet_live : forall c j, live X' w' c j <-> live X w c j;
  quiet_log : log_ w' = log_ w ++ es;
  quiet_maps : Forall is_OnMap es;
  quiet_owns : forall a, world_owns w' a <-> world_owns w a \/ exists e, In e es /\ in_event e a;
  quiet_fresh : forall e, In e es -> granules_ok M (fst (event_range e)) (snd (event_range e)) /\ forall a, in_event e a -> ~ world_owns w a;
  quiet_memory : forall a, mem_ w' a = mem_ w a \/ world_owns w' a /\ ~ in_live X w a;
  quiet_bytes : bytes_ok (mem_ w) -> bytes_ok (mem_ w');
}.

Lemma quiet_in_live (X X' : Z -> list Z) (w w' : world) (es : list map_event) (a : Z) : quiet X w X' w' es ->
  in_live X' w' a <-> in_live X w a.
Proof. intros Q. unfold in_live. split; intros (c & j & H & Ha); exists c, j; by rewrite (quiet_live _ _ _ _ _ Q) in *. Qed.

Lemma quiet_trans (X1 X2 X3 : Z -> list Z) (w1 w2 w3 : world) (es fs : list map_event) :
  quiet X1 w1 X2 w2 es -> quiet X2 w2 X3 w3 fs -> quiet X1 w1 X3 w3 (es ++ fs).
Proof.
  intros Q S. pose proof Q as [Q1 Q2 Q3 Q4 Q5 Q6 Q7 Q8]. destruct S as [S1 S2 S3 S4 S5 S6 S7 S8]. split.
  - done.
  - intros c j. by rewrite S2.
  - by rewrite S3, Q3, app_assoc.
  - by apply Forall_app.
  - intros a. rewrite S5, Q5. setoid_rewrite in_app_iff. split.
    + intros [[? | (e & ? & ?)] | (e & ? & ?)]; [by left | right; exists e; tauto..].
    + intros [? | (e & [? | ?] & ?)]; [tauto | left; right; by exists e | right; by exists e].
  - intros e [He | He]%in_app_iff; [by apply Q6 |]. destruct (S6 e He) as [Hg Hn]. split; [done |].
    intros a Ha Ho. apply (Hn a Ha), Q5. by left.
  - intros a. destruct (S7 a) as [-> | [Ho Hn]]; [| right; split; [done | by rewrite (quiet_in_live _ _ _ _ _ a Q) in Hn]].
    destruct (Q7 a) as [-> | [Ho Hn]]; [by left | right]. split; [apply S5; by left | done].
  - auto.
Qed.

Lemma region_set (w : world) (c d : Z) (r : RegionInfo) : region (set_region w c r) d = if decide (d = c) then r else region w d.
Proof.
  unfold region, set_region. cbn. destruct (decide (d = c)) as [-> | Hne]; [by rewrite lookup_insert_eq | by rewrite lookup_insert_ne].
Qed.
Lemma region_set_eq (w : world) (c : Z) (r : RegionInfo) : region (set_region w c r) c = r.
Proof. rewrite region_set. by destruct (decide (c = c)). Qed.

(** A step that changes one region. *)
Lemma quiet_region (X X' : Z -> list Z) (w w' : world) (c : Z) (r' : RegionInfo) (es : list map_event) :
  in_classes c -> wf_world X w -> (forall d, region w' d = if decide (d = c) then r' else region w d) ->
  (forall d, d <> c -> X' d ≡ₚ X d) -> region_ok c r' -> entries_ok c r' (free_array r' ++ X' c) ->
  (forall j, 0 <= j < made c r' /\ entry c j ∉ free_array r' ++ X' c <-> 0 <= j < made c (region w c) /\ entry c j ∉ free_chunks X w c) ->
  log_ w' = log_ w ++ es -> Forall is_OnMap es ->
  (forall o, region_owns r' o <-> region_owns (region w c) o \/ exists e, In e es /\ in_event e (Reg c + o)) ->
  (forall e, In e es -> granules_ok M (fst (event_range e)) (snd (event_range e)) /\ forall a, in_event e a -> ~ region_owns (region w c) (a - Reg c)) ->
  (forall a, mem_ w' a = mem_ w a \/ region_owns r' (a - Reg c) /\ ~ in_live X w a) ->
  (bytes_ok (mem_ w) -> bytes_ok (mem_ w')) ->
  quiet X w X' w' es.
Proof.
  intros Hc W Hr HX Hok Hent Hlive Hlog Hes Howns Hfresh Hmem Hbytes. pose proof W as [W1 W2].
  assert (Heq : region w' c = r') by (rewrite Hr; by destruct (decide (c = c))).
  assert (Hne : forall d, d <> c -> region w' d = region w d) by (intros d Hd; rewrite Hr; by destruct (decide (d = c))).
  assert (Hfree : forall d, d <> c -> free_chunks X' w' d ≡ₚ free_chunks X w d).
  { intros d Hd. unfold free_chunks. rewrite Hne by done. by rewrite (HX d Hd). }
  assert (Howned : forall a, world_owns w' a <-> world_owns w a \/ exists e, In e es /\ in_event e a).
  { intros a. unfold world_owns. split.
    - intros (d & Hd & Ho). destruct (decide (d = c)) as [Hdc | Hd']; [subst d | left; exists d; by rewrite <- Hne].
      rewrite Heq in Ho. apply Howns in Ho as [Ho | (e & He & Ho)]; [left; by exists c | right; exists e].
      by replace (Reg c + (a - Reg c)) with a in Ho by lia.
    - intros [(d & Hd & Ho) | (e & He & Ho)].
      + exists d. split; [done |]. destruct (decide (d = c)) as [Hdc | Hd']; [subst d; rewrite Heq; apply Howns; by left | by rewrite Hne].
      + exists c. split; [done |]. rewrite Heq. apply Howns. right. exists e. by replace (Reg c + (a - Reg c)) with a by lia. }
  split; try done.
  - split; intros d Hd; (destruct (decide (d = c)) as [Hdc | Hd']; [subst d; unfold free_chunks; by rewrite Heq |]).
    + rewrite Hne by done. by apply W1.
    + destruct (W2 d Hd) as [Hnd Hin]. unfold entries_ok. rewrite Hfree, Hne by done. split; [done |].
      intros x Hx. apply Hin. by rewrite <- Hfree.
  - intros d j. unfold live. destruct (decide (d = c)) as [Hdc | Hd'].
    + subst d. unfold free_chunks at 1. rewrite Heq. specialize (Hlive j). tauto.
    + rewrite Hne by done. by rewrite (Hfree d Hd').
  - intros e He. destruct (Hfresh e He) as [Hg Hn]. split; [done |]. intros a Ha (d & Hd & Ho). destruct (decide (d = c)) as [Hdc | Hd'].
    + subst d. by apply (Hn a Ha).
    + assert (Ho' : region_owns r' (a - Reg c)).
      { apply Howns. right. exists e. by replace (Reg c + (a - Reg c)) with a by lia. }
      pose proof (region_owns_bound c r' _ Hok Ho'). pose proof (region_owns_bound d _ _ (W1 d Hd) Ho).
      destruct (region_unique d c (a - Reg d) (a - Reg c)); lia.
  - intros a. destruct (Hmem a) as [| [Ho Hn]]; [by left | right]. split; [| done]. exists c. by rewrite Heq.
Qed.

(** The fields that matter to the chunks and to the mapped memory. *)
Record same_shape (r r' : RegionInfo) : Prop := {
  same_free : free_array r' = free_array r /\ mapped_free_array r' = mapped_free_array r;
  same_user : allocated_user r' = allocated_user r /\ mapped_user r' = mapped_user r;
  same_meta : allocated_meta r' = allocated_meta r /\ mapped_meta r' = mapped_meta r;
}.

#[local] Instance same_shape_preorder : PreOrder same_shape.
Proof. split; [by repeat split | intros a b c [[] [] []] [[] [] []]; repeat split; congruence]. Qed.

(** Another shape of the same region. *)
Lemma quiet_same (X : Z -> list Z) (w w' : world) (c : Z) (r' : RegionInfo) : in_classes c -> wf_world X w ->
  (forall d, region w' d = if decide (d = c) then r' else region w d) -> log_ w' = log_ w -> mem_ w' = mem_ w ->
  same_shape (region w c) r' ->
  quiet X w X w' [].
Proof.
  intros Hc W Hr Hlog Hmem [[E1 E2] [E3 E5] [E4 E6]]. apply (quiet_region X X w w' c r'); try done.
  - destruct (wf_region _ _ W c Hc) as [H1 H2 H3 H4]. split; unfold num_freed_chunks in *; by rewrite ?E1, ?E2, ?E3, ?E4, ?E5, ?E6.
  - unfold entries_ok, made. rewrite E1, E3. apply (wf_entries _ _ W c Hc).
  - intros j. unfold made. by rewrite E1, E3.
  - by rewrite Hlog, app_nil_r.
  - intros o. unfold region_owns. rewrite E2, E5, E6. split; [by left | intros [? | (e & [] & _)]; done].
  - intros a. left. by rewrite Hmem.
  - by rewrite Hmem.
Qed.

Lemma quiet_os_call (X : Z -> list Z) (w : world) (c : Z) : in_classes c -> wf_world X w -> quiet X w X (os_call w) [].
Proof.
  intros Hc W. apply (quiet_same X w (os_call w) c (region w c)); try done.
  intros d. by destruct (decide (d = c)) as [-> |].
Qed.

(** ** Mapping *)

Definition mapped_world (w : world) (beg size : Z) : world :=
  emit_event (set_mem (os_call w) (memset (mem_ w) beg 0 size)) (OnMap beg size).

Lemma MapWithCallback_spec (w : world) (beg size : Z) :
  MapWithCallback A w beg size = Ok (false, os_call w) /\ address_range_Map (os_calls (alloc_ w)) beg size = 0 \/
  MapWithCallback A w beg size = Ok (true, mapped_world w beg size).
Proof.
  unfold MapWithCallback. rewrite setting_mapping. destruct (Z.eqb_spec (address_range_Map (os_calls (alloc_ w)) beg size) 0) as [He | He]; [by left |].
  right. destruct (setting_map (os_calls (alloc_ w)) beg size) as [H | ->]; [done |]. rewrite check_true by apply Z.eqb_refl. done.
Qed.

Lemma Reg_granule (c : Z) : Reg c mod 8 = 0.
Proof.
  destruct setting_page as (l & Hp & Hl & Hm). pose proof region_numbers as (_ & HR & _). unfold Reg.
  rewrite Hp in Hm. apply Z.mod_divide in Hm as [b ->]; [| pose proof (Z.pow_pos_nonneg 2 l); lia].
  apply Z.mod_divide in HR as [q ->]; [| lia].
  replace (b * (16 * 2 ^ l) + q * 2097152 * c) with ((b * 2 * 2 ^ l + q * 262144 * c) * 8) by lia. apply Z.mod_mul. lia.
Qed.

Lemma region_granules (c o size : Z) : in_classes c -> 0 <= o -> 8 <= size -> o + size <= R -> o mod 8 = 0 -> size mod 8 = 0 ->
  granules_ok M (Reg c + o) size.
Proof.
  intros Hc Ho Hs Hb Ho8 Hs8. pose proof (Reg_granule c). pose proof (region_word c (o + size) Hc ltac:(lia)).
  pose proof (region_word c o Hc ltac:(lia)). pose proof (region_inside c o Hc ltac:(lia)). pose proof (region_inside c (o + size) Hc ltac:(lia)).
  split; [zlia | lia | apply setting_memory; lia | apply setting_memory; lia].
Qed.

Lemma quiet_map (X : Z -> list Z) (w w' : world) (c o size : Z) (r' : RegionInfo) : in_classes c -> wf_world X w ->
  (forall d, region w' d = if decide (d = c) then r' else region w d) ->
  log_ w' = log_ (mapped_world w (Reg c + o) size) -> mem_ w' = mem_ (mapped_world w (Reg c + o) size) ->
  0 <= o -> 8 <= size -> o + size <= R -> o mod 8 = 0 -> size mod 8 = 0 ->
  region_ok c r' -> free_array r' = free_array (region w c) -> allocated_user r' = allocated_user (region w c) ->
  (forall x, region_owns r' x <-> region_owns (region w c) x \/ o <= x < o + size) ->
  (forall x, o <= x < o + size -> ~ region_owns (region w c) x) ->
  quiet X w X w' [OnMap (Reg c + o) size].
Proof.
  intros Hc W Hr Hlog Hmem Ho Hs Hb Ho8 Hs8 Hok E1 E2 Howns Hfresh. apply (quiet_region X X w w' c r'); try done.
  - unfold entries_ok, made. rewrite E1, E2. apply (wf_entries _ _ W c Hc).
  - intros j. unfold made. by rewrite E1, E2.
  - by repeat constructor.
  - intros x. rewrite Howns. split.
    + intros [? | Hx]; [by left | right; eexists; split; [by left | unfold in_event; cbn; lia]].
    + intros [? | (e & [<- | []] & Hx)]; [by left | right; unfold in_event in Hx; cbn in Hx; lia].
  - intros e [<- | []]. cbn. split; [by apply region_granules |]. intros a Ha. apply Hfresh. unfold in_event in Ha. cbn in Ha. lia.
  - intros a. rewrite Hmem. cbn. destruct (Z.lt_ge_cases a (Reg c + o)); [left; by apply memset_out; left |].
    destruct (Z.le_gt_cases (Reg c + o + size) a); [left; by apply memset_out; right |]. right. split; [apply Howns; right; lia |].
    intros Hl%live_owned; [| done]. destruct Hl as (d & Hd & Hl). pose proof (region_owns_bound d _ _ (wf_region _ _ W d Hd) Hl).
    destruct (region_unique d c (a - Reg d) (a - Reg c)) as [-> _]; [lia.. |]. by apply (Hfresh (a - Reg c)); [lia |].
  - rewrite Hmem. intros Hm. by apply bytes_ok_memset.
Qed.

(** The number of chunks bounds the free array. *)
Lemma free_bound (X : Z -> list Z) (w : world) (c : Z) : in_classes c -> wf_world X w ->
  Z.of_nat (length (free_chunks X w c)) <= made c (region w c) /\ 32 * made c (region w c) <= R.
Proof.
  intros Hc W. destruct (made_units c _ Hc (wf_region _ _ W c Hc)) as (_ & Hm & Hb). split; [| done].
  destruct (wf_entries _ _ W c Hc) as [Hnd Hin].
  assert (Hsub : free_chunks X w c ⊆+ map (entry c) (seqZ 0 (made c (region w c)))).
  { apply NoDup_submseteq; [done |]. intros x Hx. destruct (Hin x Hx) as (j & -> & Hj).
    apply list_elem_of_In, in_map, list_elem_of_In, elem_of_seqZ. lia. }
  apply submseteq_length in Hsub. rewrite length_map, length_seqZ in Hsub. lia.
Qed.

Lemma round_up_to_pow (x n : Z) : 0 < x <= 2 ^ 50 -> 0 <= n <= 18 ->
  exists y, RoundUpTo x (Z.shiftl 1 n) = Ok y /\ x <= y < x + 2 ^ n /\ y mod 2 ^ n = 0.
Proof.
  intros Hx Hn. rewrite Z.shiftl_1_l. pose proof (Z.pow_le_mono_r 2 n 18 ltac:(lia) ltac:(lia)).
  change (2 ^ 18) with 262144 in *. change (2 ^ 50) with 1125899906842624 in *.
  apply RoundUpTo_nowrap; [lia | exists n; lia | unfold word_modulus; lia].
Qed.

(** A free array always fits its part of the region. *)
Lemma EnsureFreeArraySpace_spec (X : Z -> list Z) (w : world) (c num : Z) : in_classes c -> wf_world X w ->
  0 <= num -> 32 * num <= R ->
  exists w' es, EnsureFreeArraySpace P A w c num = Ok (true, w') /\ quiet X w X w' es /\
    4 * num <= mapped_free_array (region w' c) /\
    allocated_user (region w' c) = allocated_user (region w c) /\ mapped_user (region w' c) = mapped_user (region w c) /\
    allocated_meta (region w' c) = allocated_meta (region w c) /\ mapped_meta (region w' c) = mapped_meta (region w c) /\
    free_array (region w' c) = free_array (region w c) /\ rand_state (region w' c) = rand_state (region w c).
Proof.
  intros Hc W Hn HnR. unfold EnsureFreeArraySpace. pose proof (wf_region _ _ W c Hc) as Hok. pose proof Hok as [K1 K2 K3 K4].
  pose proof region_numbers as (HR1 & HR2 & HFA). change (2 ^ 18) with 262144 in *.
  destruct (Z.ltb_spec (mapped_free_array (region w c)) (num * 4)) as [Hlt | Hge].
  2: { exists w, []. split; [done |]. split; [| split_and!; done || lia].
       apply (quiet_same X w w c (region w c)); try done. intros d. by destruct (decide (d = c)) as [-> |]. }
  assert (Hmf0 : 0 <= mapped_free_array (region w c)) by (unfold num_freed_chunks in K4; lia).
  destruct (round_up_to_pow (num * 4) 18) as (y & Hy & Hyb & Hym); [change (2 ^ 50) with 1125899906842624; lia | lia |].
  unfold kFreeArrayMapSize. rewrite Hy, Ok_bind. change (2 ^ 18) with 262144 in *. rewrite HFA.
  assert (HyR : y <= R / 8) by zlia. rewrite check_true by (by apply Z.leb_le). rewrite Ok_bind.
  rewrite GetRegionBegin_Reg, GetFreeArray_Reg by done.
  set (o := R - R / 8 + mapped_free_array (region w c)). set (size := y - mapped_free_array (region w c)).
  assert (Hbeg : Reg c + (R - R / 8) +w mapped_free_array (region w c) = Reg c + o).
  { pose proof (region_word c o Hc ltac:(unfold o; zlia)) as Hw. change (2 ^ 63) with 9223372036854775808 in Hw.
    unfold o in *. rewrite wrap_small; [lia |]. unfold is_uptr, word_modulus. lia. }
  rewrite Hbeg. destruct (MapWithCallback_spec w (Reg c + o) size) as [[_ H0] | ->].
  { exfalso. apply (setting_free_array (os_calls (alloc_ w)) c (Reg c + o) size Hc); [| | exact H0].
    - rewrite GetRegionBegin_Reg, GetFreeArray_Reg by done. unfold o. lia.
    - rewrite GetRegionBegin_Reg, GetFreeArray_Reg, HFA by done. unfold o, size. lia. }
  rewrite Ok_bind. cbn [negb]. eexists _, _. split; [done |]. rewrite region_set_eq. split; [| split_and!; done || (cbn; lia)].
  apply (quiet_map X w _ c o size (with_mapped_free_array (region w c) y)); try done; unfold o, size; try zlia.
  - intros d. by rewrite region_set.
  - split; cbn; try done. unfold num_freed_chunks in *. cbn. change (2 ^ 18) with 262144. lia.
  - intros x. unfold region_owns. cbn. destruct K3. zlia.
  - intros x Hx. unfold region_owns. destruct K2 as (_ & ? & _). zlia.
Qed.

(** ** Populating *)

Lemma quiet_set_same (X : Z -> list Z) (w : world) (c : Z) (r' : RegionInfo) : in_classes c -> wf_world X w ->
  same_shape (region w c) r' -> quiet X w X (set_region w c r') [].
Proof. intros Hc W H. apply (quiet_same X w _ c r'); try done. intros d. by rewrite region_set. Qed.

Lemma first_mapping_spec (X : Z -> list Z) (w : world) (c : Z) : in_classes c -> wf_world X w ->
  quiet X w X (first_mapping P A w c) [] /\ same_shape (region w c) (region (first_mapping P A w c) c).
Proof.
  intros Hc W. unfold first_mapping.
  set (w1 := if negb (kUsingConstantSpaceBeg A) && kRandomShuffleChunks A then _ else w).
  assert (H1 : quiet X w X w1 [] /\ same_shape (region w c) (region w1 c)).
  { unfold w1. destruct (_ && _).
    - split; [by apply quiet_set_same | by rewrite region_set_eq].
    - split; [| done]. apply (quiet_same X w w c (region w c)); try done. intros d. by destruct (decide (d = c)) as [-> |]. }
  destruct H1 as [Q1 S1]. destruct (0 <=? _); [| done]. pose proof (quiet_wf _ _ _ _ _ Q1) as W1.
  pose proof (quiet_os_call X w1 c Hc W1) as Q2. pose proof (quiet_wf _ _ _ _ _ Q2) as W2. split.
  - refine (quiet_trans _ _ _ _ _ _ [] [] Q1 (quiet_trans _ _ _ _ _ _ [] [] Q2 _)). by apply quiet_set_same.
  - rewrite region_set_eq. etrans; [exact S1 |]. done.
Qed.

Lemma IsRegionExhausted_spec (r : RegionInfo) (n : Z) : exists r',
  IsRegionExhausted P A r n = (negb (mapped_user r + mapped_meta r + n <=? R - R / 8), r') /\ same_shape r r'.
Proof.
  unfold IsRegionExhausted. pose proof region_numbers as (_ & _ & ->).
  destruct (_ <=? _); cbn [negb]; [by exists r |]. eexists. split; [done |]. by destruct (negb _).
Qed.

Lemma map_user_memory_spec (X : Z -> list Z) (w : world) (c n : Z) : in_classes c -> wf_world X w -> 0 < n ->
  mapped_user (region w c) + n * Size P c + 2 ^ 18 <= R / 2 ->
  exists ok mapped w' es, map_user_memory P A w c n = Ok (ok, mapped, w') /\ quiet X w X w' es /\
    free_array (region w' c) = free_array (region w c) /\ allocated_user (region w' c) = allocated_user (region w c) /\
    allocated_meta (region w' c) = allocated_meta (region w c) /\
    (ok = true -> allocated_user (region w c) + n * Size P c <= mapped_user (region w' c)).
Proof.
  intros Hc W Hn Hroom. unfold map_user_memory. pose proof (wf_region _ _ W c Hc) as Hok. pose proof Hok as [K1 K2 K3 K4].
  pose proof region_numbers as (HR1 & HR2 & HFA). change (2 ^ 18) with 262144 in *. destruct (Size_bound c Hc) as [Hs _].
  assert (Hnz : 0 < n * Size P c) by nia.
  assert (Hmf0 : 0 <= mapped_free_array (region w c)) by (unfold num_freed_chunks in K4; lia).
  destruct (Z.ltb_spec (mapped_user (region w c)) (allocated_user (region w c) + n * Size P c)) as [Hlt | Hge].
  2: { exists true, 0, w, []. split; [done |]. split; [| split_and!; done || lia].
       apply (quiet_same X w w c (region w c)); try done. intros d. by destruct (decide (d = c)) as [-> |]. }
  set (w1 := if mapped_user (region w c) =? 0 then _ else w).
  assert (H1 : quiet X w X w1 [] /\ same_shape (region w c) (region w1 c)).
  { unfold w1. destruct (_ =? 0); [by apply first_mapping_spec |]. split; [| done].
    apply (quiet_same X w w c (region w c)); try done. intros d. by destruct (decide (d = c)) as [-> |]. }
  destruct H1 as [Q1 S1]. clearbody w1. pose proof (quiet_wf _ _ _ _ _ Q1) as W1.
  destruct (round_up_to_pow (allocated_user (region w c) + n * Size P c - mapped_user (region w c)) 18) as (y & Hy & Hyb & Hym);
    [change (2 ^ 50) with 1125899906842624; zlia | lia |].
  unfold kUserMapSize. rewrite Hy, Ok_bind. change (2 ^ 18) with 262144 in *.
  destruct (IsRegionExhausted_spec (region w1 c) y) as (r2 & -> & S2).
  assert (S12 : same_shape (region w c) r2) by (by etrans). set (w2 := set_region w1 c r2).
  assert (Q2 : quiet X w X w2 []) by (refine (quiet_trans _ _ _ _ _ _ [] [] Q1 _); by apply quiet_set_same).
  pose proof (quiet_wf _ _ _ _ _ Q2) as W2. assert (Hr2 : region w2 c = r2) by apply region_set_eq.
  destruct S12 as [[E1 E2] [E3 E5] [E4 E6]]. destruct S1 as [_ [_ F5] [_ F6]]. rewrite F5, F6.
  destruct (Z.leb_spec (mapped_user (region w c) + mapped_meta (region w c) + y) (R - R / 8)) as [Hfit | Hfull]; cbn [negb].
  2: { exists false, 0, w2, []. rewrite Hr2. by split_and!. }
  rewrite GetRegionBegin_Reg, E5 by done. set (o := mapped_user (region w c)) in *.
  assert (Hbeg : Reg c +w o = Reg c + o).
  { pose proof (region_word c o Hc ltac:(unfold o; zlia)) as Hw. change (2 ^ 63) with 9223372036854775808 in Hw.
    rewrite wrap_small; [lia |]. unfold is_uptr, word_modulus. lia. }
  rewrite Hbeg. destruct (MapWithCallback_spec w2 (Reg c + o) y) as [[-> _] | ->]; rewrite Ok_bind; cbn [negb].
  - eexists false, 0, _, []. split; [done |]. split; [| change (region (os_call w2) c) with (region w2 c); rewrite Hr2; by split_and!].
    refine (quiet_trans _ _ _ _ _ _ [] [] Q2 _). by apply (quiet_os_call X w2 c).
  - eexists true, y, _, _. split; [done |]. rewrite region_set_eq. change (region (mapped_world w2 (Reg c + o) y) c) with (region w2 c).
    rewrite Hr2. split; [| split_and!; done || (cbn; unfold o; lia)].
    refine (quiet_trans _ _ _ _ _ _ [] _ Q2 _).
    apply (quiet_map X w2 _ c o y (with_mapped_user r2 (o + y))); try done; try (unfold o; clear X W W1 W2 Q1 Q2; zlia).
    + intros d. by rewrite region_set.
    + split; unfold num_freed_chunks in *; cbn; rewrite ?E1, ?E2, ?E3, ?E4, ?E6; change (2 ^ 18) with 262144; try done; unfold o; zlia.
    + by rewrite Hr2.
    + by rewrite Hr2.
    + intros x. rewrite Hr2. unfold region_owns. cbn. rewrite E2, E5, E6. fold o. zlia.
    + intros x Hx. rewrite Hr2. unfold region_owns. rewrite E2, E5, E6. fold o. zlia.
Qed.

Lemma quiet_none (X : Z -> list Z) (w : world) (c : Z) : in_classes c -> wf_world X w -> quiet X w X w [].
Proof. intros Hc W. apply (quiet_same X w w c (region w c)); try done. intros d. by destruct (decide (d = c)) as [-> |]. Qed.

Lemma map_metadata_spec (X : Z -> list Z) (w : world) (c n : Z) : in_classes c -> wf_world X w -> 0 <= n -> 32 * n <= R ->
  exists ok w' es, map_metadata P A w c n = Ok (ok, w') /\ quiet X w X w' es /\
    free_array (region w' c) = free_array (region w c) /\ allocated_user (region w' c) = allocated_user (region w c) /\
    allocated_meta (region w' c) = allocated_meta (region w c) /\ mapped_user (region w' c) = mapped_user (region w c) /\
    (ok = true -> allocated_meta (region w c) + n * kMetadataSize A <= mapped_meta (region w' c)).
Proof.
  intros Hc W Hn HnR. unfold map_metadata. pose proof (wf_region _ _ W c Hc) as Hok. pose proof Hok as [K1 K2 K3 K4].
  pose proof setting_metadata as Hm. change (2 ^ 12) with 4096 in Hm. change (2 ^ 18) with 262144 in *. change (2 ^ 16) with 65536 in *.
  pose proof region_numbers as (HR1 & HR2 & HFA). pose proof (quiet_none X w c Hc W) as Q0.
  assert (Hmf0 : 0 <= mapped_free_array (region w c)) by (unfold num_freed_chunks in K4; lia).
  destruct (Z.eqb_spec (kMetadataSize A) 0) as [Hz | Hz]; cbn [negb]; [exists true, w, []; split_and!; done || nia |].
  assert (Htot : allocated_meta (region w c) + n * kMetadataSize A <= 2 ^ 50).
  { change (2 ^ 50) with 1125899906842624. assert (n * kMetadataSize A <= 2147483648 * 4096) by nia. zlia. }
  destruct (Z.ltb_spec (mapped_meta (region w c)) (allocated_meta (region w c) + n * kMetadataSize A)) as [Hlt | Hge].
  2: { rewrite Ok_bind. cbn [Z.eqb negb]. exists true, w, []. by split_and!. }
  destruct (round_up_to_pow (allocated_meta (region w c) + n * kMetadataSize A - mapped_meta (region w c)) 16) as (y & Hy & Hyb & Hym); [lia | lia |].
  unfold kMetaMapSize. rewrite Hy, Ok_bind. change (2 ^ 16) with 65536 in *. rewrite (proj2 (Z.eqb_neq y 0)) by lia. cbn [negb].
  destruct (IsRegionExhausted_spec (region w c) y) as (r2 & -> & S2). set (w2 := set_region w c r2).
  assert (Q2 : quiet X w X w2 []) by by apply quiet_set_same. pose proof (quiet_wf _ _ _ _ _ Q2) as W2.
  assert (Hr2 : region w2 c = r2) by apply region_set_eq. destruct S2 as [[E1 E2] [E3 E5] [E4 E6]].
  destruct (Z.leb_spec (mapped_user (region w c) + mapped_meta (region w c) + y) (R - R / 8)) as [Hfit | Hfull]; cbn [negb].
  2: { exists false, w2, []. rewrite Hr2. by split_and!. }
  rewrite GetRegionBegin_Reg, E6 by done. set (o := R - R / 8 - mapped_meta (region w c) - y).
  assert (Hbeg : GetMetadataEnd P A (Reg c) - mapped_meta (region w c) -w y = Reg c + o).
  { pose proof (GetFreeArray_Reg c Hc) as Hf. unfold GetFreeArray in Hf. rewrite Hf.
    pose proof (region_word c o Hc ltac:(unfold o; zlia)) as Hw. change (2 ^ 63) with 9223372036854775808 in Hw.
    unfold o in *. rewrite wrap_small; [lia |]. unfold is_uptr, word_modulus. lia. }
  rewrite Hbeg. destruct (MapWithCallback_spec w2 (Reg c + o) y) as [[-> _] | ->]; rewrite Ok_bind; cbn [negb].
  - eexists false, _, []. split; [done |]. split; [| change (region (os_call w2) c) with (region w2 c); rewrite Hr2; by split_and!].
    refine (quiet_trans _ _ _ _ _ _ [] [] Q2 _). by apply (quiet_os_call X w2 c).
  - eexists true, _, _. split; [done |]. rewrite region_set_eq. change (region (mapped_world w2 (Reg c + o) y) c) with (region w2 c).
    rewrite Hr2. split; [| split_and!; done || (cbn; lia)].
    refine (quiet_trans _ _ _ _ _ _ [] _ Q2 _).
    apply (quiet_map X w2 _ c o y (with_mapped_meta r2 (mapped_meta (region w c) + y))); try done; try (unfold o; clear X W W2 Q2 Q0; zlia).
    + intros d. by rewrite region_set.
    + split; unfold num_freed_chunks in *; cbn; rewrite ?E1, ?E2, ?E3, ?E4, ?E5; change (2 ^ 18) with 262144; change (2 ^ 16) with 65536; try done; zlia.
    + by rewrite Hr2.
    + by rewrite Hr2.
    + intros x. rewrite Hr2. unfold region_owns. cbn. rewrite E2, E5, E6. unfold o. lia.
    + intros x Hx. rewrite Hr2. unfold region_owns. rewrite E2, E5, E6. unfold o in Hx. lia.
Qed.

(** ** The new chunks *)

Lemma compact_entry (c j : Z) : in_classes c -> 0 <= j -> j * Size P c < R -> PointerToCompactPtr 0 (j * Size P c) = entry c j.
Proof.
  intros Hc Hj Hb. pose proof region_numbers. destruct (Size_units c Hc) as [Hs Hu]. unfold PointerToCompactPtr, kCompactPtrScale, entry.
  rewrite Z.sub_0_r, wrap_small by (unfold is_uptr, word_modulus; nia). rewrite Z.shiftr_div_pow2 by lia. change (2 ^ 4) with 16.
  rewrite Hs. replace (j * (16 * units c)) with (j * units c * 16) by lia. rewrite Z.div_mul by lia. apply Z.mod_small. nia.
Qed.

Lemma new_entries_perm (c : Z) (k : nat) : in_classes c -> forall j, 0 <= j -> (j + Z.of_nat k) * Size P c <= R ->
  new_entries (j * Size P c) (Size P c) k ≡ₚ map (entry c) (seqZ j (Z.of_nat k)).
Proof.
  intros Hc. pose proof (Size_bound c Hc) as [Hs _]. induction k as [| k IH]; intros j Hj Hb; cbn [new_entries]; [done |].
  rewrite (seqZ_cons j) by lia. cbn [map]. replace (Z.succ j) with (j + 1) by lia. replace (Z.pred (Z.of_nat (S k))) with (Z.of_nat k) by lia.
  replace (j * Size P c + Size P c) with ((j + 1) * Size P c) by lia. rewrite IH by lia. rewrite compact_entry by (done || nia).
  symmetry. apply Permutation_cons_append.
Qed.

Lemma Swap_perm (a : list Z) (i j : nat) : Swap a i j ≡ₚ a.
Proof.
  unfold Swap. destruct (a !! i) as [x |] eqn:Hi; [| done]. destruct (a !! j) as [y |] eqn:Hj; [| done].
  destruct (decide (i = j)) as [-> | Hne].
  - assert (x = y) as -> by congruence. by rewrite !list_insert_id by (rewrite ?list_insert_id; done).
  - apply (Permutation_inj _ _). split; [by rewrite !length_insert |].
    exists (fun n => if decide (n = i) then j else if decide (n = j) then i else n). split.
    + intros u v. repeat case_decide; congruence.
    + intros n. case_decide as H1; [subst n | case_decide as H2; [subst n |]].
      * rewrite Hj. rewrite list_lookup_insert_ne, list_lookup_insert_eq by (done || by eapply lookup_lt_Some). done.
      * rewrite Hi. rewrite list_lookup_insert_eq; [done |]. rewrite length_insert. by eapply lookup_lt_Some.
      * by rewrite !list_lookup_insert_ne by done.
Qed.

Lemma shuffle_perm (i : nat) : forall a s, fst (shuffle_loop a s i) ≡ₚ a.
Proof.
  induction i as [| i IH]; intros a s; cbn [shuffle_loop]; [done |]. destruct (RandN _ _) as [s' r]. by rewrite IH, Swap_perm.
Qed.

Lemma RandomShuffle_perm (a : list Z) (s : Z) : fst (RandomShuffle a s) ≡ₚ a.
Proof. unfold RandomShuffle. destruct (_ <=? 1)%nat; [done |]. apply shuffle_perm. Qed.

Lemma made_add (c : Z) (r : RegionInfo) (n : Z) : in_classes c -> (allocated_user r + n * Size P c) / Size P c = made c r + n.
Proof. intros Hc. pose proof (Size_bound c Hc). unfold made. apply Z.div_add. lia. Qed.

(** New chunks join the free ones. *)
Lemma add_chunks (X : Z -> list Z) (w : world) (c n : Z) (entries : list Z) (r' : RegionInfo) : in_classes c -> wf_world X w -> 0 <= n ->
  let r := region w c in
  entries ≡ₚ map (entry c) (seqZ (made c r) n) ->
  free_array r' = free_array r ++ entries -> mapped_free_array r' = mapped_free_array r ->
  allocated_user r' = allocated_user r + n * Size P c -> mapped_user r' = mapped_user r ->
  allocated_meta r' = allocated_meta r + n * kMetadataSize A -> mapped_meta r' = mapped_meta r ->
  allocated_user r' <= mapped_user r -> allocated_meta r' <= mapped_meta r -> 4 * (num_freed_chunks r + n) <= mapped_free_array r ->
  quiet X w X (set_region w c r') [].
Proof.
  intros Hc W Hn r Hent E1 E2 E3 E4 E5 E6 Hu Hm Hf. pose proof (wf_region _ _ W c Hc) as Hok. fold r in Hok. pose proof Hok as [K1 K2 K3 K4].
  destruct (made_units c r Hc Hok) as (Hmu & Hm0 & _). destruct (Size_bound c Hc) as [Hs _]. pose proof setting_metadata.
  assert (Hmade : made c r' = made c r + n) by (unfold made at 1; rewrite E3; by apply made_add).
  assert (Hlen : length entries = Z.to_nat n) by (by rewrite Hent, length_map, length_seqZ).
  assert (HF : free_array r' ++ X c ≡ₚ map (entry c) (seqZ (made c r) n) ++ free_chunks X w c).
  { rewrite E1, Hent. unfold free_chunks. fold r. rewrite <- app_assoc. apply Permutation_app_swap_app. }
  destruct (wf_entries _ _ W c Hc) as [Hnd Hin]. fold r in Hin.
  assert (Hnew : forall x, x ∈ map (entry c) (seqZ (made c r) n) <-> exists j, x = entry c j /\ made c r <= j < made c r + n).
  { intros x. rewrite list_elem_of_In, in_map_iff. setoid_rewrite <- list_elem_of_In. setoid_rewrite elem_of_seqZ.
    split; intros (j & ? & ?); exists j; split; (done || lia). }
  apply (quiet_region X X w _ c r'); try done.
  - intros d. by rewrite region_set.
  - split; unfold num_freed_chunks in *; rewrite ?E1, ?E2, ?E3, ?E4, ?E5, ?E6.
    + split; [lia |]. rewrite Z.mod_add by lia. apply K1.
    + done.
    + split; [nia | apply K3].
    + rewrite length_app, Hlen. split; [apply K4 |]. lia.
  - unfold entries_ok. rewrite HF, Hmade. split.
    + apply NoDup_app. split_and!; [| | done].
      * apply NoDup_fmap_2_strong; [| apply NoDup_seqZ]. intros x y _ _ Hxy. by apply (entry_inj c).
      * intros x (j & -> & Hj)%Hnew (k & Hk%entry_inj & Hk')%Hin; [lia | done].
    + intros x. rewrite HF. intros [Hx | Hx]%elem_of_app; [apply Hnew in Hx as (j & -> & Hj) | destruct (Hin x Hx) as (j & -> & Hj)]; exists j; (split; [done | lia]).
  - intros j. rewrite HF, Hmade, not_elem_of_app, Hnew. fold r. split.
    + intros (Hj & Hj1 & Hj2). split; [| done]. destruct (Z.lt_ge_cases j (made c r)); [lia |]. exfalso. apply Hj1. exists j. split; [done | lia].
    + intros (Hj & Hj'). split_and!; [lia | lia | | done]. intros (k & Hk%entry_inj & Hk'); [lia | done].
  - cbn. by rewrite app_nil_r.
  - intros o. fold r. unfold region_owns. rewrite E2, E4, E6. split; [by left | intros [? | (e & [] & _)]; done].
  - intros a. by left.
Qed.

Lemma PopulateFreeArray_spec (X : Z -> list Z) (w : world) (c n : Z) : in_classes c -> wf_world X w -> 0 < n ->
  mapped_user (region w c) + n * Size P c + 2 ^ 18 <= R / 2 ->
  exists ok mapped w' es, PopulateFreeArray P A w c n = Ok (ok, mapped, w') /\ quiet X w X w' es /\
    (ok = true -> num_freed_chunks (region w c) + n <= num_freed_chunks (region w' c)).
Proof.
  intros Hc W Hn Hroom. unfold PopulateFreeArray. pose proof region_numbers as (HR1 & HR2 & HFA). destruct (Size_bound c Hc) as [Hs _].
  destruct (map_user_memory_spec X w c n Hc W Hn Hroom) as (ok1 & mapped & w1 & es1 & -> & Q1 & F1 & U1 & _ & HU).
  rewrite Ok_bind. destruct ok1; cbn [negb]; [| eexists false, _, _, _; by split_and!]. specialize (HU eq_refl).
  pose proof (quiet_wf _ _ _ _ _ Q1) as W1. pose proof (wf_region _ _ W1 c Hc) as [K1 K2 _ _].
  set (r1 := region w1 c) in *. set (new := (mapped_user r1 - allocated_user r1) / Size P c).
  pose proof (Z.div_mod (mapped_user r1 - allocated_user r1) (Size P c) ltac:(lia)) as Hdm. fold new in Hdm.
  pose proof (Z.mod_pos_bound (mapped_user r1 - allocated_user r1) (Size P c) ltac:(lia)).
  assert (Hnew : n <= new) by (rewrite U1 in *; nia). assert (Hfit : allocated_user r1 + new * Size P c <= mapped_user r1) by lia.
  assert (HRn : 32 * (made c r1 + new) <= R).
  { rewrite <- made_add by done. assert ((allocated_user r1 + new * Size P c) / Size P c <= (mapped_user r1) / 16).
    { apply Z.div_le_lower_bound; [lia |]. pose proof (Z.div_mod (allocated_user r1 + new * Size P c) (Size P c) ltac:(lia)).
      pose proof (Z.mod_pos_bound (allocated_user r1 + new * Size P c) (Size P c) ltac:(lia)).
      assert (0 <= (allocated_user r1 + new * Size P c) / Size P c) by (apply Z.div_pos; nia). nia. }
    zlia. }
  destruct (free_bound X w1 c Hc W1) as [Hfb _]. unfold free_chunks in Hfb. fold r1 in Hfb. rewrite length_app in Hfb.
  destruct (map_metadata_spec X w1 c new Hc W1) as (ok2 & w2 & es2 & -> & Q2 & F2 & U2 & A2 & M2 & HM); [lia | lia |].
  rewrite Ok_bind. pose proof (quiet_trans _ _ _ _ _ _ _ _ Q1 Q2) as Q12.
  destruct ok2; cbn [negb]; [| eexists false, _, _, _; by split_and!]. specialize (HM eq_refl).
  pose proof (quiet_wf _ _ _ _ _ Q2) as W2. fold r1 in F2, U2, A2, M2, HM.
  destruct (EnsureFreeArraySpace_spec X w2 c (num_freed_chunks (region w2 c) + new) Hc W2) as (w3 & es3 & -> & Q3 & HE & U3 & M3 & A3 & MM3 & F3 & _);
    [unfold num_freed_chunks; lia | unfold num_freed_chunks; rewrite F2; lia |].
  rewrite Ok_bind. cbn [negb]. pose proof (quiet_trans _ _ _ _ _ _ _ _ Q12 Q3) as Q123. pose proof (quiet_wf _ _ _ _ _ Q3) as W3.
  set (r3 := region w3 c) in *. set (entries0 := new_entries (allocated_user r3) (Size P c) (Z.to_nat new)).
  assert (Hent : entries0 ≡ₚ map (entry c) (seqZ (made c r3) new)).
  { unfold entries0. destruct (made_units c r3 Hc (wf_region _ _ W3 c Hc)) as (-> & Hm0 & _).
    rewrite new_entries_perm; [by rewrite Z2Nat.id by lia | done | done |]. rewrite Z2Nat.id by lia.
    unfold made. rewrite U3, U2. fold (made c r1). rewrite Z.mul_add_distr_r.
    destruct (made_units c r1 Hc (wf_region _ _ W1 c Hc)) as (<- & _ & _). zlia. }
  assert (Hsh : exists entries rand, (if kRandomShuffleChunks A then RandomShuffle entries0 (rand_state r3) else (entries0, rand_state r3)) = (entries, rand) /\
    entries ≡ₚ map (entry c) (seqZ (made c r3) new)).
  { destruct (kRandomShuffleChunks A); [| by eexists _, _]. destruct (RandomShuffle entries0 (rand_state r3)) as [l s] eqn:E.
    eexists _, _. split; [done |]. rewrite <- Hent. change l with (fst (l, s)). rewrite <- E. apply RandomShuffle_perm. }
  destruct Hsh as (entries & rand & -> & Hperm).
  rewrite (check_true (allocated_user r3 + new * Size P c <=? mapped_user r3)) by (apply Z.leb_le; lia). rewrite Ok_bind.
  rewrite (check_true (allocated_meta r3 + new * kMetadataSize A <=? mapped_meta r3)) by (apply Z.leb_le; lia). rewrite Ok_bind.
  eexists true, _, _, _. split; [done |]. split.
  - refine (quiet_trans _ _ _ _ _ _ _ [] Q123 _). eapply (add_chunks X w3 c new entries); fold r3; try done; cbn; try lia.
    unfold num_freed_chunks in *. rewrite F3. lia.
  - intros _. rewrite region_set_eq. unfold num_freed_chunks. cbn. rewrite length_app, Hperm, length_map, length_seqZ, F3, F2, F1. lia.
Qed.

(** ** Releasing pages *)

Lemma page_numbers : exists l, GetPageSizeCached = 16 * 2 ^ l /\ 0 <= l <= 14 /\ 0 < 2 ^ l <= 16384 /\
  (forall c, Reg c mod GetPageSizeCached = 0) /\ 2 ^ 18 mod GetPageSizeCached = 0.
Proof.
  destruct setting_page as (l & Hp & Hl & Hm). exists l. split; [done |]. split; [done |].
  pose proof (Z.pow_pos_nonneg 2 l ltac:(lia) ltac:(lia)). pose proof (Z.pow_le_mono_r 2 l 14 ltac:(lia) ltac:(lia)) as Hle.
  change (2 ^ 14) with 16384 in Hle. split; [done |]. rewrite Hp in *.
  assert (H18 : 2 ^ 18 = 2 ^ (14 - l) * (16 * 2 ^ l)).
  { change 16 with (2 ^ 4). rewrite <- !Z.pow_add_r by lia. f_equal. lia. }
  split; [| rewrite H18; apply Z.mod_mul; lia]. intros c. unfold Reg.
  pose proof region_numbers as (_ & HR & _). apply Z.mod_divide in HR as [q HR]; [| lia].
  apply Z.mod_divide in Hm as [b Hb]; [| lia]. rewrite HR, Hb. change 2097152 with (8 * 2 ^ 18). rewrite H18.
  replace (b * (16 * 2 ^ l) + q * (8 * (2 ^ (14 - l) * (16 * 2 ^ l))) * c) with ((b + q * 8 * 2 ^ (14 - l) * c) * (16 * 2 ^ l)) by lia.
  apply Z.mod_mul. lia.
Qed.

Lemma page_pow2 : pow2_word GetPageSizeCached.
Proof. destruct page_numbers as (l & -> & Hl & _). exists (4 + l). split; [lia |]. by rewrite Z.pow_add_r by lia. Qed.

(** Releasing pages [[a, b)] of a region. *)
Lemma ReleasePageRangeToOS_spec (c l a b : Z) (m : memory) (ranges bytes : Z) : in_classes c -> GetPageSizeCached = 16 * 2 ^ l -> 0 <= l <= 14 ->
  0 <= a < b -> b * GetPageSizeCached <= R / 2 ->
  exists m' bytes', ReleasePageRangeToOS P A c (m, ranges, bytes) (Z.shiftl a l, Z.shiftl b l) = Ok (m', ranges + 1, bytes') /\
    (forall x, m' x = m x \/ Reg c + a * GetPageSizeCached <= x < Reg c + b * GetPageSizeCached) /\ (bytes_ok m -> bytes_ok m').
Proof.
  intros Hc Hp Hl Hab Hb. destruct page_numbers as (l' & _ & _ & _ & Hreg & _). specialize (Hreg c).
  pose proof region_numbers as (HR1 & _). pose proof (Z.pow_pos_nonneg 2 l ltac:(lia) ltac:(lia)) as Hl0.
  assert (Hpage : 16 <= GetPageSizeCached <= 262144).
  { destruct page_numbers as (l2 & Hp2 & _ & ? & _). lia. }
  set (pg := GetPageSizeCached) in *.
  assert (HbR : 2 * (b * pg) <= R) by (clear Hp; zlia).
  assert (HaR : 0 <= a * pg <= b * pg) by (split; [apply Z.mul_nonneg_nonneg | apply Z.mul_le_mono_nonneg_r]; lia).
  pose proof (region_word c (b * pg) Hc ltac:(lia)) as Hw.
  pose proof (region_word c (a * pg) Hc ltac:(lia)) as Hw'.
  change (2 ^ 63) with 9223372036854775808 in *.
  assert (Hptr : forall x, 0 <= x <= b -> CompactPtrToPointer (GetRegionBeginBySizeClass P A c) (to_u32 (Z.shiftl x l)) = Reg c + x * pg).
  { intros x Hx. unfold CompactPtrToPointer, kCompactPtrScale. rewrite GetRegionBegin_Reg, !Z.shiftl_mul_pow2 by (done || lia).
    change (2 ^ 4) with 16. assert (Hx' : 0 <= x * pg <= b * pg) by (split; [apply Z.mul_nonneg_nonneg | apply Z.mul_le_mono_nonneg_r]; lia).
    replace (x * pg) with (x * 2 ^ l * 16) in * by (rewrite Hp; lia).
    unfold to_u32. rewrite Z.mod_small by lia. pose proof (region_word c 0 Hc ltac:(lia)). apply wrap_small. unfold is_uptr, word_modulus. lia. }
  unfold ReleasePageRangeToOS. cbn [fst snd]. rewrite !Hptr by lia. unfold ReleaseMemoryPagesToOS. fold pg.
  assert (Hal : forall x, (Reg c + x * pg) mod pg = 0) by (intros x; rewrite Z.mod_add by nia; done).
  destruct (RoundUpTo_nowrap (Reg c + a * pg) pg ltac:(lia) page_pow2) as (y & -> & Hy & Hym);
    [unfold word_modulus; lia |]. rewrite Ok_bind.
  assert (y = Reg c + a * pg) as ->.
  { assert (Hd : (y - (Reg c + a * pg)) mod pg = 0) by (by rewrite Zminus_mod, Hym, Hal, Z.sub_0_r, Zmod_0_l).
    rewrite Z.mod_small in Hd by lia. lia. }
  rewrite RoundDownTo_spec, Hal, Z.sub_0_r by (try apply page_pow2; unfold is_uptr, word_modulus; lia).
  rewrite (proj2 (Z.ltb_lt _ _)) by nia. rewrite Ok_bind. eexists _, _. split; [done |]. split; [| apply bytes_ok_memset].
  intros x. destruct (Z.lt_ge_cases x (Reg c + a * pg)); [left; apply memset_out; by left |].
  destruct (Z.lt_ge_cases x (Reg c + b * pg)); [by right | left; apply memset_out; lia].
Qed.

(** The free chunks of a region by number. *)
Lemma free_numbers (X : Z -> list Z) (w : world) (c : Z) : in_classes c -> wf_world X w ->
  exists ks, free_array (region w c) = map (fun k => k * units c) ks /\ NoDup ks /\ forall k, k ∈ ks -> 0 <= k < made c (region w c).
Proof.
  intros Hc W. destruct (wf_entries _ _ W c Hc) as [Hnd Hin]. unfold free_chunks in *. apply NoDup_app in Hnd as (Hnd & _ & _).
  assert (Hin' : forall x, x ∈ free_array (region w c) -> exists j, x = entry c j /\ 0 <= j < made c (region w c)).
  { intros x Hx. apply Hin, elem_of_app. by left. }
  clear Hin. induction (free_array (region w c)) as [| x l IH].
  - exists []. split_and!; [done | constructor | intros k Hk; by apply elem_of_nil in Hk].
  - apply NoDup_cons in Hnd as [Hx Hnd]. destruct (IH Hnd) as (ks & -> & Hks & Hb); [intros y Hy; apply Hin'; by right |].
    destruct (Hin' x) as (j & -> & Hj); [by left |]. exists (j :: ks). split; [done |]. split.
    + apply NoDup_cons. split; [| done]. intros Hj'. apply Hx. apply list_elem_of_In, in_map_iff. exists j. split; [done |]. by apply list_elem_of_In.
    + intros k [-> | Hk]%elem_of_cons; [done | by apply Hb].
Qed.

(** A byte of a page whose chunks are all free is not in use. *)
Lemma free_page_not_live (X : Z -> list Z) (w : world) (c l j : Z) (ks : list Z) (x : Z) : in_classes c -> wf_world X w ->
  GetPageSizeCached = 16 * 2 ^ l -> 0 <= l -> free_array (region w c) = map (fun k => k * units c) ks ->
  (forall k, touches (2 ^ l) (units c) k j -> k ∈ ks) -> Reg c + j * GetPageSizeCached <= x < Reg c + (j + 1) * GetPageSizeCached ->
  0 <= x - Reg c < R -> ~ in_live X w x.
Proof.
  intros Hc W Hp Hl Hks Hall Hx HxR Hlive. pose proof Hlive as (d & k & (Hd & Hk & Hnot) & Hin).
  destruct (live_owned X w x W Hlive) as (d' & Hd' & Ho). pose proof (region_owns_bound d' _ _ (wf_region _ _ W d' Hd') Ho).
  destruct (made_bound d _ k Hd (wf_region _ _ W d Hd) Hk) as [H1 H2]. destruct (wf_region _ _ W d Hd) as [K1 K2 _ _].
  pose proof region_numbers. assert (d = c) as ->.
  { destruct (region_unique d c (x - Reg d) (x - Reg c)); [zlia | lia | lia | done]. }
  apply Hnot. unfold free_chunks. apply elem_of_app. left. rewrite Hks. apply list_elem_of_In, in_map_iff. exists k. split; [done |].
  apply list_elem_of_In, Hall. destruct (Size_units c Hc) as [Hs Hu]. unfold touches. rewrite Hp, Hs in *. nia.
Qed.

(** The memory released lies in the pages of the ranges. *)
Lemma release_ranges (c l n : Z) (rs : list (Z * Z)) (m : memory) : in_classes c -> GetPageSizeCached = 16 * 2 ^ l -> 0 <= l <= 14 ->
  ranges_below l rs n -> n * GetPageSizeCached <= R / 2 ->
  exists m' k bytes, for_each (ReleasePageRangeToOS P A c) (m, 0, 0) rs = Ok (m', k, bytes) /\ (bytes_ok m -> bytes_ok m') /\
    forall x, m' x = m x \/ exists j, in_ranges l rs j /\ Reg c + j * GetPageSizeCached <= x < Reg c + (j + 1) * GetPageSizeCached.
Proof.
  intros Hc Hp Hl Hbelow Hn. pose proof (Z.pow_pos_nonneg 2 l ltac:(lia) ltac:(lia)) as Hl0.
  destruct (for_each_spec (ReleasePageRangeToOS P A c)
    (fun _ s => (bytes_ok m -> bytes_ok (fst (fst s))) /\
      forall x, fst (fst s) x = m x \/ exists j, in_ranges l rs j /\ Reg c + j * GetPageSizeCached <= x < Reg c + (j + 1) * GetPageSizeCached)
    rs (m, 0, 0)) as ([[m' k] bytes] & -> & Hb & Hm); [split; [done | by left] | | by exists m', k, bytes].
  intros done_ r rest [[m1 k] b] Hrs [Hb1 Hm1]. cbn [fst] in *.
  assert (Hr : r ∈ rs) by (rewrite Hrs; apply elem_of_app; right; by left).
  destruct (Hbelow r Hr) as (x & y & Hxy & Hxy1 & Hxy2). rewrite Hxy.
  destruct (ReleasePageRangeToOS_spec c l x y m1 k b Hc Hp Hl Hxy1) as (m2 & b2 & -> & Hm2 & Hb2).
  { assert (y * GetPageSizeCached <= n * GetPageSizeCached) by (apply Z.mul_le_mono_nonneg_r; lia). lia. }
  eexists. split; [done |]. cbn. split; [by auto |]. intros z. destruct (Hm2 z) as [-> | Hz]; [by apply Hm1 |]. right.
  set (pg := GetPageSizeCached) in *. pose proof (Z.div_mod (z - Reg c) pg ltac:(lia)). pose proof (Z.mod_pos_bound (z - Reg c) pg ltac:(lia)).
  exists ((z - Reg c) / pg). split; [| lia]. exists r, x, y. split_and!; [done | done | |].
  - apply Z.div_le_lower_bound; lia.
  - apply Z.div_lt_upper_bound; lia.
Qed.

Lemma quiet_release (X : Z -> list Z) (w w' : world) (c : Z) (r' : RegionInfo) : in_classes c -> wf_world X w ->
  (forall d, region w' d = if decide (d = c) then r' else region w d) -> log_ w' = log_ w -> same_shape (region w c) r' ->
  (bytes_ok (mem_ w) -> bytes_ok (mem_ w')) ->
  (forall a, mem_ w' a = mem_ w a \/ region_owns (region w c) (a - Reg c) /\ ~ in_live X w a) ->
  quiet X w X w' [].
Proof.
  intros Hc W Hr Hlog [[E1 E2] [E3 E5] [E4 E6]] Hb Hm. apply (quiet_region X X w w' c r'); try done.
  - destruct (wf_region _ _ W c Hc) as [H1 H2 H3 H4]. split; unfold num_freed_chunks in *; by rewrite ?E1, ?E2, ?E3, ?E4, ?E5, ?E6.
  - unfold entries_ok, made. rewrite E1, E3. apply (wf_entries _ _ W c Hc).
  - intros j. unfold made. by rewrite E1, E3.
  - by rewrite Hlog, app_nil_r.
  - intros o. unfold region_owns. rewrite E2, E5, E6. split; [by left | intros [? | (e & [] & _)]; done].
  - intros a. unfold region_owns. rewrite E2, E5, E6. apply Hm.
Qed.

(** What ReleaseFreeMemoryToOS needs to know of a region. *)
Lemma region_pages (X : Z -> list Z) (w : world) (c : Z) : in_classes c -> wf_world X w -> 0 < allocated_user (region w c) ->
  exists n, RoundUpTo (allocated_user (region w c)) GetPageSizeCached = Ok (n * GetPageSizeCached) /\ 0 < n < 2 ^ 60 /\
    allocated_user (region w c) <= n * GetPageSizeCached <= mapped_user (region w c).
Proof.
  intros Hc W Hpos. destruct (wf_region _ _ W c Hc) as [K1 K2 _ _]. pose proof region_numbers as (HR1 & _).
  destruct page_numbers as (l & Hp & Hl & Hl2 & _ & H18). set (pg := GetPageSizeCached) in *.
  destruct (RoundUpTo_nowrap (allocated_user (region w c)) pg ltac:(lia) page_pow2) as (y & Hy & Hyb & Hym); [unfold word_modulus; zlia |].
  rewrite Hy. apply Z.mod_divide in Hym as [n ->]; [| lia]. exists n. split; [done |]. change (2 ^ 60) with 1152921504606846976.
  assert (Hmm : mapped_user (region w c) mod pg = 0).
  { destruct K2 as [K2 _]. apply Z.mod_divide in K2 as [u ->]; [| lia]. apply Z.mod_divide in H18 as [v Hv]; [| lia]. rewrite Hv.
    replace (u * (v * pg)) with (u * v * pg) by lia. apply Z.mod_mul. lia. }
  apply Z.mod_divide in Hmm as [q Hq]; [| lia].
  assert (Hnq : n <= q) by (destruct K1; nia). split_and!; [nia | | lia | rewrite Hq; nia].
  destruct K2 as (_ & ? & _). assert (q * pg <= R) by zlia. nia.
Qed.

Lemma MaybeReleaseToOS_spec (X : Z -> list Z) (w : world) (c : Z) (force : bool) : in_classes c -> wf_world X w ->
  exists w', MaybeReleaseToOS P A w c force = Ok w' /\ quiet X w X w' [] /\ same_shape (region w c) (region w' c).
Proof.
  intros Hc W. unfold MaybeReleaseToOS. pose proof (quiet_none X w c Hc W) as Q0. destruct page_numbers as (l & Hp & Hl & Hl2 & _).
  destruct (Z.ltb_spec (num_freed_chunks (region w c) * Size P c) GetPageSizeCached) as [| Hfree]; [by exists w |].
  destruct (_ <? GetPageSizeCached); [by exists w |]. destruct (negb force && (_ <? 0)); [by exists w |].
  set (w1 := if negb force then os_call w else w).
  assert (Q1 : quiet X w X w1 []) by (unfold w1; destruct (negb force); [by apply (quiet_os_call X w c) | done]).
  assert (Hr1 : forall d, region w1 d = region w d) by (intros d; unfold w1; by destruct (negb force)).
  assert (Hm1 : mem_ w1 = mem_ w) by (unfold w1; by destruct (negb force)). assert (Hl1 : log_ w1 = log_ w) by (unfold w1; by destruct (negb force)).
  destruct (negb force && _); [exists w1; split_and!; [done | done | by rewrite Hr1] |]. clearbody w1.
  destruct (free_numbers X w c Hc W) as (ks & Hks & Hnd & Hkb). pose proof (wf_region _ _ W c Hc) as Hok. destruct (Size_units c Hc) as [Hs Hu].
  assert (Hkpos : exists k, k ∈ ks).
  { destruct ks as [| k ks]; [| exists k; by left]. unfold num_freed_chunks in Hfree. rewrite Hks in Hfree. cbn in Hfree. lia. }
  destruct Hkpos as (k0 & Hk0). destruct (made_bound c _ k0 Hc Hok (Hkb k0 Hk0)).
  destruct (region_pages X w c Hc W) as (n & Hround & Hn & Hnb); [lia |]. rewrite Hround, Ok_bind.
  assert (Hpg : 0 < GetPageSizeCached) by lia. rewrite Z.div_mul by lia. rewrite Hks, Hs. destruct (Size_bound c Hc) as [[_ Hs30] _].
  destruct (ReleaseFreeMemoryToOS_spec l (units c) n ltac:(lia) ltac:(change (2 ^ 40) with 1099511627776; change (2 ^ 30) with 1073741824 in *; lia)
    ltac:(lia) ks Hnd) as (rs & Hrs & Hbelow & Hfull).
  { intros k Hk. destruct (made_bound c _ k Hc Hok (Hkb k Hk)) as [H1 H2]. split; [apply (Hkb k Hk) |].
    apply Z.div_lt_upper_bound; [lia |]. rewrite Hs in *. rewrite Hp in Hnb. nia. }
  rewrite <- Hp in Hrs. rewrite Hrs, Ok_bind. destruct (ok_mapped _ _ Hok) as (_ & Hmap & _).
  destruct (release_ranges c l n rs (mem_ w1) Hc Hp Hl Hbelow ltac:(lia)) as (m & k & bytes & -> & Hb & Hm). rewrite Ok_bind.
  eexists. split; [done |]. rewrite region_set_eq. split; [| by destruct (negb (k =? 0))].
  match goal with |- quiet _ _ _ (set_region _ _ ?r) _ => apply (quiet_release X w _ c r) end; try done.
  - intros d. rewrite region_set. destruct (decide (d = c)); [reflexivity | apply Hr1].
  - cbn. by rewrite <- Hm1.
  - intros x. cbn. rewrite <- Hm1. destruct (Hm x) as [-> | (j & Hj & Hx)]; [by left | right].
    assert (Hjn : 0 <= j < n).
    { destruct Hj as (r & a & b & Hr & Hab & Hjab). destruct (Hbelow r Hr) as (a' & b' & Hab' & ? & ?).
      pose proof (in_below l ltac:(lia) rs n j Hbelow ltac:(by exists r, a, b)). unfold pages_of in *. rewrite Hab in Hab'. injection Hab' as E1 E2.
      rewrite !Z.shiftl_mul_pow2 in E1, E2 by lia. nia. }
    pose proof region_numbers. assert (HxR : 0 <= x - Reg c < mapped_user (region w c)).
    { assert ((j + 1) * GetPageSizeCached <= n * GetPageSizeCached) by (apply Z.mul_le_mono_nonneg_r; lia).
      assert (0 <= j * GetPageSizeCached) by (apply Z.mul_nonneg_nonneg; lia). lia. }
    split; [left; done |]. apply (free_page_not_live X w c l j ks); try done; [lia | by apply Hfull | zlia].
Qed.
End space.
