(* ===== verification/Primary64Contract.v ===== *)
(** * The primary allocator keeps its promises

    Groups of chunks move between the free arrays and the caches of the
    threads; the blocks are the chunks that are in neither.  The last part
    discharges [PrimaryAllocatorSpec] for [primary64]. *)

From S2P Require Import Prelude Words ShadowMapping Memory ShadowWrites SizeClassMap HeapAllocator PackedCounters ReleaseToOS Primary64 Primary64Specs.

Section groups.
Context (M : mapping) (P : size_class_params) (A : primary_params) (OS : PrimaryOS).
Context `{!WfSizeClassMap P, !PrimarySetting M P A OS}.

Notation R := (kRegionSize P A).
Notation quiet := (quiet M P A).
Notation wf_world := (wf_world P A).
Notation in_classes := (in_classes P).
Notation made := (made P).
Notation entry := (entry P).

Definition upd (X : Z -> list Z) (c : Z) (l : list Z) (d : Z) : list Z := if decide (d = c) then l else X d.

Lemma upd_eq (X : Z -> list Z) (c : Z) (l : list Z) : upd X c l c = l.
Proof. unfold upd. by destruct (decide (c = c)). Qed.
Lemma upd_ne (X : Z -> list Z) (c d : Z) (l : list Z) : d <> c -> upd X c l d = X d.
Proof. intros H. unfold upd. by destruct (decide (d = c)). Qed.

(** Free chunks change places. *)
Lemma move_chunks (X X' : Z -> list Z) (w : world) (c : Z) (r' : RegionInfo) : in_classes c -> wf_world X w ->
  let r := region w c in
  mapped_free_array r' = mapped_free_array r -> allocated_user r' = allocated_user r -> mapped_user r' = mapped_user r ->
  allocated_meta r' = allocated_meta r -> mapped_meta r' = mapped_meta r ->
  free_array r' ++ X' c ≡ₚ free_array r ++ X c -> (forall d, d <> c -> X' d ≡ₚ X d) -> 4 * num_freed_chunks r' <= mapped_free_array r ->
  quiet X w X' (set_region w c r') [].
Proof.
  intros Hc W r E2 E3 E5 E4 E6 Hp HX Hn. apply (quiet_region M P A OS X X' w _ c r'); try done.
  - intros d. apply region_set.
  - destruct (wf_region _ _ _ _ W c Hc) as [H1 H2 H3 [H4 H5]]. fold r in H1, H2, H3, H4, H5. split; rewrite ?E2, ?E3, ?E4, ?E5, ?E6; try done. lia.
  - destruct (wf_entries _ _ _ _ W c Hc) as [Hnd Hin]. fold r in Hin. unfold entries_ok, Primary64Specs.made. rewrite E3. split; [by rewrite Hp |].
    intros x. rewrite Hp. apply Hin.
  - intros j. unfold Primary64Specs.made. rewrite Hp, E3. done.
  - cbn. by rewrite app_nil_r.
  - intros o. fold r. unfold region_owns. rewrite E2, E5, E6. split; [by left | intros [? | (e & [] & _)]; done].
  - intros a. by left.
Qed.

(** Only the order of the chunks outside the arrays changes. *)
Lemma quiet_perm (X X' : Z -> list Z) (w : world) (c : Z) : in_classes c -> wf_world X w -> (forall d, X' d ≡ₚ X d) -> quiet X w X' w [].
Proof.
  intros Hc W HX. apply (quiet_region M P A OS X X' w w c (region w c)); try done.
  - intros d. by destruct (decide (d = c)) as [-> |].
  - apply (wf_region _ _ _ _ W c Hc).
  - destruct (wf_entries _ _ _ _ W c Hc) as [Hnd Hin]. unfold entries_ok. split; [by rewrite HX |]. intros x. rewrite HX. apply Hin.
  - intros j. unfold free_chunks. by rewrite HX.
  - by rewrite app_nil_r.
  - intros o. split; [by left | intros [? | (e & [] & _)]; done].
  - intros a. by left.
Qed.

Lemma ReturnToAllocator_spec (X X' : Z -> list Z) (w : world) (c : Z) (chunks : list Z) : in_classes c -> wf_world X w ->
  X c ≡ₚ chunks ++ X' c -> (forall d, d <> c -> X' d ≡ₚ X d) ->
  exists w' es, ReturnToAllocator P A w c chunks = Ok w' /\ quiet X w X' w' es.
Proof.
  intros Hc W HXc HX. unfold ReturnToAllocator. destruct (free_bound M P A OS X w c Hc W) as [Hb HbR].
  unfold free_chunks in Hb. rewrite length_app, HXc, length_app in Hb. 
  destruct (EnsureFreeArraySpace_spec M P A OS X w c (num_freed_chunks (region w c) + Z.of_nat (length chunks)) Hc W) as
    (w1 & es & -> & Q1 & Hspace & U1 & M1 & A1 & MM1 & F1 & _); [unfold num_freed_chunks; lia.. |].
  rewrite Ok_bind. cbn [negb]. pose proof (quiet_wf _ _ _ _ _ _ _ _ Q1) as W1.
  match goal with |- context [set_region w1 c ?r] => set (r2 := r) end.
  assert (Q2 : quiet X w1 X' (set_region w1 c r2) []).
  { apply (move_chunks X X' w1 c r2); try done; unfold r2; cbn.
    - rewrite HXc. by rewrite <- app_assoc.
    - unfold num_freed_chunks in *. cbn. rewrite length_app, F1. lia. }
  pose proof (quiet_wf _ _ _ _ _ _ _ _ Q2) as W2.
  destruct (MaybeReleaseToOS_spec M P A OS X' (set_region w1 c r2) c false Hc W2) as (w3 & -> & Q3 & _).
  eexists _, _. split; [done |]. eapply quiet_trans; [exact Q1 |]. eapply quiet_trans; [exact Q2 | exact Q3].
Qed.

Lemma GetFromAllocator_spec (X : Z -> list Z) (w : world) (c n : Z) : in_classes c -> wf_world X w -> 0 < n ->
  mapped_user (region w c) + n * Size P c + 2 ^ 18 <= R / 2 ->
  exists got mapped w' es, GetFromAllocator P A w c n = Ok (got, mapped, w') /\
    match got with
    | None => quiet X w X w' es
    | Some chunks => Z.of_nat (length chunks) = n /\ quiet X w (upd X c (chunks ++ X c)) w' es
    end.
Proof.
  intros Hc W Hn Hroom. unfold GetFromAllocator.
  match goal with |- context [?g ≫= _] => assert (Hg : exists ok mapped w1 es, g = Ok (ok, mapped, w1) /\ quiet X w X w1 es /\
    (ok = true -> n <= num_freed_chunks (region w1 c))) end.
  { destruct (Z.ltb_spec (num_freed_chunks (region w c)) n) as [Hlt | Hge].
    - destruct (PopulateFreeArray_spec M P A OS X w c (n - num_freed_chunks (region w c)) Hc W) as (ok & mapped & w1 & es & -> & Q & Hok);
        [lia | | ].
      { destruct (Size_bound M P A OS c Hc). unfold num_freed_chunks in *. nia. }
      rewrite Ok_bind. destruct ok; cbn [negb]; [| eexists false, _, _, _; by split_and!]. specialize (Hok eq_refl).
      rewrite check_true by (apply Z.leb_le; lia). rewrite Ok_bind. eexists true, _, _, _. split_and!; [done | done | lia].
    - eexists true, _, _, []. split_and!; [done | by apply (quiet_none M P A OS X w c) | lia]. }
  destruct Hg as (ok & mapped & w1 & es & -> & Q1 & Hok). rewrite Ok_bind. destruct ok; cbn [negb].
  2: { eexists None, _, _, _. by split. }
  specialize (Hok eq_refl). pose proof (quiet_wf _ _ _ _ _ _ _ _ Q1) as W1.
  eexists (Some _), _, _, _. split; [done |]. split; [rewrite length_drop; unfold num_freed_chunks in *; lia |].
  eapply quiet_trans; [exact Q1 |]. apply move_chunks; try done; cbn.
  - rewrite upd_eq, app_assoc, take_drop. done.
  - intros d Hd. by rewrite upd_ne.
  - destruct (wf_region _ _ _ _ W1 c Hc) as [_ _ _ [_ Hf]]. unfold num_freed_chunks in *. cbn. rewrite length_take. lia.
Qed.

(** ** Blocks *)

Definition block_list (X : Z -> list Z) (w : world) : list (Z * Z) :=
  flat_map (fun c => flat_map (fun j => if decide (entry c j ∈ free_chunks X w c) then [] else [(Reg P A c + j * Size P c, Size P c)])
                       (seqZ 0 (made c (region w c)))) (seqZ 1 (kLargestClassID P)).
Definition world_blocks (X : Z -> list Z) (w : world) : gmap Z Z := list_to_map (block_list X w).

Lemma elem_of_block_list (X : Z -> list Z) (w : world) (p n : Z) : (p, n) ∈ block_list X w <->
  exists c j, live P X w c j /\ p = Reg P A c + j * Size P c /\ n = Size P c.
Proof.
  unfold block_list. rewrite list_elem_of_In, in_flat_map. unfold live. split.
  - intros (c & Hc & Hj). apply in_flat_map in Hj as (j & Hj & He). apply list_elem_of_In, elem_of_seqZ in Hc, Hj.
    destruct (decide _) as [|Hn]; [done |]. destruct He as [[= <- <-] | []]. exists c, j. split_and!; try done; unfold Primary64Specs.in_classes; lia.
  - intros (c & j & (Hc & Hj & Hn) & -> & ->). unfold Primary64Specs.in_classes in Hc. exists c. split; [apply list_elem_of_In, elem_of_seqZ; lia |].
    apply in_flat_map. exists j. split; [apply list_elem_of_In, elem_of_seqZ; lia |]. destruct (decide _); [done |]. by left.
Qed.

(** The address of a chunk tells the chunk. *)
Lemma chunk_unique (X : Z -> list Z) (w : world) (c d j i a : Z) : wf_world X w -> in_classes c -> in_classes d ->
  0 <= j < made c (region w c) -> 0 <= i < made d (region w d) ->
  Reg P A c + j * Size P c <= a < Reg P A c + (j + 1) * Size P c -> Reg P A d + i * Size P d <= a < Reg P A d + (i + 1) * Size P d -> c = d /\ j = i.
Proof.
  intros W Hc Hd Hj Hi Ha Hb. pose proof (region_numbers M P A OS) as (HR & _).
  destruct (made_bound M P A OS c _ j Hc (wf_region _ _ _ _ W c Hc) Hj) as [H1 H2].
  destruct (made_bound M P A OS d _ i Hd (wf_region _ _ _ _ W d Hd) Hi) as [H3 H4].
  destruct (wf_region _ _ _ _ W c Hc) as [K1 K2 _ _], (wf_region _ _ _ _ W d Hd) as [L1 L2 _ _].
  destruct (region_unique M P A OS c d (a - Reg P A c) (a - Reg P A d)) as [-> _]; [zlia | zlia | lia |].
  split; [done |]. destruct (Size_bound M P A OS d Hd) as [Hs _]. nia.
Qed.

Lemma world_blocks_lookup (X : Z -> list Z) (w : world) (p n : Z) : wf_world X w ->
  world_blocks X w !! p = Some n <-> exists c j, live P X w c j /\ p = Reg P A c + j * Size P c /\ n = Size P c.
Proof.
  intros W. rewrite <- elem_of_block_list. unfold world_blocks. split; [by apply elem_of_list_to_map_2 |].
  intros Hin. apply elem_of_list_to_map_1'; [| done]. intros n' Hin'. apply elem_of_block_list in Hin as (c & j & (Hc & Hj & _) & -> & ->).
  apply elem_of_block_list in Hin' as (d & i & (Hd & Hi & _) & He & ->).
  destruct (Size_bound M P A OS c Hc), (Size_bound M P A OS d Hd).
  by destruct (chunk_unique X w c d j i (Reg P A c + j * Size P c) W Hc Hd Hj Hi) as [-> _]; [lia.. |].
Qed.

Lemma in_world_blocks (X : Z -> list Z) (w : world) (a : Z) : wf_world X w -> in_blocks (world_blocks X w) a <-> in_live P A X w a.
Proof.
  intros W. unfold in_blocks, in_live. setoid_rewrite (world_blocks_lookup X w); [| done]. split.
  - intros (p & n & (c & j & Hl & -> & ->) & Ha). exists c, j. split; [done | lia].
  - intros (c & j & Hl & Ha). exists (Reg P A c + j * Size P c), (Size P c). split; [by exists c, j | lia].
Qed.

(** Steps that do not change which chunks are in use keep the blocks. *)
Lemma quiet_blocks (X X' : Z -> list Z) (w w' : world) (es : list map_event) : wf_world X w -> quiet X w X' w' es ->
  world_blocks X' w' = world_blocks X w.
Proof.
  intros W Q. apply map_eq. intros p. apply option_eq. intros n. rewrite !world_blocks_lookup by (done || apply (quiet_wf _ _ _ _ _ _ _ _ Q)).
  by setoid_rewrite (quiet_live _ _ _ _ _ _ _ _ Q).
Qed.

Lemma null_outcome (X X' : Z -> list Z) (w w' : world) (es : list map_event) (size : Z) : wf_world X w -> quiet X w X' w' es ->
  allocated M (world_blocks X w) (world_blocks X' w') (world_owns P A w) (world_owns P A w') (mem_ w) (mem_ w') size 0 true es.
Proof.
  intros W Q. rewrite (quiet_blocks X X' w w' es W Q). destruct Q as [Q1 Q2 Q3 Q4 Q5 Q6 Q7 Q8]. split; try done.
  intros a. rewrite in_world_blocks by done. apply Q7.
Qed.

Lemma alloc_outcome (X X1 X' : Z -> list Z) (w w' : world) (es : list map_event) (c j : Z) : in_classes c -> wf_world X w ->
  quiet X w X1 w' es -> X1 c ≡ₚ entry c j :: X' c -> (forall d, d <> c -> X1 d ≡ₚ X' d) ->
  wf_world X' w' /\
  allocated M (world_blocks X w) (world_blocks X' w') (world_owns P A w) (world_owns P A w') (mem_ w) (mem_ w') (Size P c)
    (Reg P A c + j * Size P c) true es.
Proof.
  intros Hc W Q HXc HX. pose proof Q as [Q1 Q2 Q3 Q4 Q5 Q6 Q7 Q8]. destruct Q1 as [V1 V2].
  assert (HF : free_chunks X1 w' c ≡ₚ entry c j :: free_chunks X' w' c).
  { unfold free_chunks. rewrite HXc. symmetry. apply Permutation_middle. }
  assert (HFd : forall d, d <> c -> free_chunks X1 w' d ≡ₚ free_chunks X' w' d) by (intros d Hd; unfold free_chunks; by rewrite HX).
  destruct (V2 c Hc) as [Hnd Hin]. rewrite HF in Hnd. apply NoDup_cons in Hnd as [Hnew Hnd].
  assert (Hj : 0 <= j < made c (region w' c)).
  { destruct (Hin (entry c j)) as (i & Hi & Hib); [rewrite HF; by left |]. by rewrite (entry_inj M P A OS c j i Hc Hi). }
  assert (W' : wf_world X' w').
  { split; [done |]. intros d Hd. destruct (decide (d = c)) as [Hdc | Hne].
    - subst d. split; [done |]. intros x Hx. apply Hin. rewrite HF. by right.
    - destruct (V2 d Hd) as [Hnd' Hin']. unfold entries_ok. rewrite <- (HFd d Hne). split; [done |]. intros x Hx. apply Hin'. by rewrite (HFd d Hne). }
  assert (Hlive : forall d i, live P X' w' d i <-> live P X w d i \/ d = c /\ i = j).
  { intros d i. rewrite <- Q2. unfold live. destruct (decide (d = c)) as [Hdc | Hne].
    - subst d. rewrite HF, not_elem_of_cons. destruct (decide (i = j)) as [Hij | Hij]; [subst i; tauto |].
      assert (entry c i <> entry c j) by (intros ?%(entry_inj M P A OS c i j Hc); done). tauto.
    - rewrite (HFd d Hne). tauto. }
  assert (Hnot : ~ live P X w c j) by (rewrite <- Q2; intros (_ & _ & Hn); apply Hn; rewrite HF; by left).
  split; [done |]. destruct (Size_bound M P A OS c Hc) as [Hs _]. split; try done.
  - intros _. exists (Size P c). split; [done |]. split.
    + apply eq_None_not_Some. intros (n & (d & i & Hl & He & _)%world_blocks_lookup); [| done]. pose proof Hl as (Hd & Hi & _).
      destruct (Size_bound M P A OS d Hd). apply Q2 in Hl. destruct Hl as (_ & Hi' & Hn).
      destruct (chunk_unique X1 w' c d j i (Reg P A c + j * Size P c)) as [<- <-]; try done; [lia | lia |]. apply Hn. rewrite HF. by left.
    + apply map_eq. intros p. apply option_eq. intros n. rewrite world_blocks_lookup by done. setoid_rewrite Hlive.
      rewrite lookup_insert_Some, world_blocks_lookup by done. split.
      * intros (d & i & [Hl | [-> ->]] & -> & ->); [| by left]. destruct (decide (d = c /\ i = j)) as [[-> ->] | Hne]; [done |].
        right. split; [| by exists d, i]. intros He. apply Hne. pose proof Hl as (Hd & _). apply Q2 in Hl as (_ & Hi & _).
        destruct (Size_bound M P A OS d Hd). destruct (chunk_unique X1 w' c d j i (Reg P A c + j * Size P c)); try done; lia.
      * intros [[<- <-] | [_ (d & i & Hl & -> & ->)]]; [exists c, j | exists d, i]; (split; [tauto | done]).
  - intros Hz. exfalso. pose proof (region_word M P A OS c (j * Size P c) Hc) as Hw.
    destruct (made_bound M P A OS c _ j Hc (V1 c Hc) Hj). destruct (V1 c Hc) as [K1 K2 _ _]. pose proof (region_numbers M P A OS). zlia.
  - intros a. rewrite in_world_blocks by done. apply Q7.
Qed.

Lemma dealloc_outcome (X X1 X' : Z -> list Z) (w w' : world) (es : list map_event) (c j : Z) : in_classes c -> wf_world X w ->
  live P X w c j -> quiet X w X1 w' es -> X' c ≡ₚ entry c j :: X1 c -> (forall d, d <> c -> X' d ≡ₚ X1 d) ->
  wf_world X' w' /\
  deallocated_block M (world_blocks X w) (world_blocks X' w') (world_owns P A w) (world_owns P A w') (mem_ w) (mem_ w')
    (Reg P A c + j * Size P c) (Size P c) true es.
Proof.
  intros Hc W Hl Q HXc HX. pose proof Q as [Q1 Q2 Q3 Q4 Q5 Q6 Q7 Q8]. destruct Q1 as [V1 V2].
  assert (HF : free_chunks X' w' c ≡ₚ entry c j :: free_chunks X1 w' c).
  { unfold free_chunks. rewrite HXc. symmetry. apply Permutation_middle. }
  assert (HFd : forall d, d <> c -> free_chunks X' w' d ≡ₚ free_chunks X1 w' d) by (intros d Hd; unfold free_chunks; by rewrite HX).
  pose proof (proj2 (Q2 c j) Hl) as (_ & Hj & Hn). destruct (V2 c Hc) as [Hnd Hin].
  assert (W' : wf_world X' w').
  { split; [done |]. intros d Hd. destruct (decide (d = c)) as [Hdc | Hne].
    - subst d. unfold entries_ok. rewrite HF. split; [by apply NoDup_cons |]. intros x. rewrite HF. intros [-> | Hx]%elem_of_cons; [by exists j | by apply Hin].
    - destruct (V2 d Hd) as [Hnd' Hin']. unfold entries_ok. rewrite (HFd d Hne). split; [done |]. intros x Hx. apply Hin'. by rewrite <- (HFd d Hne). }
  assert (Hlive : forall d i, live P X' w' d i <-> live P X w d i /\ ~ (d = c /\ i = j)).
  { intros d i. rewrite <- Q2. unfold live. destruct (decide (d = c)) as [Hdc | Hne].
    - subst d. rewrite HF, not_elem_of_cons. destruct (decide (i = j)) as [Hij | Hij]; [subst i; tauto |].
      assert (entry c i <> entry c j) by (intros ?%(entry_inj M P A OS c i j Hc); done). tauto.
    - rewrite (HFd d Hne). tauto. }
  split; [done |]. destruct (Size_bound M P A OS c Hc) as [Hs _]. split; try done.
  - apply map_eq. intros p. apply option_eq. intros n. rewrite world_blocks_lookup by done. setoid_rewrite Hlive.
    rewrite lookup_delete_Some, world_blocks_lookup by done. split.
    + intros (d & i & [Hl' Hne] & -> & ->). split; [| by exists d, i]. intros He. apply Hne. pose proof Hl' as (Hd & Hi & _). destruct Hl as (_ & Hj' & _).
      destruct (Size_bound M P A OS d Hd). destruct (chunk_unique X w c d j i (Reg P A c + j * Size P c)); try done; lia.
    + intros [Hne (d & i & Hl' & -> & ->)]. exists d, i. split; [| done]. split; [done |]. intros [-> ->]. done.
  - intros a. destruct (Q7 a) as [| [Ho Hn']]; [by left | right]. split; [by right |]. rewrite in_world_blocks by done.
    intros (d & i & Hl' & Ha). apply Hn'. exists d, i. split; [by apply Hlive | done].
Qed.
End groups.

(** ** Caches *)

Section caches.
Context (M : mapping) (P : size_class_params) (A : primary_params) (OS : PrimaryOS).
Context `{!WfSizeClassMap P, !PrimarySetting M P A OS}.

Notation quiet := (quiet M P A).
Notation in_classes := (in_classes P).
Notation entry := (entry P).

Definition hint (c : Z) : Z := MaxCachedHint P (Size P c).

(** What a cache holds of a class, once it was initialised. *)
Definition class_ok (k : LocalCache) (c : Z) : Prop :=
  let e := class_of k c in
  max_count e = 0 /\ cached e = [] \/
  max_count e = 2 * hint c /\ class_size e = Size P c /\ Z.of_nat (length (cached e)) <= 2 * hint c.
Definition cache_ok (k : LocalCache) : Prop := forall c, in_classes c -> class_ok k c.

Lemma class_of_set (k : LocalCache) (c d : Z) (e : PerClass) : class_of (set_class k c e) d = if decide (d = c) then e else class_of k d.
Proof. unfold class_of, set_class. cbn. destruct (decide (d = c)) as [-> |]; [by rewrite lookup_insert_eq | by rewrite lookup_insert_ne]. Qed.

Lemma hint_pos (c : Z) : in_classes c -> 1 <= hint c.
Proof.
  intros Hc. destruct (Size_bound M P A OS c Hc) as [Hs _]. unfold hint, MaxCachedHint.
  rewrite (proj2 (Z.eqb_neq _ _)) by lia. apply Z.le_max_l.
Qed.

Lemma hint_bytes (c : Z) : in_classes c -> hint c * Size P c <= Z.max (Size P c) (Z.shiftl 1 (kMaxBytesCachedLog P)).
Proof.
  intros Hc. destruct (Size_bound M P A OS c Hc) as [Hs _]. unfold hint, MaxCachedHint. rewrite (proj2 (Z.eqb_neq _ _)) by lia.
  assert (Hu : to_u32 (Size P c) = Size P c) by (apply Z.mod_small; change (2 ^ 30) with 1073741824 in Hs; lia). rewrite Hu.
  set (b := Z.shiftl 1 (kMaxBytesCachedLog P)). pose proof (Z.div_mod b (Size P c) ltac:(lia)). pose proof (Z.mod_pos_bound b (Size P c) ltac:(lia)).
  replace (if _ || _ then b / Size P c else b / Size P c) with (b / Size P c) by (by destruct (_ || _)).
  set (q := b / Size P c) in *. destruct (Z.max_spec 1 (Z.min (kMaxNumCachedHint P) q)) as [[Hmx ->] | [Hmx ->]]; nia.
Qed.

Lemma init_fold (l : list Z) : forall k d,
  cached (class_of (foldl (init_class P) k l) d) = cached (class_of k d) /\
  (d ∈ l -> max_count (class_of (foldl (init_class P) k l) d) = 2 * hint d /\ class_size (class_of (foldl (init_class P) k l) d) = Size P d) /\
  (d ∉ l -> class_of (foldl (init_class P) k l) d = class_of k d).
Proof.
  induction l as [| x l IH] using rev_ind; intros k d; [split_and!; [done | intros H; by apply elem_of_nil in H | done] |].
  rewrite foldl_app. cbn [foldl]. destruct (IH k d) as (H1 & H2 & H3). unfold init_class at 1 3 5 7. rewrite !class_of_set.
  destruct (decide (d = x)) as [-> | Hne].
  - cbn. split_and!; [done | done |]. intros Hn. exfalso. apply Hn. apply elem_of_app. right. by left.
  - split_and!; [done | |].
    + intros [Hd | Hd]%elem_of_app; [by apply H2 |]. apply list_elem_of_singleton in Hd. done.
    + intros Hn. apply H3. intros Hd. apply Hn. apply elem_of_app. by left.
Qed.

Lemma InitCache_spec (k : LocalCache) (c : Z) : in_classes c -> cache_ok k ->
  let k' := InitCache P k c in
  cache_ok k' /\ (forall d, cached (class_of k' d) = cached (class_of k d)) /\
  max_count (class_of k' c) = 2 * hint c /\ class_size (class_of k' c) = Size P c.
Proof.
  intros Hc Hk. unfold InitCache. pose proof (hint_pos c Hc).
  destruct (Z.eqb_spec (max_count (class_of k c)) 0) as [Hz | Hz]; cbn [negb].
  - assert (Hin : forall d, in_classes d -> d ∈ seqZ 1 (kNumClasses P - 1)).
    { intros d Hd. apply elem_of_seqZ. unfold Primary64Specs.in_classes, kLargestClassID in Hd. lia. }
    split_and!.
    + intros d Hd. destruct (init_fold (seqZ 1 (kNumClasses P - 1)) k d) as (H1 & H2 & _). destruct (H2 (Hin d Hd)) as [H3 H4].
      right. rewrite H1. split_and!; [done | done |]. pose proof (hint_pos d Hd). destruct (Hk d Hd) as [[_ ->] | (_ & _ & ?)]; [cbn; lia | done].
    + intros d. apply init_fold.
    + by apply init_fold, Hin.
    + by apply init_fold, Hin.
  - split_and!; [done | done | |]; destruct (Hk c Hc) as [[? _] | (? & ? & _)]; done.
Qed.

(** The free chunks in a cache, and in the caches of the other threads. *)
Definition in_cache (k : LocalCache) (rest : Z -> list Z) (c : Z) : list Z := cached (class_of k c) ++ rest c.

Definition allocate_room (w : world) : Prop :=
  forall c, in_classes c -> mapped_user (region w c) + Z.max (Size P c) (Z.shiftl 1 (kMaxBytesCachedLog P)) + 2 ^ 18 <= kRegionSize P A / 2.

Lemma stat_add_class (k : LocalCache) (a m c : Z) : class_of (stat_add k a m) c = class_of k c.
Proof. done. Qed.

Lemma in_cache_ext (k k' : LocalCache) (rest : Z -> list Z) : (forall d, cached (class_of k' d) = cached (class_of k d)) ->
  forall d, in_cache k' rest d ≡ₚ in_cache k rest d.
Proof. intros H d. unfold in_cache. by rewrite H. Qed.

Lemma Refill_spec (rest : Z -> list Z) (w : world) (k : LocalCache) (c : Z) : in_classes c -> wf_world P A (in_cache k rest) w -> cache_ok k ->
  allocate_room w -> cached (class_of k c) = [] ->
  exists ok w' k' es, Refill P A w k c = Ok (ok, w', k') /\ quiet (in_cache k rest) w (in_cache k' rest) w' es /\ cache_ok k' /\
    (ok = true -> cached (class_of k' c) <> []).
Proof.
  intros Hc W Hk Hroom Hempty. unfold Refill. destruct (InitCache_spec k c Hc Hk) as (Hk1 & Hc1 & Hmax & Hsz).
  set (k1 := InitCache P k c) in *. rewrite Hmax. pose proof (hint_pos c Hc). pose proof (hint_bytes c Hc).
  replace (2 * hint c / 2) with (hint c) by (rewrite Z.mul_comm, Z.div_mul; lia).
  pose proof (quiet_perm M P A OS _ (in_cache k1 rest) w c Hc W (in_cache_ext k k1 rest Hc1)) as Q0.
  pose proof (quiet_wf _ _ _ _ _ _ _ _ Q0) as W0.
  destruct (GetFromAllocator_spec M P A OS (in_cache k1 rest) w c (hint c) Hc W0) as (got & mapped & w' & es & -> & Hgot);
    [lia | pose proof (Hroom c Hc); lia |].
  rewrite Ok_bind. destruct got as [chunks |].
  - destruct Hgot as [Hlen Q]. eexists true, _, _, es. split; [done |]. split.
    + eapply (quiet_trans M P A _ _ _ _ _ _ [] es); [exact Q0 |]. rewrite <- (app_nil_r es). eapply (quiet_trans M P A); [exact Q |].
      apply (quiet_perm M P A OS _ _ w' c Hc (quiet_wf _ _ _ _ _ _ _ _ Q)). intros d. unfold in_cache, upd. rewrite class_of_set, stat_add_class.
      destruct (decide (d = c)) as [-> |]; [| done]. cbn. by rewrite Hc1, Hempty.
    + split.
      * intros d Hd. unfold class_ok. rewrite class_of_set, stat_add_class. destruct (decide (d = c)) as [-> |]; [right; cbn; lia | by apply Hk1].
      * intros _. rewrite class_of_set. destruct (decide (c = c)); [| done]. cbn. intros ->. cbn in Hlen. lia.
  - eexists false, _, _, es. split; [done |]. split; [| split; [exact Hk1 | done]].
    eapply (quiet_trans M P A _ _ _ _ _ _ [] es); [exact Q0 | exact Hgot].
Qed.

Lemma classes_checked (c : Z) : in_classes c -> check (negb (c =? 0)) = Ok tt /\ check (c <? kNumClasses P) = Ok tt.
Proof.
  unfold Primary64Specs.in_classes, kLargestClassID. intros Hc. split; apply check_true; [by rewrite (proj2 (Z.eqb_neq c 0)) by lia | apply Z.ltb_lt; lia].
Qed.

Lemma pointer_of_entry (c j : Z) : in_classes c -> 0 <= j -> (j + 1) * Size P c <= kRegionSize P A ->
  CompactPtrToPointer (GetRegionBeginBySizeClass P A c) (entry c j) = Reg P A c + j * Size P c /\
  PointerToCompactPtr (GetRegionBeginBySizeClass P A c) (Reg P A c + j * Size P c) = entry c j.
Proof.
  intros Hc Hj Hb. destruct (Size_units M P A OS c Hc) as [Hs Hu]. rewrite (GetRegionBegin_Reg M P A OS) by done.
  pose proof (region_word M P A OS c (j * Size P c) Hc ltac:(nia)) as Hw. pose proof (region_word M P A OS c 0 Hc) as Hw0.
  pose proof (region_numbers M P A OS). change (2 ^ 63) with 9223372036854775808 in *. split.
  - unfold CompactPtrToPointer, Primary64Specs.entry, kCompactPtrScale. rewrite Z.shiftl_mul_pow2 by lia. change (2 ^ 4) with 16.
    replace (j * units P c * 16) with (j * Size P c) by (rewrite Hs; lia). apply wrap_small. unfold is_uptr, word_modulus. lia.
  - rewrite <- (compact_entry M P A OS c j Hc Hj) by nia. unfold PointerToCompactPtr. do 3 f_equal. lia.
Qed.

Lemma cache_allocate_spec (rest : Z -> list Z) (w : world) (k : LocalCache) (c : Z) : in_classes c -> wf_world P A (in_cache k rest) w ->
  cache_ok k -> allocate_room w ->
  exists p w' k' es, cache_allocate P A w k c = Ok (p, w', k') /\ log_ w' = log_ w ++ es /\ cache_ok k' /\
    wf_world P A (in_cache k' rest) w' /\
    allocated M (world_blocks P A (in_cache k rest) w) (world_blocks P A (in_cache k' rest) w') (world_owns P A w) (world_owns P A w')
      (mem_ w) (mem_ w') (Size P c) p true es.
Proof.
  intros Hc W Hk Hroom. unfold cache_allocate. destruct (classes_checked c Hc) as [-> ->]. rewrite !Ok_bind.
  match goal with |- context [?g ≫= _] => assert (Hg : exists ok w1 k1 es, g = Ok (ok, w1, k1) /\
    quiet (in_cache k rest) w (in_cache k1 rest) w1 es /\ cache_ok k1 /\ (ok = true -> cached (class_of k1 c) <> [])) end.
  { destruct (bool_decide_reflect (cached (class_of k c) = [])) as [He | He]; [by apply Refill_spec |].
    eexists true, w, k, []. split_and!; try done. by apply (quiet_none M P A OS _ w c). }
  destruct Hg as (ok & w1 & k1 & es & -> & Q & Hk1 & Hok). rewrite Ok_bind. destruct ok; cbn [negb].
  2: { eexists 0, w1, k1, es. split; [done |]. split; [apply (quiet_log _ _ _ _ _ _ _ _ Q) |]. split; [done |].
       split; [apply (quiet_wf _ _ _ _ _ _ _ _ Q) |]. by apply (null_outcome M P A OS). }
  specialize (Hok eq_refl). pose proof (quiet_wf _ _ _ _ _ _ _ _ Q) as W1. destruct (exists_last Hok) as (l & x & Hl). rewrite Hl.
  assert (Hlen : (length (l ++ [x]) - 1)%nat = length l) by (rewrite length_app; cbn; lia).
  rewrite Hlen, list_lookup_middle by done. cbn [get_or_die]. rewrite Ok_bind, take_app_length.
  match goal with |- context [stat_add ?q _ 0] => set (k2 := q) end.
  assert (HX : in_cache k1 rest c ≡ₚ x :: in_cache (stat_add k2 (class_size (class_of k1 c)) 0) rest c).
  { unfold in_cache. rewrite stat_add_class. unfold k2. rewrite class_of_set. destruct (decide (c = c)); [| done]. cbn. rewrite Hl.
    rewrite <- app_assoc. symmetry. apply Permutation_middle. }
  assert (HXd : forall d, d <> c -> in_cache k1 rest d ≡ₚ in_cache (stat_add k2 (class_size (class_of k1 c)) 0) rest d).
  { intros d Hd. unfold in_cache. rewrite stat_add_class. unfold k2. rewrite class_of_set. by destruct (decide (d = c)). }
  destruct (wf_entries _ _ _ _ W1 c Hc) as [_ Hin]. destruct (Hin x) as (j & -> & Hj).
  { unfold free_chunks. apply elem_of_app. right. rewrite HX. by left. }
  destruct (alloc_outcome M P A OS _ _ _ w w1 es c j Hc W Q HX HXd) as [W2 Hal].
  destruct (made_bound M P A OS c _ j Hc (wf_region _ _ _ _ W1 c Hc) Hj) as [Hb1 Hb2].
  destruct (pointer_of_entry c j Hc) as [-> _]; [lia | |].
  { destruct (wf_region _ _ _ _ W1 c Hc) as [K1 K2 _ _]. pose proof (region_numbers M P A OS). zlia. }
  eexists _, w1, _, es. split; [done |]. split; [apply (quiet_log _ _ _ _ _ _ _ _ Q) |]. split; [| by split].
  intros d Hd. unfold class_ok. rewrite stat_add_class. unfold k2. rewrite class_of_set. destruct (decide (d = c)) as [-> |]; [| by apply Hk1].
  cbn. specialize (Hk1 c Hc). unfold class_ok in Hk1. rewrite Hl in Hk1. destruct Hk1 as [[_ Hnil] | (H1 & H2 & H3)]; [by destruct l |].
  right. rewrite length_app in H3. cbn in H3. split_and!; [done | done | lia].
Qed.

Lemma cached_bound (k : LocalCache) (c : Z) : in_classes c -> cache_ok k -> Z.of_nat (length (cached (class_of k c))) <= 2 * hint c.
Proof. intros Hc Hk. pose proof (hint_pos c Hc). destruct (Hk c Hc) as [[_ ->] | (_ & _ & ?)]; [cbn; lia | done]. Qed.

Lemma DrainHalfMax_spec (rest : Z -> list Z) (w : world) (k : LocalCache) (c : Z) : in_classes c -> wf_world P A (in_cache k rest) w -> cache_ok k ->
  max_count (class_of k c) = 2 * hint c -> class_size (class_of k c) = Size P c -> Z.of_nat (length (cached (class_of k c))) = 2 * hint c ->
  exists w' k' es, DrainHalfMax P A w k c = Ok (w', k') /\ quiet (in_cache k rest) w (in_cache k' rest) w' es /\ cache_ok k' /\
    max_count (class_of k' c) = 2 * hint c /\ class_size (class_of k' c) = Size P c /\ Z.of_nat (length (cached (class_of k' c))) = hint c.
Proof.
  intros Hc W Hk Hmax Hsz Hlen. unfold DrainHalfMax, Drain. rewrite Hmax, Hlen. pose proof (hint_pos c Hc).
  replace (2 * hint c / 2) with (hint c) by (rewrite Z.mul_comm, Z.div_mul; lia).
  rewrite check_true by (apply Z.leb_le; lia). rewrite Ok_bind. set (n := Z.to_nat (2 * hint c - hint c)).
  match goal with |- context [Ok (_, ?q)] => set (k' := q) end.
  assert (Hk' : forall d, class_of k' d = if decide (d = c) then MkPerClass (2 * hint c) (Size P c) (take n (cached (class_of k c))) else class_of k d).
  { intros d. unfold k'. rewrite class_of_set, Hsz. done. }
  destruct (ReturnToAllocator_spec M P A OS (in_cache k rest) (in_cache k' rest) w c (drop n (cached (class_of k c))) Hc W) as (w' & es & -> & Q).
  - unfold in_cache. rewrite Hk'. destruct (decide (c = c)); [| done]. cbn. rewrite app_assoc. f_equiv.
    rewrite <- (take_drop n (cached (class_of k c))) at 1. apply Permutation_app_comm.
  - intros d Hd. unfold in_cache. rewrite Hk'. by destruct (decide (d = c)).
  - rewrite Ok_bind. exists w', k', es. split; [done |]. split; [done |]. rewrite !Hk'. destruct (decide (c = c)); [| done]. cbn.
    rewrite length_take. split_and!; [| done | done | unfold n; lia].
    intros d Hd. unfold class_ok. rewrite !Hk'. destruct (decide (d = c)) as [-> |]; [right; cbn; rewrite length_take; unfold n; split_and!; [done | done | lia] | by apply Hk].
Qed.

Lemma cache_deallocate_spec (rest : Z -> list Z) (w : world) (k : LocalCache) (c j : Z) : in_classes c -> wf_world P A (in_cache k rest) w ->
  cache_ok k -> live P (in_cache k rest) w c j ->
  let p := Reg P A c + j * Size P c in
  exists w' k' es, cache_deallocate P A w k c p = Ok (w', k') /\ log_ w' = log_ w ++ es /\ cache_ok k' /\
    wf_world P A (in_cache k' rest) w' /\
    deallocated_block M (world_blocks P A (in_cache k rest) w) (world_blocks P A (in_cache k' rest) w') (world_owns P A w) (world_owns P A w')
      (mem_ w) (mem_ w') p (Size P c) true es.
Proof.
  intros Hc W Hk Hl p. unfold cache_deallocate. destruct (classes_checked c Hc) as [-> ->]. rewrite !Ok_bind.
  destruct (InitCache_spec k c Hc Hk) as (Hk1 & Hc1 & Hmax & Hsz). set (k1 := InitCache P k c) in *. pose proof (hint_pos c Hc).
  pose proof (quiet_perm M P A OS _ (in_cache k1 rest) w c Hc W (in_cache_ext k k1 rest Hc1)) as Q0.
  pose proof (quiet_wf _ _ _ _ _ _ _ _ Q0) as W0. rewrite Hmax. pose proof (cached_bound k1 c Hc Hk1) as Hb.
  match goal with |- context [?g ≫= _] => assert (Hg : exists w1 k2 es, g = Ok (w1, k2) /\
    quiet (in_cache k1 rest) w (in_cache k2 rest) w1 es /\ cache_ok k2 /\ max_count (class_of k2 c) = 2 * hint c /\
    class_size (class_of k2 c) = Size P c /\ Z.of_nat (length (cached (class_of k2 c))) < 2 * hint c) end.
  { destruct (Z.eqb_spec (Z.of_nat (length (cached (class_of k1 c)))) (2 * hint c)) as [He | He].
    - destruct (DrainHalfMax_spec rest w k1 c Hc W0 Hk1 Hmax Hsz He) as (w1 & k2 & es & -> & Q & H1 & H2 & H3 & H4).
      exists w1, k2, es. split_and!; done || lia.
    - exists w, k1, []. split_and!; try done; [by apply (quiet_none M P A OS _ w c) | lia]. }
  destruct Hg as (w1 & k2 & es & -> & Q1 & Hk2 & Hmax2 & Hsz2 & Hlen). rewrite Ok_bind.
  assert (Q : quiet (in_cache k rest) w (in_cache k2 rest) w1 es) by (eapply (quiet_trans M P A _ _ _ _ _ _ [] es); [exact Q0 | exact Q1]).
  pose proof Hl as (_ & Hj & _). destruct (made_bound M P A OS c _ j Hc (wf_region _ _ _ _ W c Hc) Hj) as [Hb1 Hb2].
  destruct (pointer_of_entry c j Hc) as [_ Hptr]; [lia | |].
  { destruct (wf_region _ _ _ _ W c Hc) as [K1 K2 _ _]. pose proof (region_numbers M P A OS). zlia. }
  unfold p. rewrite Hptr, Hmax2, Hsz2.
  match goal with |- context [stat_add ?q _ 0] => set (k3 := q) end.
  assert (Hk3 : forall d, class_of (stat_add k3 (- Size P c) 0) d = if decide (d = c) then MkPerClass (2 * hint c) (Size P c) (cached (class_of k2 c) ++ [entry c j]) else class_of k2 d).
  { intros d. rewrite stat_add_class. apply class_of_set. }
  destruct (dealloc_outcome M P A OS (in_cache k rest) (in_cache k2 rest) (in_cache (stat_add k3 (- Size P c) 0) rest) w w1 es c j Hc W) as [W' Hd].
  - exact Hl.
  - exact Q.
  - unfold in_cache. rewrite Hk3. destruct (decide (c = c)); [| done]. cbn. rewrite <- app_assoc. symmetry. apply Permutation_middle.
  - intros d Hd. unfold in_cache. rewrite Hk3. by destruct (decide (d = c)).
  - eexists w1, _, es. split; [done |]. split; [apply (quiet_log _ _ _ _ _ _ _ _ Q) |]. split; [| by split].
    intros d Hd'. unfold class_ok. rewrite !Hk3. destruct (decide (d = c)) as [-> |]; [| by apply Hk2]. right. cbn. rewrite length_app. cbn.
    split_and!; [done | done | lia].
Qed.

(** ** All caches *)

Definition all_cached (m : gmap (option Z) LocalCache) (c : Z) : list Z := flat_map (fun tk => cached (class_of (snd tk) c)) (map_to_list m).

Lemma all_cached_split (m : gmap (option Z) LocalCache) (t : option Z) (c : Z) :
  all_cached m c ≡ₚ in_cache (default empty_cache (m !! t)) (all_cached (delete t m)) c.
Proof.
  unfold in_cache, all_cached. destruct (m !! t) as [k |] eqn:E; cbn [default].
  - rewrite <- (map_to_list_delete m t k E). done.
  - by rewrite delete_id.
Qed.

Lemma all_cached_insert (m : gmap (option Z) LocalCache) (t : option Z) (k : LocalCache) (c : Z) :
  all_cached (<[t := k]> m) c ≡ₚ in_cache k (all_cached (delete t m)) c.
Proof. rewrite (all_cached_split _ t), lookup_insert_eq, delete_insert_eq. done. Qed.

Definition ghost_world (st : primary_state) : world := World (primary_alloc st) (fun _ => 0) [].

Record primary64_inv (st : primary_state) : Prop := {
  inv_world : wf_world P A (all_cached (caches st)) (ghost_world st);
  inv_caches : forall t k, caches st !! t = Some k -> cache_ok k;
}.
Definition primary64_blocks (st : primary_state) : gmap Z Z := world_blocks P A (all_cached (caches st)) (ghost_world st).
Definition primary64_owned (st : primary_state) (a : Z) : Prop := world_owns P A (ghost_world st) a.
Definition primary64_room (st : primary_state) : Prop := allocate_room (ghost_world st).

Lemma wf_world_ext (X X' : Z -> list Z) (a : SizeClassAllocator64) (m m' : memory) (l l' : list map_event) :
  (forall d, X' d ≡ₚ X d) -> wf_world P A X (World a m l) -> wf_world P A X' (World a m' l').
Proof.
  intros HX [W1 W2]. split; [exact W1 |]. intros c Hc. destruct (W2 c Hc) as [H1 H2]. unfold entries_ok, free_chunks in *.
  split; [rewrite HX; exact H1 |]. intros x. rewrite HX. apply H2.
Qed.

Lemma world_blocks_ext (X X' : Z -> list Z) (a : SizeClassAllocator64) (m m' : memory) (l l' : list map_event) :
  (forall d, X' d ≡ₚ X d) -> wf_world P A X (World a m l) -> world_blocks P A X' (World a m' l') = world_blocks P A X (World a m l).
Proof.
  intros HX W. apply map_eq. intros p. apply option_eq. intros n.
  rewrite (world_blocks_lookup M P A OS X), (world_blocks_lookup M P A OS X') by (done || by apply (wf_world_ext X X' a m m' l l')).
  assert (Hl : forall c j, live P X' (World a m' l') c j <-> live P X (World a m l) c j).
  { intros c j. unfold live, free_chunks. rewrite (HX c). done. }
  by setoid_rewrite Hl.
Qed.

Lemma cache_of_ok (st : primary_state) (t : option Z) : primary64_inv st -> cache_ok (cache_of st t).
Proof.
  intros [_ I]. unfold cache_of. destruct (caches st !! t) as [k |] eqn:E; [by apply (I t) |]. intros c Hc. by left.
Qed.

(** ** The contract *)

Lemma primary64_lookup (st : primary_state) (p n : Z) : primary64_inv st -> primary64_blocks st !! p = Some n ->
  exists c j, live P (all_cached (caches st)) (ghost_world st) c j /\ p = Reg P A c + j * Size P c /\ n = Size P c /\ in_classes c /\
    0 <= j * Size P c /\ (j + 1) * Size P c <= mapped_user (region (ghost_world st) c) /\ 2 * mapped_user (region (ghost_world st) c) <= kRegionSize P A.
Proof.
  intros [W _] Hp. apply (world_blocks_lookup M P A OS) in Hp as (c & j & Hl & -> & ->); [| done]. exists c, j. pose proof Hl as (Hc & Hj & _).
  destruct (made_bound M P A OS c _ j Hc (wf_region _ _ _ _ W c Hc) Hj) as [Hb1 Hb2]. destruct (wf_region _ _ _ _ W c Hc) as [K1 K2 _ _].
  split_and!; try done; [lia | zlia].
Qed.

Lemma primary64_shape (st : primary_state) (p n : Z) : primary64_inv st -> primary64_blocks st !! p = Some n ->
  0 < n /\ p mod 8 = 0 /\ n mod 8 = 0 /\ forall a, p <= a < p + n -> primary64_owned st a.
Proof.
  intros I Hp. destruct (primary64_lookup st p n I Hp) as (c & j & Hl & -> & -> & Hc & H0 & H1 & H2).
  destruct (Size_units M P A OS c Hc) as [Hs Hu]. pose proof (Reg_granule M P A OS c). split_and!; [lia | rewrite Hs in *; zlia | zlia |].
  intros a Ha. exists c. split; [done |]. left. lia.
Qed.

Lemma primary64_found (st : primary_state) (p n a : Z) : primary64_inv st -> primary64_blocks st !! p = Some n -> p <= a < p + n ->
  GetBlockBegin P A (ghost_world st) a = p /\ GetActuallyAllocatedSize P A a = Ok n.
Proof.
  intros I Hp Ha. destruct (primary64_lookup st p n I Hp) as (c & j & Hl & -> & -> & Hc & H0 & H1 & H2).
  destruct (Size_bound M P A OS c Hc) as [Hs _]. change (2 ^ 30) with 1073741824 in Hs.
  replace a with (Reg P A c + (a - Reg P A c)) by lia. set (o := a - Reg P A c).
  assert (Ho : 0 <= o < kRegionSize P A) by (unfold o; nia).
  unfold GetBlockBegin, GetActuallyAllocatedSize. rewrite (PointerIsMine_Reg M P A OS), !(GetSizeClass_Reg M P A OS) by done.
  split; [| by rewrite check_true]. assert (Hcl : c < kNumClasses P) by (unfold Primary64Specs.in_classes, kLargestClassID in Hc; lia).
  rewrite (proj2 (Z.leb_gt _ c)) by done. rewrite (proj2 (Z.eqb_neq (Size P c) 0)) by lia.
  rewrite (GetChunkIdx_Reg M P A OS) by (done || change (2 ^ 32) with 4294967296; lia).
  assert (Hj : o / Size P c = j) by (symmetry; apply (Z.div_unique _ _ _ (o - j * Size P c)); unfold o; lia). rewrite Hj.
  rewrite (proj2 (Z.leb_le _ _)) by lia. rewrite (GetRegionBegin_Reg_o M P A OS) by done.
  pose proof (region_word M P A OS c (j * Size P c) Hc ltac:(lia)) as Hw. change (2 ^ 63) with 9223372036854775808 in Hw.
  apply wrap_small. unfold is_uptr, word_modulus. lia.
Qed.

Lemma primary64_disjoint (st : primary_state) (p n q k : Z) : primary64_inv st -> primary64_blocks st !! p = Some n ->
  primary64_blocks st !! q = Some k -> p <> q -> p + n <= q \/ q + k <= p.
Proof.
  intros I Hp Hq Hne. destruct (primary64_lookup st p n I Hp) as (c & j & (Hc & Hj & _) & -> & -> & _ & H0 & H1 & H2).
  destruct (primary64_lookup st q k I Hq) as (d & i & (Hd & Hi & _) & -> & -> & _ & K0 & K1 & K2).
  destruct (Size_bound M P A OS c Hc) as [Hs _], (Size_bound M P A OS d Hd) as [Hs' _].
  set (p := Reg P A c + j * Size P c) in *. set (q := Reg P A d + i * Size P d) in *.
  destruct (Z.le_gt_cases (p + Size P c) q), (Z.le_gt_cases (q + Size P d) p); try lia. exfalso. apply Hne.
  destruct (chunk_unique M P A OS _ _ c d j i (Z.max p q) (inv_world _ I) Hc Hd Hj Hi) as [-> ->]; [unfold p, q in *; lia | unfold p, q in *; lia | done].
Qed.

Lemma primary64_allocate (st : primary_state) (t : option Z) (m : memory) (c : Z) : primary64_inv st -> primary64_room st -> in_classes c ->
  exists p es st' m', @cache_Allocate (primary64 P A) st t m c = Ok (p, es, st', m') /\ primary64_inv st' /\
    allocated M (primary64_blocks st) (primary64_blocks st') (primary64_owned st) (primary64_owned st') m m' (Size P c) p true es.
Proof.
  intros I R Hc. pose proof (all_cached_split (caches st) t) as HX. fold (cache_of st t) in HX. set (rest := all_cached (delete t (caches st))) in *.
  assert (W : wf_world P A (in_cache (cache_of st t) rest) (World (primary_alloc st) m [])).
  { refine (wf_world_ext _ _ _ _ _ _ _ _ (inv_world _ I)). intros d. by rewrite HX. }
  destruct (cache_allocate_spec rest _ _ c Hc W (cache_of_ok st t I) R) as (p & w' & k' & es & Hal & Hlog & Hk' & W' & Ha).
  cbn [cache_Allocate primary64]. rewrite Hal, Ok_bind. destruct w' as [a' m' l']. cbn [log_ alloc_ mem_] in *. subst l'.
  eexists _, _, _, _. split; [done |]. assert (HX' := all_cached_insert (caches st) t k'). fold rest in HX'. split.
  - split; [exact (wf_world_ext _ _ a' m' (fun _ => 0) _ [] HX' W') |]. intros t' k. cbn. rewrite lookup_insert_Some.
    intros [[_ <-] | [_ Hk]]; [done | by apply (inv_caches _ I t')].
  - pose proof (world_blocks_ext _ _ (primary_alloc st) m (fun _ => 0) [] [] HX W) as HB.
    pose proof (world_blocks_ext _ _ a' m' (fun _ => 0) _ [] HX' W') as HB'. rewrite <- HB, <- HB' in Ha. exact Ha.
Qed.

Lemma primary64_deallocate (st : primary_state) (t : option Z) (m : memory) (p n : Z) : primary64_inv st -> primary64_blocks st !! p = Some n ->
  exists es st' m', @cache_Deallocate (primary64 P A) st t m (GetSizeClass P A p) p = Ok (es, st', m') /\ primary64_inv st' /\
    deallocated_block M (primary64_blocks st) (primary64_blocks st') (primary64_owned st) (primary64_owned st') m m' p n true es.
Proof.
  intros I Hp. destruct (primary64_lookup st p n I Hp) as (c & j & Hl & -> & -> & Hc & H0 & H1 & H2).
  pose proof (all_cached_split (caches st) t) as HX. fold (cache_of st t) in HX. set (rest := all_cached (delete t (caches st))) in *.
  assert (W : wf_world P A (in_cache (cache_of st t) rest) (World (primary_alloc st) m [])).
  { refine (wf_world_ext _ _ _ _ _ _ _ _ (inv_world _ I)). intros d. by rewrite HX. }
  assert (Hl' : live P (in_cache (cache_of st t) rest) (World (primary_alloc st) m []) c j).
  { destruct Hl as (_ & Hj & Hn). split; [done |]. split; [exact Hj |]. unfold free_chunks in *. by rewrite <- HX. }
  destruct (Size_bound M P A OS c Hc) as [Hs _].
  rewrite (GetSizeClass_Reg M P A OS c (j * Size P c)) by (done || lia).
  destruct (cache_deallocate_spec rest _ _ c j Hc W (cache_of_ok st t I) Hl') as (w' & k' & es & Hal & Hlog & Hk' & W' & Ha).
  cbn [cache_Deallocate primary64]. rewrite Hal, Ok_bind. destruct w' as [a' m' l']. cbn [log_ alloc_ mem_] in *. subst l'.
  eexists _, _, _. split; [done |]. assert (HX' := all_cached_insert (caches st) t k'). fold rest in HX'. split.
  - split; [exact (wf_world_ext _ _ a' m' (fun _ => 0) _ [] HX' W') |]. intros t' k. cbn. rewrite lookup_insert_Some.
    intros [[_ <-] | [_ Hk]]; [done | by apply (inv_caches _ I t')].
  - pose proof (world_blocks_ext _ _ (primary_alloc st) m (fun _ => 0) [] [] HX W) as HB.
    pose proof (world_blocks_ext _ _ a' m' (fun _ => 0) _ [] HX' W') as HB'. rewrite <- HB, <- HB' in Ha. exact Ha.
Qed.

#[export] Instance primary64_spec : PrimaryAllocatorSpec M P (primary64 P A).
Proof.
  refine {| primary_inv := primary64_inv : @pstate (primary64 P A) -> Prop; primary_blocks := primary64_blocks;
            primary_owned := primary64_owned; primary_room := primary64_room |}.
  - intros st a I (c & Hc & Ho). pose proof (region_owns_bound M P A OS c _ _ (wf_region _ _ _ _ (inv_world _ I) c Hc) Ho) as Hb.
    pose proof (region_inside M P A OS c (a - Reg P A c) Hc ltac:(lia)). pose proof (region_inside M P A OS c (a - Reg P A c + 1) Hc ltac:(lia)).
    destruct (setting_beg (A := A) (M := M) (P := P)) as (? & ? & _). split; [lia |]. apply (setting_memory (P := P) (A := A)). lia.
  - intros st a I (c & Hc & Ho). pose proof (region_owns_bound M P A OS c _ _ (wf_region _ _ _ _ (inv_world _ I) c Hc) Ho) as Hb.
    cbn. replace a with (Reg P A c + (a - Reg P A c)) by lia. by apply (PointerIsMine_Reg M P A OS).
  - intros st a b I (c & Hc & Ho) Hab. exists c. split; [done |]. destruct (wf_region _ _ _ _ (inv_world _ I) c Hc) as [_ K2 K3 K4].
    pose proof (Reg_granule M P A OS c). pose proof (region_numbers M P A OS). unfold region_owns in *.
    change (2 ^ 18) with 262144 in *. change (2 ^ 16) with 65536 in *. zlia.
  - apply primary64_shape.
  - intros st p n a I Hp Ha. exact (f_equal Ok (proj1 (primary64_found st p n a I Hp Ha))).
  - intros st p n I Hp. destruct (primary64_shape st p n I Hp) as (Hn & _). exact (proj2 (primary64_found st p n p I Hp ltac:(lia))).
  - apply primary64_disjoint.
  - intros st t m c. by apply primary64_allocate.
  - intros st t m p n. by apply primary64_deallocate.
Defined.

(** The state after start-up. *)
Definition initial_primary (interval : Z) : primary_state := PrimaryState (MkPrimary ∅ interval 0) ∅.

Lemma initial_primary_inv (interval : Z) : primary64_inv (initial_primary interval).
Proof.
  split; [| intros t k Hk; cbn in Hk; by rewrite lookup_empty in Hk]. pose proof (region_numbers M P A OS) as (HR & _).
  assert (Hr : forall c, region (ghost_world (initial_primary interval)) c = zero_region) by (intros c; unfold region; cbn; by rewrite lookup_empty).
  split; intros c Hc; rewrite Hr.
  - split; cbn; rewrite ?Zmod_0_l; unfold num_freed_chunks; cbn; zlia.
  - split; [constructor |]. intros x Hx. unfold free_chunks in Hx. rewrite Hr in Hx. cbn in Hx. unfold all_cached in Hx. rewrite map_to_list_empty in Hx.
    by apply elem_of_nil in Hx.
Qed.

(** ** Every chunk, in order *)

Lemma chunk_loop_spec (size : Z) (k : nat) : 0 < size -> forall beg, chunk_loop beg size (beg + Z.of_nat k * size) k =
  Ok (map (fun j => beg + j * size) (seqZ 0 (Z.of_nat k))).
Proof.
  intros Hs. induction k as [| k IH]; intros beg.
  - cbn [chunk_loop]. rewrite (proj2 (Z.ltb_ge _ _)) by lia. done.
  - cbn [chunk_loop]. rewrite (proj2 (Z.ltb_lt _ _)) by nia.
    replace (beg + Z.of_nat (S k) * size) with (beg + size + Z.of_nat k * size) by lia. rewrite IH, Ok_bind. f_equal.
    rewrite (seqZ_cons 0 (Z.of_nat (S k))) by lia. cbn [map]. f_equal; [lia |]. replace (Z.pred (Z.of_nat (S k))) with (Z.of_nat k) by lia.
    unfold seqZ. rewrite !map_map. apply map_ext. intros i. lia.
Qed.

Lemma filter_below (b : Z) (l : list Z) : (forall c, c ∈ l -> c <= b) -> filter (fun c => c <= b) l = l.
Proof.
  induction l as [| c l IH]; intros H; [done |]. rewrite filter_cons_True by (apply H; by left). f_equal. apply IH. intros d Hd. apply H. by right.
Qed.

(** [ForEachChunk] visits the chunks of every class by class and in order,
    whether free or not. *)
Lemma ForEachChunk_spec (X : Z -> list Z) (w : world) : wf_world P A X w -> allocated_user (region w (kBatchClassID P)) = 0 ->
  ForEachChunk P A w = Ok (flat_map (fun c => map (fun j => Reg P A c + j * Size P c) (seqZ 0 (made P c (region w c)))) (seqZ 1 (kLargestClassID P))).
Proof.
  intros W Hb. unfold ForEachChunk. pose proof (kLargestClassID_eq P) as HL. destruct (params P) as (Hp1 & Hp2 & Hp3).
  pose proof (Z.pow_pos_nonneg 2 (kMidSizeLog P - kMinSizeLog P) ltac:(lia) ltac:(lia)). pose proof (Z.pow_pos_nonneg 2 (kNumBits P - 1) ltac:(lia) ltac:(lia)).
  assert (HL0 : 0 <= kLargestClassID P) by nia.
  replace (kNumClasses P - 1) with (kLargestClassID P + 1) by (unfold kLargestClassID; lia). rewrite seqZ_app by lia.
  set (f := fun c => map (fun j => Reg P A c + j * Size P c) (seqZ 0 (made P c (region w c)))).
  destruct (for_each_spec (region_chunks P A w) (fun done_ acc => acc = flat_map f (filter (fun c => c <= kLargestClassID P) done_))
    (seqZ 1 (kLargestClassID P) ++ seqZ (1 + kLargestClassID P) 1) []) as (acc & -> & ->); [done | |].
  - intros d c r acc Hsplit ->. assert (Hc : c ∈ seqZ 1 (kLargestClassID P) ++ seqZ (1 + kLargestClassID P) 1).
    { rewrite Hsplit. apply elem_of_app. right. by left. }
    rewrite elem_of_app, !elem_of_seqZ in Hc. unfold region_chunks. rewrite filter_app, flat_map_app.
    destruct (decide (c <= kLargestClassID P)) as [Hle | Hgt].
    + rewrite filter_cons_True by done. cbn [flat_map filter]. rewrite app_nil_r. assert (Hin : in_classes c) by (split; lia).
      destruct (made_units M P A OS c _ Hin (wf_region _ _ _ _ W c Hin)) as (Hm & Hm0 & _). destruct (Size_bound M P A OS c Hin) as [Hs _].
      rewrite (GetRegionBegin_Reg M P A OS) by done. fold (made P c (region w c)). rewrite Hm.
      pose proof (chunk_loop_spec (Size P c) (Z.to_nat (made P c (region w c))) ltac:(lia) (Reg P A c)) as Hl.
      rewrite Z2Nat.id in Hl by done. rewrite Hl, Ok_bind. by eexists.
    + rewrite filter_cons_False by done. cbn [flat_map filter]. rewrite app_nil_r.
      assert (c = kBatchClassID P) as -> by (unfold kBatchClassID, kLargestClassID in *; lia). rewrite Hb, Zdiv_0_l, Z.add_0_r. change (Z.to_nat 0) with O.
      cbn [chunk_loop]. rewrite Z.ltb_irrefl, Ok_bind. eexists. split; [done |]. by rewrite app_nil_r.
  - f_equal. f_equal. rewrite filter_app. rewrite (filter_below (kLargestClassID P) (seqZ 1 _)) by (intros c Hc%elem_of_seqZ; lia).
    change (seqZ (1 + kLargestClassID P) 1) with [0 + (1 + kLargestClassID P)]. rewrite filter_cons_False by lia. apply app_nil_r.
Qed.
End caches.
