(* ===== verification/HeapRuns.v ===== *)
(** * Programs that use the allocator

    A client of a [HeapAllocator] is a sequence of allocations and frees by
    any threads.  For every allocator that keeps the promises of
    [HeapAllocatorSpec] the client sees an abstract heap: blocks that do not
    overlap and keep their contents.  The last section puts the real parts
    together: [primary64] with its caches and [LargeMmapAllocator], combined. *)

From S2P Require Import Prelude Words ShadowMapping Memory ShadowWrites SizeClassMap HeapAllocator LargeMmap LargeMmapSpecs CombinedAllocator Primary64 Primary64Specs Primary64Contract.

Inductive heap_op : Type :=
| Malloc (t : option Z) (size : Z)
| Free (t : option Z) (p : Z).

Section runs.
Context (M : mapping) (largest : Z) (A : HeapAllocator) (S : HeapAllocatorSpec M largest A).

(** [live_blocks]: what the client was given and has not freed, with the size
    that it asked for. *)
Record heap_state : Type := HeapState { heap_alloc : astate; heap_mem : memory; live_blocks : gmap Z Z }.

Definition heap_step (s : heap_state) (op : heap_op) : result (Z * heap_state) :=
  match op with
  | Malloc t size =>
      '(p, _, a, m) ← allocate (heap_alloc s) t (heap_mem s) size 8;
      Ok (p, HeapState a m (if p =? 0 then live_blocks s else <[p := size]> (live_blocks s)))
  | Free t p =>
      '(_, a, m) ← deallocate (heap_alloc s) t (heap_mem s) p;
      Ok (0, HeapState a m (delete p (live_blocks s)))
  end.

Definition legal (s : heap_state) (op : heap_op) : Prop :=
  match op with
  | Malloc _ size => 0 < size <= 2 ^ 41 /\ fits (HeapAllocatorSpec := S) size = true /\ room (HeapAllocatorSpec := S) (heap_alloc s)
  | Free _ p => is_Some (live_blocks s !! p)
  end.

(** The abstract heap: disjoint ranges. *)
Definition heap_effect (live live' : gmap Z Z) (op : heap_op) (r : Z) : Prop :=
  match op with
  | Malloc _ size =>
      r = 0 /\ live' = live \/
      0 < r /\ r mod 8 = 0 /\ live' = <[r := size]> live /\ forall q n, live !! q = Some n -> r + size <= q \/ q + n <= r
  | Free _ p => live' = delete p live
  end.

Record heap_inv (s : heap_state) : Prop := {
  heap_inv_alloc : alloc_inv (HeapAllocatorSpec := S) (heap_alloc s);
  heap_inv_live : forall p n, live_blocks s !! p = Some n ->
    exists k, blocks (HeapAllocatorSpec := S) (heap_alloc s) !! p = Some k /\ 0 < n <= k;
}.

Lemma live_in_blocks (s : heap_state) (p n a : Z) : heap_inv s -> live_blocks s !! p = Some n -> p <= a < p + n ->
  in_blocks (blocks (HeapAllocatorSpec := S) (heap_alloc s)) a.
Proof. intros I Hp Ha. destruct (heap_inv_live s I p n Hp) as (k & Hk & ?). exists p, k. split; [done | lia]. Qed.

Lemma heap_step_spec (s : heap_state) (op : heap_op) : heap_inv s -> legal s op ->
  exists r s', heap_step s op = Ok (r, s') /\ heap_inv s' /\ heap_effect (live_blocks s) (live_blocks s') op r /\
    forall q n a, live_blocks s !! q = Some n -> live_blocks s' !! q = Some n -> q <= a < q + n -> heap_mem s' a = heap_mem s a.
Proof.
  intros I Hl. pose proof I as [I1 I2]. destruct op as [t size | t p]; cbn [legal heap_step] in *.
  - destruct Hl as (Hs & Hf & Hr).
    destruct (allocate_spec (HeapAllocatorSpec := S) (heap_alloc s) t (heap_mem s) size 8 I1 Hr Hs Hf) as (p & es & a' & m' & -> & I' & Hal & _); [by right |].
    step. destruct Hal as [A1 A2 _ _ A5 _ _]. destruct (Z.eqb_spec p 0) as [Hp | Hp].
    + eexists 0, _. rewrite Hp. split; [done |]. cbn. rewrite (A2 Hp) in *. split; [split; [exact I' | cbn; by rewrite A2] |]. split; [by left |].
      intros q n a Hq _ Ha. destruct (A5 a) as [| [_ Hn]]; [done | exfalso]. apply Hn. by apply (live_in_blocks s q n).
    + destruct (A1 Hp) as (k & Hk & Hnone & Hb). eexists p, _. split; [done |]. cbn.
      assert (Hshape : blocks (HeapAllocatorSpec := S) a' !! p = Some k) by by rewrite Hb, lookup_insert_eq.
      destruct (block_shape a' p k I' Hshape) as (Hk0 & Hp8 & _ & Hown). destruct (owned_mem a' p I') as [Hp0 _]; [apply Hown; lia |].
      split; [| split].
      * split; [exact I' |]. cbn. intros q n. rewrite Hb, lookup_insert_Some. intros [[<- <-] | [Hne Hq]].
        -- exists k. rewrite lookup_insert_eq. split; [done | lia].
        -- rewrite lookup_insert_ne by done. by apply I2.
      * right. split_and!; [lia | done | done |]. intros q n Hq. destruct (I2 q n Hq) as (j & Hj & Hnj).
        assert (Hne : q <> p) by (intros ->; congruence).
        assert (Hj' : blocks (HeapAllocatorSpec := S) a' !! q = Some j) by by rewrite Hb, lookup_insert_ne.
        destruct (blocks_disjoint a' p k q j I' Hshape Hj'); [done | left; lia | right; lia].
      * intros q n a Hq _ Ha. destruct (A5 a) as [| [_ Hn]]; [done | exfalso]. apply Hn. by apply (live_in_blocks s q n).
  - destruct Hl as [n Hp]. destruct (I2 p n Hp) as (k & Hk & Hnk).
    destruct (deallocate_spec (HeapAllocatorSpec := S) (heap_alloc s) t (heap_mem s) p k I1 Hk) as (es & a' & m' & -> & I' & Hd). step.
    destruct Hd as [D1 D2 _ _]. eexists 0, _. split; [done |]. cbn.
    assert (I'' : heap_inv (HeapState a' m' (delete p (live_blocks s)))).
    { split; [exact I' |]. cbn. intros q j [Hne Hq]%lookup_delete_Some. rewrite D1, lookup_delete_ne by done. by apply I2. }
    split; [done |]. split; [done |]. intros q j a Hq Hq' Ha. destruct (D2 a) as [| [_ Hn]]; [done | exfalso]. apply Hn.
    by apply (live_in_blocks _ q j a I'' Hq').
Qed.

(** The states that clients can reach. *)
Inductive heap_reachable (s0 : heap_state) : heap_state -> Prop :=
| reach_start : heap_reachable s0 s0
| reach_step s op r s' : heap_reachable s0 s -> legal s op -> heap_step s op = Ok (r, s') -> heap_reachable s0 s'.

Lemma reachable_inv (s0 s : heap_state) : heap_inv s0 -> heap_reachable s0 s -> heap_inv s.
Proof.
  intros I. induction 1 as [| s op r s' _ IH Hl Hs]; [done |]. destruct (heap_step_spec s op IH Hl) as (r' & s'' & Hs' & I' & _).
  rewrite Hs in Hs'. by injection Hs' as <- <-.
Qed.
End runs.

(** ** The allocator of ASan and LeakSanitizer on Linux x86-64 *)

(** The parameters of asan_allocator.h; the space is where [Init] reserved it. *)
Definition asan_space : primary_params := PrimaryParams (word_modulus - 1) 0x40000000000 0 false 0x600000000000 false.

(** An operating system that always maps what it is asked to. *)
#[export] Instance willing_os : PrimaryOS := {|
  GetPageSizeCached := 4096;
  address_range_Map _ beg _ := beg;
  MonotonicNanoTime k := 1000000 * k;
|}.

Lemma asan_region_size : kRegionSize DefaultSizeClassMap asan_space = 2 ^ 36.
Proof. reflexivity. Qed.

#[export] Instance asan_setting : PrimarySetting linux_x86_64 DefaultSizeClassMap asan_space willing_os.
Proof.
  split.
  - by vm_compute.
  - by vm_compute.
  - exists 36. by vm_compute.
  - by vm_compute.
  - intros a Ha. change (SpaceBeg asan_space) with 0x600000000000 in Ha. change (kSpaceSize asan_space) with 0x40000000000 in Ha.
    unfold AddrIsInMem. rewrite (proj2 (proj1 (high_regions linux_x86_64 a))); [by rewrite orb_true_r |].
    change (kHighMemBeg linux_x86_64) with 0x10007fff8000. change (kHighMemEnd linux_x86_64) with 0x7fffffffffff. lia.
  - exists 8. by vm_compute.
  - by vm_compute.
  - done.
  - intros k beg size. by right.
  - intros k c beg size Hc Hbeg _. cbn. unfold GetFreeArray, GetMetadataEnd, GetRegionBeginBySizeClass in Hbeg.
    change (SpaceBeg asan_space) with 0x600000000000 in Hbeg. rewrite asan_region_size in Hbeg.
    change (kLargestClassID DefaultSizeClassMap) with 52 in Hc.
    change (2 ^ 36 - kFreeArraySize DefaultSizeClassMap asan_space) with 60129542144 in Hbeg. change (2 ^ 36) with 68719476736 in Hbeg.
    rewrite !wrap_small in Hbeg by (rewrite ?wrap_small; unfold is_uptr, word_modulus; lia). lia.
Qed.

(** ** The whole allocator *)

Section system.
Context (M : mapping) (P : size_class_params) (A : primary_params) (OS : PrimaryOS) (mapper : PageMapper) (area : Z -> Prop).

Definition allocator : HeapAllocator := combined_heap P (primary64 P A).

Definition allocator_start (interval : Z) (m : memory) : heap_state allocator :=
  HeapState allocator (Combined (primary64 P A) (initial_primary interval) empty_large) m ∅.

Context `{!WfMapping M, !WfSizeClassMap P, !PrimarySetting M P A OS, !PageMapperSpec mapper M area}.
Context (Hsep : forall a, area a -> PointerIsMine A a = false) (Hmax : 8 <= kMaxSize P).

Definition allocator_spec : HeapAllocatorSpec M (kMaxSize P) allocator :=
  combined_heap_spec M P (primary64 P A) mapper area Hsep Hmax.

Lemma allocator_start_inv (interval : Z) (m : memory) : heap_inv M (kMaxSize P) allocator allocator_spec (allocator_start interval m).
Proof.
  split; [| intros p n Hp; cbn in Hp; by rewrite lookup_empty in Hp]. split; [by apply (initial_primary_inv M P A OS) |]. cbn. split.
  - intros h H HH. cbn in HH. by rewrite lookup_empty in HH.
  - intros i h Hh. cbn in Hh. by rewrite lookup_nil in Hh.
  - intros h H k K HH. cbn in HH. by rewrite lookup_empty in HH.
  - done.
Qed.

Lemma allocator_step (interval : Z) (m : memory) (s : heap_state allocator) (op : heap_op) :
  heap_reachable M (kMaxSize P) allocator allocator_spec (allocator_start interval m) s -> legal M (kMaxSize P) allocator allocator_spec s op ->
  exists r s', heap_step allocator s op = Ok (r, s') /\ heap_effect (live_blocks _ s) (live_blocks _ s') op r /\
    forall q n a, live_blocks _ s !! q = Some n -> live_blocks _ s' !! q = Some n -> q <= a < q + n -> heap_mem _ s' a = heap_mem _ s a.
Proof.
  intros Hr Hl. pose proof (reachable_inv _ _ _ _ _ _ (allocator_start_inv interval m) Hr) as I.
  destruct (heap_step_spec _ _ _ _ s op I Hl) as (r & s' & H1 & _ & H2). by exists r, s'.
Qed.

(** What is left of a region and of the chunk table is room for another block. *)
Lemma allocator_room_start (interval : Z) (m : memory) : 2 ^ 18 + Z.max (kMaxSize P) (Z.shiftl 1 (kMaxBytesCachedLog P)) <= kRegionSize P A / 2 ->
  room (HeapAllocatorSpec := allocator_spec) (heap_alloc _ (allocator_start interval m)).
Proof.
  intros Hb. split.
  - intros c Hc. unfold region. cbn. rewrite lookup_empty. cbn. pose proof (Size_bound M P A OS c Hc).
    assert (Hs : Size P c <= kMaxSize P).
    { rewrite <- (Size_largest P). destruct (Z.eq_dec c (kLargestClassID P)) as [-> |]; [done |].
      pose proof (Size_mono P c (kLargestClassID P)). unfold Primary64Specs.in_classes in Hc. lia. }
    change (2 ^ 18) with 262144 in *. lia.
  - unfold large_room. cbn. unfold kMaxNumChunks. by vm_compute.
Qed.
End system.


(** The well-formedness of reachable states. *)
Lemma reachable_free_chunks (M : mapping) (P : size_class_params) (A : primary_params) (OS : PrimaryOS) (mapper : PageMapper) (area : Z -> Prop)
  (HM : WfMapping M) (HP : WfSizeClassMap P) (HS : PrimarySetting M P A OS) (Hmap : PageMapperSpec mapper M area)
  (Hsep : forall a, area a -> PointerIsMine A a = false) (Hmax : 8 <= kMaxSize P)
  (interval : Z) (m : memory) (s : heap_state (allocator P A OS mapper)) (c : Z)
  (Hr : heap_reachable M (kMaxSize P) (allocator P A OS mapper) (allocator_spec M P A OS mapper area Hsep Hmax) (allocator_start P A OS mapper interval m) s)
  (Hc : in_classes P c) :
  let st := primary_ (heap_alloc _ s) in
  let r := region (ghost_world st) c in
  let F := free_array r ++ all_cached (caches st) c in
  NoDup F /\ (forall x, x ∈ F -> exists j, x = j * units P c /\ 0 <= j < allocated_user r / Size P c) /\
  0 <= allocated_user r <= mapped_user r /\ mapped_user r + mapped_meta r <= kRegionSize P A - kRegionSize P A / 8 /\
  4 * num_freed_chunks r <= mapped_free_array r <= kRegionSize P A / 8.
Proof.
  pose proof (reachable_inv _ _ _ _ _ _ (allocator_start_inv M P A OS mapper area Hsep Hmax interval m) Hr) as [I _].
  destruct I as [[W _] _]. destruct (wf_region _ _ _ _ W c Hc) as [K1 K2 _ K4]. destruct (wf_entries _ _ _ _ W c Hc) as [Hnd Hin].
  cbv zeta. split; [exact Hnd |]. split; [exact Hin |]. split; [apply K1 |]. split; [apply K2 | apply K4].
Qed.


Lemma asan_area_separate (a : Z) : bump_area a -> PointerIsMine asan_space a = false.
Proof.
  unfold bump_area, PointerIsMine. intros Ha. change (SpaceEnd asan_space) with 0x640000000000. change (SpaceBeg asan_space) with 0x600000000000.
  change (kUsingConstantSpaceBeg asan_space) with false. cbn [andb]. rewrite (proj2 (Z.ltb_ge a _)) by lia. by rewrite andb_false_r.
Qed.

Lemma asan_max_size : 8 <= kMaxSize DefaultSizeClassMap.
Proof. by vm_compute. Qed.


(** The first allocation of 100 bytes by thread 1 maps 256 KiB of the region of
    class 7 and one step of its free array. *)
Example first_malloc :
  match heap_step (allocator DefaultSizeClassMap asan_space willing_os bump_pages)
          (allocator_start DefaultSizeClassMap asan_space willing_os bump_pages 5000 (fun _ => 0)) (Malloc (Some 1) 100) with
  | Ok (r, _) => r
  | Die _ => 0
  end = 0x607000000000.
Proof. vm_compute. reflexivity. Qed.

